(* ===== verification/_CoqProject ===== *)
-Q . S2P
Prelude.v
Errno.v
Buffer.v
Types.v
Messages.v
Message.v
Fmt.v
Strings.v
Transport.v
Version.v
ErrnoTable.v
Pool.v
File.v
State.v
PathTree.v
FidRef.v
Handlers.v
Server.v
Reach.v
ProgramLogic.v
TreeLogic.v
Guarantees.v
Promises.v
Opens.v
RefCount.v
RefSteps.v
RefOps.v
RefTree.v
RefQuiet.v
RefClean.v
RefWalk.v
RefHandlers.v
Lifetimes.v
Session.v
Runs.v
ServerRuns.v
Behaviour.v
Client.v
Received.v
Calls.v
Chunk.v
ClientFile.v
ClientFiles.v
ClientIO.v
Remote.v
RemoteSession.v
ServeBytes.v
Multiplex.v
Qids.v
Readdir.v
Templates.v
StaticFS.v
RemoteFile.v
FileTest.v
StaticTests.v
ComposeFS.v
HandlerLogic.v
LocalQids.v
OtherHosts.v
Commands.v
HostPath.v
LocalFS.v
LocalPaths.v
PathSync.v
SyncSteps.v
SyncOps.v
SyncRemove.v
SyncNotify.v
SyncRename.v
SyncWalk.v
SyncTree.v
SyncLogic.v
SyncHandlers.v
TreePaths.v
LocalTree.v
LocalListing.v
VecNet.v
Listener.v
Workers.v
Overlap.v
