(* ===== verification/Prelude.v ===== *)
(** * A verification of p9, a 9P2000.L client and server in Go

    9P is a network file system protocol: a client names files of a server by numbers
    (FIDs) and sends requests, each with a tag; the server answers each request, in any
    order, with a response that has its tag. The package [p9] has both ends, with the wire
    format that they share; [fsimpl] has implementations of files to put behind a server.
    This development translates the Go code into definitions, which run, and proves
    theorems on them. File and function names below are those of the source.

    ** The parts and their files

    Common ground.
    - Prelude: machine integers as [Z] with their wrap-around ([wrap32], [sint64], ...),
      little-endian bytes, lists; the tactics and hints that other files share.
    - Errno ([linux/errors.go]): Go errors as data, with [errors.Is] and [errors.As], and
      [ExtractErrno]. ErrnoTable ([linux/errno.go]): all numbers and their messages.
    - Buffer ([p9/buffer.go]): the state monad of the wire buffer with its sticky overflow
      flag; the laws of a codec, an encoder with its decoder, which combine.
    - Types ([p9/p9.go]): modes, QIDs, attributes, masks, directory entries.
    - Messages, Message ([p9/messages.go]): a record per message with its codec, the sum
      of them, the payloads, the registry and its cache of recycled messages.
    - Fmt (the verbs of [fmt.Sprintf] that are used), Strings (the [String] methods): the
      lines of the log.
    - Transport ([send] and [recv] of [p9/transport.go]): frames on a stream of bytes.
    - Version ([p9/version.go]), Pool ([p9/pool.go]).
    - VecNet ([vecnet]): reads into several buffers at once, with [recvmsg] or without.

    The server.
    - File ([p9/file.go]): the interface to the files that are served. A call of a method
      is a value of [FileE A]; the class [Backend] gives its effect on a world, or that it
      panics. All the rest is for any backend; theorems that need methods that return, with
      an error or without, say so ([Returning]).
    - State: the heap of references ([fidRef]) and path nodes ([pathNode]), the tables of
      the connections ([connState]), the monad of the server's code: locks held, panics,
      code that is stuck, and the trace of the calls into the backend.
    - PathTree ([p9/path_tree.go]), FidRef ([p9/server.go]): the operations on them.
    - Handlers ([p9/handlers.go]): one definition for each [handle] method. Server
      ([p9/server.go]): dispatch, [handleRequest], [handleRequests], [stop].
    - Reach: the states that a server reaches, by any requests of any connections and any
      changes of the world between them, and a small backend for examples.
    - Workers (the goroutines of [handleRequest] and [Handle]): overlapping requests of a
      connection as steps. Listener ([Serve], [ServeContext]): the goroutines of a listener.

    The client.
    - Client ([p9/client.go]): [sendRecv], [waitAndRecv], [handleOne], [NewClient].
    - Chunk, ClientFile ([p9/client_file.go]): reads and writes in chunks, the methods.

    Files to serve.
    - Qids ([fsimpl/qids]), Readdir ([fsimpl/readdir]), Templates ([fsimpl/templatefs]):
      the helpers. A struct that embeds others is a partial function on calls.
    - StaticFS ([fsimpl/staticfs]), made of the three, is an instance of [Backend];
      ComposeFS ([fsimpl/composefs]) is over an arbitrary one, which stands for the
      implementations that are mounted.
    - LocalFS ([fsimpl/localfs], [fsimpl/xattr]), with LocalQids ([system_unix.go]) and
      HostPath ([path.Join] of the standard library): the files of the host, over a class of
      its system calls; an instance of [Backend] as well.
    - FileTest ([fsimpl/test]): the acceptance tests for implementations, as programs over a
      backend.
    - OtherHosts: what the builds for BSD, Plan 9 and Windows have in place of Linux's.

    Around them.
    - Commands ([cmd/p9ufs], [fsimpl/test/vmdriver]): the flags and exit codes of the server
      command; the addresses for a test machine. [Fuzz] ([p9/fuzz.go]) is in Received.

    ** What the theorems show

    - Wire format (Buffer, Types, Message, Transport): decoding inverts encoding for every
      message, and assigns to every field of the object that it is given, so that recycled
      objects do not show; [recv] returns what [send] sent; it consumes one
      frame exactly, and refuses short, long and broken ones. The other way round
      (Received): whatever bytes [recv] takes a message from, the message is well formed,
      and can be sent again and read back.
    - What a server promises to a backend (ProgramLogic, TreeLogic, Guarantees, Promises,
      Opens): no unsafe name reaches it; each method is called under the locks that [File]
      documents, so that calls promised to exclude each other do, with the two exceptions
      that the code makes (clones, and [GetAttr] of a file without a reference); files are
      read, written
      and listed only when they were opened for it. ProgramLogic is a logic of invariants,
      TreeLogic its rules for the code that moves references about, for any invariant.
    - Lifetimes (RefCount, RefSteps, RefOps, RefTree, RefQuiet, RefClean, RefWalk,
      RefHandlers, Lifetimes): the counts of references are the numbers of their holders
      in every state that a server reaches, panics of handlers included, if the methods of
      the backend return; no method is called through a reference that was closed; the FIDs
      of a connection are open; the last holder closes the file. What a backend whose [Walk]
      panics does to the counts is an example at the end of Lifetimes.
    - Overlapping requests (Overlap): each received frame is answered once with its tag, or
      dropped because its tag was in use; there is always a goroutine to receive; every run
      ends, and [stop] goes on then, unless a handler is stuck. The answer to a flush may overtake that of the flushed request.
    - The listener (Listener): [ServeContext] returns only after its connections; once it is to
      end, only connections that their clients keep open keep it from returning.
    - What a server promises to a client (Session, Behaviour): each request is answered
      once, with its tag, by a response of its type or an error; the loop over the bytes
      of a connection refines the handling of the messages in order; an unknown FID is
      refused before anything is done.
    - The client (Calls, Chunk, ClientFiles, ClientIO): a call returns whatever bytes the
      peer sends, and returns the answer if the peer answered; the same for every method;
      open files have different FIDs; chunked reads and writes come to what one request
      would do. The client's connection is a function [conn_write] of the bytes written,
      which yields the bytes that come back: any peer.
    - Concurrent calls (Multiplex): goroutines that share a client, as a step relation;
      whatever the peer sends no call blocks another while writes succeed; answers reach the
      call that they belong to, and no call is left waiting. What a failed write breaks is an
      example at the end.
    - Both ends (Remote): the peer of a client instantiated with the server: a call is the
      handling of its message. From there to whole sessions: Runs has the rules to execute
      handlers on a state of which some facts are known, ServerRuns those that lead to an
      open file, RemoteSession the client's calls of them, ServeBytes the reads of it, and
      RemoteFile puts all of them together: what a client reads of a file of StaticFS, over
      the bytes of a connection, are the contents of the file.
    - The files (Qids, Readdir, StaticFS, ComposeFS): QIDs behind the mappers of a
      generator do not collide, and so those of a composed file system, whatever is
      mounted; listings in pages are complete; a static file system serves what it was
      given and does not change, and passes the acceptance tests (StaticTests).
    - Paths and the path tree: the files of a backend may have paths that [Renamed] sets
      (PathSync has the class and the invariant; SyncSteps, SyncOps, SyncRemove, SyncNotify,
      SyncRename, SyncWalk, SyncTree, SyncLogic and SyncHandlers prove it of the
      single steps up to those of the server). The path of a file is as its place in the path
      tree says, after any renames and removals; and the way from a reference up the tree ends at
      the root of an attachment or at a removed path (TreePaths; LocalTree, for the host's
      files).
    - The host's files (LocalPaths, LocalListing, LocalQids): no path handed to the host
      leads out of the root, whatever clients send (HandlerLogic has the rules for an
      invariant that every operation of a server keeps); which QID paths collide and which
      do not; what pages of a directory have, and what they leave out, also
      when the host fails.
    - Vectored reads (VecNet) fill their buffers with the stream, however it is split; what
      their count and error say for any [io.Reader], and when they come to the single read
      that [recv] is defined with.

    ** Fuel

    Loops of the source that are not structural take fuel, and theorems say how much is
    enough: [handleRequests] and [waitAndRecv] a round more than there are bytes to read,
    [rreaddir_entries] one more than the bytes of the payload, [chunk] a round for each
    byte of the buffer, [negotiate] a round for each version, [Parse] one for each argument, [DecRef_fuel] one more than
    there are references; of a local directory, [Readdir] as much as there are names left in
    it, a bound that a host states of its directories; [recvmsg] as often as a socket has it
    repeated, a bound that a socket states; the reads of [vecnet] a round for each byte, as
    each gets one or ends. The steps of Multiplex, Workers and Listener are bounded by
    measures in the theorems. Renames below the directory that is renamed, which a backend may
    let pass, make the path tree cyclic and its traversal endless: the traversal is then
    [Stuck], as is code that waits for a lock that it holds, or for its own tag; theorems
    on code that returns name this case.

    ** What is not modelled

    - Finer interleaving on the server: in Workers a handler is one step, so requests
      overlap between the steps of their goroutines, and handlers as if one lock were around
      them. The locks around each call into the backend are in the state, and Promises is
      about them; steps for the brackets of [safelyRead] and [safelyWrite], with the counts
      and the tree between them, are left. Calls of a client overlap in Multiplex.
    - Sockets: a connection is the bytes to come, in whatever pieces. Memory is unbounded,
      buffer pools are left out. Response objects are reused in Multiplex only; a client that
      makes one call at a time (Client) has a new one for each.
    - The garbage collector: finalizers of client files. What a read that fails has left in
      the caller's buffer.
    - Where log lines go: a logger is outside, the lines themselves are in Strings.
    - Other hosts as a whole: the functions that differ are in OtherHosts, the theorems on
      localfs are on the Unix build. System calls themselves are parameters.
    - The unit tests, and the texts of usage and of errors that the command prints. *)
From Stdlib Require Export ZArith Strings.Byte Strings.String Strings.Ascii.
From Stdlib Require Export Btauto.
From stdpp Require Export base list gmap strings fin_maps option tactics numbers.
From stdpp Require Export list.

#[global] Set Default Goal Selector "!".
#[global] Open Scope Z_scope.

(** ** Machine-width integers

    A Go integer of width [w] is a [Z]; [uN v] says that [v] is a value of
    the type, [wrapN v] is the conversion (or the wrap-around) to it. *)

Definition u8 (v : Z) : Prop := 0 <= v < 2 ^ 8.
Definition u16 (v : Z) : Prop := 0 <= v < 2 ^ 16.
Definition u32 (v : Z) : Prop := 0 <= v < 2 ^ 32.
Definition u64 (v : Z) : Prop := 0 <= v < 2 ^ 64.
Definition i32 (v : Z) : Prop := - 2 ^ 31 <= v < 2 ^ 31.

Definition wrap8 (v : Z) : Z := v mod 2 ^ 8.
Definition wrap16 (v : Z) : Z := v mod 2 ^ 16.
Definition wrap32 (v : Z) : Z := v mod 2 ^ 32.
Definition wrap64 (v : Z) : Z := v mod 2 ^ 64.
(** Two's complement reading of a 32-bit and of a 64-bit pattern: Go's
    conversions [int32(x)] and [int64(x)], [int(x)] on a 64-bit platform. *)
Definition sint32 (v : Z) : Z := (v + 2 ^ 31) mod 2 ^ 32 - 2 ^ 31.
Definition sint64 (v : Z) : Z := (v + 2 ^ 63) mod 2 ^ 64 - 2 ^ 63.

Lemma wrap32_add_l a b : wrap32 (wrap32 a + b) = wrap32 (a + b).
Proof. apply Zplus_mod_idemp_l. Qed.
Lemma wrap32_add_r a b : wrap32 (a + wrap32 b) = wrap32 (a + b).
Proof. apply Zplus_mod_idemp_r. Qed.

(** ** Bytes and little-endian integers *)

Definition Z_of_byte (b : byte) : Z := Z.of_N (Byte.to_N b).
Definition byte_of_Z (v : Z) : byte := default x00 (Byte.of_N (Z.to_N (v mod 256))).

(** [binary.LittleEndian.PutUint]{16,32,64}: the low [n] bytes of [v]. *)
Fixpoint le_bytes (n : nat) (v : Z) : list byte :=
  match n with
  | O => []
  | S n => byte_of_Z v :: le_bytes n (v / 256)
  end.

(** [binary.LittleEndian.Uint]{16,32,64}. *)
Fixpoint le_Z (bs : list byte) : Z :=
  match bs with
  | [] => 0
  | b :: bs => Z_of_byte b + 256 * le_Z bs
  end.

Lemma Z_of_byte_range b : 0 <= Z_of_byte b < 256.
Proof.
  unfold Z_of_byte. pose proof (Byte.to_N_bounded b). lia.
Qed.

Lemma Z_of_byte_of_Z v : Z_of_byte (byte_of_Z v) = v mod 256.
Proof.
  unfold byte_of_Z, Z_of_byte.
  pose proof (Z.mod_pos_bound v 256 ltac:(lia)) as Hr.
  destruct (Byte.of_N (Z.to_N (v mod 256))) as [b|] eqn:E; simpl.
  - apply Byte.to_of_N in E. rewrite E, Z2N.id; lia.
  - apply Byte.of_N_None_iff in E. lia.
Qed.

Lemma byte_of_Z_of_byte b : byte_of_Z (Z_of_byte b) = b.
Proof.
  unfold byte_of_Z. rewrite Z.mod_small by apply Z_of_byte_range.
  unfold Z_of_byte. rewrite N2Z.id, Byte.of_to_N. done.
Qed.

Lemma length_le_bytes n v : length (le_bytes n v) = n.
Proof. revert v. induction n; intros; simpl; auto. Qed.

Lemma le_Z_range bs : 0 <= le_Z bs < 256 ^ Z.of_nat (length bs).
Proof.
  induction bs as [|b bs IH]; simpl le_Z; [simpl; lia|].
  cbn [length]. rewrite Nat2Z.inj_succ, Z.pow_succ_r by lia.
  pose proof (Z_of_byte_range b). lia.
Qed.

Lemma le_Z_le_bytes n v : le_Z (le_bytes n v) = v mod 256 ^ Z.of_nat n.
Proof.
  revert v. induction n as [|n IH]; intros v; simpl le_bytes; simpl le_Z.
  - by rewrite Z.mod_1_r.
  - rewrite IH, Z_of_byte_of_Z, Nat2Z.inj_succ, Z.pow_succ_r by lia.
    rewrite Z.rem_mul_r; [done|lia|apply Z.pow_pos_nonneg; lia].
Qed.

Lemma le_bytes_le_Z bs : le_bytes (length bs) (le_Z bs) = bs.
Proof.
  induction bs as [|b bs IH]; [done|]. cbn [length le_bytes le_Z].
  pose proof (Z_of_byte_range b) as Hb. f_equal.
  - etransitivity; [|exact (byte_of_Z_of_byte b)]. unfold byte_of_Z.
    rewrite (Z.mul_comm 256), Z.mod_add by lia. done.
  - etransitivity; [|exact IH]. f_equal.
    rewrite (Z.mul_comm 256), Z.div_add by lia.
    rewrite (Z.div_small (Z_of_byte b)) by lia. lia.
Qed.

(** ** Strings as byte sequences *)

Definition bytes_of_string : string -> list byte := String.list_byte_of_string.
Definition string_of_bytes : list byte -> string := String.string_of_list_byte.

Lemma string_of_bytes_of_string s : string_of_bytes (bytes_of_string s) = s.
Proof. apply String.string_of_list_byte_of_string. Qed.

Lemma bytes_of_string_of_bytes bs : bytes_of_string (string_of_bytes bs) = bs.
Proof. apply String.list_byte_of_string_of_list_byte. Qed.

Lemma length_bytes_of_string s : length (bytes_of_string s) = String.length s.
Proof.
  unfold bytes_of_string, String.list_byte_of_string.
  rewrite length_map. induction s; simpl; auto.
Qed.

(** A string that fits the 16-bit length prefix of the wire format. *)
Definition str16 (s : string) : Prop := (Z.of_nat (String.length s) < 2 ^ 16).

(** ** Bit flags

    [mask_flag b bit m] is Go's [if b { m |= bit }], [has_flag m bit] is
    [m & bit != 0]. *)

Definition mask_flag (b : bool) (bit m : Z) : Z := if b then Z.lor m bit else m.
Definition has_flag (m bit : Z) : bool := negb (Z.land m bit =? 0).

Lemma has_flag_pow2 m i : 0 <= i -> has_flag m (2 ^ i) = Z.testbit m i.
Proof.
  intros Hi. unfold has_flag. destruct (Z.testbit m i) eqn:E.
  - apply negb_true_iff, Z.eqb_neq. intros H0.
    assert (Z.testbit (Z.land m (2 ^ i)) i = true) as H1.
    { by rewrite Z.land_spec, E, Z.pow2_bits_true. }
    by rewrite H0, Z.bits_0 in H1.
  - apply negb_false_iff, Z.eqb_eq, Z.bits_inj'. intros j Hj.
    rewrite Z.land_spec, Z.bits_0, Z.pow2_bits_eqb by lia.
    destruct (Z.eqb_spec i j) as [->|]; [by rewrite E|by rewrite andb_false_r].
Qed.

Lemma mask_flag_pow2 b j m i :
  0 <= j -> Z.testbit (mask_flag b (2 ^ j) m) i = (b && (j =? i)) || Z.testbit m i.
Proof.
  intros Hj. unfold mask_flag. destruct b; [|done].
  rewrite Z.lor_spec, Z.pow2_bits_eqb by lia. by rewrite orb_comm.
Qed.

Lemma lor_range a b n :
  0 <= n -> 0 <= a < 2 ^ n -> 0 <= b < 2 ^ n -> 0 <= Z.lor a b < 2 ^ n.
Proof.
  intros Hn Ha Hb.
  rewrite <- (Z.mod_small a (2 ^ n)), <- (Z.mod_small b (2 ^ n)) by done.
  rewrite <- !Z.land_ones, <- Z.land_lor_distr_l, Z.land_ones by done.
  apply Z.mod_pos_bound, Z.pow_pos_nonneg; lia.
Qed.

Lemma mask_flag_range b bit m n :
  0 <= n -> 0 <= m < 2 ^ n -> 0 <= bit < 2 ^ n -> 0 <= mask_flag b bit m < 2 ^ n.
Proof. intros. destruct b; [by apply lor_range|done]. Qed.

Lemma land_range a b n : 0 <= n -> 0 <= b < 2 ^ n -> 0 <= Z.land a b < 2 ^ n.
Proof.
  intros Hn Hb. rewrite <- (Z.mod_small b (2 ^ n)) by done.
  rewrite <- Z.land_ones, Z.land_assoc, Z.land_ones by done.
  apply Z.mod_pos_bound, Z.pow_pos_nonneg; lia.
Qed.

(** ** Lists *)

Lemma prefix_app_inv_or {A} (p l1 l2 : list A) :
  p `prefix_of` l1 ++ l2 ->
  (p `prefix_of` l1 /\ p <> l1) \/ (exists p', p = l1 ++ p' /\ p' `prefix_of` l2).
Proof.
  revert p. induction l1 as [|x l1 IH]; intros p Hp; [right; by exists p|].
  destruct p as [|y p]; [left; split; [apply prefix_nil|done]|].
  apply prefix_cons_inv_1 in Hp as Heq. subst y.
  apply prefix_cons_inv_2 in Hp. destruct (IH p Hp) as [[H1 H2]|[p' [-> H']]].
  - left. split; [by apply prefix_cons|congruence].
  - right. exists p'. done.
Qed.

(** Unlike [injection], leaves the tails as they are written. *)
Lemma cons_tail_inj {A} (x y : A) l1 l2 : x :: l1 = y :: l2 -> l1 = l2.
Proof. congruence. Qed.

(** ** Assignment to a field of a struct

    [r <| f := v |>] is the struct [r] with the field [f] set to [v]; the update
    function is found from the projection. *)
Class Assign {R T : Type} (field : R -> T) := assign : T -> R -> R.
Arguments assign {R T} field {_} v r /.
Notation "r <| f := v |>" := (assign f v r)
  (at level 12, f at level 11, v at level 60, left associativity, format "r  <| f  :=  v |>").

Ltac assign_field f :=
  lazymatch type of f with
  | ?R -> ?T =>
    let t := constr:(fun (v : T) (r : R) => ltac:(
      let w := fresh "w" in let y := fresh "y" in
      pose (w := r); pose (y := f r); destruct r; cbn in w, y;
      let t := eval cbv delta [w] in w in
      let b := eval cbv delta [y] in y in
      lazymatch eval pattern b in t with ?g _ => exact (g v) end)) in
    let t := eval cbv beta zeta in t in exact t
  end.
#[export] Hint Extern 0 (Assign ?f) => assign_field f : typeclass_instances.

(** ** Shared automation *)

Create HintDb p9.
#[export] Hint Unfold u8 u16 u32 u64 i32 str16 : p9.

(** Splits conjunctions in the context and closes with the hint database. *)
Ltac p9_auto := intros; destruct_and?; eauto with p9.

(** The flag lemmas with the power of two left to the checker, for rewriting
    with the literal masks of the source. *)
Lemma has_flag_bit m bit :
  bit =? 2 ^ Z.log2 bit = true -> has_flag m bit = Z.testbit m (Z.log2 bit).
Proof.
  intros ->%Z.eqb_eq. rewrite has_flag_pow2 by apply Z.log2_nonneg.
  by rewrite Z.log2_pow2 by apply Z.log2_nonneg.
Qed.

Lemma mask_flag_bit b bit m i :
  bit =? 2 ^ Z.log2 bit = true ->
  Z.testbit (mask_flag b bit m) i = (b && (Z.log2 bit =? i)) || Z.testbit m i.
Proof.
  intros ->%Z.eqb_eq. rewrite mask_flag_pow2 by apply Z.log2_nonneg.
  by rewrite Z.log2_pow2 by apply Z.log2_nonneg.
Qed.

(** Reads a literal flag out of a chain of literal flags. *)
Ltac flag_lookup :=
  rewrite ?has_flag_bit by reflexivity;
  repeat (rewrite mask_flag_bit by reflexivity);
  rewrite ?Z.testbit_0_l;
  repeat match goal with
    | |- context [?x =? ?y] =>
        first [change (x =? y) with false | change (x =? y) with true]
    end;
  rewrite ?andb_false_r, ?andb_true_r, ?orb_false_r, ?orb_false_l.

(** Adding a flag read from [m] is adding that bit of [m]. *)
Lemma mask_flag_has m bit x :
  bit =? 2 ^ Z.log2 bit = true ->
  mask_flag (has_flag m bit) bit x = Z.lor x (Z.land m bit).
Proof.
  intros Hb. rewrite has_flag_bit by done. apply Z.eqb_eq in Hb.
  pose proof (Z.log2_nonneg bit) as Hn. set (i := Z.log2 bit) in *. rewrite Hb.
  unfold mask_flag. apply Z.bits_inj'. intros j Hj.
  destruct (Z.testbit m i) eqn:E;
    rewrite ?Z.lor_spec, ?Z.land_spec, ?Z.pow2_bits_eqb by lia;
    destruct (Z.eqb_spec i j) as [<-|]; rewrite ?E; btauto.
Qed.
