(* ===== verification/Errno.v ===== *)
(** * Errors and their Linux numbers ([linux/errors.go], [linux/errors_linux.go],
    [newErr] of [p9/handlers.go])

    A Go [error] is a value of [error]: the sentinels that the code compares
    with, the two errno types, the error structs of the package, and the ways
    errors are wrapped ([fmt.Errorf] with [%w], [errors.Join], [*os.PathError]
    and friends).  [Is] and [As] follow the standard library's traversal. *)
From S2P Require Import Prelude.

(** ** Errno values ([linux/errno.go]) *)

Definition EIO : Z := 0x5.
Definition EBADF : Z := 0x9.
Definition EAGAIN : Z := 0xb.
Definition EACCES : Z := 0xd.
Definition EFAULT : Z := 0xe.
Definition EBUSY : Z := 0x10.
Definition EEXIST : Z := 0x11.
Definition ENOTDIR : Z := 0x14.
Definition EISDIR : Z := 0x15.
Definition EINVAL : Z := 0x16.
Definition EPERM : Z := 0x1.
Definition ENOENT : Z := 0x2.
Definition EROFS : Z := 0x1e.
Definition ENOSYS : Z := 0x26.
Definition ENOTEMPTY : Z := 0x27.
Definition ENOBUFS : Z := 0x69.

(** ** Errors *)

Inductive error :=
  (* sentinels of the standard library *)
  | os_ErrNotExist | os_ErrExist | os_ErrPermission | os_ErrInvalid
  | io_EOF | io_ErrUnexpectedEOF
  (* linux.Errno and syscall.Errno *)
  | Errno (e : Z)
  | SyscallErrno (e : Z)
  (* errors of package p9 *)
  | ErrNoValidMessage
  | ErrMessageTooLarge (size msize : Z)
  | ErrInvalidMsgType (t : Z)
  | ErrUnexpectedTag
  | ErrBadResponse (got want : Z)
  | ErrOutOfTags | ErrOutOfFIDs | ErrVersionsExhausted | ErrBadVersionString
  | ConnError (e : error)
  (* wrapping *)
  | Wrap (e : error)
  | Join (es : list error)
  (* any other error value *)
  | OtherError (msg : string).

(** The sentinel targets that the code passes to [errors.Is]. *)
Inductive sentinel := TNotExist | TExist | TPermission | TInvalid | TEOF | TErrno (e : Z).

(** [err == target]. *)
Definition error_eq (err : error) (target : sentinel) : bool :=
  match err, target with
  | os_ErrNotExist, TNotExist | os_ErrExist, TExist
  | os_ErrPermission, TPermission | os_ErrInvalid, TInvalid | io_EOF, TEOF => true
  | Errno e, TErrno e' => e =? e'
  | _, _ => false
  end.

(** [syscall.Errno.Is]. *)
Definition SyscallErrno_Is (e : Z) (target : sentinel) : bool :=
  match target with
  | TPermission => (e =? EACCES) || (e =? EPERM)
  | TExist => (e =? EEXIST) || (e =? ENOTEMPTY)
  | TNotExist => e =? ENOENT
  | _ => false
  end.

(** [errors.Is(err, target)]. *)
Fixpoint Is (err : error) (target : sentinel) : bool :=
  error_eq err target ||
  match err with
  | SyscallErrno e => SyscallErrno_Is e target
  | ConnError e => error_eq e target
  | Wrap e => Is e target
  | Join es => existsb (fun e => Is e target) es
  | _ => false
  end.

(** The first element of a list on which [f] is defined. *)
Fixpoint first_some {A B} (f : A -> option B) (l : list A) : option B :=
  match l with
  | [] => None
  | x :: l => match f x with Some y => Some y | None => first_some f l end
  end.

(** [errors.As(err, &errno)] for a [linux.Errno]. *)
Fixpoint As_Errno (err : error) : option Z :=
  match err with
  | Errno e => Some e
  | Wrap e => As_Errno e
  | Join es => first_some As_Errno es
  | _ => None
  end.

(** [errors.As(err, &errno)] for a [syscall.Errno]. *)
Fixpoint As_SyscallErrno (err : error) : option Z :=
  match err with
  | SyscallErrno e => Some e
  | Wrap e => As_SyscallErrno e
  | Join es => first_some As_SyscallErrno es
  | _ => None
  end.

(** [sysErrno] of the Linux build. *)
Definition sysErrno (err : error) : Z :=
  match As_SyscallErrno err with Some e => e | None => 0 end.

Definition ExtractErrno (err : error) : Z :=
  if Is err TNotExist then ENOENT
  else if Is err TExist then EEXIST
  else if Is err TPermission then EACCES
  else if Is err TInvalid then EINVAL
  else match As_Errno err with
  | Some errno => errno
  | None => if negb (sysErrno err =? 0) then sysErrno err else EIO
  end.

(** * Theorems *)

(** An error of the package's own errno type keeps its number, also below any
    wrapping, unless the number is on another branch of a [Join]. *)
Lemma ExtractErrno_Errno e : ExtractErrno (Errno e) = e.
Proof. done. Qed.

Lemma Is_Wrap err t : Is (Wrap err) t = Is err t.
Proof. by destruct t. Qed.

Lemma ExtractErrno_Wrap err : ExtractErrno (Wrap err) = ExtractErrno err.
Proof. unfold ExtractErrno, sysErrno. by rewrite !Is_Wrap. Qed.
