(* ===== verification/Buffer.v ===== *)
(** * The wire buffer ([p9/buffer.go])

    [buffer] is the byte slice that the encoders append to and the decoders
    consume.  Encoders and decoders are computations of the state monad
    [BufM] over it, as the Go methods are on [*buffer].  Exhaustion is not an
    error value: it sets the sticky [overflow] flag and reads yield zeroes.

    The laws of the codec layer are stated once for a pair of an encoder and
    a decoder by [codec], and combine along sequencing, so the law of a message
    follows from the laws of its fields ([solve_codec]). *)
From S2P Require Import Prelude.

Record buffer := Buffer { data : list byte; overflow : bool }.

Definition BufM (A : Type) : Type := buffer -> A * buffer.

#[export] Instance BufM_ret : MRet BufM := fun A a b => (a, b).
#[export] Instance BufM_bind : MBind BufM := fun A B k m b =>
  let '(a, b') := m b in k a b'.

#[export] Instance BufM_fmap : FMap BufM := fun A B f m b =>
  let '(a, b') := m b in (f a, b').

(** ** Operations *)

(** [b.append(len(bs))], the returned slice being filled with [bs] at once by
    every caller. *)
Definition append (bs : list byte) : BufM unit := fun b =>
  (tt, Buffer (data b ++ bs) (overflow b)).

Definition has (n : nat) (b : buffer) : bool := (n <=? length (data b))%nat.

Definition markOverrun : BufM unit := fun b => (tt, Buffer (data b) true).

Definition isOverrun (b : buffer) : bool := overflow b.

Definition consume (n : nat) : BufM (option (list byte)) := fun b =>
  if negb (has n b)
  then let '(_, b') := markOverrun b in (None, b')
  else (Some (take n (data b)), Buffer (drop n (data b)) (overflow b)).

Definition Read8 : BufM Z :=
  v ← consume 1; mret (match v with Some v => le_Z v | None => 0 end).
Definition Read16 : BufM Z :=
  v ← consume 2; mret (match v with Some v => le_Z v | None => 0 end).
Definition Read32 : BufM Z :=
  v ← consume 4; mret (match v with Some v => le_Z v | None => 0 end).
Definition Read64 : BufM Z :=
  v ← consume 8; mret (match v with Some v => le_Z v | None => 0 end).

(** [permissionsMask] of [p9.go], octal [07777]: the low 12 bits of [st_mode]. *)
Definition permissionsMask : Z := 0xfff.

Definition ReadQIDType : BufM Z := Read8.
Definition ReadTag : BufM Z := Read16.
Definition ReadFID : BufM Z := Read32.
Definition ReadUID : BufM Z := Read32.
Definition ReadGID : BufM Z := Read32.
Definition ReadFileMode : BufM Z := Read32.
Definition ReadPermissions : BufM Z :=
  m ← ReadFileMode; mret (Z.land m permissionsMask).
Definition ReadOpenFlags : BufM Z := Read32.
Definition ReadMsgType : BufM Z := Read8.

(** The loop [for i := 0; i < n; i++ { bs[i] = b.Read8() }]. *)
Fixpoint read_bytes (n : nat) : BufM (list byte) :=
  match n with
  | O => mret []
  | S n => v ← Read8; vs ← read_bytes n; mret (byte_of_Z v :: vs)
  end.

(** The part of [ReadString] after the length prefix [l]. *)
Definition ReadStringBody (l : Z) : BufM string := fun b =>
  if negb (has (Z.to_nat l) b)
  then let '(_, b') := markOverrun b in (EmptyString, b')
  else let '(bs, b') := read_bytes (Z.to_nat l) b in (string_of_bytes bs, b').

Definition ReadString : BufM string := l ← Read16; ReadStringBody l.

Definition Write8 (v : Z) : BufM unit := append (le_bytes 1 v).
Definition Write16 (v : Z) : BufM unit := append (le_bytes 2 v).
Definition Write32 (v : Z) : BufM unit := append (le_bytes 4 v).
Definition Write64 (v : Z) : BufM unit := append (le_bytes 8 v).
Definition WriteQIDType (v : Z) : BufM unit := Write8 v.
Definition WriteTag (v : Z) : BufM unit := Write16 v.
(** [fid] is a [uint64] type in the source, of which the low 32 bits travel. *)
Definition WriteFID (v : Z) : BufM unit := Write32 (wrap32 v).
Definition WriteUID (v : Z) : BufM unit := Write32 v.
Definition WriteGID (v : Z) : BufM unit := Write32 v.
Definition WriteFileMode (v : Z) : BufM unit := Write32 v.
Definition WritePermissions (v : Z) : BufM unit :=
  WriteFileMode (Z.land v permissionsMask).
Definition WriteOpenFlags (v : Z) : BufM unit := Write32 v.
Definition WriteMsgType (v : Z) : BufM unit := Write8 v.

(** The loop of [WriteString] over the bytes of the string. *)
Fixpoint write_bytes (bs : list byte) : BufM unit :=
  match bs with
  | [] => mret tt
  | c :: bs => Write8 (Z_of_byte c);; write_bytes bs
  end.

(** [b.Write16(uint16(len(s)))]: the length is truncated, the bytes are not. *)
Definition WriteString (s : string) : BufM unit :=
  Write16 (wrap16 (Z.of_nat (String.length s)));;
  write_bytes (bytes_of_string s).

(** Loops over a slice: [for _, x := range xs { enc(x) }] and
    [for i := 0; i < n; i++ { xs = append(xs, dec()) }]. *)
Fixpoint write_all {A} (enc : A -> BufM unit) (xs : list A) : BufM unit :=
  match xs with
  | [] => mret tt
  | x :: xs => enc x;; write_all enc xs
  end.

Fixpoint append_n {A} (dec : BufM A) (n : nat) (xs : list A) : BufM (list A) :=
  match n with
  | O => mret xs
  | S n => x ← dec; append_n dec n (xs ++ [x])
  end.

(** ** Laws of a codec *)

(** [e] appends exactly [bs]. *)
Definition writes (e : BufM unit) (bs : list byte) : Prop :=
  forall b, e b = (tt, Buffer (data b ++ bs) (overflow b)).

(** On input that starts with [bs], [d] yields [a] and leaves the rest. *)
Definition reads {A} (d : BufM A) (bs : list byte) (a : A) : Prop :=
  forall rest ov, d (Buffer (bs ++ rest) ov) = (a, Buffer rest ov).

(** The overflow flag is never cleared. *)
Definition sticky {A} (d : BufM A) : Prop :=
  forall b, overflow b = true -> overflow (d b).2 = true.

(** A strict prefix of [bs] is not enough: it overruns the buffer. *)
Definition rejects {A} (d : BufM A) (bs : list byte) : Prop :=
  forall p, p `prefix_of` bs -> p <> bs -> overflow (d (Buffer p false)).2 = true.

Definition codec {A} (e : BufM unit) (d : BufM A) (a : A) : Prop :=
  sticky d /\ exists bs, writes e bs /\ reads d bs a /\ rejects d bs.

Create HintDb codec.
Create HintDb sticky.

(** *** Stickiness *)

Lemma sticky_ret {A} (a : A) : sticky (mret a : BufM A).
Proof. intros b Hb. exact Hb. Qed.

Lemma sticky_bind {A B} (m : BufM A) (k : A -> BufM B) :
  sticky m -> (forall a, sticky (k a)) -> sticky (m ≫= k).
Proof.
  intros Hm Hk b Hb. unfold mbind, BufM_bind.
  specialize (Hm b Hb). destruct (m b) as [a b']. by apply Hk.
Qed.

Lemma sticky_consume n : sticky (consume n).
Proof. intros b Hb. unfold consume. by destruct (has n b). Qed.

#[export] Hint Resolve sticky_ret sticky_bind sticky_consume : sticky.

Lemma sticky_Read8 : sticky Read8. Proof. unfold Read8; auto with sticky. Qed.
Lemma sticky_Read16 : sticky Read16. Proof. unfold Read16; auto with sticky. Qed.
Lemma sticky_Read32 : sticky Read32. Proof. unfold Read32; auto with sticky. Qed.
Lemma sticky_Read64 : sticky Read64. Proof. unfold Read64; auto with sticky. Qed.
#[export] Hint Resolve sticky_Read8 sticky_Read16 sticky_Read32 sticky_Read64 : sticky.

Lemma sticky_read_bytes n : sticky (read_bytes n).
Proof. induction n; simpl; auto with sticky. Qed.
#[export] Hint Resolve sticky_read_bytes : sticky.

Lemma sticky_ReadStringBody l : sticky (ReadStringBody l).
Proof.
  intros b Hb. unfold ReadStringBody. destruct (negb _); [done|].
  pose proof (sticky_read_bytes (Z.to_nat l) b Hb) as H.
  by destruct (read_bytes _ b).
Qed.
#[export] Hint Resolve sticky_ReadStringBody : sticky.

Lemma sticky_ReadString : sticky ReadString.
Proof. unfold ReadString; auto with sticky. Qed.
#[export] Hint Resolve sticky_ReadString : sticky.

Lemma sticky_ReadPermissions : sticky ReadPermissions.
Proof. unfold ReadPermissions, ReadFileMode; auto with sticky. Qed.
#[export] Hint Resolve sticky_ReadPermissions : sticky.

#[export] Hint Extern 1 (sticky ReadQIDType) => exact sticky_Read8 : sticky.
#[export] Hint Extern 1 (sticky ReadMsgType) => exact sticky_Read8 : sticky.
#[export] Hint Extern 1 (sticky ReadTag) => exact sticky_Read16 : sticky.
#[export] Hint Extern 1 (sticky ReadFID) => exact sticky_Read32 : sticky.
#[export] Hint Extern 1 (sticky ReadUID) => exact sticky_Read32 : sticky.
#[export] Hint Extern 1 (sticky ReadGID) => exact sticky_Read32 : sticky.
#[export] Hint Extern 1 (sticky ReadFileMode) => exact sticky_Read32 : sticky.
#[export] Hint Extern 1 (sticky ReadOpenFlags) => exact sticky_Read32 : sticky.

Lemma sticky_append_n {A} (d : BufM A) n xs : sticky d -> sticky (append_n d n xs).
Proof. intros Hd. revert xs. induction n; simpl; auto with sticky. Qed.
#[export] Hint Resolve sticky_append_n : sticky.

(** A sequence of steps that are, with assignments to a receiver in between. *)
Ltac solve_sticky :=
  cbv beta zeta;
  lazymatch goal with
  | |- sticky (mbind _ _) => apply sticky_bind; [solve [auto with sticky]|intros ?; solve_sticky]
  | |- sticky (mret _) => apply sticky_ret
  | |- _ => auto with sticky
  end.

(** *** Sequencing *)

Lemma writes_bind e1 e2 bs1 bs2 :
  writes e1 bs1 -> writes e2 bs2 -> writes (e1;; e2) (bs1 ++ bs2).
Proof.
  intros H1 H2 b. unfold mbind, BufM_bind. rewrite H1, H2. cbn.
  by rewrite app_assoc.
Qed.

Lemma reads_bind {A B} (d : BufM A) (k : A -> BufM B) bs1 bs2 a r :
  reads d bs1 a -> reads (k a) bs2 r -> reads (d ≫= k) (bs1 ++ bs2) r.
Proof.
  intros H1 H2 rest ov. unfold mbind, BufM_bind.
  by rewrite <- app_assoc, H1, H2.
Qed.

Lemma rejects_bind {A B} (d : BufM A) (k : A -> BufM B) bs1 bs2 a :
  reads d bs1 a -> rejects d bs1 -> rejects (k a) bs2 ->
  (forall x, sticky (k x)) -> rejects (d ≫= k) (bs1 ++ bs2).
Proof.
  intros Hr H1 H2 Hs p Hp Hne. unfold mbind, BufM_bind.
  destruct (prefix_app_inv_or p bs1 bs2 Hp) as [[Hp1 Hne1]|[p' [-> Hp2]]].
  - specialize (H1 p Hp1 Hne1). destruct (d (Buffer p false)) as [x b'].
    by apply Hs.
  - rewrite Hr. apply H2; [done|]. by intros ->.
Qed.

Lemma codec_bind {A B} e1 e2 (d : BufM A) (k : A -> BufM B) a r :
  codec e1 d a -> (forall x, sticky (k x)) -> codec e2 (k a) r ->
  codec (e1;; e2) (d ≫= k) r.
Proof.
  intros (Hs1 & bs1 & Hw1 & Hr1 & Hj1) Hk (Hs2 & bs2 & Hw2 & Hr2 & Hj2).
  split; [by apply sticky_bind|]. exists (bs1 ++ bs2).
  split; [by apply writes_bind|]. split; [by eapply reads_bind|by eapply rejects_bind].
Qed.

Lemma codec_ret {A} (a : A) : codec (mret tt) (mret a) a.
Proof.
  split; [apply sticky_ret|]. exists []. repeat split.
  - intros [? ?]. cbn. by rewrite app_nil_r.
  - intros p Hp Hne. destruct Hne. by apply prefix_nil_inv in Hp.
Qed.

(** The last field: the record is built from the values read. *)
Lemma codec_map {A B} e (d : BufM A) (f : A -> B) a r :
  codec e d a -> r = f a -> codec e (x ← d; mret (f x)) r.
Proof.
  intros (Hs & bs & Hw & Hr & Hj) ->.
  split; [eauto with sticky|]. exists bs. split; [done|]. split.
  - intros rest ov. unfold mbind, BufM_bind. by rewrite Hr.
  - intros p Hp Hne. specialize (Hj p Hp Hne). unfold mbind, BufM_bind.
    by destruct (d (Buffer p false)).
Qed.

(** *** Primitives *)

Lemma consume_app n bs rest ov :
  length bs = n -> consume n (Buffer (bs ++ rest) ov) = (Some bs, Buffer rest ov).
Proof.
  intros <-. unfold consume, has. cbn [data overflow].
  rewrite length_app. rewrite (proj2 (Nat.leb_le _ _)) by lia. cbn.
  by rewrite take_app_length, drop_app_length.
Qed.

Lemma consume_short n b :
  (length (data b) < n)%nat -> overflow (consume n b).2 = true.
Proof.
  intros H. unfold consume, has. by rewrite (proj2 (Nat.leb_gt _ _)) by lia.
Qed.

(** The law of the fixed-width integers, for all widths at once. *)
Lemma codec_le n v :
  0 <= v < 256 ^ Z.of_nat n ->
  codec (append (le_bytes n v))
    (x ← consume n; mret (match x with Some x => le_Z x | None => 0 end)) v.
Proof.
  intros Hv. split; [auto with sticky|]. exists (le_bytes n v). split; [done|]. split.
  - intros rest ov. unfold mbind, BufM_bind.
    rewrite consume_app by apply length_le_bytes. cbn.
    by rewrite le_Z_le_bytes, Z.mod_small.
  - intros p Hp Hne. unfold mbind, BufM_bind.
    pose proof (consume_short n (Buffer p false)) as Hc. cbn in Hc.
    destruct (consume n (Buffer p false)) as [x b']. apply Hc.
    destruct Hp as [k Hk]. pose proof (length_le_bytes n v) as Hl.
    rewrite Hk, length_app in Hl. destruct k; [|cbn in Hl; lia].
    by rewrite app_nil_r in Hk.
Qed.

Lemma codec_8 v : u8 v -> codec (Write8 v) Read8 v.
Proof. exact (codec_le 1 v). Qed.
Lemma codec_16 v : u16 v -> codec (Write16 v) Read16 v.
Proof. exact (codec_le 2 v). Qed.
Lemma codec_32 v : u32 v -> codec (Write32 v) Read32 v.
Proof. exact (codec_le 4 v). Qed.
Lemma codec_64 v : u64 v -> codec (Write64 v) Read64 v.
Proof. exact (codec_le 8 v). Qed.

Lemma codec_FID v : u32 v -> codec (WriteFID v) ReadFID v.
Proof.
  intros Hv. unfold WriteFID, wrap32. rewrite Z.mod_small by done. by apply codec_32.
Qed.

(** With the bytes that the encoder writes known. *)
Lemma codec_bytes {A} e (d : BufM A) a bs :
  codec e d a -> writes e bs -> reads d bs a /\ rejects d bs.
Proof.
  intros (_ & bs' & Hw & Hr) He. specialize (Hw (Buffer [] false)).
  rewrite He in Hw. cbn in Hw. assert (bs = bs') as -> by congruence. done.
Qed.

Lemma reads_8 v : u8 v -> reads Read8 (le_bytes 1 v) v.
Proof. intros H. by apply (codec_bytes _ _ _ _ (codec_8 v H)). Qed.
Lemma reads_16 v : u16 v -> reads Read16 (le_bytes 2 v) v.
Proof. intros H. by apply (codec_bytes _ _ _ _ (codec_16 v H)). Qed.
Lemma reads_32 v : u32 v -> reads Read32 (le_bytes 4 v) v.
Proof. intros H. by apply (codec_bytes _ _ _ _ (codec_32 v H)). Qed.
Lemma reads_64 v : u64 v -> reads Read64 (le_bytes 8 v) v.
Proof. intros H. by apply (codec_bytes _ _ _ _ (codec_64 v H)). Qed.

(** Permissions survive when they are within the mask that both sides apply. *)
Definition perm12 (v : Z) : Prop := 0 <= v < 2 ^ 12.

Lemma land_permissionsMask v : Z.land v permissionsMask = v mod 2 ^ 12.
Proof. change permissionsMask with (Z.ones 12). by apply Z.land_ones. Qed.

Lemma codec_Permissions v : perm12 v -> codec (WritePermissions v) ReadPermissions v.
Proof.
  intros Hv. unfold WritePermissions, ReadPermissions, WriteFileMode, ReadFileMode.
  rewrite land_permissionsMask, Z.mod_small by done.
  apply codec_map with (a := v) (f := fun m => Z.land m permissionsMask).
  - apply codec_32. unfold perm12, u32 in *. lia.
  - by rewrite land_permissionsMask, Z.mod_small.
Qed.

Lemma codec_read_bytes bs : codec (write_bytes bs) (read_bytes (length bs)) bs.
Proof.
  induction bs as [|c bs IH]; [apply codec_ret|]. cbn [write_bytes read_bytes length].
  eapply codec_bind; [apply codec_8, Z_of_byte_range|auto with sticky|].
  eapply codec_map; [exact IH|]. by rewrite byte_of_Z_of_byte.
Qed.

(** [read_bytes] is the plain split of the data when there is enough of it. *)
Lemma read_bytes_app bs rest ov :
  read_bytes (length bs) (Buffer (bs ++ rest) ov) = (bs, Buffer rest ov).
Proof.
  induction bs as [|c bs IH]; [done|].
  change ((c :: bs) ++ rest) with ([c] ++ (bs ++ rest)). cbn [read_bytes length].
  unfold mbind, BufM_bind, Read8. unfold mbind, BufM_bind at 1.
  rewrite (consume_app 1 [c] (bs ++ rest) ov) by done. cbn [mret BufM_ret].
  rewrite IH. cbn [le_Z]. by rewrite Z.mul_0_r, Z.add_0_r, byte_of_Z_of_byte.
Qed.

Lemma writes_write_bytes bs : writes (write_bytes bs) bs.
Proof.
  induction bs as [|c bs IH]; [intros [? ?]; cbn; by rewrite app_nil_r|].
  change (c :: bs) with ([c] ++ bs). apply writes_bind; [|exact IH].
  intros b. unfold Write8, append. cbn [le_bytes]. by rewrite byte_of_Z_of_byte.
Qed.

Lemma codec_String s : str16 s -> codec (WriteString s) ReadString s.
Proof.
  unfold str16. intros Hs. split; [auto with sticky|].
  set (n := Z.of_nat (String.length s)) in *.
  set (bs := bytes_of_string s).
  assert (Hn : u16 n) by (unfold u16; lia).
  assert (Hbs : length bs = Z.to_nat n)
    by (unfold bs, n; rewrite length_bytes_of_string; lia).
  destruct (codec_16 n Hn) as (_ & hb & Hw & Hr & Hj).
  exists (hb ++ bs). split; [|split].
  - apply writes_bind; [|apply writes_write_bytes].
    unfold wrap16. rewrite Z.mod_small by done. exact Hw.
  - eapply reads_bind; [exact Hr|]. intros rest ov. unfold ReadStringBody, has. cbn [data].
    rewrite length_app, (proj2 (Nat.leb_le _ _)) by lia. cbn [negb].
    rewrite <- Hbs, read_bytes_app. unfold bs. by rewrite string_of_bytes_of_string.
  - eapply rejects_bind; [exact Hr|exact Hj| |].
    + intros p Hp Hne. unfold ReadStringBody, has. cbn [data].
      destruct Hp as [k Hk].
      assert (length k <> 0%nat) by (destruct k; [by rewrite app_nil_r in Hk|done]).
      assert (length bs = length p + length k)%nat by (rewrite Hk; apply length_app).
      by rewrite (proj2 (Nat.leb_gt _ _)) by lia.
    + auto with sticky.
Qed.

#[export] Hint Resolve codec_8 codec_16 codec_32 codec_64 codec_FID
  codec_Permissions codec_String codec_ret : codec.
#[export] Hint Extern 1 (codec (WriteQIDType _) ReadQIDType _) => apply codec_8 : codec.
#[export] Hint Extern 1 (codec (WriteMsgType _) ReadMsgType _) => apply codec_8 : codec.
#[export] Hint Extern 1 (codec (WriteTag _) ReadTag _) => apply codec_16 : codec.
#[export] Hint Extern 1 (codec (WriteUID _) ReadUID _) => apply codec_32 : codec.
#[export] Hint Extern 1 (codec (WriteGID _) ReadGID _) => apply codec_32 : codec.
#[export] Hint Extern 1 (codec (WriteFileMode _) ReadFileMode _) => apply codec_32 : codec.
#[export] Hint Extern 1 (codec (WriteOpenFlags _) ReadOpenFlags _) => apply codec_32 : codec.

(** Loops: the law of the element gives the law of the list. *)
Lemma codec_all {A} (enc : A -> BufM unit) (dec : BufM A) xs pre :
  sticky dec -> Forall (fun x => codec (enc x) dec x) xs ->
  codec (write_all enc xs) (append_n dec (length xs) pre) (pre ++ xs).
Proof.
  intros Hd Hxs. revert pre. induction Hxs as [|x xs Hx Hxs IH]; intros pre.
  - rewrite app_nil_r. apply codec_ret.
  - cbn [write_all append_n length].
    eapply codec_bind; [exact Hx|auto with sticky|].
    specialize (IH (pre ++ [x])). by rewrite <- app_assoc in IH.
Qed.

(** Proves [codec (X_encode x) (X_decode old) x] field by field: the receiver is
    assigned to as its fields are read. *)
Ltac codec_step :=
  cbv beta zeta;
  lazymatch goal with
  | |- codec (mbind _ _) _ _ =>
      eapply codec_bind; [eauto with codec|intros; solve_sticky|]
  | |- codec _ (mbind (fun x => mret _) _) _ =>
      eapply codec_map;
        [eauto with codec
        |first [reflexivity | match goal with |- ?t = _ => by destruct t end]]
  end.
Ltac solve_codec := repeat codec_step; eauto with codec.

(** ** Decoders that do the same

    A message is decoded in place, into an object that may have been used before. *)
Definition same_decode {A} (d1 d2 : BufM A) : Prop := forall b, d1 b = d2 b.

Create HintDb fresh.

Lemma same_decode_refl {A} (d : BufM A) : same_decode d d.
Proof. by intros b. Qed.

Lemma same_decode_bind {A B} (d1 d2 : BufM A) (k1 k2 : A -> BufM B) :
  same_decode d1 d2 -> (forall a, same_decode (k1 a) (k2 a)) ->
  same_decode (d1 ≫= k1) (d2 ≫= k2).
Proof.
  intros Hd Hk b. unfold mbind, BufM_bind. rewrite Hd. destruct (d2 b) as [a b']. apply Hk.
Qed.

Lemma same_decode_fmap {A B} (f : A -> B) (d1 d2 : BufM A) :
  same_decode d1 d2 -> same_decode (f <$> d1) (f <$> d2).
Proof. intros Hd b. unfold fmap, BufM_fmap. by rewrite Hd. Qed.

#[export] Hint Resolve same_decode_refl : fresh.

(** Field by field: each is assigned to, whatever it held. *)
Ltac solve_fresh :=
  cbv beta zeta;
  lazymatch goal with
  | |- same_decode (mbind _ _) (mbind _ _) =>
      apply same_decode_bind; [eauto with fresh|intros ?; solve_fresh]
  | |- same_decode _ _ => first [solve [eauto with fresh] | intros ?; reflexivity]
  end.
Ltac fresh_record :=
  lazymatch goal with
  | |- same_decode (?d ?old) (?d ?old') => unfold d; destruct old, old'; solve_fresh
  end.

(** ** Progress of decoders *)

(** A decoder never grows the data it reads from. *)
Definition shrinks {A} (d : BufM A) : Prop :=
  forall b, (length (data (d b).2) <= length (data b))%nat.

(** It eats at least one byte unless it overruns the buffer. *)
Definition progresses {A} (d : BufM A) : Prop :=
  forall b, overflow (d b).2 = false -> (length (data (d b).2) < length (data b))%nat.

Create HintDb shrinks.

Lemma shrinks_ret {A} (a : A) : shrinks (mret a : BufM A).
Proof. intros b. cbn. lia. Qed.

Lemma shrinks_bind {A B} (m : BufM A) (k : A -> BufM B) :
  shrinks m -> (forall a, shrinks (k a)) -> shrinks (m ≫= k).
Proof.
  intros Hm Hk b. unfold mbind, BufM_bind. specialize (Hm b).
  destruct (m b) as [a b']. specialize (Hk a b'). cbn in Hm. lia.
Qed.

Lemma shrinks_consume n : shrinks (consume n).
Proof.
  intros b. unfold consume. destruct (has n b); cbn; [rewrite length_drop|]; lia.
Qed.

#[export] Hint Resolve shrinks_ret shrinks_bind shrinks_consume : shrinks.

Lemma shrinks_Read8 : shrinks Read8. Proof. unfold Read8; auto with shrinks. Qed.
Lemma shrinks_Read16 : shrinks Read16. Proof. unfold Read16; auto with shrinks. Qed.
Lemma shrinks_Read32 : shrinks Read32. Proof. unfold Read32; auto with shrinks. Qed.
Lemma shrinks_Read64 : shrinks Read64. Proof. unfold Read64; auto with shrinks. Qed.
#[export] Hint Resolve shrinks_Read8 shrinks_Read16 shrinks_Read32 shrinks_Read64 : shrinks.

Lemma shrinks_read_bytes n : shrinks (read_bytes n).
Proof. induction n; simpl; auto with shrinks. Qed.
#[export] Hint Resolve shrinks_read_bytes : shrinks.

Lemma shrinks_ReadString : shrinks ReadString.
Proof.
  unfold ReadString. apply shrinks_bind; [auto with shrinks|]. intros l b.
  unfold ReadStringBody. destruct (negb _); [done|].
  pose proof (shrinks_read_bytes (Z.to_nat l) b). by destruct (read_bytes _ b).
Qed.
#[export] Hint Resolve shrinks_ReadString : shrinks.

Lemma progresses_Read8 : progresses Read8.
Proof.
  intros [bs ov]. unfold Read8, mbind, BufM_bind, consume, has. cbn [data].
  destruct bs as [|c bs]; cbn; [done|rewrite drop_0; lia].
Qed.

Lemma progresses_bind {A B} (m : BufM A) (k : A -> BufM B) :
  progresses m -> (forall a, shrinks (k a)) -> (forall a, sticky (k a)) ->
  progresses (m ≫= k).
Proof.
  intros Hm Hk Hs b Hov. unfold mbind, BufM_bind in *. specialize (Hm b).
  destruct (m b) as [a b']. specialize (Hk a b'). cbn in Hm.
  destruct (overflow b') eqn:E.
  - by rewrite (Hs a b' E) in Hov.
  - specialize (Hm eq_refl). lia.
Qed.

(** The length prefix is 16 bits wide but the bytes are all written: a string
    of [2^16] bytes or more is written with a truncated length. *)
Lemma WriteString_bytes s :
  writes (WriteString s)
    (le_bytes 2 (wrap16 (Z.of_nat (String.length s))) ++ bytes_of_string s).
Proof. apply writes_bind; [by intros b|apply writes_write_bytes]. Qed.
