(* ===== verification/Types.v ===== *)
(** * The 9P data types ([p9/p9.go])

    File modes and their conversion to and from [os.FileMode], QIDs, file
    system statistics, attribute masks and attributes, directory entries:
    their records, operations and wire encodings.  The [String] methods, which
    only format log lines, are not modelled. *)
From S2P Require Import Prelude Buffer.

(** ** The encoder interface ([p9/buffer.go])

    [encode] gets the receiver and returns it as the call leaves it (only
    [rreaddir] changes its receiver); [decode] gets the old receiver, because a
    message object is reused. *)
Class encoder (A : Type) := Encoder {
  encode : A -> BufM A;
  decode : A -> BufM A;
}.

(** Most encoders leave the receiver alone. *)
Definition keep {A} (e : A -> BufM unit) (a : A) : BufM A := e a;; mret a.

(** ** Open flags *)

Definition ReadOnly : Z := 0.
Definition WriteOnly : Z := 1.
Definition ReadWrite : Z := 2.
Definition OpenFlagsModeMask : Z := 3.

Definition OpenFlags_Mode (o : Z) : Z := Z.land o OpenFlagsModeMask.
Definition OpenFlags_OSFlags (o : Z) : Z := Z.land o OpenFlagsModeMask.

Definition XattrCreate : Z := 1.
Definition XattrReplace : Z := 2.

(** ** Locks ([p9/messages.go]) *)

Definition ReadLock : Z := 0.
Definition WriteLock : Z := 1.
Definition Unlock : Z := 2.
Definition LockStatusOK : Z := 0.
Definition LockStatusBlocked : Z := 1.
Definition LockStatusError : Z := 2.
Definition LockStatusGrace : Z := 3.

(** ** File modes *)

Definition FileModeMask : Z := 0xf000.
Definition ModeSocket : Z := 0xc000.
Definition ModeSymlink : Z := 0xa000.
Definition ModeRegular : Z := 0x8000.
Definition ModeBlockDevice : Z := 0x6000.
Definition ModeDirectory : Z := 0x4000.
Definition ModeCharacterDevice : Z := 0x2000.
Definition ModeNamedPipe : Z := 0x1000.
Definition AllPermissions : Z := 0x1ff.
Definition Setuid : Z := 0x800.
Definition Setgid : Z := 0x400.
Definition Sticky : Z := 0x200.

Definition FileMode_FileType (m : Z) : Z := Z.land m FileModeMask.
Definition FileMode_Permissions (m : Z) : Z := Z.land m permissionsMask.
Definition FileMode_Writable (m : Z) : Z := Z.lor m 0x92.
Definition FileMode_IsReadable (m : Z) : bool := has_flag m 0x124.
Definition FileMode_IsWritable (m : Z) : bool := has_flag m 0x92.
Definition FileMode_IsExecutable (m : Z) : bool := has_flag m 0x49.
Definition FileMode_IsRegular (m : Z) : bool := Z.land m FileModeMask =? ModeRegular.
Definition FileMode_IsDir (m : Z) : bool := Z.land m FileModeMask =? ModeDirectory.
Definition FileMode_IsNamedPipe (m : Z) : bool := Z.land m FileModeMask =? ModeNamedPipe.
Definition FileMode_IsCharacterDevice (m : Z) : bool :=
  Z.land m FileModeMask =? ModeCharacterDevice.
Definition FileMode_IsBlockDevice (m : Z) : bool :=
  Z.land m FileModeMask =? ModeBlockDevice.
Definition FileMode_IsSocket (m : Z) : bool := Z.land m FileModeMask =? ModeSocket.
Definition FileMode_IsSymlink (m : Z) : bool := Z.land m FileModeMask =? ModeSymlink.

(** QID types. *)
Definition TypeDir : Z := 0x80.
Definition TypeAppendOnly : Z := 0x40.
Definition TypeSymlink : Z := 0x02.
Definition TypeRegular : Z := 0x00.

Definition FileMode_QIDType (m : Z) : Z :=
  if FileMode_IsDir m then TypeDir
  else if FileMode_IsSocket m || FileMode_IsNamedPipe m || FileMode_IsCharacterDevice m
  then TypeAppendOnly
  else if FileMode_IsSymlink m then TypeSymlink
  else TypeRegular.

(** The bits of Go's [os.FileMode] (package [io/fs]). *)
Definition os_ModeDir : Z := 2 ^ 31.
Definition os_ModeSymlink : Z := 2 ^ 27.
Definition os_ModeDevice : Z := 2 ^ 26.
Definition os_ModeNamedPipe : Z := 2 ^ 25.
Definition os_ModeSocket : Z := 2 ^ 24.
Definition os_ModeSetuid : Z := 2 ^ 23.
Definition os_ModeSetgid : Z := 2 ^ 22.
Definition os_ModeCharDevice : Z := 2 ^ 21.
Definition os_ModeSticky : Z := 2 ^ 20.
Definition os_ModePerm : Z := 0x1ff.

Definition ModeFromOS (mode : Z) : Z :=
  let m := Z.land mode os_ModePerm in
  let m := Z.lor m
    (if has_flag mode os_ModeDir then ModeDirectory
     else if has_flag mode os_ModeSymlink then ModeSymlink
     else if has_flag mode os_ModeSocket then ModeSocket
     else if has_flag mode os_ModeNamedPipe then ModeNamedPipe
     else if has_flag mode os_ModeCharDevice then ModeCharacterDevice
     else if has_flag mode os_ModeDevice then ModeBlockDevice
     else ModeRegular) in
  let m := mask_flag (has_flag mode os_ModeSetuid) Setuid m in
  let m := mask_flag (has_flag mode os_ModeSetgid) Setgid m in
  mask_flag (has_flag mode os_ModeSticky) Sticky m.

Definition FileMode_OSMode (m : Z) : Z :=
  let osMode := Z.land m AllPermissions in
  let osMode := Z.lor osMode
    (if FileMode_IsDir m then os_ModeDir
     else if FileMode_IsSymlink m then os_ModeSymlink
     else if FileMode_IsSocket m then os_ModeSocket
     else if FileMode_IsNamedPipe m then os_ModeNamedPipe
     else if FileMode_IsCharacterDevice m then Z.lor os_ModeCharDevice os_ModeDevice
     else if FileMode_IsBlockDevice m then os_ModeDevice
     else 0) in
  let osMode := mask_flag (has_flag m Setuid) os_ModeSetuid osMode in
  let osMode := mask_flag (has_flag m Setgid) os_ModeSetgid osMode in
  mask_flag (has_flag m Sticky) os_ModeSticky osMode.

(** ** Sentinels *)

Definition noTag : Z := 0xffff.
Definition noFID : Z := 0xffffffff.
Definition NoUID : Z := 0xffffffff.
Definition NoGID : Z := 0xffffffff.

Definition UID_Ok (uid : Z) : bool := negb (uid =? NoUID).
Definition GID_Ok (gid : Z) : bool := negb (gid =? NoGID).

(** ** QIDs *)

Record QID := mkQID { QID_Type : Z; QID_Version : Z; QID_Path : Z }.

#[export] Instance QID_eq_dec : EqDecision QID.
Proof. solve_decision. Defined.

Definition QID_wf (q : QID) : Prop :=
  u8 (QID_Type q) /\ u32 (QID_Version q) /\ u64 (QID_Path q).

Definition QID_decode (q : QID) : BufM QID :=
  Type_ ← ReadQIDType; let q := q <| QID_Type := Type_ |> in
  Version ← Read32; let q := q <| QID_Version := Version |> in
  Path ← Read64; let q := q <| QID_Path := Path |> in
  mret q.

Definition QID_encode (q : QID) : BufM unit :=
  WriteQIDType (QID_Type q);;
  Write32 (QID_Version q);;
  Write64 (QID_Path q).

#[export] Instance QID_encoder : encoder QID :=
  {| encode := keep QID_encode; decode := QID_decode |}.

Definition QID_zero : QID := mkQID 0 0 0.

(** [QIDGenerator.Get]: the generator's counter is the state. *)
Definition QIDGenerator_Get (t : Z) (uids : Z) : QID * Z :=
  let uids := wrap64 (uids + 1) in (mkQID t 0 uids, uids).

(** ** File system statistics *)

Record FSStat := mkFSStat {
  FSStat_Type : Z;
  FSStat_BlockSize : Z;
  FSStat_Blocks : Z;
  FSStat_BlocksFree : Z;
  FSStat_BlocksAvailable : Z;
  FSStat_Files : Z;
  FSStat_FilesFree : Z;
  FSStat_FSID : Z;
  FSStat_NameLength : Z;
}.

Definition FSStat_wf (f : FSStat) : Prop :=
  u32 (FSStat_Type f) /\ u32 (FSStat_BlockSize f) /\ u64 (FSStat_Blocks f) /\
  u64 (FSStat_BlocksFree f) /\ u64 (FSStat_BlocksAvailable f) /\
  u64 (FSStat_Files f) /\ u64 (FSStat_FilesFree f) /\ u64 (FSStat_FSID f) /\
  u32 (FSStat_NameLength f).

Definition FSStat_decode (f : FSStat) : BufM FSStat :=
  Type_ ← Read32; let f := f <| FSStat_Type := Type_ |> in
  BlockSize ← Read32; let f := f <| FSStat_BlockSize := BlockSize |> in
  Blocks ← Read64; let f := f <| FSStat_Blocks := Blocks |> in
  BlocksFree ← Read64; let f := f <| FSStat_BlocksFree := BlocksFree |> in
  BlocksAvailable ← Read64; let f := f <| FSStat_BlocksAvailable := BlocksAvailable |> in
  Files ← Read64; let f := f <| FSStat_Files := Files |> in
  FilesFree ← Read64; let f := f <| FSStat_FilesFree := FilesFree |> in
  FSID ← Read64; let f := f <| FSStat_FSID := FSID |> in
  NameLength ← Read32; let f := f <| FSStat_NameLength := NameLength |> in
  mret f.

Definition FSStat_encode (f : FSStat) : BufM unit :=
  Write32 (FSStat_Type f);;
  Write32 (FSStat_BlockSize f);;
  Write64 (FSStat_Blocks f);;
  Write64 (FSStat_BlocksFree f);;
  Write64 (FSStat_BlocksAvailable f);;
  Write64 (FSStat_Files f);;
  Write64 (FSStat_FilesFree f);;
  Write64 (FSStat_FSID f);;
  Write32 (FSStat_NameLength f).

#[export] Instance FSStat_encoder : encoder FSStat :=
  {| encode := keep FSStat_encode; decode := FSStat_decode |}.

(** ** Attribute masks *)

Record AttrMask := mkAttrMask {
  AM_Mode : bool; AM_NLink : bool; AM_UID : bool; AM_GID : bool;
  AM_RDev : bool; AM_ATime : bool; AM_MTime : bool; AM_CTime : bool;
  AM_INo : bool; AM_Size : bool; AM_Blocks : bool; AM_BTime : bool;
  AM_Gen : bool; AM_DataVersion : bool;
}.

#[export] Instance AttrMask_eq_dec : EqDecision AttrMask.
Proof. solve_decision. Defined.

Definition AttrMask_zero : AttrMask :=
  mkAttrMask false false false false false false false false false false false
    false false false.
Definition AttrMaskAll : AttrMask :=
  mkAttrMask true true true true true true true true true true true true true true.

Definition AttrMask_Contains (a b : AttrMask) : bool :=
  if AM_Mode b && negb (AM_Mode a) then false
  else if AM_NLink b && negb (AM_NLink a) then false
  else if AM_UID b && negb (AM_UID a) then false
  else if AM_GID b && negb (AM_GID a) then false
  else if AM_RDev b && negb (AM_RDev a) then false
  else if AM_ATime b && negb (AM_ATime a) then false
  else if AM_MTime b && negb (AM_MTime a) then false
  else if AM_CTime b && negb (AM_CTime a) then false
  else if AM_INo b && negb (AM_INo a) then false
  else if AM_Size b && negb (AM_Size a) then false
  else if AM_Blocks b && negb (AM_Blocks a) then false
  else if AM_BTime b && negb (AM_BTime a) then false
  else if AM_Gen b && negb (AM_Gen a) then false
  else if AM_DataVersion b && negb (AM_DataVersion a) then false
  else true.

Definition AttrMask_Empty (a : AttrMask) : bool :=
  negb (AM_Mode a) && negb (AM_NLink a) && negb (AM_UID a) && negb (AM_GID a) &&
  negb (AM_RDev a) && negb (AM_ATime a) && negb (AM_MTime a) && negb (AM_CTime a) &&
  negb (AM_INo a) && negb (AM_Size a) && negb (AM_Blocks a) && negb (AM_BTime a) &&
  negb (AM_Gen a) && negb (AM_DataVersion a).

Definition AttrMask_of_bits (mask : Z) : AttrMask := {|
  AM_Mode := has_flag mask 0x00000001;
  AM_NLink := has_flag mask 0x00000002;
  AM_UID := has_flag mask 0x00000004;
  AM_GID := has_flag mask 0x00000008;
  AM_RDev := has_flag mask 0x00000010;
  AM_ATime := has_flag mask 0x00000020;
  AM_MTime := has_flag mask 0x00000040;
  AM_CTime := has_flag mask 0x00000080;
  AM_INo := has_flag mask 0x00000100;
  AM_Size := has_flag mask 0x00000200;
  AM_Blocks := has_flag mask 0x00000400;
  AM_BTime := has_flag mask 0x00000800;
  AM_Gen := has_flag mask 0x00001000;
  AM_DataVersion := has_flag mask 0x00002000;
|}.

Definition AttrMask_bits (a : AttrMask) : Z :=
  let mask := 0 in
  let mask := mask_flag (AM_Mode a) 0x00000001 mask in
  let mask := mask_flag (AM_NLink a) 0x00000002 mask in
  let mask := mask_flag (AM_UID a) 0x00000004 mask in
  let mask := mask_flag (AM_GID a) 0x00000008 mask in
  let mask := mask_flag (AM_RDev a) 0x00000010 mask in
  let mask := mask_flag (AM_ATime a) 0x00000020 mask in
  let mask := mask_flag (AM_MTime a) 0x00000040 mask in
  let mask := mask_flag (AM_CTime a) 0x00000080 mask in
  let mask := mask_flag (AM_INo a) 0x00000100 mask in
  let mask := mask_flag (AM_Size a) 0x00000200 mask in
  let mask := mask_flag (AM_Blocks a) 0x00000400 mask in
  let mask := mask_flag (AM_BTime a) 0x00000800 mask in
  let mask := mask_flag (AM_Gen a) 0x00001000 mask in
  mask_flag (AM_DataVersion a) 0x00002000 mask.

Definition AttrMask_decode (a : AttrMask) : BufM AttrMask :=
  mask ← Read64;
  let a := a <| AM_Mode := has_flag mask 0x00000001 |> in
  let a := a <| AM_NLink := has_flag mask 0x00000002 |> in
  let a := a <| AM_UID := has_flag mask 0x00000004 |> in
  let a := a <| AM_GID := has_flag mask 0x00000008 |> in
  let a := a <| AM_RDev := has_flag mask 0x00000010 |> in
  let a := a <| AM_ATime := has_flag mask 0x00000020 |> in
  let a := a <| AM_MTime := has_flag mask 0x00000040 |> in
  let a := a <| AM_CTime := has_flag mask 0x00000080 |> in
  let a := a <| AM_INo := has_flag mask 0x00000100 |> in
  let a := a <| AM_Size := has_flag mask 0x00000200 |> in
  let a := a <| AM_Blocks := has_flag mask 0x00000400 |> in
  let a := a <| AM_BTime := has_flag mask 0x00000800 |> in
  let a := a <| AM_Gen := has_flag mask 0x00001000 |> in
  let a := a <| AM_DataVersion := has_flag mask 0x00002000 |> in
  mret a.

Definition AttrMask_encode (a : AttrMask) : BufM unit := Write64 (AttrMask_bits a).

#[export] Instance AttrMask_encoder : encoder AttrMask :=
  {| encode := keep AttrMask_encode; decode := AttrMask_decode |}.
(** ** Attributes *)

Record Attr := mkAttr {
  Attr_Mode : Z;
  Attr_UID : Z;
  Attr_GID : Z;
  Attr_NLink : Z;
  Attr_RDev : Z;
  Attr_Size : Z;
  Attr_BlockSize : Z;
  Attr_Blocks : Z;
  Attr_ATimeSeconds : Z;
  Attr_ATimeNanoSeconds : Z;
  Attr_MTimeSeconds : Z;
  Attr_MTimeNanoSeconds : Z;
  Attr_CTimeSeconds : Z;
  Attr_CTimeNanoSeconds : Z;
  Attr_BTimeSeconds : Z;
  Attr_BTimeNanoSeconds : Z;
  Attr_Gen : Z;
  Attr_DataVersion : Z;
}.

#[export] Instance Attr_eq_dec : EqDecision Attr.
Proof. solve_decision. Defined.

Definition Attr_zero : Attr := mkAttr 0 0 0 0 0 0 0 0 0 0 0 0 0 0 0 0 0 0.

Definition Attr_wf (a : Attr) : Prop :=
  u32 (Attr_Mode a) /\
  u32 (Attr_UID a) /\
  u32 (Attr_GID a) /\
  u64 (Attr_NLink a) /\
  u64 (Attr_RDev a) /\
  u64 (Attr_Size a) /\
  u64 (Attr_BlockSize a) /\
  u64 (Attr_Blocks a) /\
  u64 (Attr_ATimeSeconds a) /\
  u64 (Attr_ATimeNanoSeconds a) /\
  u64 (Attr_MTimeSeconds a) /\
  u64 (Attr_MTimeNanoSeconds a) /\
  u64 (Attr_CTimeSeconds a) /\
  u64 (Attr_CTimeNanoSeconds a) /\
  u64 (Attr_BTimeSeconds a) /\
  u64 (Attr_BTimeNanoSeconds a) /\
  u64 (Attr_Gen a) /\
  u64 (Attr_DataVersion a).

Definition Attr_encode (a : Attr) : BufM unit :=
  WriteFileMode (Attr_Mode a);;
  WriteUID (Attr_UID a);;
  WriteGID (Attr_GID a);;
  Write64 (Attr_NLink a);;
  Write64 (Attr_RDev a);;
  Write64 (Attr_Size a);;
  Write64 (Attr_BlockSize a);;
  Write64 (Attr_Blocks a);;
  Write64 (Attr_ATimeSeconds a);;
  Write64 (Attr_ATimeNanoSeconds a);;
  Write64 (Attr_MTimeSeconds a);;
  Write64 (Attr_MTimeNanoSeconds a);;
  Write64 (Attr_CTimeSeconds a);;
  Write64 (Attr_CTimeNanoSeconds a);;
  Write64 (Attr_BTimeSeconds a);;
  Write64 (Attr_BTimeNanoSeconds a);;
  Write64 (Attr_Gen a);;
  Write64 (Attr_DataVersion a).

Definition Attr_decode (a : Attr) : BufM Attr :=
  Mode ← ReadFileMode; let a := a <| Attr_Mode := Mode |> in
  UID ← ReadUID; let a := a <| Attr_UID := UID |> in
  GID ← ReadGID; let a := a <| Attr_GID := GID |> in
  NLink ← Read64; let a := a <| Attr_NLink := NLink |> in
  RDev ← Read64; let a := a <| Attr_RDev := RDev |> in
  Size ← Read64; let a := a <| Attr_Size := Size |> in
  BlockSize ← Read64; let a := a <| Attr_BlockSize := BlockSize |> in
  Blocks ← Read64; let a := a <| Attr_Blocks := Blocks |> in
  ATimeSeconds ← Read64; let a := a <| Attr_ATimeSeconds := ATimeSeconds |> in
  ATimeNanoSeconds ← Read64; let a := a <| Attr_ATimeNanoSeconds := ATimeNanoSeconds |> in
  MTimeSeconds ← Read64; let a := a <| Attr_MTimeSeconds := MTimeSeconds |> in
  MTimeNanoSeconds ← Read64; let a := a <| Attr_MTimeNanoSeconds := MTimeNanoSeconds |> in
  CTimeSeconds ← Read64; let a := a <| Attr_CTimeSeconds := CTimeSeconds |> in
  CTimeNanoSeconds ← Read64; let a := a <| Attr_CTimeNanoSeconds := CTimeNanoSeconds |> in
  BTimeSeconds ← Read64; let a := a <| Attr_BTimeSeconds := BTimeSeconds |> in
  BTimeNanoSeconds ← Read64; let a := a <| Attr_BTimeNanoSeconds := BTimeNanoSeconds |> in
  Gen ← Read64; let a := a <| Attr_Gen := Gen |> in
  DataVersion ← Read64; let a := a <| Attr_DataVersion := DataVersion |> in
  mret a.

#[export] Instance Attr_encoder : encoder Attr :=
  {| encode := keep Attr_encode; decode := Attr_decode |}.

(** [WithMask] starts from the zero [Attr] and copies the masked fields. *)
Definition Attr_WithMask (a : Attr) (mask : AttrMask) : Attr := {|
  Attr_Mode := if AM_Mode mask then Attr_Mode a else 0;
  Attr_UID := if AM_UID mask then Attr_UID a else 0;
  Attr_GID := if AM_GID mask then Attr_GID a else 0;
  Attr_NLink := if AM_NLink mask then Attr_NLink a else 0;
  Attr_RDev := if AM_RDev mask then Attr_RDev a else 0;
  Attr_Size := if AM_Size mask then Attr_Size a else 0;
  Attr_BlockSize := if AM_Blocks mask then Attr_BlockSize a else 0;
  Attr_Blocks := if AM_Blocks mask then Attr_Blocks a else 0;
  Attr_ATimeSeconds := if AM_ATime mask then Attr_ATimeSeconds a else 0;
  Attr_ATimeNanoSeconds := if AM_ATime mask then Attr_ATimeNanoSeconds a else 0;
  Attr_MTimeSeconds := if AM_MTime mask then Attr_MTimeSeconds a else 0;
  Attr_MTimeNanoSeconds := if AM_MTime mask then Attr_MTimeNanoSeconds a else 0;
  Attr_CTimeSeconds := if AM_CTime mask then Attr_CTimeSeconds a else 0;
  Attr_CTimeNanoSeconds := if AM_CTime mask then Attr_CTimeNanoSeconds a else 0;
  Attr_BTimeSeconds := if AM_BTime mask then Attr_BTimeSeconds a else 0;
  Attr_BTimeNanoSeconds := if AM_BTime mask then Attr_BTimeNanoSeconds a else 0;
  Attr_Gen := if AM_Gen mask then Attr_Gen a else 0;
  Attr_DataVersion := if AM_DataVersion mask then Attr_DataVersion a else 0;
|}.


(** The fields of [internal.Stat_t] that are read (a [timespec] is split). *)
Record Stat_t := mkStat {
  Stat_Mode : Z; Stat_Nlink : Z; Stat_Uid : Z; Stat_Gid : Z; Stat_Dev : Z;
  Stat_Rdev : Z; Stat_Size : Z; Stat_Blksize : Z; Stat_Blocks : Z;
  Stat_AtimSec : Z; Stat_AtimNsec : Z; Stat_MtimSec : Z; Stat_MtimNsec : Z;
  Stat_CtimSec : Z; Stat_CtimNsec : Z;
}.

Definition StatToAttr (s : Stat_t) (req : AttrMask) : Attr * AttrMask :=
  ({|
    Attr_Mode := if AM_Mode req then wrap32 (Stat_Mode s) else 0;
    Attr_UID := if AM_UID req then wrap32 (Stat_Uid s) else NoUID;
    Attr_GID := if AM_GID req then wrap32 (Stat_Gid s) else NoGID;
    Attr_NLink := if AM_NLink req then wrap64 (Stat_Nlink s) else 0;
    Attr_RDev := if AM_RDev req then wrap64 (Stat_Dev s) else 0;
    Attr_Size := if AM_Size req then wrap64 (Stat_Size s) else 0;
    Attr_BlockSize := if AM_Blocks req then wrap64 (Stat_Blksize s) else 0;
    Attr_Blocks := if AM_Blocks req then wrap64 (Stat_Blocks s) else 0;
    Attr_ATimeSeconds := if AM_ATime req then wrap64 (Stat_AtimSec s) else 0;
    Attr_ATimeNanoSeconds := if AM_ATime req then wrap64 (Stat_AtimNsec s) else 0;
    Attr_MTimeSeconds := if AM_MTime req then wrap64 (Stat_MtimSec s) else 0;
    Attr_MTimeNanoSeconds := if AM_MTime req then wrap64 (Stat_MtimNsec s) else 0;
    Attr_CTimeSeconds := if AM_CTime req then wrap64 (Stat_CtimSec s) else 0;
    Attr_CTimeNanoSeconds := if AM_CTime req then wrap64 (Stat_CtimNsec s) else 0;
    Attr_BTimeSeconds := 0;
    Attr_BTimeNanoSeconds := 0;
    Attr_Gen := 0;
    Attr_DataVersion := 0;
  |},
  {|
    AM_Mode := AM_Mode req; AM_NLink := AM_NLink req; AM_UID := AM_UID req;
    AM_GID := AM_GID req; AM_RDev := AM_RDev req; AM_ATime := AM_ATime req;
    AM_MTime := AM_MTime req; AM_CTime := AM_CTime req; AM_INo := AM_INo req;
    AM_Size := AM_Size req; AM_Blocks := AM_Blocks req;
    AM_BTime := false; AM_Gen := false; AM_DataVersion := false;
  |}).

(** ** Setting attributes *)

Record SetAttrMask := mkSetAttrMask {
  SAM_Permissions : bool; SAM_UID : bool; SAM_GID : bool; SAM_Size : bool;
  SAM_ATime : bool; SAM_MTime : bool; SAM_CTime : bool;
  SAM_ATimeNotSystemTime : bool; SAM_MTimeNotSystemTime : bool;
}.

#[export] Instance SetAttrMask_eq_dec : EqDecision SetAttrMask.
Proof. solve_decision. Defined.

Definition SetAttrMask_bitmask (s : SetAttrMask) : Z :=
  let mask := 0 in
  let mask := mask_flag (SAM_Permissions s) 0x00000001 mask in
  let mask := mask_flag (SAM_UID s) 0x00000002 mask in
  let mask := mask_flag (SAM_GID s) 0x00000004 mask in
  let mask := mask_flag (SAM_Size s) 0x00000008 mask in
  let mask := mask_flag (SAM_ATime s) 0x00000010 mask in
  let mask := mask_flag (SAM_MTime s) 0x00000020 mask in
  let mask := mask_flag (SAM_CTime s) 0x00000040 mask in
  let mask := mask_flag (SAM_ATimeNotSystemTime s) 0x00000080 mask in
  mask_flag (SAM_MTimeNotSystemTime s) 0x00000100 mask.

Definition SetAttrMask_of_bits (mask : Z) : SetAttrMask := {|
  SAM_Permissions := has_flag mask 0x00000001;
  SAM_UID := has_flag mask 0x00000002;
  SAM_GID := has_flag mask 0x00000004;
  SAM_Size := has_flag mask 0x00000008;
  SAM_ATime := has_flag mask 0x00000010;
  SAM_MTime := has_flag mask 0x00000020;
  SAM_CTime := has_flag mask 0x00000040;
  SAM_ATimeNotSystemTime := has_flag mask 0x00000080;
  SAM_MTimeNotSystemTime := has_flag mask 0x00000100;
|}.

Definition SetAttrMask_IsSubsetOf (s m : SetAttrMask) : bool :=
  let sb := SetAttrMask_bitmask s in
  let sm := SetAttrMask_bitmask m in
  Z.lor sm sb =? sm.

Definition SetAttrMask_Empty (s : SetAttrMask) : bool :=
  negb (SAM_Permissions s) && negb (SAM_UID s) && negb (SAM_GID s) &&
  negb (SAM_Size s) && negb (SAM_ATime s) && negb (SAM_MTime s) &&
  negb (SAM_CTime s) && negb (SAM_ATimeNotSystemTime s) &&
  negb (SAM_MTimeNotSystemTime s).

Definition SetAttrMask_decode (s : SetAttrMask) : BufM SetAttrMask :=
  mask ← Read32;
  let s := s <| SAM_Permissions := has_flag mask 0x00000001 |> in
  let s := s <| SAM_UID := has_flag mask 0x00000002 |> in
  let s := s <| SAM_GID := has_flag mask 0x00000004 |> in
  let s := s <| SAM_Size := has_flag mask 0x00000008 |> in
  let s := s <| SAM_ATime := has_flag mask 0x00000010 |> in
  let s := s <| SAM_MTime := has_flag mask 0x00000020 |> in
  let s := s <| SAM_CTime := has_flag mask 0x00000040 |> in
  let s := s <| SAM_ATimeNotSystemTime := has_flag mask 0x00000080 |> in
  let s := s <| SAM_MTimeNotSystemTime := has_flag mask 0x00000100 |> in
  mret s.

Definition SetAttrMask_encode (s : SetAttrMask) : BufM unit :=
  Write32 (SetAttrMask_bitmask s).

#[export] Instance SetAttrMask_encoder : encoder SetAttrMask :=
  {| encode := keep SetAttrMask_encode; decode := SetAttrMask_decode |}.

Record SetAttr := mkSetAttr {
  SA_Permissions : Z; SA_UID : Z; SA_GID : Z; SA_Size : Z;
  SA_ATimeSeconds : Z; SA_ATimeNanoSeconds : Z;
  SA_MTimeSeconds : Z; SA_MTimeNanoSeconds : Z;
}.

Definition SetAttr_wf (s : SetAttr) : Prop :=
  perm12 (SA_Permissions s) /\ u32 (SA_UID s) /\ u32 (SA_GID s) /\ u64 (SA_Size s) /\
  u64 (SA_ATimeSeconds s) /\ u64 (SA_ATimeNanoSeconds s) /\
  u64 (SA_MTimeSeconds s) /\ u64 (SA_MTimeNanoSeconds s).

Definition SetAttr_decode (s : SetAttr) : BufM SetAttr :=
  Permissions ← ReadPermissions; let s := s <| SA_Permissions := Permissions |> in
  UID ← ReadUID; let s := s <| SA_UID := UID |> in
  GID ← ReadGID; let s := s <| SA_GID := GID |> in
  Size ← Read64; let s := s <| SA_Size := Size |> in
  ATimeSeconds ← Read64; let s := s <| SA_ATimeSeconds := ATimeSeconds |> in
  ATimeNanoSeconds ← Read64; let s := s <| SA_ATimeNanoSeconds := ATimeNanoSeconds |> in
  MTimeSeconds ← Read64; let s := s <| SA_MTimeSeconds := MTimeSeconds |> in
  MTimeNanoSeconds ← Read64; let s := s <| SA_MTimeNanoSeconds := MTimeNanoSeconds |> in
  mret s.

Definition SetAttr_encode (s : SetAttr) : BufM unit :=
  WritePermissions (SA_Permissions s);;
  WriteUID (SA_UID s);;
  WriteGID (SA_GID s);;
  Write64 (SA_Size s);;
  Write64 (SA_ATimeSeconds s);;
  Write64 (SA_ATimeNanoSeconds s);;
  Write64 (SA_MTimeSeconds s);;
  Write64 (SA_MTimeNanoSeconds s).

#[export] Instance SetAttr_encoder : encoder SetAttr :=
  {| encode := keep SetAttr_encode; decode := SetAttr_decode |}.

(** [a.Apply(mask, attr)], on the receiver's fields. *)
Definition Attr_Apply (a : Attr) (mask : SetAttrMask) (attr : SetAttr) : Attr := {|
  Attr_Mode :=
    if SAM_Permissions mask
    then Z.lor (Z.ldiff (Attr_Mode a) permissionsMask)
           (Z.land (SA_Permissions attr) permissionsMask)
    else Attr_Mode a;
  Attr_UID := if SAM_UID mask then SA_UID attr else Attr_UID a;
  Attr_GID := if SAM_GID mask then SA_GID attr else Attr_GID a;
  Attr_NLink := Attr_NLink a;
  Attr_RDev := Attr_RDev a;
  Attr_Size := if SAM_Size mask then SA_Size attr else Attr_Size a;
  Attr_BlockSize := Attr_BlockSize a;
  Attr_Blocks := Attr_Blocks a;
  Attr_ATimeSeconds :=
    if SAM_ATime mask then SA_ATimeSeconds attr else Attr_ATimeSeconds a;
  Attr_ATimeNanoSeconds :=
    if SAM_ATime mask then SA_ATimeNanoSeconds attr else Attr_ATimeNanoSeconds a;
  Attr_MTimeSeconds :=
    if SAM_MTime mask then SA_MTimeSeconds attr else Attr_MTimeSeconds a;
  Attr_MTimeNanoSeconds :=
    if SAM_MTime mask then SA_MTimeNanoSeconds attr else Attr_MTimeNanoSeconds a;
  Attr_CTimeSeconds := Attr_CTimeSeconds a;
  Attr_CTimeNanoSeconds := Attr_CTimeNanoSeconds a;
  Attr_BTimeSeconds := Attr_BTimeSeconds a;
  Attr_BTimeNanoSeconds := Attr_BTimeNanoSeconds a;
  Attr_Gen := Attr_Gen a;
  Attr_DataVersion := Attr_DataVersion a;
|}.

(** ** Directory entries *)

Record Dirent := mkDirent {
  Dirent_QID : QID; Dirent_Offset : Z; Dirent_Type : Z; Dirent_Name : string;
}.

Definition Dirent_wf (d : Dirent) : Prop :=
  QID_wf (Dirent_QID d) /\ u64 (Dirent_Offset d) /\ u8 (Dirent_Type d) /\
  str16 (Dirent_Name d).

Definition Dirent_decode (d : Dirent) : BufM Dirent :=
  QID ← QID_decode (Dirent_QID d); let d := d <| Dirent_QID := QID |> in
  Offset ← Read64; let d := d <| Dirent_Offset := Offset |> in
  Type_ ← ReadQIDType; let d := d <| Dirent_Type := Type_ |> in
  Name ← ReadString; let d := d <| Dirent_Name := Name |> in
  mret d.

Definition Dirent_encode (d : Dirent) : BufM unit :=
  QID_encode (Dirent_QID d);;
  Write64 (Dirent_Offset d);;
  WriteQIDType (Dirent_Type d);;
  WriteString (Dirent_Name d).

Definition Dirent_zero : Dirent := mkDirent QID_zero 0 0 EmptyString.

#[export] Instance Dirent_encoder : encoder Dirent :=
  {| encode := keep Dirent_encode; decode := Dirent_decode |}.

Fixpoint Dirents_Find (name : string) (d : list Dirent) : option Dirent :=
  match d with
  | [] => None
  | dir :: d => if String.eqb (Dirent_Name dir) name then Some dir
                else Dirents_Find name d
  end.

(** ** Wire laws of the types *)

(** The thirteen bytes of a QID. *)
Definition QID_bytes (q : QID) : list byte :=
  le_bytes 1 (QID_Type q) ++ le_bytes 4 (QID_Version q) ++ le_bytes 8 (QID_Path q).

Lemma codec_QID q old : QID_wf q -> codec (QID_encode q) (QID_decode old) q.
Proof.
  intros (?&?&?). destruct q, old; cbn in *. unfold QID_encode, QID_decode. solve_codec.
Qed.

Lemma sticky_QID old : sticky (QID_decode old).
Proof. unfold QID_decode; eauto 20 with sticky. Qed.

Lemma codec_FSStat f old : FSStat_wf f -> codec (FSStat_encode f) (FSStat_decode old) f.
Proof.
  unfold FSStat_wf. intros; destruct_and!. destruct f, old; cbn in *.
  unfold FSStat_encode, FSStat_decode. solve_codec.
Qed.

Lemma sticky_FSStat old : sticky (FSStat_decode old).
Proof. unfold FSStat_decode; eauto 20 with sticky. Qed.

Lemma AttrMask_of_bits_bits a : AttrMask_of_bits (AttrMask_bits a) = a.
Proof.
  destruct a. unfold AttrMask_of_bits, AttrMask_bits. cbn [AM_Mode AM_NLink AM_UID
    AM_GID AM_RDev AM_ATime AM_MTime AM_CTime AM_INo AM_Size AM_Blocks AM_BTime
    AM_Gen AM_DataVersion]. f_equal; flag_lookup; done.
Qed.

Lemma AttrMask_bits_range a : 0 <= AttrMask_bits a < 2 ^ 14.
Proof.
  unfold AttrMask_bits. repeat (apply mask_flag_range; [done| |done]). done.
Qed.

Lemma codec_AttrMask a old : codec (AttrMask_encode a) (AttrMask_decode old) a.
Proof.
  destruct old. eapply codec_map; [|symmetry; apply AttrMask_of_bits_bits].
  apply codec_64. pose proof (AttrMask_bits_range a). unfold u64. lia.
Qed.

Lemma sticky_AttrMask old : sticky (AttrMask_decode old).
Proof. unfold AttrMask_decode; eauto 20 with sticky. Qed.

Lemma codec_Attr a old : Attr_wf a -> codec (Attr_encode a) (Attr_decode old) a.
Proof.
  unfold Attr_wf. intros; destruct_and!. destruct a, old; cbn in *.
  unfold Attr_encode, Attr_decode. solve_codec.
Qed.

Lemma sticky_Attr old : sticky (Attr_decode old).
Proof. unfold Attr_decode; eauto 40 with sticky. Qed.

Lemma SetAttrMask_of_bits_bitmask s : SetAttrMask_of_bits (SetAttrMask_bitmask s) = s.
Proof.
  destruct s. unfold SetAttrMask_of_bits, SetAttrMask_bitmask. cbn [SAM_Permissions
    SAM_UID SAM_GID SAM_Size SAM_ATime SAM_MTime SAM_CTime SAM_ATimeNotSystemTime
    SAM_MTimeNotSystemTime]. f_equal; flag_lookup; done.
Qed.

Lemma SetAttrMask_bitmask_range s : 0 <= SetAttrMask_bitmask s < 2 ^ 9.
Proof.
  unfold SetAttrMask_bitmask. repeat (apply mask_flag_range; [done| |done]). done.
Qed.

Lemma codec_SetAttrMask s old : codec (SetAttrMask_encode s) (SetAttrMask_decode old) s.
Proof.
  destruct old. eapply codec_map; [|symmetry; apply SetAttrMask_of_bits_bitmask].
  apply codec_32. pose proof (SetAttrMask_bitmask_range s). unfold u32. lia.
Qed.

Lemma sticky_SetAttrMask old : sticky (SetAttrMask_decode old).
Proof. unfold SetAttrMask_decode; eauto 20 with sticky. Qed.

Lemma codec_SetAttr s old : SetAttr_wf s -> codec (SetAttr_encode s) (SetAttr_decode old) s.
Proof.
  unfold SetAttr_wf. intros; destruct_and!. destruct s, old; cbn in *.
  unfold SetAttr_encode, SetAttr_decode. solve_codec.
Qed.

Lemma sticky_SetAttr old : sticky (SetAttr_decode old).
Proof. unfold SetAttr_decode; eauto 20 with sticky. Qed.

#[export] Hint Resolve sticky_QID sticky_FSStat sticky_AttrMask sticky_Attr
  sticky_SetAttrMask sticky_SetAttr : sticky.
#[export] Hint Resolve codec_QID codec_FSStat codec_AttrMask codec_Attr
  codec_SetAttrMask codec_SetAttr : codec.

Lemma codec_Dirent d old : Dirent_wf d -> codec (Dirent_encode d) (Dirent_decode old) d.
Proof.
  unfold Dirent_wf. intros; destruct_and!. destruct d, old; cbn in *.
  unfold Dirent_encode, Dirent_decode. solve_codec.
Qed.

Lemma sticky_Dirent old : sticky (Dirent_decode old).
Proof. unfold Dirent_decode; eauto 20 with sticky. Qed.

#[export] Hint Resolve codec_Dirent : codec.
#[export] Hint Resolve sticky_Dirent : sticky.

(** What the receivers held does not matter. *)
Lemma fresh_QID old old' : same_decode (QID_decode old) (QID_decode old').
Proof. fresh_record. Qed.
Lemma fresh_FSStat old old' : same_decode (FSStat_decode old) (FSStat_decode old').
Proof. fresh_record. Qed.
Lemma fresh_AttrMask old old' : same_decode (AttrMask_decode old) (AttrMask_decode old').
Proof. fresh_record. Qed.
Lemma fresh_Attr old old' : same_decode (Attr_decode old) (Attr_decode old').
Proof. fresh_record. Qed.
Lemma fresh_SetAttrMask old old' : same_decode (SetAttrMask_decode old) (SetAttrMask_decode old').
Proof. fresh_record. Qed.
Lemma fresh_SetAttr old old' : same_decode (SetAttr_decode old) (SetAttr_decode old').
Proof. fresh_record. Qed.
#[export] Hint Resolve fresh_QID fresh_FSStat fresh_AttrMask fresh_Attr fresh_SetAttrMask
  fresh_SetAttr : fresh.

(** ** File modes *)

(** The modes of a 9P file: one of the seven types and twelve permission bits. *)
Definition FileMode_valid (m : Z) : Prop :=
  u16 m /\
  FileMode_FileType m ∈ [ModeSocket; ModeSymlink; ModeRegular; ModeBlockDevice;
                         ModeDirectory; ModeCharacterDevice; ModeNamedPipe].

(** The permission bits, the type bits and the three special bits of a 16-bit
    mode make it up. *)
Lemma FileMode_split m :
  u16 m ->
  Z.lor (Z.lor (Z.lor (Z.lor (Z.land m AllPermissions) (FileMode_FileType m))
    (Z.land m Setuid)) (Z.land m Setgid)) (Z.land m Sticky) = m.
Proof.
  intros Hm. unfold FileMode_FileType. rewrite <- !Z.land_lor_distr_r.
  change (Z.land m (Z.ones 16) = m). rewrite Z.land_ones by done.
  by apply Z.mod_small.
Qed.

(** What [os.FileMode] keeps of the permissions, whatever type bits are added. *)
Lemma land_perm_high m t :
  Z.land t os_ModePerm = 0 ->
  Z.land (mask_flag (has_flag m Sticky) os_ModeSticky
    (mask_flag (has_flag m Setgid) os_ModeSetgid
      (mask_flag (has_flag m Setuid) os_ModeSetuid
        (Z.lor (Z.land m AllPermissions) t)))) os_ModePerm
  = Z.land m AllPermissions.
Proof.
  intros Ht. unfold mask_flag.
  repeat case_match; rewrite ?Z.land_lor_distr_l, Ht, <- ?Z.land_assoc;
    change (Z.land AllPermissions os_ModePerm) with AllPermissions;
    change (Z.land os_ModeSticky os_ModePerm) with 0;
    change (Z.land os_ModeSetgid os_ModePerm) with 0;
    change (Z.land os_ModeSetuid os_ModePerm) with 0;
    by rewrite ?Z.lor_0_r.
Qed.

(** The switch of [OSMode] on the type bits. *)
Definition OSMode_type (t : Z) : Z :=
  if t =? ModeDirectory then os_ModeDir
  else if t =? ModeSymlink then os_ModeSymlink
  else if t =? ModeSocket then os_ModeSocket
  else if t =? ModeNamedPipe then os_ModeNamedPipe
  else if t =? ModeCharacterDevice then Z.lor os_ModeCharDevice os_ModeDevice
  else if t =? ModeBlockDevice then os_ModeDevice
  else 0.

(** A flag above the permission bits reads back from [OSMode] as it was put. *)
Lemma OSMode_high_flag m t bit :
  bit =? 2 ^ Z.log2 bit = true -> 20 <=? Z.log2 bit = true ->
  has_flag (mask_flag (has_flag m Sticky) os_ModeSticky
    (mask_flag (has_flag m Setgid) os_ModeSetgid
      (mask_flag (has_flag m Setuid) os_ModeSetuid
        (Z.lor (Z.land m AllPermissions) t)))) bit
  = (has_flag m Sticky && (20 =? Z.log2 bit)) || (has_flag m Setgid && (22 =? Z.log2 bit))
    || (has_flag m Setuid && (23 =? Z.log2 bit)) || Z.testbit t (Z.log2 bit).
Proof.
  intros Hb Hi. apply Z.leb_le in Hi. rewrite has_flag_bit by done.
  rewrite !mask_flag_bit by done. rewrite Z.lor_spec, Z.land_spec.
  rewrite (Z.bits_above_log2 AllPermissions)
    by (change (Z.log2 AllPermissions) with 8; unfold AllPermissions; lia).
  rewrite andb_false_r. cbn [orb]. rewrite !orb_assoc. done.
Qed.

Lemma ModeFromOS_OSMode_aux m :
  FileMode_valid m -> ModeFromOS (FileMode_OSMode m) = m.
Proof.
  intros [Hu Ht]. etransitivity; [|exact (FileMode_split m Hu)].
  unfold FileMode_OSMode, FileMode_IsDir, FileMode_IsSymlink, FileMode_IsSocket,
    FileMode_IsNamedPipe, FileMode_IsCharacterDevice, FileMode_IsBlockDevice.
  fold (FileMode_FileType m). fold (OSMode_type (FileMode_FileType m)).
  unfold ModeFromOS. rewrite land_perm_high, !OSMode_high_flag;
    try reflexivity;
    [|rewrite !elem_of_cons in Ht; destruct_or!; rewrite ?Ht; try reflexivity;
      by apply elem_of_nil in Ht].
  change (Z.log2 os_ModeDir) with 31. change (Z.log2 os_ModeSymlink) with 27.
  change (Z.log2 os_ModeSocket) with 24. change (Z.log2 os_ModeNamedPipe) with 25.
  change (Z.log2 os_ModeCharDevice) with 21. change (Z.log2 os_ModeDevice) with 26.
  change (Z.log2 os_ModeSetuid) with 23. change (Z.log2 os_ModeSetgid) with 22.
  change (Z.log2 os_ModeSticky) with 20.
  repeat match goal with
    | |- context [?x =? ?y] =>
        first [change (x =? y) with false | change (x =? y) with true]
    end.
  rewrite ?andb_false_r, ?andb_true_r, ?orb_false_l, ?orb_false_r.
  rewrite !elem_of_cons in Ht; destruct_or!; try (by apply elem_of_nil in Ht);
    rewrite Ht; cbn -[Z.lor Z.land mask_flag has_flag];
    by rewrite ?orb_false_r, !mask_flag_has by reflexivity.
Qed.

(** * Properties *)

(** Converting a 9P mode to [os.FileMode] and back loses nothing: for each
    of the seven file types and all twelve permission bits, [ModeFromOS] undoes
    [OSMode]. *)
Theorem ModeFromOS_OSMode m : FileMode_valid m -> ModeFromOS (FileMode_OSMode m) = m.
Proof. apply ModeFromOS_OSMode_aux. Qed.

Lemma ModeFromOS_OSMode_witness :
  FileMode_valid 0x6fff /\ ModeFromOS (FileMode_OSMode 0x6fff) = 0x6fff.
Proof.
  assert (H : FileMode_valid 0x6fff).
  { split; [done|]. change (FileMode_FileType 0x6fff) with ModeBlockDevice. set_solver. }
  split; [exact H|exact (ModeFromOS_OSMode _ H)].
Defined.

(** The fields of a mask in the order of their bits. *)
Definition SetAttrMask_fields (s : SetAttrMask) : list bool :=
  [SAM_Permissions s; SAM_UID s; SAM_GID s; SAM_Size s; SAM_ATime s; SAM_MTime s;
   SAM_CTime s; SAM_ATimeNotSystemTime s; SAM_MTimeNotSystemTime s].

Lemma SetAttrMask_bitmask_testbit s i :
  0 <= i -> Z.testbit (SetAttrMask_bitmask s) i
    = nth (Z.to_nat i) (SetAttrMask_fields s) false.
Proof.
  intros Hi. destruct (Z.lt_ge_cases i 9) as [H|H].
  - assert (Hc : i = 0 \/ i = 1 \/ i = 2 \/ i = 3 \/ i = 4 \/ i = 5 \/ i = 6 \/ i = 7 \/ i = 8)
      by lia.
    destruct s as [[] [] [] [] [] [] [] [] []]; destruct_or!; subst i; reflexivity.
  - rewrite nth_overflow by (cbn; lia). pose proof (SetAttrMask_bitmask_range s) as Hr.
    rewrite <- (Z.mod_small _ _ Hr). by apply Z.mod_pow2_bits_high.
Qed.

(** [IsSubsetOf], which compares bit masks, is the field-wise implication:
    every attribute set in [s] is set in [m]. *)
Theorem SetAttrMask_IsSubsetOf_spec s m :
  SetAttrMask_IsSubsetOf s m = true <->
  Forall2 (fun a b : bool => a = true -> b = true) (SetAttrMask_fields s) (SetAttrMask_fields m).
Proof.
  unfold SetAttrMask_IsSubsetOf. rewrite Z.eqb_eq. split.
  - intros H. apply Forall2_same_length_lookup_2; [done|]. intros i a b Ha Hb Hat. subst a.
    apply (f_equal (fun x => Z.testbit x (Z.of_nat i))) in H.
    rewrite Z.lor_spec, !SetAttrMask_bitmask_testbit, Nat2Z.id in H by lia.
    rewrite !(nth_lookup _ i), Ha, Hb in H. by destruct b.
  - intros H. apply Z.bits_inj'. intros i Hi.
    rewrite Z.lor_spec, !SetAttrMask_bitmask_testbit, !nth_lookup by done.
    destruct (SetAttrMask_fields s !! Z.to_nat i) as [a|] eqn:Ha.
    + destruct (Forall2_lookup_l _ _ _ _ _ H Ha) as (b & -> & Hab). cbn.
      destruct a, b; cbn; try done. by specialize (Hab eq_refl).
    + cbn. by rewrite orb_false_r.
Qed.
