(* ===== verification/Messages.v ===== *)
(** * The 9P2000.L messages ([p9/messages.go])

    One record per message struct of the source, with its wire encoding and
    its message number.  An [Inductive] without fields stands for an empty
    struct.  The messages that carry a payload outside their fixed part
    ([rread], [twrite], [rreaddir]) implement the interface [payloader].
    Their [String] methods are in Strings. *)
From S2P Require Import Prelude Buffer Types.

(** ** Message numbers ([p9/p9.go]) *)

Definition msgRlerror : Z := 7.
Definition msgTstatfs : Z := 8.
Definition msgRstatfs : Z := 9.
Definition msgTlopen : Z := 12.
Definition msgRlopen : Z := 13.
Definition msgTlcreate : Z := 14.
Definition msgRlcreate : Z := 15.
Definition msgTsymlink : Z := 16.
Definition msgRsymlink : Z := 17.
Definition msgTmknod : Z := 18.
Definition msgRmknod : Z := 19.
Definition msgTrename : Z := 20.
Definition msgRrename : Z := 21.
Definition msgTreadlink : Z := 22.
Definition msgRreadlink : Z := 23.
Definition msgTgetattr : Z := 24.
Definition msgRgetattr : Z := 25.
Definition msgTsetattr : Z := 26.
Definition msgRsetattr : Z := 27.
Definition msgTxattrwalk : Z := 30.
Definition msgRxattrwalk : Z := 31.
Definition msgTxattrcreate : Z := 32.
Definition msgRxattrcreate : Z := 33.
Definition msgTreaddir : Z := 40.
Definition msgRreaddir : Z := 41.
Definition msgTfsync : Z := 50.
Definition msgRfsync : Z := 51.
Definition msgTlock : Z := 52.
Definition msgRlock : Z := 53.
Definition msgTgetlock : Z := 54.
Definition msgRgetlock : Z := 55.
Definition msgTlink : Z := 70.
Definition msgRlink : Z := 71.
Definition msgTmkdir : Z := 72.
Definition msgRmkdir : Z := 73.
Definition msgTrenameat : Z := 74.
Definition msgRrenameat : Z := 75.
Definition msgTunlinkat : Z := 76.
Definition msgRunlinkat : Z := 77.
Definition msgTversion : Z := 100.
Definition msgRversion : Z := 101.
Definition msgTauth : Z := 102.
Definition msgRauth : Z := 103.
Definition msgTattach : Z := 104.
Definition msgRattach : Z := 105.
Definition msgTflush : Z := 108.
Definition msgRflush : Z := 109.
Definition msgTwalk : Z := 110.
Definition msgRwalk : Z := 111.
Definition msgTread : Z := 116.
Definition msgRread : Z := 117.
Definition msgTwrite : Z := 118.
Definition msgRwrite : Z := 119.
Definition msgTclunk : Z := 120.
Definition msgRclunk : Z := 121.
Definition msgTremove : Z := 122.
Definition msgRremove : Z := 123.
Definition msgTflushf : Z := 124.
Definition msgRflushf : Z := 125.
Definition msgTwalkgetattr : Z := 126.
Definition msgRwalkgetattr : Z := 127.
Definition msgTucreate : Z := 128.
Definition msgRucreate : Z := 129.
Definition msgTumkdir : Z := 130.
Definition msgRumkdir : Z := 131.
Definition msgTumknod : Z := 132.
Definition msgRumknod : Z := 133.
Definition msgTusymlink : Z := 134.
Definition msgRusymlink : Z := 135.

(** The interface [message]: an encoder with a message number. *)
Class Message (A : Type) := {
  Message_encoder :: encoder A;
  typ : Z;
}.
Arguments typ A {_}.

(** The interface [payloader].  A nil and an empty payload are the same list. *)
Class payloader (A : Type) := {
  FixedSize : Z;
  Payload : A -> list byte;
  SetPayload : A -> list byte -> A;
}.
Arguments FixedSize A {_}.

(** ** Fields that are slices, and a signed field *)

(** The [Names] of a walk: a 16-bit count, then the strings. *)
Definition names_encode (names : list string) : BufM unit :=
  Write16 (wrap16 (Z.of_nat (length names)));;
  write_all WriteString names.

Definition names_decode (Names : list string) : BufM (list string) :=
  n ← Read16;
  let Names := take 0 Names in
  append_n ReadString (Z.to_nat n) Names.

(** The [QIDs] of a walk response. *)
Definition qids_encode (qids : list QID) : BufM unit :=
  Write16 (wrap16 (Z.of_nat (length qids)));;
  write_all QID_encode qids.

Definition qids_decode (QIDs : list QID) : BufM (list QID) :=
  n ← Read16;
  let QIDs := take 0 QIDs in
  append_n (QID_decode QID_zero) (Z.to_nat n) QIDs.

(** [int32(b.Read32())] and [b.Write32(uint32(t.PID))]. *)
Definition WritePID (v : Z) : BufM unit := Write32 (wrap32 v).
Definition ReadPID : BufM Z := v ← Read32; mret (sint32 v).

(** ** The messages *)

Record tversion := mk_tversion {
  tversion_MSize : Z; tversion_Version : string;
}.

Definition tversion_decode (t : tversion) : BufM tversion :=
  MSize ← Read32; let t := t <| tversion_MSize := MSize |> in
  Version ← ReadString; let t := t <| tversion_Version := Version |> in
  mret t.
Definition tversion_encode (t : tversion) : BufM unit :=
  Write32 (tversion_MSize t);;
  WriteString (tversion_Version t).

#[export] Instance tversion_Message : Message tversion := {|
  Message_encoder :=
    {| encode := keep tversion_encode; decode := tversion_decode |};
  typ := msgTversion;
|}.

Record rversion := mk_rversion {
  rversion_MSize : Z; rversion_Version : string;
}.

Definition rversion_decode (r : rversion) : BufM rversion :=
  MSize ← Read32; let r := r <| rversion_MSize := MSize |> in
  Version ← ReadString; let r := r <| rversion_Version := Version |> in
  mret r.
Definition rversion_encode (r : rversion) : BufM unit :=
  Write32 (rversion_MSize r);;
  WriteString (rversion_Version r).

#[export] Instance rversion_Message : Message rversion := {|
  Message_encoder :=
    {| encode := keep rversion_encode; decode := rversion_decode |};
  typ := msgRversion;
|}.

Record tflush := mk_tflush {
  tflush_OldTag : Z;
}.

Definition tflush_decode (t : tflush) : BufM tflush :=
  OldTag ← ReadTag; let t := t <| tflush_OldTag := OldTag |> in
  mret t.
Definition tflush_encode (t : tflush) : BufM unit :=
  WriteTag (tflush_OldTag t).

#[export] Instance tflush_Message : Message tflush := {|
  Message_encoder :=
    {| encode := keep tflush_encode; decode := tflush_decode |};
  typ := msgTflush;
|}.

Inductive rflush := mk_rflush.

Definition rflush_decode (r : rflush) : BufM rflush := mret r.
Definition rflush_encode (r : rflush) : BufM unit := mret tt.

#[export] Instance rflush_Message : Message rflush := {|
  Message_encoder :=
    {| encode := keep rflush_encode; decode := rflush_decode |};
  typ := msgRflush;
|}.

Record twalk := mk_twalk {
  twalk_fid : Z; twalk_newFID : Z; twalk_Names : list string;
}.

Definition twalk_decode (t : twalk) : BufM twalk :=
  fid ← ReadFID; let t := t <| twalk_fid := fid |> in
  newFID ← ReadFID; let t := t <| twalk_newFID := newFID |> in
  Names ← names_decode (twalk_Names t); let t := t <| twalk_Names := Names |> in
  mret t.
Definition twalk_encode (t : twalk) : BufM unit :=
  WriteFID (twalk_fid t);;
  WriteFID (twalk_newFID t);;
  names_encode (twalk_Names t).

#[export] Instance twalk_Message : Message twalk := {|
  Message_encoder :=
    {| encode := keep twalk_encode; decode := twalk_decode |};
  typ := msgTwalk;
|}.

Record rwalk := mk_rwalk {
  rwalk_QIDs : list QID;
}.

Definition rwalk_decode (r : rwalk) : BufM rwalk :=
  QIDs ← qids_decode (rwalk_QIDs r); let r := r <| rwalk_QIDs := QIDs |> in
  mret r.
Definition rwalk_encode (r : rwalk) : BufM unit :=
  qids_encode (rwalk_QIDs r).

#[export] Instance rwalk_Message : Message rwalk := {|
  Message_encoder :=
    {| encode := keep rwalk_encode; decode := rwalk_decode |};
  typ := msgRwalk;
|}.

Record tclunk := mk_tclunk {
  tclunk_fid : Z;
}.

Definition tclunk_decode (t : tclunk) : BufM tclunk :=
  fid ← ReadFID; let t := t <| tclunk_fid := fid |> in
  mret t.
Definition tclunk_encode (t : tclunk) : BufM unit :=
  WriteFID (tclunk_fid t).

#[export] Instance tclunk_Message : Message tclunk := {|
  Message_encoder :=
    {| encode := keep tclunk_encode; decode := tclunk_decode |};
  typ := msgTclunk;
|}.

Inductive rclunk := mk_rclunk.

Definition rclunk_decode (r : rclunk) : BufM rclunk := mret r.
Definition rclunk_encode (r : rclunk) : BufM unit := mret tt.

#[export] Instance rclunk_Message : Message rclunk := {|
  Message_encoder :=
    {| encode := keep rclunk_encode; decode := rclunk_decode |};
  typ := msgRclunk;
|}.

Record tremove := mk_tremove {
  tremove_fid : Z;
}.

Definition tremove_decode (t : tremove) : BufM tremove :=
  fid ← ReadFID; let t := t <| tremove_fid := fid |> in
  mret t.
Definition tremove_encode (t : tremove) : BufM unit :=
  WriteFID (tremove_fid t).

#[export] Instance tremove_Message : Message tremove := {|
  Message_encoder :=
    {| encode := keep tremove_encode; decode := tremove_decode |};
  typ := msgTremove;
|}.

Inductive rremove := mk_rremove.

Definition rremove_decode (r : rremove) : BufM rremove := mret r.
Definition rremove_encode (r : rremove) : BufM unit := mret tt.

#[export] Instance rremove_Message : Message rremove := {|
  Message_encoder :=
    {| encode := keep rremove_encode; decode := rremove_decode |};
  typ := msgRremove;
|}.

Record rlerror := mk_rlerror {
  rlerror_Error : Z;
}.

Definition rlerror_decode (r : rlerror) : BufM rlerror :=
  Error ← Read32; let r := r <| rlerror_Error := Error |> in
  mret r.
Definition rlerror_encode (r : rlerror) : BufM unit :=
  Write32 (rlerror_Error r).

#[export] Instance rlerror_Message : Message rlerror := {|
  Message_encoder :=
    {| encode := keep rlerror_encode; decode := rlerror_decode |};
  typ := msgRlerror;
|}.

Record tauth := mk_tauth {
  tauth_Authenticationfid : Z; tauth_UserName : string; tauth_AttachName : string;
  tauth_UID : Z;
}.

Definition tauth_decode (t : tauth) : BufM tauth :=
  Authenticationfid ← ReadFID; let t := t <| tauth_Authenticationfid := Authenticationfid |> in
  UserName ← ReadString; let t := t <| tauth_UserName := UserName |> in
  AttachName ← ReadString; let t := t <| tauth_AttachName := AttachName |> in
  UID ← ReadUID; let t := t <| tauth_UID := UID |> in
  mret t.
Definition tauth_encode (t : tauth) : BufM unit :=
  WriteFID (tauth_Authenticationfid t);;
  WriteString (tauth_UserName t);;
  WriteString (tauth_AttachName t);;
  WriteUID (tauth_UID t).

#[export] Instance tauth_Message : Message tauth := {|
  Message_encoder :=
    {| encode := keep tauth_encode; decode := tauth_decode |};
  typ := msgTauth;
|}.

Record rauth := mk_rauth {
  rauth_QID : QID;
}.

Definition rauth_decode (r : rauth) : BufM rauth :=
  QID_ ← QID_decode (rauth_QID r); let r := r <| rauth_QID := QID_ |> in
  mret r.
Definition rauth_encode (r : rauth) : BufM unit :=
  QID_encode (rauth_QID r).

#[export] Instance rauth_Message : Message rauth := {|
  Message_encoder :=
    {| encode := keep rauth_encode; decode := rauth_decode |};
  typ := msgRauth;
|}.

Record tattach := mk_tattach {
  tattach_fid : Z; tattach_Auth : tauth;
}.

Definition tattach_decode (t : tattach) : BufM tattach :=
  fid ← ReadFID; let t := t <| tattach_fid := fid |> in
  Auth ← tauth_decode (tattach_Auth t); let t := t <| tattach_Auth := Auth |> in
  mret t.
Definition tattach_encode (t : tattach) : BufM unit :=
  WriteFID (tattach_fid t);;
  tauth_encode (tattach_Auth t).

#[export] Instance tattach_Message : Message tattach := {|
  Message_encoder :=
    {| encode := keep tattach_encode; decode := tattach_decode |};
  typ := msgTattach;
|}.

Record rattach := mk_rattach {
  rattach_QID : QID;
}.

Definition rattach_decode (r : rattach) : BufM rattach :=
  QID_ ← QID_decode (rattach_QID r); let r := r <| rattach_QID := QID_ |> in
  mret r.
Definition rattach_encode (r : rattach) : BufM unit :=
  QID_encode (rattach_QID r).

#[export] Instance rattach_Message : Message rattach := {|
  Message_encoder :=
    {| encode := keep rattach_encode; decode := rattach_decode |};
  typ := msgRattach;
|}.

Record tlopen := mk_tlopen {
  tlopen_fid : Z; tlopen_Flags : Z;
}.

Definition tlopen_decode (t : tlopen) : BufM tlopen :=
  fid ← ReadFID; let t := t <| tlopen_fid := fid |> in
  Flags ← ReadOpenFlags; let t := t <| tlopen_Flags := Flags |> in
  mret t.
Definition tlopen_encode (t : tlopen) : BufM unit :=
  WriteFID (tlopen_fid t);;
  WriteOpenFlags (tlopen_Flags t).

#[export] Instance tlopen_Message : Message tlopen := {|
  Message_encoder :=
    {| encode := keep tlopen_encode; decode := tlopen_decode |};
  typ := msgTlopen;
|}.

Record rlopen := mk_rlopen {
  rlopen_QID : QID; rlopen_IoUnit : Z;
}.

Definition rlopen_decode (r : rlopen) : BufM rlopen :=
  QID_ ← QID_decode (rlopen_QID r); let r := r <| rlopen_QID := QID_ |> in
  IoUnit ← Read32; let r := r <| rlopen_IoUnit := IoUnit |> in
  mret r.
Definition rlopen_encode (r : rlopen) : BufM unit :=
  QID_encode (rlopen_QID r);;
  Write32 (rlopen_IoUnit r).

#[export] Instance rlopen_Message : Message rlopen := {|
  Message_encoder :=
    {| encode := keep rlopen_encode; decode := rlopen_decode |};
  typ := msgRlopen;
|}.

Record tlcreate := mk_tlcreate {
  tlcreate_fid : Z; tlcreate_Name : string; tlcreate_OpenFlags : Z;
  tlcreate_Permissions : Z; tlcreate_GID : Z;
}.

Definition tlcreate_decode (t : tlcreate) : BufM tlcreate :=
  fid ← ReadFID; let t := t <| tlcreate_fid := fid |> in
  Name ← ReadString; let t := t <| tlcreate_Name := Name |> in
  OpenFlags ← ReadOpenFlags; let t := t <| tlcreate_OpenFlags := OpenFlags |> in
  Permissions ← ReadPermissions; let t := t <| tlcreate_Permissions := Permissions |> in
  GID ← ReadGID; let t := t <| tlcreate_GID := GID |> in
  mret t.
Definition tlcreate_encode (t : tlcreate) : BufM unit :=
  WriteFID (tlcreate_fid t);;
  WriteString (tlcreate_Name t);;
  WriteOpenFlags (tlcreate_OpenFlags t);;
  WritePermissions (tlcreate_Permissions t);;
  WriteGID (tlcreate_GID t).

#[export] Instance tlcreate_Message : Message tlcreate := {|
  Message_encoder :=
    {| encode := keep tlcreate_encode; decode := tlcreate_decode |};
  typ := msgTlcreate;
|}.

Record rlcreate := mk_rlcreate {
  rlcreate_rlopen : rlopen;
}.

Definition rlcreate_decode (r : rlcreate) : BufM rlcreate :=
  rlopen_ ← rlopen_decode (rlcreate_rlopen r); let r := r <| rlcreate_rlopen := rlopen_ |> in
  mret r.
Definition rlcreate_encode (r : rlcreate) : BufM unit :=
  rlopen_encode (rlcreate_rlopen r).

#[export] Instance rlcreate_Message : Message rlcreate := {|
  Message_encoder :=
    {| encode := keep rlcreate_encode; decode := rlcreate_decode |};
  typ := msgRlcreate;
|}.

Record tsymlink := mk_tsymlink {
  tsymlink_Directory : Z; tsymlink_Name : string; tsymlink_Target : string;
  tsymlink_GID : Z;
}.

Definition tsymlink_decode (t : tsymlink) : BufM tsymlink :=
  Directory ← ReadFID; let t := t <| tsymlink_Directory := Directory |> in
  Name ← ReadString; let t := t <| tsymlink_Name := Name |> in
  Target ← ReadString; let t := t <| tsymlink_Target := Target |> in
  GID ← ReadGID; let t := t <| tsymlink_GID := GID |> in
  mret t.
Definition tsymlink_encode (t : tsymlink) : BufM unit :=
  WriteFID (tsymlink_Directory t);;
  WriteString (tsymlink_Name t);;
  WriteString (tsymlink_Target t);;
  WriteGID (tsymlink_GID t).

#[export] Instance tsymlink_Message : Message tsymlink := {|
  Message_encoder :=
    {| encode := keep tsymlink_encode; decode := tsymlink_decode |};
  typ := msgTsymlink;
|}.

Record rsymlink := mk_rsymlink {
  rsymlink_QID : QID;
}.

Definition rsymlink_decode (r : rsymlink) : BufM rsymlink :=
  QID_ ← QID_decode (rsymlink_QID r); let r := r <| rsymlink_QID := QID_ |> in
  mret r.
Definition rsymlink_encode (r : rsymlink) : BufM unit :=
  QID_encode (rsymlink_QID r).

#[export] Instance rsymlink_Message : Message rsymlink := {|
  Message_encoder :=
    {| encode := keep rsymlink_encode; decode := rsymlink_decode |};
  typ := msgRsymlink;
|}.

Record tlink := mk_tlink {
  tlink_Directory : Z; tlink_Target : Z; tlink_Name : string;
}.

Definition tlink_decode (t : tlink) : BufM tlink :=
  Directory ← ReadFID; let t := t <| tlink_Directory := Directory |> in
  Target ← ReadFID; let t := t <| tlink_Target := Target |> in
  Name ← ReadString; let t := t <| tlink_Name := Name |> in
  mret t.
Definition tlink_encode (t : tlink) : BufM unit :=
  WriteFID (tlink_Directory t);;
  WriteFID (tlink_Target t);;
  WriteString (tlink_Name t).

#[export] Instance tlink_Message : Message tlink := {|
  Message_encoder :=
    {| encode := keep tlink_encode; decode := tlink_decode |};
  typ := msgTlink;
|}.

Inductive rlink := mk_rlink.

Definition rlink_decode (r : rlink) : BufM rlink := mret r.
Definition rlink_encode (r : rlink) : BufM unit := mret tt.

#[export] Instance rlink_Message : Message rlink := {|
  Message_encoder :=
    {| encode := keep rlink_encode; decode := rlink_decode |};
  typ := msgRlink;
|}.

Record trenameat := mk_trenameat {
  trenameat_OldDirectory : Z; trenameat_OldName : string; trenameat_NewDirectory : Z;
  trenameat_NewName : string;
}.

Definition trenameat_decode (t : trenameat) : BufM trenameat :=
  OldDirectory ← ReadFID; let t := t <| trenameat_OldDirectory := OldDirectory |> in
  OldName ← ReadString; let t := t <| trenameat_OldName := OldName |> in
  NewDirectory ← ReadFID; let t := t <| trenameat_NewDirectory := NewDirectory |> in
  NewName ← ReadString; let t := t <| trenameat_NewName := NewName |> in
  mret t.
Definition trenameat_encode (t : trenameat) : BufM unit :=
  WriteFID (trenameat_OldDirectory t);;
  WriteString (trenameat_OldName t);;
  WriteFID (trenameat_NewDirectory t);;
  WriteString (trenameat_NewName t).

#[export] Instance trenameat_Message : Message trenameat := {|
  Message_encoder :=
    {| encode := keep trenameat_encode; decode := trenameat_decode |};
  typ := msgTrenameat;
|}.

Inductive rrenameat := mk_rrenameat.

Definition rrenameat_decode (r : rrenameat) : BufM rrenameat := mret r.
Definition rrenameat_encode (r : rrenameat) : BufM unit := mret tt.

#[export] Instance rrenameat_Message : Message rrenameat := {|
  Message_encoder :=
    {| encode := keep rrenameat_encode; decode := rrenameat_decode |};
  typ := msgRrenameat;
|}.

Record tunlinkat := mk_tunlinkat {
  tunlinkat_Directory : Z; tunlinkat_Name : string; tunlinkat_Flags : Z;
}.

Definition tunlinkat_decode (t : tunlinkat) : BufM tunlinkat :=
  Directory ← ReadFID; let t := t <| tunlinkat_Directory := Directory |> in
  Name ← ReadString; let t := t <| tunlinkat_Name := Name |> in
  Flags ← Read32; let t := t <| tunlinkat_Flags := Flags |> in
  mret t.
Definition tunlinkat_encode (t : tunlinkat) : BufM unit :=
  WriteFID (tunlinkat_Directory t);;
  WriteString (tunlinkat_Name t);;
  Write32 (tunlinkat_Flags t).

#[export] Instance tunlinkat_Message : Message tunlinkat := {|
  Message_encoder :=
    {| encode := keep tunlinkat_encode; decode := tunlinkat_decode |};
  typ := msgTunlinkat;
|}.

Inductive runlinkat := mk_runlinkat.

Definition runlinkat_decode (r : runlinkat) : BufM runlinkat := mret r.
Definition runlinkat_encode (r : runlinkat) : BufM unit := mret tt.

#[export] Instance runlinkat_Message : Message runlinkat := {|
  Message_encoder :=
    {| encode := keep runlinkat_encode; decode := runlinkat_decode |};
  typ := msgRunlinkat;
|}.

Record trename := mk_trename {
  trename_fid : Z; trename_Directory : Z; trename_Name : string;
}.

Definition trename_decode (t : trename) : BufM trename :=
  fid ← ReadFID; let t := t <| trename_fid := fid |> in
  Directory ← ReadFID; let t := t <| trename_Directory := Directory |> in
  Name ← ReadString; let t := t <| trename_Name := Name |> in
  mret t.
Definition trename_encode (t : trename) : BufM unit :=
  WriteFID (trename_fid t);;
  WriteFID (trename_Directory t);;
  WriteString (trename_Name t).

#[export] Instance trename_Message : Message trename := {|
  Message_encoder :=
    {| encode := keep trename_encode; decode := trename_decode |};
  typ := msgTrename;
|}.

Inductive rrename := mk_rrename.

Definition rrename_decode (r : rrename) : BufM rrename := mret r.
Definition rrename_encode (r : rrename) : BufM unit := mret tt.

#[export] Instance rrename_Message : Message rrename := {|
  Message_encoder :=
    {| encode := keep rrename_encode; decode := rrename_decode |};
  typ := msgRrename;
|}.

Record treadlink := mk_treadlink {
  treadlink_fid : Z;
}.

Definition treadlink_decode (t : treadlink) : BufM treadlink :=
  fid ← ReadFID; let t := t <| treadlink_fid := fid |> in
  mret t.
Definition treadlink_encode (t : treadlink) : BufM unit :=
  WriteFID (treadlink_fid t).

#[export] Instance treadlink_Message : Message treadlink := {|
  Message_encoder :=
    {| encode := keep treadlink_encode; decode := treadlink_decode |};
  typ := msgTreadlink;
|}.

Record rreadlink := mk_rreadlink {
  rreadlink_Target : string;
}.

Definition rreadlink_decode (r : rreadlink) : BufM rreadlink :=
  Target ← ReadString; let r := r <| rreadlink_Target := Target |> in
  mret r.
Definition rreadlink_encode (r : rreadlink) : BufM unit :=
  WriteString (rreadlink_Target r).

#[export] Instance rreadlink_Message : Message rreadlink := {|
  Message_encoder :=
    {| encode := keep rreadlink_encode; decode := rreadlink_decode |};
  typ := msgRreadlink;
|}.

Record tread := mk_tread {
  tread_fid : Z; tread_Offset : Z; tread_Count : Z;
}.

Definition tread_decode (t : tread) : BufM tread :=
  fid ← ReadFID; let t := t <| tread_fid := fid |> in
  Offset ← Read64; let t := t <| tread_Offset := Offset |> in
  Count ← Read32; let t := t <| tread_Count := Count |> in
  mret t.
Definition tread_encode (t : tread) : BufM unit :=
  WriteFID (tread_fid t);;
  Write64 (tread_Offset t);;
  Write32 (tread_Count t).

#[export] Instance tread_Message : Message tread := {|
  Message_encoder :=
    {| encode := keep tread_encode; decode := tread_decode |};
  typ := msgTread;
|}.

(** The response to a [tread]; its data travels as the payload. *)
Record rread := mk_rread { rread_Data : list byte }.

Definition rread_decode (r : rread) : BufM rread :=
  count ← Read32;
  (if negb (count =? wrap32 (Z.of_nat (length (rread_Data r))))
   then markOverrun else mret tt);;
  mret r.
Definition rread_encode (r : rread) : BufM unit :=
  Write32 (wrap32 (Z.of_nat (length (rread_Data r)))).

#[export] Instance rread_Message : Message rread := {|
  Message_encoder := {| encode := keep rread_encode; decode := rread_decode |};
  typ := msgRread;
|}.
#[export] Instance rread_payloader : payloader rread := {|
  FixedSize := 4;
  Payload := rread_Data;
  SetPayload := fun _ p => mk_rread p;
|}.

(** What a server answers to a [tread]: an [rread] whose data lies in a buffer
    [fullBuffer] of the connection's pool, which gets it back. *)
Record rreadServerPayloader := mk_rreadServerPayloader {
  rsp_rread : rread; rsp_fullBuffer : list byte;
}.

#[export] Instance rreadServerPayloader_Message : Message rreadServerPayloader := {|
  Message_encoder := {|
    encode := keep (fun r => rread_encode (rsp_rread r));
    decode := fun r => rr ← rread_decode (rsp_rread r);
                       mret (r <| rsp_rread := rr |>) |};
  typ := msgRread;
|}.
#[export] Instance rreadServerPayloader_payloader : payloader rreadServerPayloader := {|
  FixedSize := 4;
  Payload := fun r => rread_Data (rsp_rread r);
  SetPayload := fun r p => mk_rreadServerPayloader (mk_rread p) (rsp_fullBuffer r);
|}.

(** [copy(r.Data, r.cs.pristineZeros)]: [Data] is the head of [fullBuffer], and
    [zeros] is the length of the connection's block of zeros.  The result is the
    buffer that goes back to the pool. *)
Definition rreadServerPayloader_PayloadCleanup (r : rreadServerPayloader) (zeros : nat)
    : list byte :=
  let n := Nat.min (length (rread_Data (rsp_rread r))) zeros in
  replicate n x00 ++ drop n (rsp_fullBuffer r).

(** A write request; its data travels as the payload. *)
Record twrite := mk_twrite {
  twrite_fid : Z; twrite_Offset : Z; twrite_Data : list byte;
}.

Definition twrite_decode (t : twrite) : BufM twrite :=
  fid ← ReadFID; let t := t <| twrite_fid := fid |> in
  Offset ← Read64; let t := t <| twrite_Offset := Offset |> in
  count ← Read32;
  (if negb (count =? wrap32 (Z.of_nat (length (twrite_Data t))))
   then markOverrun else mret tt);;
  mret t.
Definition twrite_encode (t : twrite) : BufM unit :=
  WriteFID (twrite_fid t);;
  Write64 (twrite_Offset t);;
  Write32 (wrap32 (Z.of_nat (length (twrite_Data t)))).

#[export] Instance twrite_Message : Message twrite := {|
  Message_encoder := {| encode := keep twrite_encode; decode := twrite_decode |};
  typ := msgTwrite;
|}.
#[export] Instance twrite_payloader : payloader twrite := {|
  FixedSize := 16;
  Payload := twrite_Data;
  SetPayload := fun t p => mk_twrite (twrite_fid t) (twrite_Offset t) p;
|}.

Record rwrite := mk_rwrite {
  rwrite_Count : Z;
}.

Definition rwrite_decode (r : rwrite) : BufM rwrite :=
  Count ← Read32; let r := r <| rwrite_Count := Count |> in
  mret r.
Definition rwrite_encode (r : rwrite) : BufM unit :=
  Write32 (rwrite_Count r).

#[export] Instance rwrite_Message : Message rwrite := {|
  Message_encoder :=
    {| encode := keep rwrite_encode; decode := rwrite_decode |};
  typ := msgRwrite;
|}.

Record tmknod := mk_tmknod {
  tmknod_Directory : Z; tmknod_Name : string; tmknod_Mode : Z; tmknod_Major : Z;
  tmknod_Minor : Z; tmknod_GID : Z;
}.

Definition tmknod_decode (t : tmknod) : BufM tmknod :=
  Directory ← ReadFID; let t := t <| tmknod_Directory := Directory |> in
  Name ← ReadString; let t := t <| tmknod_Name := Name |> in
  Mode ← ReadFileMode; let t := t <| tmknod_Mode := Mode |> in
  Major ← Read32; let t := t <| tmknod_Major := Major |> in
  Minor ← Read32; let t := t <| tmknod_Minor := Minor |> in
  GID ← ReadGID; let t := t <| tmknod_GID := GID |> in
  mret t.
Definition tmknod_encode (t : tmknod) : BufM unit :=
  WriteFID (tmknod_Directory t);;
  WriteString (tmknod_Name t);;
  WriteFileMode (tmknod_Mode t);;
  Write32 (tmknod_Major t);;
  Write32 (tmknod_Minor t);;
  WriteGID (tmknod_GID t).

#[export] Instance tmknod_Message : Message tmknod := {|
  Message_encoder :=
    {| encode := keep tmknod_encode; decode := tmknod_decode |};
  typ := msgTmknod;
|}.

Record rmknod := mk_rmknod {
  rmknod_QID : QID;
}.

Definition rmknod_decode (r : rmknod) : BufM rmknod :=
  QID_ ← QID_decode (rmknod_QID r); let r := r <| rmknod_QID := QID_ |> in
  mret r.
Definition rmknod_encode (r : rmknod) : BufM unit :=
  QID_encode (rmknod_QID r).

#[export] Instance rmknod_Message : Message rmknod := {|
  Message_encoder :=
    {| encode := keep rmknod_encode; decode := rmknod_decode |};
  typ := msgRmknod;
|}.

Record tmkdir := mk_tmkdir {
  tmkdir_Directory : Z; tmkdir_Name : string; tmkdir_Permissions : Z; tmkdir_GID : Z;
}.

Definition tmkdir_decode (t : tmkdir) : BufM tmkdir :=
  Directory ← ReadFID; let t := t <| tmkdir_Directory := Directory |> in
  Name ← ReadString; let t := t <| tmkdir_Name := Name |> in
  Permissions ← ReadPermissions; let t := t <| tmkdir_Permissions := Permissions |> in
  GID ← ReadGID; let t := t <| tmkdir_GID := GID |> in
  mret t.
Definition tmkdir_encode (t : tmkdir) : BufM unit :=
  WriteFID (tmkdir_Directory t);;
  WriteString (tmkdir_Name t);;
  WritePermissions (tmkdir_Permissions t);;
  WriteGID (tmkdir_GID t).

#[export] Instance tmkdir_Message : Message tmkdir := {|
  Message_encoder :=
    {| encode := keep tmkdir_encode; decode := tmkdir_decode |};
  typ := msgTmkdir;
|}.

Record rmkdir := mk_rmkdir {
  rmkdir_QID : QID;
}.

Definition rmkdir_decode (r : rmkdir) : BufM rmkdir :=
  QID_ ← QID_decode (rmkdir_QID r); let r := r <| rmkdir_QID := QID_ |> in
  mret r.
Definition rmkdir_encode (r : rmkdir) : BufM unit :=
  QID_encode (rmkdir_QID r).

#[export] Instance rmkdir_Message : Message rmkdir := {|
  Message_encoder :=
    {| encode := keep rmkdir_encode; decode := rmkdir_decode |};
  typ := msgRmkdir;
|}.

Record tgetattr := mk_tgetattr {
  tgetattr_fid : Z; tgetattr_AttrMask : AttrMask;
}.

Definition tgetattr_decode (t : tgetattr) : BufM tgetattr :=
  fid ← ReadFID; let t := t <| tgetattr_fid := fid |> in
  AttrMask_ ← AttrMask_decode (tgetattr_AttrMask t); let t := t <| tgetattr_AttrMask := AttrMask_ |> in
  mret t.
Definition tgetattr_encode (t : tgetattr) : BufM unit :=
  WriteFID (tgetattr_fid t);;
  AttrMask_encode (tgetattr_AttrMask t).

#[export] Instance tgetattr_Message : Message tgetattr := {|
  Message_encoder :=
    {| encode := keep tgetattr_encode; decode := tgetattr_decode |};
  typ := msgTgetattr;
|}.

Record rgetattr := mk_rgetattr {
  rgetattr_Valid : AttrMask; rgetattr_QID : QID; rgetattr_Attr : Attr;
}.

Definition rgetattr_decode (r : rgetattr) : BufM rgetattr :=
  Valid ← AttrMask_decode (rgetattr_Valid r); let r := r <| rgetattr_Valid := Valid |> in
  QID_ ← QID_decode (rgetattr_QID r); let r := r <| rgetattr_QID := QID_ |> in
  Attr_ ← Attr_decode (rgetattr_Attr r); let r := r <| rgetattr_Attr := Attr_ |> in
  mret r.
Definition rgetattr_encode (r : rgetattr) : BufM unit :=
  AttrMask_encode (rgetattr_Valid r);;
  QID_encode (rgetattr_QID r);;
  Attr_encode (rgetattr_Attr r).

#[export] Instance rgetattr_Message : Message rgetattr := {|
  Message_encoder :=
    {| encode := keep rgetattr_encode; decode := rgetattr_decode |};
  typ := msgRgetattr;
|}.

Record tsetattr := mk_tsetattr {
  tsetattr_fid : Z; tsetattr_Valid : SetAttrMask; tsetattr_SetAttr : SetAttr;
}.

Definition tsetattr_decode (t : tsetattr) : BufM tsetattr :=
  fid ← ReadFID; let t := t <| tsetattr_fid := fid |> in
  Valid ← SetAttrMask_decode (tsetattr_Valid t); let t := t <| tsetattr_Valid := Valid |> in
  SetAttr_ ← SetAttr_decode (tsetattr_SetAttr t); let t := t <| tsetattr_SetAttr := SetAttr_ |> in
  mret t.
Definition tsetattr_encode (t : tsetattr) : BufM unit :=
  WriteFID (tsetattr_fid t);;
  SetAttrMask_encode (tsetattr_Valid t);;
  SetAttr_encode (tsetattr_SetAttr t).

#[export] Instance tsetattr_Message : Message tsetattr := {|
  Message_encoder :=
    {| encode := keep tsetattr_encode; decode := tsetattr_decode |};
  typ := msgTsetattr;
|}.

Inductive rsetattr := mk_rsetattr.

Definition rsetattr_decode (r : rsetattr) : BufM rsetattr := mret r.
Definition rsetattr_encode (r : rsetattr) : BufM unit := mret tt.

#[export] Instance rsetattr_Message : Message rsetattr := {|
  Message_encoder :=
    {| encode := keep rsetattr_encode; decode := rsetattr_decode |};
  typ := msgRsetattr;
|}.

Record txattrwalk := mk_txattrwalk {
  txattrwalk_fid : Z; txattrwalk_newFID : Z; txattrwalk_Name : string;
}.

Definition txattrwalk_decode (t : txattrwalk) : BufM txattrwalk :=
  fid ← ReadFID; let t := t <| txattrwalk_fid := fid |> in
  newFID ← ReadFID; let t := t <| txattrwalk_newFID := newFID |> in
  Name ← ReadString; let t := t <| txattrwalk_Name := Name |> in
  mret t.
Definition txattrwalk_encode (t : txattrwalk) : BufM unit :=
  WriteFID (txattrwalk_fid t);;
  WriteFID (txattrwalk_newFID t);;
  WriteString (txattrwalk_Name t).

#[export] Instance txattrwalk_Message : Message txattrwalk := {|
  Message_encoder :=
    {| encode := keep txattrwalk_encode; decode := txattrwalk_decode |};
  typ := msgTxattrwalk;
|}.

Record rxattrwalk := mk_rxattrwalk {
  rxattrwalk_Size : Z;
}.

Definition rxattrwalk_decode (r : rxattrwalk) : BufM rxattrwalk :=
  Size ← Read64; let r := r <| rxattrwalk_Size := Size |> in
  mret r.
Definition rxattrwalk_encode (r : rxattrwalk) : BufM unit :=
  Write64 (rxattrwalk_Size r).

#[export] Instance rxattrwalk_Message : Message rxattrwalk := {|
  Message_encoder :=
    {| encode := keep rxattrwalk_encode; decode := rxattrwalk_decode |};
  typ := msgRxattrwalk;
|}.

Record txattrcreate := mk_txattrcreate {
  txattrcreate_fid : Z; txattrcreate_Name : string; txattrcreate_AttrSize : Z;
  txattrcreate_Flags : Z;
}.

Definition txattrcreate_decode (t : txattrcreate) : BufM txattrcreate :=
  fid ← ReadFID; let t := t <| txattrcreate_fid := fid |> in
  Name ← ReadString; let t := t <| txattrcreate_Name := Name |> in
  AttrSize ← Read64; let t := t <| txattrcreate_AttrSize := AttrSize |> in
  Flags ← Read32; let t := t <| txattrcreate_Flags := Flags |> in
  mret t.
Definition txattrcreate_encode (t : txattrcreate) : BufM unit :=
  WriteFID (txattrcreate_fid t);;
  WriteString (txattrcreate_Name t);;
  Write64 (txattrcreate_AttrSize t);;
  Write32 (txattrcreate_Flags t).

#[export] Instance txattrcreate_Message : Message txattrcreate := {|
  Message_encoder :=
    {| encode := keep txattrcreate_encode; decode := txattrcreate_decode |};
  typ := msgTxattrcreate;
|}.

Inductive rxattrcreate := mk_rxattrcreate.

Definition rxattrcreate_decode (r : rxattrcreate) : BufM rxattrcreate := mret r.
Definition rxattrcreate_encode (r : rxattrcreate) : BufM unit := mret tt.

#[export] Instance rxattrcreate_Message : Message rxattrcreate := {|
  Message_encoder :=
    {| encode := keep rxattrcreate_encode; decode := rxattrcreate_decode |};
  typ := msgRxattrcreate;
|}.

Record treaddir := mk_treaddir {
  treaddir_Directory : Z; treaddir_Offset : Z; treaddir_Count : Z;
}.

Definition treaddir_decode (t : treaddir) : BufM treaddir :=
  Directory ← ReadFID; let t := t <| treaddir_Directory := Directory |> in
  Offset ← Read64; let t := t <| treaddir_Offset := Offset |> in
  Count ← Read32; let t := t <| treaddir_Count := Count |> in
  mret t.
Definition treaddir_encode (t : treaddir) : BufM unit :=
  WriteFID (treaddir_Directory t);;
  Write64 (treaddir_Offset t);;
  Write32 (treaddir_Count t).

#[export] Instance treaddir_Message : Message treaddir := {|
  Message_encoder :=
    {| encode := keep treaddir_encode; decode := treaddir_decode |};
  typ := msgTreaddir;
|}.

(** The response to a [treaddir].  [Count] is the byte limit, [Entries] what the
    file returned; [encode] marshals the entries that fit into [payload]. *)
Record rreaddir := mk_rreaddir {
  rreaddir_Count : Z; rreaddir_Entries : list Dirent; rreaddir_payload : list byte;
}.

(** The loop of [decode]: it appends the entries to [Entries] and ends at the
    first that does not decode completely.  Every entry takes at least one byte,
    so one more round than there are bytes is enough fuel. *)
Fixpoint rreaddir_entries (fuel : nat) (b : buffer) (Entries : list Dirent) : list Dirent :=
  match fuel with
  | O => Entries
  | S fuel =>
      let '(d, b') := Dirent_decode Dirent_zero b in
      if isOverrun b' then Entries else rreaddir_entries fuel b' (Entries ++ [d])
  end.

Definition rreaddir_decode (r : rreaddir) : BufM rreaddir :=
  Count ← Read32; let r := r <| rreaddir_Count := Count |> in
  let entriesBuf := Buffer (rreaddir_payload r) false in
  let r := r <| rreaddir_Entries := take 0 (rreaddir_Entries r) |> in
  let r := r <| rreaddir_Entries :=
    rreaddir_entries (S (length (rreaddir_payload r))) entriesBuf (rreaddir_Entries r) |> in
  mret r.

(** The loop of [encode]: [entriesBuf] accumulates the encodings, [payloadSize]
    is the length of the last one that is within the limit. *)
Fixpoint rreaddir_fill (Count : Z) (es : list Dirent) (entriesBuf : buffer)
    (payloadSize : nat) : buffer * nat :=
  match es with
  | [] => (entriesBuf, payloadSize)
  | d :: es =>
      let '(_, entriesBuf) := Dirent_encode d entriesBuf in
      if Count <? Z.of_nat (length (data entriesBuf))
      then (entriesBuf, payloadSize)
      else rreaddir_fill Count es entriesBuf (length (data entriesBuf))
  end.

Definition rreaddir_encode (r : rreaddir) : BufM rreaddir :=
  let '(entriesBuf, payloadSize) :=
    rreaddir_fill (rreaddir_Count r) (rreaddir_Entries r) (Buffer [] false) 0 in
  let Count := wrap32 (Z.of_nat payloadSize) in
  Write32 Count;;
  mret (mk_rreaddir Count (rreaddir_Entries r) (take payloadSize (data entriesBuf))).

#[export] Instance rreaddir_Message : Message rreaddir := {|
  Message_encoder := {| encode := rreaddir_encode; decode := rreaddir_decode |};
  typ := msgRreaddir;
|}.
#[export] Instance rreaddir_payloader : payloader rreaddir := {|
  FixedSize := 4;
  Payload := rreaddir_payload;
  SetPayload := fun r p => mk_rreaddir (rreaddir_Count r) (rreaddir_Entries r) p;
|}.

Record tfsync := mk_tfsync {
  tfsync_fid : Z;
}.

Definition tfsync_decode (t : tfsync) : BufM tfsync :=
  fid ← ReadFID; let t := t <| tfsync_fid := fid |> in
  mret t.
Definition tfsync_encode (t : tfsync) : BufM unit :=
  WriteFID (tfsync_fid t).

#[export] Instance tfsync_Message : Message tfsync := {|
  Message_encoder :=
    {| encode := keep tfsync_encode; decode := tfsync_decode |};
  typ := msgTfsync;
|}.

Inductive rfsync := mk_rfsync.

Definition rfsync_decode (r : rfsync) : BufM rfsync := mret r.
Definition rfsync_encode (r : rfsync) : BufM unit := mret tt.

#[export] Instance rfsync_Message : Message rfsync := {|
  Message_encoder :=
    {| encode := keep rfsync_encode; decode := rfsync_decode |};
  typ := msgRfsync;
|}.

Record tstatfs := mk_tstatfs {
  tstatfs_fid : Z;
}.

Definition tstatfs_decode (t : tstatfs) : BufM tstatfs :=
  fid ← ReadFID; let t := t <| tstatfs_fid := fid |> in
  mret t.
Definition tstatfs_encode (t : tstatfs) : BufM unit :=
  WriteFID (tstatfs_fid t).

#[export] Instance tstatfs_Message : Message tstatfs := {|
  Message_encoder :=
    {| encode := keep tstatfs_encode; decode := tstatfs_decode |};
  typ := msgTstatfs;
|}.

Record rstatfs := mk_rstatfs {
  rstatfs_FSStat : FSStat;
}.

Definition rstatfs_decode (r : rstatfs) : BufM rstatfs :=
  FSStat_ ← FSStat_decode (rstatfs_FSStat r); let r := r <| rstatfs_FSStat := FSStat_ |> in
  mret r.
Definition rstatfs_encode (r : rstatfs) : BufM unit :=
  FSStat_encode (rstatfs_FSStat r).

#[export] Instance rstatfs_Message : Message rstatfs := {|
  Message_encoder :=
    {| encode := keep rstatfs_encode; decode := rstatfs_decode |};
  typ := msgRstatfs;
|}.

Record twalkgetattr := mk_twalkgetattr {
  twalkgetattr_fid : Z; twalkgetattr_newFID : Z; twalkgetattr_Names : list string;
}.

Definition twalkgetattr_decode (t : twalkgetattr) : BufM twalkgetattr :=
  fid ← ReadFID; let t := t <| twalkgetattr_fid := fid |> in
  newFID ← ReadFID; let t := t <| twalkgetattr_newFID := newFID |> in
  Names ← names_decode (twalkgetattr_Names t); let t := t <| twalkgetattr_Names := Names |> in
  mret t.
Definition twalkgetattr_encode (t : twalkgetattr) : BufM unit :=
  WriteFID (twalkgetattr_fid t);;
  WriteFID (twalkgetattr_newFID t);;
  names_encode (twalkgetattr_Names t).

#[export] Instance twalkgetattr_Message : Message twalkgetattr := {|
  Message_encoder :=
    {| encode := keep twalkgetattr_encode; decode := twalkgetattr_decode |};
  typ := msgTwalkgetattr;
|}.

Record rwalkgetattr := mk_rwalkgetattr {
  rwalkgetattr_Valid : AttrMask; rwalkgetattr_Attr : Attr;
  rwalkgetattr_QIDs : list QID;
}.

Definition rwalkgetattr_decode (r : rwalkgetattr) : BufM rwalkgetattr :=
  Valid ← AttrMask_decode (rwalkgetattr_Valid r); let r := r <| rwalkgetattr_Valid := Valid |> in
  Attr_ ← Attr_decode (rwalkgetattr_Attr r); let r := r <| rwalkgetattr_Attr := Attr_ |> in
  QIDs ← qids_decode (rwalkgetattr_QIDs r); let r := r <| rwalkgetattr_QIDs := QIDs |> in
  mret r.
Definition rwalkgetattr_encode (r : rwalkgetattr) : BufM unit :=
  AttrMask_encode (rwalkgetattr_Valid r);;
  Attr_encode (rwalkgetattr_Attr r);;
  qids_encode (rwalkgetattr_QIDs r).

#[export] Instance rwalkgetattr_Message : Message rwalkgetattr := {|
  Message_encoder :=
    {| encode := keep rwalkgetattr_encode; decode := rwalkgetattr_decode |};
  typ := msgRwalkgetattr;
|}.

Record tucreate := mk_tucreate {
  tucreate_tlcreate : tlcreate; tucreate_UID : Z;
}.

Definition tucreate_decode (t : tucreate) : BufM tucreate :=
  tlcreate_ ← tlcreate_decode (tucreate_tlcreate t); let t := t <| tucreate_tlcreate := tlcreate_ |> in
  UID ← ReadUID; let t := t <| tucreate_UID := UID |> in
  mret t.
Definition tucreate_encode (t : tucreate) : BufM unit :=
  tlcreate_encode (tucreate_tlcreate t);;
  WriteUID (tucreate_UID t).

#[export] Instance tucreate_Message : Message tucreate := {|
  Message_encoder :=
    {| encode := keep tucreate_encode; decode := tucreate_decode |};
  typ := msgTucreate;
|}.

Record rucreate := mk_rucreate {
  rucreate_rlcreate : rlcreate;
}.

Definition rucreate_decode (r : rucreate) : BufM rucreate :=
  rlcreate_ ← rlcreate_decode (rucreate_rlcreate r); let r := r <| rucreate_rlcreate := rlcreate_ |> in
  mret r.
Definition rucreate_encode (r : rucreate) : BufM unit :=
  rlcreate_encode (rucreate_rlcreate r).

#[export] Instance rucreate_Message : Message rucreate := {|
  Message_encoder :=
    {| encode := keep rucreate_encode; decode := rucreate_decode |};
  typ := msgRucreate;
|}.

Record tumkdir := mk_tumkdir {
  tumkdir_tmkdir : tmkdir; tumkdir_UID : Z;
}.

Definition tumkdir_decode (t : tumkdir) : BufM tumkdir :=
  tmkdir_ ← tmkdir_decode (tumkdir_tmkdir t); let t := t <| tumkdir_tmkdir := tmkdir_ |> in
  UID ← ReadUID; let t := t <| tumkdir_UID := UID |> in
  mret t.
Definition tumkdir_encode (t : tumkdir) : BufM unit :=
  tmkdir_encode (tumkdir_tmkdir t);;
  WriteUID (tumkdir_UID t).

#[export] Instance tumkdir_Message : Message tumkdir := {|
  Message_encoder :=
    {| encode := keep tumkdir_encode; decode := tumkdir_decode |};
  typ := msgTumkdir;
|}.

Record rumkdir := mk_rumkdir {
  rumkdir_rmkdir : rmkdir;
}.

Definition rumkdir_decode (r : rumkdir) : BufM rumkdir :=
  rmkdir_ ← rmkdir_decode (rumkdir_rmkdir r); let r := r <| rumkdir_rmkdir := rmkdir_ |> in
  mret r.
Definition rumkdir_encode (r : rumkdir) : BufM unit :=
  rmkdir_encode (rumkdir_rmkdir r).

#[export] Instance rumkdir_Message : Message rumkdir := {|
  Message_encoder :=
    {| encode := keep rumkdir_encode; decode := rumkdir_decode |};
  typ := msgRumkdir;
|}.

Record tumknod := mk_tumknod {
  tumknod_tmknod : tmknod; tumknod_UID : Z;
}.

Definition tumknod_decode (t : tumknod) : BufM tumknod :=
  tmknod_ ← tmknod_decode (tumknod_tmknod t); let t := t <| tumknod_tmknod := tmknod_ |> in
  UID ← ReadUID; let t := t <| tumknod_UID := UID |> in
  mret t.
Definition tumknod_encode (t : tumknod) : BufM unit :=
  tmknod_encode (tumknod_tmknod t);;
  WriteUID (tumknod_UID t).

#[export] Instance tumknod_Message : Message tumknod := {|
  Message_encoder :=
    {| encode := keep tumknod_encode; decode := tumknod_decode |};
  typ := msgTumknod;
|}.

Record rumknod := mk_rumknod {
  rumknod_rmknod : rmknod;
}.

Definition rumknod_decode (r : rumknod) : BufM rumknod :=
  rmknod_ ← rmknod_decode (rumknod_rmknod r); let r := r <| rumknod_rmknod := rmknod_ |> in
  mret r.
Definition rumknod_encode (r : rumknod) : BufM unit :=
  rmknod_encode (rumknod_rmknod r).

#[export] Instance rumknod_Message : Message rumknod := {|
  Message_encoder :=
    {| encode := keep rumknod_encode; decode := rumknod_decode |};
  typ := msgRumknod;
|}.

Record tusymlink := mk_tusymlink {
  tusymlink_tsymlink : tsymlink; tusymlink_UID : Z;
}.

Definition tusymlink_decode (t : tusymlink) : BufM tusymlink :=
  tsymlink_ ← tsymlink_decode (tusymlink_tsymlink t); let t := t <| tusymlink_tsymlink := tsymlink_ |> in
  UID ← ReadUID; let t := t <| tusymlink_UID := UID |> in
  mret t.
Definition tusymlink_encode (t : tusymlink) : BufM unit :=
  tsymlink_encode (tusymlink_tsymlink t);;
  WriteUID (tusymlink_UID t).

#[export] Instance tusymlink_Message : Message tusymlink := {|
  Message_encoder :=
    {| encode := keep tusymlink_encode; decode := tusymlink_decode |};
  typ := msgTusymlink;
|}.

Record rusymlink := mk_rusymlink {
  rusymlink_rsymlink : rsymlink;
}.

Definition rusymlink_decode (r : rusymlink) : BufM rusymlink :=
  rsymlink_ ← rsymlink_decode (rusymlink_rsymlink r); let r := r <| rusymlink_rsymlink := rsymlink_ |> in
  mret r.
Definition rusymlink_encode (r : rusymlink) : BufM unit :=
  rsymlink_encode (rusymlink_rsymlink r).

#[export] Instance rusymlink_Message : Message rusymlink := {|
  Message_encoder :=
    {| encode := keep rusymlink_encode; decode := rusymlink_decode |};
  typ := msgRusymlink;
|}.

Record tlock := mk_tlock {
  tlock_fid : Z; tlock_Type : Z; tlock_Flags : Z; tlock_Start : Z; tlock_Length : Z;
  tlock_PID : Z; tlock_Client : string;
}.

Definition tlock_decode (t : tlock) : BufM tlock :=
  fid ← ReadFID; let t := t <| tlock_fid := fid |> in
  Type_ ← Read8; let t := t <| tlock_Type := Type_ |> in
  Flags ← Read32; let t := t <| tlock_Flags := Flags |> in
  Start ← Read64; let t := t <| tlock_Start := Start |> in
  Length ← Read64; let t := t <| tlock_Length := Length |> in
  PID ← ReadPID; let t := t <| tlock_PID := PID |> in
  Client ← ReadString; let t := t <| tlock_Client := Client |> in
  mret t.
Definition tlock_encode (t : tlock) : BufM unit :=
  WriteFID (tlock_fid t);;
  Write8 (tlock_Type t);;
  Write32 (tlock_Flags t);;
  Write64 (tlock_Start t);;
  Write64 (tlock_Length t);;
  WritePID (tlock_PID t);;
  WriteString (tlock_Client t).

#[export] Instance tlock_Message : Message tlock := {|
  Message_encoder :=
    {| encode := keep tlock_encode; decode := tlock_decode |};
  typ := msgTlock;
|}.

Record rlock := mk_rlock {
  rlock_Status : Z;
}.

Definition rlock_decode (r : rlock) : BufM rlock :=
  Status ← Read8; let r := r <| rlock_Status := Status |> in
  mret r.
Definition rlock_encode (r : rlock) : BufM unit :=
  Write8 (rlock_Status r).

#[export] Instance rlock_Message : Message rlock := {|
  Message_encoder :=
    {| encode := keep rlock_encode; decode := rlock_decode |};
  typ := msgRlock;
|}.

(** ** Well-formed messages

    The values a field of the source's type can hold and the wire format can
    carry: a string or a slice within its 16-bit count, permissions within the
    mask that both sides apply, a [fid] within 32 bits. *)

Definition FSStat_zero : FSStat := mkFSStat 0 0 0 0 0 0 0 0 0.
Definition SetAttrMask_zero : SetAttrMask :=
  mkSetAttrMask false false false false false false false false false.
Definition SetAttr_zero : SetAttr := mkSetAttr 0 0 0 0 0 0 0 0.

Definition names_wf (names : list string) : Prop :=
  u16 (Z.of_nat (length names)) /\ Forall str16 names.
Definition qids_wf (qids : list QID) : Prop :=
  u16 (Z.of_nat (length qids)) /\ Forall QID_wf qids.

Definition tversion_wf (t : tversion) : Prop :=
  u32 (tversion_MSize t) /\ str16 (tversion_Version t).
Definition tversion_zero : tversion := mk_tversion 0 EmptyString.

Definition rversion_wf (r : rversion) : Prop :=
  u32 (rversion_MSize r) /\ str16 (rversion_Version r).
Definition rversion_zero : rversion := mk_rversion 0 EmptyString.

Definition tflush_wf (t : tflush) : Prop :=
  u16 (tflush_OldTag t).
Definition tflush_zero : tflush := mk_tflush 0.

Definition twalk_wf (t : twalk) : Prop :=
  u32 (twalk_fid t) /\ u32 (twalk_newFID t) /\ names_wf (twalk_Names t).
Definition twalk_zero : twalk := mk_twalk 0 0 [].

Definition rwalk_wf (r : rwalk) : Prop :=
  qids_wf (rwalk_QIDs r).
Definition rwalk_zero : rwalk := mk_rwalk [].

Definition tclunk_wf (t : tclunk) : Prop :=
  u32 (tclunk_fid t).
Definition tclunk_zero : tclunk := mk_tclunk 0.

Definition tremove_wf (t : tremove) : Prop :=
  u32 (tremove_fid t).
Definition tremove_zero : tremove := mk_tremove 0.

Definition rlerror_wf (r : rlerror) : Prop :=
  u32 (rlerror_Error r).
Definition rlerror_zero : rlerror := mk_rlerror 0.

Definition tauth_wf (t : tauth) : Prop :=
  u32 (tauth_Authenticationfid t) /\ str16 (tauth_UserName t) /\ str16
  (tauth_AttachName t) /\ u32 (tauth_UID t).
Definition tauth_zero : tauth := mk_tauth 0 EmptyString EmptyString 0.

Definition rauth_wf (r : rauth) : Prop :=
  QID_wf (rauth_QID r).
Definition rauth_zero : rauth := mk_rauth QID_zero.

Definition tattach_wf (t : tattach) : Prop :=
  u32 (tattach_fid t) /\ tauth_wf (tattach_Auth t).
Definition tattach_zero : tattach := mk_tattach 0 tauth_zero.

Definition rattach_wf (r : rattach) : Prop :=
  QID_wf (rattach_QID r).
Definition rattach_zero : rattach := mk_rattach QID_zero.

Definition tlopen_wf (t : tlopen) : Prop :=
  u32 (tlopen_fid t) /\ u32 (tlopen_Flags t).
Definition tlopen_zero : tlopen := mk_tlopen 0 0.

Definition rlopen_wf (r : rlopen) : Prop :=
  QID_wf (rlopen_QID r) /\ u32 (rlopen_IoUnit r).
Definition rlopen_zero : rlopen := mk_rlopen QID_zero 0.

Definition tlcreate_wf (t : tlcreate) : Prop :=
  u32 (tlcreate_fid t) /\ str16 (tlcreate_Name t) /\ u32 (tlcreate_OpenFlags t) /\
  perm12 (tlcreate_Permissions t) /\ u32 (tlcreate_GID t).
Definition tlcreate_zero : tlcreate := mk_tlcreate 0 EmptyString 0 0 0.

Definition rlcreate_wf (r : rlcreate) : Prop :=
  rlopen_wf (rlcreate_rlopen r).
Definition rlcreate_zero : rlcreate := mk_rlcreate rlopen_zero.

Definition tsymlink_wf (t : tsymlink) : Prop :=
  u32 (tsymlink_Directory t) /\ str16 (tsymlink_Name t) /\ str16 (tsymlink_Target t)
  /\ u32 (tsymlink_GID t).
Definition tsymlink_zero : tsymlink := mk_tsymlink 0 EmptyString EmptyString 0.

Definition rsymlink_wf (r : rsymlink) : Prop :=
  QID_wf (rsymlink_QID r).
Definition rsymlink_zero : rsymlink := mk_rsymlink QID_zero.

Definition tlink_wf (t : tlink) : Prop :=
  u32 (tlink_Directory t) /\ u32 (tlink_Target t) /\ str16 (tlink_Name t).
Definition tlink_zero : tlink := mk_tlink 0 0 EmptyString.

Definition trenameat_wf (t : trenameat) : Prop :=
  u32 (trenameat_OldDirectory t) /\ str16 (trenameat_OldName t) /\ u32
  (trenameat_NewDirectory t) /\ str16 (trenameat_NewName t).
Definition trenameat_zero : trenameat := mk_trenameat 0 EmptyString 0 EmptyString.

Definition tunlinkat_wf (t : tunlinkat) : Prop :=
  u32 (tunlinkat_Directory t) /\ str16 (tunlinkat_Name t) /\ u32 (tunlinkat_Flags t).
Definition tunlinkat_zero : tunlinkat := mk_tunlinkat 0 EmptyString 0.

Definition trename_wf (t : trename) : Prop :=
  u32 (trename_fid t) /\ u32 (trename_Directory t) /\ str16 (trename_Name t).
Definition trename_zero : trename := mk_trename 0 0 EmptyString.

Definition treadlink_wf (t : treadlink) : Prop :=
  u32 (treadlink_fid t).
Definition treadlink_zero : treadlink := mk_treadlink 0.

Definition rreadlink_wf (r : rreadlink) : Prop :=
  str16 (rreadlink_Target r).
Definition rreadlink_zero : rreadlink := mk_rreadlink EmptyString.

Definition tread_wf (t : tread) : Prop :=
  u32 (tread_fid t) /\ u64 (tread_Offset t) /\ u32 (tread_Count t).
Definition tread_zero : tread := mk_tread 0 0 0.

Definition rwrite_wf (r : rwrite) : Prop :=
  u32 (rwrite_Count r).
Definition rwrite_zero : rwrite := mk_rwrite 0.

Definition tmknod_wf (t : tmknod) : Prop :=
  u32 (tmknod_Directory t) /\ str16 (tmknod_Name t) /\ u32 (tmknod_Mode t) /\ u32
  (tmknod_Major t) /\ u32 (tmknod_Minor t) /\ u32 (tmknod_GID t).
Definition tmknod_zero : tmknod := mk_tmknod 0 EmptyString 0 0 0 0.

Definition rmknod_wf (r : rmknod) : Prop :=
  QID_wf (rmknod_QID r).
Definition rmknod_zero : rmknod := mk_rmknod QID_zero.

Definition tmkdir_wf (t : tmkdir) : Prop :=
  u32 (tmkdir_Directory t) /\ str16 (tmkdir_Name t) /\ perm12 (tmkdir_Permissions t)
  /\ u32 (tmkdir_GID t).
Definition tmkdir_zero : tmkdir := mk_tmkdir 0 EmptyString 0 0.

Definition rmkdir_wf (r : rmkdir) : Prop :=
  QID_wf (rmkdir_QID r).
Definition rmkdir_zero : rmkdir := mk_rmkdir QID_zero.

Definition tgetattr_wf (t : tgetattr) : Prop :=
  u32 (tgetattr_fid t).
Definition tgetattr_zero : tgetattr := mk_tgetattr 0 AttrMask_zero.

Definition rgetattr_wf (r : rgetattr) : Prop :=
  QID_wf (rgetattr_QID r) /\ Attr_wf (rgetattr_Attr r).
Definition rgetattr_zero : rgetattr := mk_rgetattr AttrMask_zero QID_zero Attr_zero.

Definition tsetattr_wf (t : tsetattr) : Prop :=
  u32 (tsetattr_fid t) /\ SetAttr_wf (tsetattr_SetAttr t).
Definition tsetattr_zero : tsetattr := mk_tsetattr 0 SetAttrMask_zero SetAttr_zero.

Definition txattrwalk_wf (t : txattrwalk) : Prop :=
  u32 (txattrwalk_fid t) /\ u32 (txattrwalk_newFID t) /\ str16 (txattrwalk_Name t).
Definition txattrwalk_zero : txattrwalk := mk_txattrwalk 0 0 EmptyString.

Definition rxattrwalk_wf (r : rxattrwalk) : Prop :=
  u64 (rxattrwalk_Size r).
Definition rxattrwalk_zero : rxattrwalk := mk_rxattrwalk 0.

Definition txattrcreate_wf (t : txattrcreate) : Prop :=
  u32 (txattrcreate_fid t) /\ str16 (txattrcreate_Name t) /\ u64
  (txattrcreate_AttrSize t) /\ u32 (txattrcreate_Flags t).
Definition txattrcreate_zero : txattrcreate := mk_txattrcreate 0 EmptyString 0 0.

Definition treaddir_wf (t : treaddir) : Prop :=
  u32 (treaddir_Directory t) /\ u64 (treaddir_Offset t) /\ u32 (treaddir_Count t).
Definition treaddir_zero : treaddir := mk_treaddir 0 0 0.

Definition tfsync_wf (t : tfsync) : Prop :=
  u32 (tfsync_fid t).
Definition tfsync_zero : tfsync := mk_tfsync 0.

Definition tstatfs_wf (t : tstatfs) : Prop :=
  u32 (tstatfs_fid t).
Definition tstatfs_zero : tstatfs := mk_tstatfs 0.

Definition rstatfs_wf (r : rstatfs) : Prop :=
  FSStat_wf (rstatfs_FSStat r).
Definition rstatfs_zero : rstatfs := mk_rstatfs FSStat_zero.

Definition twalkgetattr_wf (t : twalkgetattr) : Prop :=
  u32 (twalkgetattr_fid t) /\ u32 (twalkgetattr_newFID t) /\ names_wf
  (twalkgetattr_Names t).
Definition twalkgetattr_zero : twalkgetattr := mk_twalkgetattr 0 0 [].

Definition rwalkgetattr_wf (r : rwalkgetattr) : Prop :=
  Attr_wf (rwalkgetattr_Attr r) /\ qids_wf (rwalkgetattr_QIDs r).
Definition rwalkgetattr_zero : rwalkgetattr := mk_rwalkgetattr AttrMask_zero Attr_zero [].

Definition tucreate_wf (t : tucreate) : Prop :=
  tlcreate_wf (tucreate_tlcreate t) /\ u32 (tucreate_UID t).
Definition tucreate_zero : tucreate := mk_tucreate tlcreate_zero 0.

Definition rucreate_wf (r : rucreate) : Prop :=
  rlcreate_wf (rucreate_rlcreate r).
Definition rucreate_zero : rucreate := mk_rucreate rlcreate_zero.

Definition tumkdir_wf (t : tumkdir) : Prop :=
  tmkdir_wf (tumkdir_tmkdir t) /\ u32 (tumkdir_UID t).
Definition tumkdir_zero : tumkdir := mk_tumkdir tmkdir_zero 0.

Definition rumkdir_wf (r : rumkdir) : Prop :=
  rmkdir_wf (rumkdir_rmkdir r).
Definition rumkdir_zero : rumkdir := mk_rumkdir rmkdir_zero.

Definition tumknod_wf (t : tumknod) : Prop :=
  tmknod_wf (tumknod_tmknod t) /\ u32 (tumknod_UID t).
Definition tumknod_zero : tumknod := mk_tumknod tmknod_zero 0.

Definition rumknod_wf (r : rumknod) : Prop :=
  rmknod_wf (rumknod_rmknod r).
Definition rumknod_zero : rumknod := mk_rumknod rmknod_zero.

Definition tusymlink_wf (t : tusymlink) : Prop :=
  tsymlink_wf (tusymlink_tsymlink t) /\ u32 (tusymlink_UID t).
Definition tusymlink_zero : tusymlink := mk_tusymlink tsymlink_zero 0.

Definition rusymlink_wf (r : rusymlink) : Prop :=
  rsymlink_wf (rusymlink_rsymlink r).
Definition rusymlink_zero : rusymlink := mk_rusymlink rsymlink_zero.

Definition tlock_wf (t : tlock) : Prop :=
  u32 (tlock_fid t) /\ u8 (tlock_Type t) /\ u32 (tlock_Flags t) /\ u64 (tlock_Start t)
  /\ u64 (tlock_Length t) /\ i32 (tlock_PID t) /\ str16 (tlock_Client t).
Definition tlock_zero : tlock := mk_tlock 0 0 0 0 0 0 EmptyString.

Definition rlock_wf (r : rlock) : Prop :=
  u8 (rlock_Status r).
Definition rlock_zero : rlock := mk_rlock 0.

Definition rread_wf (r : rread) : Prop := u32 (Z.of_nat (length (rread_Data r))).
Definition twrite_wf (t : twrite) : Prop :=
  u32 (twrite_fid t) /\ u64 (twrite_Offset t) /\ u32 (Z.of_nat (length (twrite_Data t))).
Definition rreaddir_wf (r : rreaddir) : Prop :=
  u32 (rreaddir_Count r) /\ Forall Dirent_wf (rreaddir_Entries r).

(** ** Wire laws *)

Lemma codec_names names old :
  names_wf names -> codec (names_encode names) (names_decode old) names.
Proof.
  intros [Hn Hs]. unfold names_encode, names_decode, wrap16. rewrite Z.mod_small by done.
  eapply codec_bind; [by apply codec_16|auto with sticky|]. rewrite Nat2Z.id.
  apply (codec_all _ _ _ []); [auto with sticky|]. exact (Forall_impl _ _ _ Hs codec_String).
Qed.

Lemma sticky_names old : sticky (names_decode old).
Proof. unfold names_decode; auto with sticky. Qed.

Lemma codec_qids qids old :
  qids_wf qids -> codec (qids_encode qids) (qids_decode old) qids.
Proof.
  intros [Hn Hs]. unfold qids_encode, qids_decode, wrap16. rewrite Z.mod_small by done.
  eapply codec_bind; [by apply codec_16|auto with sticky|]. rewrite Nat2Z.id.
  apply (codec_all _ _ _ []); [auto with sticky|].
  exact (Forall_impl _ _ _ Hs (fun q Hq => codec_QID q QID_zero Hq)).
Qed.

Lemma sticky_qids old : sticky (qids_decode old).
Proof. unfold qids_decode; auto with sticky. Qed.

Lemma sint32_wrap32 v : i32 v -> sint32 (wrap32 v) = v.
Proof.
  unfold i32, sint32, wrap32. intros Hv. rewrite Zplus_mod_idemp_l.
  rewrite Z.mod_small by lia. lia.
Qed.

Lemma codec_PID v : i32 v -> codec (WritePID v) ReadPID v.
Proof.
  intros Hv. eapply codec_map; [apply codec_32|by rewrite sint32_wrap32].
  by apply Z.mod_pos_bound.
Qed.

Lemma sticky_PID : sticky ReadPID.
Proof. unfold ReadPID; auto with sticky. Qed.

#[export] Hint Resolve codec_names codec_qids codec_PID : codec.
#[export] Hint Resolve sticky_names sticky_qids sticky_PID : sticky.

(** The law of a record whose codec is the sequence of its fields. *)
Ltac codec_record :=
  let Hw := fresh "Hw" in
  intros Hw;
  lazymatch goal with
  | |- codec (?e _) (?d ?old) _ =>
      lazymatch type of Hw with ?w _ => unfold w in Hw end;
      unfold e, d; destruct_and?; destruct old; solve_codec
  end.
Ltac sticky_record :=
  lazymatch goal with |- sticky (?d _) => unfold d; eauto 40 with sticky end.

Lemma codec_tversion m old :
  tversion_wf m -> codec (tversion_encode m) (tversion_decode old) m.
Proof. codec_record. Qed.
Lemma sticky_tversion old : sticky (tversion_decode old).
Proof. sticky_record. Qed.
#[export] Hint Resolve codec_tversion : codec.
#[export] Hint Resolve sticky_tversion : sticky.

Lemma codec_rversion m old :
  rversion_wf m -> codec (rversion_encode m) (rversion_decode old) m.
Proof. codec_record. Qed.
Lemma sticky_rversion old : sticky (rversion_decode old).
Proof. sticky_record. Qed.
#[export] Hint Resolve codec_rversion : codec.
#[export] Hint Resolve sticky_rversion : sticky.

Lemma codec_tflush m old :
  tflush_wf m -> codec (tflush_encode m) (tflush_decode old) m.
Proof. codec_record. Qed.
Lemma sticky_tflush old : sticky (tflush_decode old).
Proof. sticky_record. Qed.
#[export] Hint Resolve codec_tflush : codec.
#[export] Hint Resolve sticky_tflush : sticky.

Lemma codec_rflush m old : codec (rflush_encode m) (rflush_decode old) m.
Proof. destruct m, old. apply codec_ret. Qed.
#[export] Hint Resolve codec_rflush : codec.

Lemma codec_twalk m old :
  twalk_wf m -> codec (twalk_encode m) (twalk_decode old) m.
Proof. codec_record. Qed.
Lemma sticky_twalk old : sticky (twalk_decode old).
Proof. sticky_record. Qed.
#[export] Hint Resolve codec_twalk : codec.
#[export] Hint Resolve sticky_twalk : sticky.

Lemma codec_rwalk m old :
  rwalk_wf m -> codec (rwalk_encode m) (rwalk_decode old) m.
Proof. codec_record. Qed.
Lemma sticky_rwalk old : sticky (rwalk_decode old).
Proof. sticky_record. Qed.
#[export] Hint Resolve codec_rwalk : codec.
#[export] Hint Resolve sticky_rwalk : sticky.

Lemma codec_tclunk m old :
  tclunk_wf m -> codec (tclunk_encode m) (tclunk_decode old) m.
Proof. codec_record. Qed.
Lemma sticky_tclunk old : sticky (tclunk_decode old).
Proof. sticky_record. Qed.
#[export] Hint Resolve codec_tclunk : codec.
#[export] Hint Resolve sticky_tclunk : sticky.

Lemma codec_rclunk m old : codec (rclunk_encode m) (rclunk_decode old) m.
Proof. destruct m, old. apply codec_ret. Qed.
#[export] Hint Resolve codec_rclunk : codec.

Lemma codec_tremove m old :
  tremove_wf m -> codec (tremove_encode m) (tremove_decode old) m.
Proof. codec_record. Qed.
Lemma sticky_tremove old : sticky (tremove_decode old).
Proof. sticky_record. Qed.
#[export] Hint Resolve codec_tremove : codec.
#[export] Hint Resolve sticky_tremove : sticky.

Lemma codec_rremove m old : codec (rremove_encode m) (rremove_decode old) m.
Proof. destruct m, old. apply codec_ret. Qed.
#[export] Hint Resolve codec_rremove : codec.

Lemma codec_rlerror m old :
  rlerror_wf m -> codec (rlerror_encode m) (rlerror_decode old) m.
Proof. codec_record. Qed.
Lemma sticky_rlerror old : sticky (rlerror_decode old).
Proof. sticky_record. Qed.
#[export] Hint Resolve codec_rlerror : codec.
#[export] Hint Resolve sticky_rlerror : sticky.

Lemma codec_tauth m old :
  tauth_wf m -> codec (tauth_encode m) (tauth_decode old) m.
Proof. codec_record. Qed.
Lemma sticky_tauth old : sticky (tauth_decode old).
Proof. sticky_record. Qed.
#[export] Hint Resolve codec_tauth : codec.
#[export] Hint Resolve sticky_tauth : sticky.

Lemma codec_rauth m old :
  rauth_wf m -> codec (rauth_encode m) (rauth_decode old) m.
Proof. codec_record. Qed.
Lemma sticky_rauth old : sticky (rauth_decode old).
Proof. sticky_record. Qed.
#[export] Hint Resolve codec_rauth : codec.
#[export] Hint Resolve sticky_rauth : sticky.

Lemma codec_tattach m old :
  tattach_wf m -> codec (tattach_encode m) (tattach_decode old) m.
Proof. codec_record. Qed.
Lemma sticky_tattach old : sticky (tattach_decode old).
Proof. sticky_record. Qed.
#[export] Hint Resolve codec_tattach : codec.
#[export] Hint Resolve sticky_tattach : sticky.

Lemma codec_rattach m old :
  rattach_wf m -> codec (rattach_encode m) (rattach_decode old) m.
Proof. codec_record. Qed.
Lemma sticky_rattach old : sticky (rattach_decode old).
Proof. sticky_record. Qed.
#[export] Hint Resolve codec_rattach : codec.
#[export] Hint Resolve sticky_rattach : sticky.

Lemma codec_tlopen m old :
  tlopen_wf m -> codec (tlopen_encode m) (tlopen_decode old) m.
Proof. codec_record. Qed.
Lemma sticky_tlopen old : sticky (tlopen_decode old).
Proof. sticky_record. Qed.
#[export] Hint Resolve codec_tlopen : codec.
#[export] Hint Resolve sticky_tlopen : sticky.

Lemma codec_rlopen m old :
  rlopen_wf m -> codec (rlopen_encode m) (rlopen_decode old) m.
Proof. codec_record. Qed.
Lemma sticky_rlopen old : sticky (rlopen_decode old).
Proof. sticky_record. Qed.
#[export] Hint Resolve codec_rlopen : codec.
#[export] Hint Resolve sticky_rlopen : sticky.

Lemma codec_tlcreate m old :
  tlcreate_wf m -> codec (tlcreate_encode m) (tlcreate_decode old) m.
Proof. codec_record. Qed.
Lemma sticky_tlcreate old : sticky (tlcreate_decode old).
Proof. sticky_record. Qed.
#[export] Hint Resolve codec_tlcreate : codec.
#[export] Hint Resolve sticky_tlcreate : sticky.

Lemma codec_rlcreate m old :
  rlcreate_wf m -> codec (rlcreate_encode m) (rlcreate_decode old) m.
Proof. codec_record. Qed.
Lemma sticky_rlcreate old : sticky (rlcreate_decode old).
Proof. sticky_record. Qed.
#[export] Hint Resolve codec_rlcreate : codec.
#[export] Hint Resolve sticky_rlcreate : sticky.

Lemma codec_tsymlink m old :
  tsymlink_wf m -> codec (tsymlink_encode m) (tsymlink_decode old) m.
Proof. codec_record. Qed.
Lemma sticky_tsymlink old : sticky (tsymlink_decode old).
Proof. sticky_record. Qed.
#[export] Hint Resolve codec_tsymlink : codec.
#[export] Hint Resolve sticky_tsymlink : sticky.

Lemma codec_rsymlink m old :
  rsymlink_wf m -> codec (rsymlink_encode m) (rsymlink_decode old) m.
Proof. codec_record. Qed.
Lemma sticky_rsymlink old : sticky (rsymlink_decode old).
Proof. sticky_record. Qed.
#[export] Hint Resolve codec_rsymlink : codec.
#[export] Hint Resolve sticky_rsymlink : sticky.

Lemma codec_tlink m old :
  tlink_wf m -> codec (tlink_encode m) (tlink_decode old) m.
Proof. codec_record. Qed.
Lemma sticky_tlink old : sticky (tlink_decode old).
Proof. sticky_record. Qed.
#[export] Hint Resolve codec_tlink : codec.
#[export] Hint Resolve sticky_tlink : sticky.

Lemma codec_rlink m old : codec (rlink_encode m) (rlink_decode old) m.
Proof. destruct m, old. apply codec_ret. Qed.
#[export] Hint Resolve codec_rlink : codec.

Lemma codec_trenameat m old :
  trenameat_wf m -> codec (trenameat_encode m) (trenameat_decode old) m.
Proof. codec_record. Qed.
Lemma sticky_trenameat old : sticky (trenameat_decode old).
Proof. sticky_record. Qed.
#[export] Hint Resolve codec_trenameat : codec.
#[export] Hint Resolve sticky_trenameat : sticky.

Lemma codec_rrenameat m old : codec (rrenameat_encode m) (rrenameat_decode old) m.
Proof. destruct m, old. apply codec_ret. Qed.
#[export] Hint Resolve codec_rrenameat : codec.

Lemma codec_tunlinkat m old :
  tunlinkat_wf m -> codec (tunlinkat_encode m) (tunlinkat_decode old) m.
Proof. codec_record. Qed.
Lemma sticky_tunlinkat old : sticky (tunlinkat_decode old).
Proof. sticky_record. Qed.
#[export] Hint Resolve codec_tunlinkat : codec.
#[export] Hint Resolve sticky_tunlinkat : sticky.

Lemma codec_runlinkat m old : codec (runlinkat_encode m) (runlinkat_decode old) m.
Proof. destruct m, old. apply codec_ret. Qed.
#[export] Hint Resolve codec_runlinkat : codec.

Lemma codec_trename m old :
  trename_wf m -> codec (trename_encode m) (trename_decode old) m.
Proof. codec_record. Qed.
Lemma sticky_trename old : sticky (trename_decode old).
Proof. sticky_record. Qed.
#[export] Hint Resolve codec_trename : codec.
#[export] Hint Resolve sticky_trename : sticky.

Lemma codec_rrename m old : codec (rrename_encode m) (rrename_decode old) m.
Proof. destruct m, old. apply codec_ret. Qed.
#[export] Hint Resolve codec_rrename : codec.

Lemma codec_treadlink m old :
  treadlink_wf m -> codec (treadlink_encode m) (treadlink_decode old) m.
Proof. codec_record. Qed.
Lemma sticky_treadlink old : sticky (treadlink_decode old).
Proof. sticky_record. Qed.
#[export] Hint Resolve codec_treadlink : codec.
#[export] Hint Resolve sticky_treadlink : sticky.

Lemma codec_rreadlink m old :
  rreadlink_wf m -> codec (rreadlink_encode m) (rreadlink_decode old) m.
Proof. codec_record. Qed.
Lemma sticky_rreadlink old : sticky (rreadlink_decode old).
Proof. sticky_record. Qed.
#[export] Hint Resolve codec_rreadlink : codec.
#[export] Hint Resolve sticky_rreadlink : sticky.

Lemma codec_tread m old :
  tread_wf m -> codec (tread_encode m) (tread_decode old) m.
Proof. codec_record. Qed.
Lemma sticky_tread old : sticky (tread_decode old).
Proof. sticky_record. Qed.
#[export] Hint Resolve codec_tread : codec.
#[export] Hint Resolve sticky_tread : sticky.

Lemma codec_rwrite m old :
  rwrite_wf m -> codec (rwrite_encode m) (rwrite_decode old) m.
Proof. codec_record. Qed.
Lemma sticky_rwrite old : sticky (rwrite_decode old).
Proof. sticky_record. Qed.
#[export] Hint Resolve codec_rwrite : codec.
#[export] Hint Resolve sticky_rwrite : sticky.

Lemma codec_tmknod m old :
  tmknod_wf m -> codec (tmknod_encode m) (tmknod_decode old) m.
Proof. codec_record. Qed.
Lemma sticky_tmknod old : sticky (tmknod_decode old).
Proof. sticky_record. Qed.
#[export] Hint Resolve codec_tmknod : codec.
#[export] Hint Resolve sticky_tmknod : sticky.

Lemma codec_rmknod m old :
  rmknod_wf m -> codec (rmknod_encode m) (rmknod_decode old) m.
Proof. codec_record. Qed.
Lemma sticky_rmknod old : sticky (rmknod_decode old).
Proof. sticky_record. Qed.
#[export] Hint Resolve codec_rmknod : codec.
#[export] Hint Resolve sticky_rmknod : sticky.

Lemma codec_tmkdir m old :
  tmkdir_wf m -> codec (tmkdir_encode m) (tmkdir_decode old) m.
Proof. codec_record. Qed.
Lemma sticky_tmkdir old : sticky (tmkdir_decode old).
Proof. sticky_record. Qed.
#[export] Hint Resolve codec_tmkdir : codec.
#[export] Hint Resolve sticky_tmkdir : sticky.

Lemma codec_rmkdir m old :
  rmkdir_wf m -> codec (rmkdir_encode m) (rmkdir_decode old) m.
Proof. codec_record. Qed.
Lemma sticky_rmkdir old : sticky (rmkdir_decode old).
Proof. sticky_record. Qed.
#[export] Hint Resolve codec_rmkdir : codec.
#[export] Hint Resolve sticky_rmkdir : sticky.

Lemma codec_tgetattr m old :
  tgetattr_wf m -> codec (tgetattr_encode m) (tgetattr_decode old) m.
Proof. codec_record. Qed.
Lemma sticky_tgetattr old : sticky (tgetattr_decode old).
Proof. sticky_record. Qed.
#[export] Hint Resolve codec_tgetattr : codec.
#[export] Hint Resolve sticky_tgetattr : sticky.

Lemma codec_rgetattr m old :
  rgetattr_wf m -> codec (rgetattr_encode m) (rgetattr_decode old) m.
Proof. codec_record. Qed.
Lemma sticky_rgetattr old : sticky (rgetattr_decode old).
Proof. sticky_record. Qed.
#[export] Hint Resolve codec_rgetattr : codec.
#[export] Hint Resolve sticky_rgetattr : sticky.

Lemma codec_tsetattr m old :
  tsetattr_wf m -> codec (tsetattr_encode m) (tsetattr_decode old) m.
Proof. codec_record. Qed.
Lemma sticky_tsetattr old : sticky (tsetattr_decode old).
Proof. sticky_record. Qed.
#[export] Hint Resolve codec_tsetattr : codec.
#[export] Hint Resolve sticky_tsetattr : sticky.

Lemma codec_rsetattr m old : codec (rsetattr_encode m) (rsetattr_decode old) m.
Proof. destruct m, old. apply codec_ret. Qed.
#[export] Hint Resolve codec_rsetattr : codec.

Lemma codec_txattrwalk m old :
  txattrwalk_wf m -> codec (txattrwalk_encode m) (txattrwalk_decode old) m.
Proof. codec_record. Qed.
Lemma sticky_txattrwalk old : sticky (txattrwalk_decode old).
Proof. sticky_record. Qed.
#[export] Hint Resolve codec_txattrwalk : codec.
#[export] Hint Resolve sticky_txattrwalk : sticky.

Lemma codec_rxattrwalk m old :
  rxattrwalk_wf m -> codec (rxattrwalk_encode m) (rxattrwalk_decode old) m.
Proof. codec_record. Qed.
Lemma sticky_rxattrwalk old : sticky (rxattrwalk_decode old).
Proof. sticky_record. Qed.
#[export] Hint Resolve codec_rxattrwalk : codec.
#[export] Hint Resolve sticky_rxattrwalk : sticky.

Lemma codec_txattrcreate m old :
  txattrcreate_wf m -> codec (txattrcreate_encode m) (txattrcreate_decode old) m.
Proof. codec_record. Qed.
Lemma sticky_txattrcreate old : sticky (txattrcreate_decode old).
Proof. sticky_record. Qed.
#[export] Hint Resolve codec_txattrcreate : codec.
#[export] Hint Resolve sticky_txattrcreate : sticky.

Lemma codec_rxattrcreate m old : codec (rxattrcreate_encode m) (rxattrcreate_decode old) m.
Proof. destruct m, old. apply codec_ret. Qed.
#[export] Hint Resolve codec_rxattrcreate : codec.

Lemma codec_treaddir m old :
  treaddir_wf m -> codec (treaddir_encode m) (treaddir_decode old) m.
Proof. codec_record. Qed.
Lemma sticky_treaddir old : sticky (treaddir_decode old).
Proof. sticky_record. Qed.
#[export] Hint Resolve codec_treaddir : codec.
#[export] Hint Resolve sticky_treaddir : sticky.

Lemma codec_tfsync m old :
  tfsync_wf m -> codec (tfsync_encode m) (tfsync_decode old) m.
Proof. codec_record. Qed.
Lemma sticky_tfsync old : sticky (tfsync_decode old).
Proof. sticky_record. Qed.
#[export] Hint Resolve codec_tfsync : codec.
#[export] Hint Resolve sticky_tfsync : sticky.

Lemma codec_rfsync m old : codec (rfsync_encode m) (rfsync_decode old) m.
Proof. destruct m, old. apply codec_ret. Qed.
#[export] Hint Resolve codec_rfsync : codec.

Lemma codec_tstatfs m old :
  tstatfs_wf m -> codec (tstatfs_encode m) (tstatfs_decode old) m.
Proof. codec_record. Qed.
Lemma sticky_tstatfs old : sticky (tstatfs_decode old).
Proof. sticky_record. Qed.
#[export] Hint Resolve codec_tstatfs : codec.
#[export] Hint Resolve sticky_tstatfs : sticky.

Lemma codec_rstatfs m old :
  rstatfs_wf m -> codec (rstatfs_encode m) (rstatfs_decode old) m.
Proof. codec_record. Qed.
Lemma sticky_rstatfs old : sticky (rstatfs_decode old).
Proof. sticky_record. Qed.
#[export] Hint Resolve codec_rstatfs : codec.
#[export] Hint Resolve sticky_rstatfs : sticky.

Lemma codec_twalkgetattr m old :
  twalkgetattr_wf m -> codec (twalkgetattr_encode m) (twalkgetattr_decode old) m.
Proof. codec_record. Qed.
Lemma sticky_twalkgetattr old : sticky (twalkgetattr_decode old).
Proof. sticky_record. Qed.
#[export] Hint Resolve codec_twalkgetattr : codec.
#[export] Hint Resolve sticky_twalkgetattr : sticky.

Lemma codec_rwalkgetattr m old :
  rwalkgetattr_wf m -> codec (rwalkgetattr_encode m) (rwalkgetattr_decode old) m.
Proof. codec_record. Qed.
Lemma sticky_rwalkgetattr old : sticky (rwalkgetattr_decode old).
Proof. sticky_record. Qed.
#[export] Hint Resolve codec_rwalkgetattr : codec.
#[export] Hint Resolve sticky_rwalkgetattr : sticky.

Lemma codec_tucreate m old :
  tucreate_wf m -> codec (tucreate_encode m) (tucreate_decode old) m.
Proof. codec_record. Qed.
Lemma sticky_tucreate old : sticky (tucreate_decode old).
Proof. sticky_record. Qed.
#[export] Hint Resolve codec_tucreate : codec.
#[export] Hint Resolve sticky_tucreate : sticky.

Lemma codec_rucreate m old :
  rucreate_wf m -> codec (rucreate_encode m) (rucreate_decode old) m.
Proof. codec_record. Qed.
Lemma sticky_rucreate old : sticky (rucreate_decode old).
Proof. sticky_record. Qed.
#[export] Hint Resolve codec_rucreate : codec.
#[export] Hint Resolve sticky_rucreate : sticky.

Lemma codec_tumkdir m old :
  tumkdir_wf m -> codec (tumkdir_encode m) (tumkdir_decode old) m.
Proof. codec_record. Qed.
Lemma sticky_tumkdir old : sticky (tumkdir_decode old).
Proof. sticky_record. Qed.
#[export] Hint Resolve codec_tumkdir : codec.
#[export] Hint Resolve sticky_tumkdir : sticky.

Lemma codec_rumkdir m old :
  rumkdir_wf m -> codec (rumkdir_encode m) (rumkdir_decode old) m.
Proof. codec_record. Qed.
Lemma sticky_rumkdir old : sticky (rumkdir_decode old).
Proof. sticky_record. Qed.
#[export] Hint Resolve codec_rumkdir : codec.
#[export] Hint Resolve sticky_rumkdir : sticky.

Lemma codec_tumknod m old :
  tumknod_wf m -> codec (tumknod_encode m) (tumknod_decode old) m.
Proof. codec_record. Qed.
Lemma sticky_tumknod old : sticky (tumknod_decode old).
Proof. sticky_record. Qed.
#[export] Hint Resolve codec_tumknod : codec.
#[export] Hint Resolve sticky_tumknod : sticky.

Lemma codec_rumknod m old :
  rumknod_wf m -> codec (rumknod_encode m) (rumknod_decode old) m.
Proof. codec_record. Qed.
Lemma sticky_rumknod old : sticky (rumknod_decode old).
Proof. sticky_record. Qed.
#[export] Hint Resolve codec_rumknod : codec.
#[export] Hint Resolve sticky_rumknod : sticky.

Lemma codec_tusymlink m old :
  tusymlink_wf m -> codec (tusymlink_encode m) (tusymlink_decode old) m.
Proof. codec_record. Qed.
Lemma sticky_tusymlink old : sticky (tusymlink_decode old).
Proof. sticky_record. Qed.
#[export] Hint Resolve codec_tusymlink : codec.
#[export] Hint Resolve sticky_tusymlink : sticky.

Lemma codec_rusymlink m old :
  rusymlink_wf m -> codec (rusymlink_encode m) (rusymlink_decode old) m.
Proof. codec_record. Qed.
Lemma sticky_rusymlink old : sticky (rusymlink_decode old).
Proof. sticky_record. Qed.
#[export] Hint Resolve codec_rusymlink : codec.
#[export] Hint Resolve sticky_rusymlink : sticky.

Lemma codec_tlock m old :
  tlock_wf m -> codec (tlock_encode m) (tlock_decode old) m.
Proof. codec_record. Qed.
Lemma sticky_tlock old : sticky (tlock_decode old).
Proof. sticky_record. Qed.
#[export] Hint Resolve codec_tlock : codec.
#[export] Hint Resolve sticky_tlock : sticky.

Lemma codec_rlock m old :
  rlock_wf m -> codec (rlock_encode m) (rlock_decode old) m.
Proof. codec_record. Qed.
Lemma sticky_rlock old : sticky (rlock_decode old).
Proof. sticky_record. Qed.
#[export] Hint Resolve codec_rlock : codec.
#[export] Hint Resolve sticky_rlock : sticky.


(** *** What the receivers held does not matter *)

Lemma fresh_names old old' : same_decode (names_decode old) (names_decode old').
Proof. intros b. reflexivity. Qed.
Lemma fresh_qids old old' : same_decode (qids_decode old) (qids_decode old').
Proof. intros b. reflexivity. Qed.
#[export] Hint Resolve fresh_names fresh_qids : fresh.

Lemma fresh_tauth old old' : same_decode (tauth_decode old) (tauth_decode old').
Proof. fresh_record. Qed.
Lemma fresh_rlopen old old' : same_decode (rlopen_decode old) (rlopen_decode old').
Proof. fresh_record. Qed.
Lemma fresh_tlcreate old old' : same_decode (tlcreate_decode old) (tlcreate_decode old').
Proof. fresh_record. Qed.
Lemma fresh_tmkdir old old' : same_decode (tmkdir_decode old) (tmkdir_decode old').
Proof. fresh_record. Qed.
Lemma fresh_rmkdir old old' : same_decode (rmkdir_decode old) (rmkdir_decode old').
Proof. fresh_record. Qed.
Lemma fresh_tmknod old old' : same_decode (tmknod_decode old) (tmknod_decode old').
Proof. fresh_record. Qed.
Lemma fresh_rmknod old old' : same_decode (rmknod_decode old) (rmknod_decode old').
Proof. fresh_record. Qed.
Lemma fresh_tsymlink old old' : same_decode (tsymlink_decode old) (tsymlink_decode old').
Proof. fresh_record. Qed.
Lemma fresh_rsymlink old old' : same_decode (rsymlink_decode old) (rsymlink_decode old').
Proof. fresh_record. Qed.
#[export] Hint Resolve fresh_tauth fresh_rlopen fresh_tlcreate fresh_tmkdir fresh_rmkdir fresh_tmknod
  fresh_rmknod fresh_tsymlink fresh_rsymlink : fresh.
Lemma fresh_rlcreate old old' : same_decode (rlcreate_decode old) (rlcreate_decode old').
Proof. fresh_record. Qed.
#[export] Hint Resolve fresh_rlcreate : fresh.
