(* ===== verification/Message.v ===== *)
(** * The message sum type and the message registry ([p9/messages.go])

    [message] closes the Go interface over the structs that implement it.  The
    registry maps a message number to a factory with a bounded cache of
    recycled messages; a cached message still holds the fields of its last use,
    which [decode] must overwrite. *)
From S2P Require Import Prelude Buffer Types Messages.

Inductive message :=
  | Mtversion (m : tversion)
  | Mrversion (m : rversion)
  | Mtflush (m : tflush)
  | Mrflush (m : rflush)
  | Mtwalk (m : twalk)
  | Mrwalk (m : rwalk)
  | Mtclunk (m : tclunk)
  | Mrclunk (m : rclunk)
  | Mtremove (m : tremove)
  | Mrremove (m : rremove)
  | Mrlerror (m : rlerror)
  | Mtauth (m : tauth)
  | Mrauth (m : rauth)
  | Mtattach (m : tattach)
  | Mrattach (m : rattach)
  | Mtlopen (m : tlopen)
  | Mrlopen (m : rlopen)
  | Mtlcreate (m : tlcreate)
  | Mrlcreate (m : rlcreate)
  | Mtsymlink (m : tsymlink)
  | Mrsymlink (m : rsymlink)
  | Mtlink (m : tlink)
  | Mrlink (m : rlink)
  | Mtrenameat (m : trenameat)
  | Mrrenameat (m : rrenameat)
  | Mtunlinkat (m : tunlinkat)
  | Mrunlinkat (m : runlinkat)
  | Mtrename (m : trename)
  | Mrrename (m : rrename)
  | Mtreadlink (m : treadlink)
  | Mrreadlink (m : rreadlink)
  | Mtread (m : tread)
  | Mrread (m : rread)
  | MrreadServerPayloader (m : rreadServerPayloader)
  | Mtwrite (m : twrite)
  | Mrwrite (m : rwrite)
  | Mtmknod (m : tmknod)
  | Mrmknod (m : rmknod)
  | Mtmkdir (m : tmkdir)
  | Mrmkdir (m : rmkdir)
  | Mtgetattr (m : tgetattr)
  | Mrgetattr (m : rgetattr)
  | Mtsetattr (m : tsetattr)
  | Mrsetattr (m : rsetattr)
  | Mtxattrwalk (m : txattrwalk)
  | Mrxattrwalk (m : rxattrwalk)
  | Mtxattrcreate (m : txattrcreate)
  | Mrxattrcreate (m : rxattrcreate)
  | Mtreaddir (m : treaddir)
  | Mrreaddir (m : rreaddir)
  | Mtfsync (m : tfsync)
  | Mrfsync (m : rfsync)
  | Mtstatfs (m : tstatfs)
  | Mrstatfs (m : rstatfs)
  | Mtwalkgetattr (m : twalkgetattr)
  | Mrwalkgetattr (m : rwalkgetattr)
  | Mtucreate (m : tucreate)
  | Mrucreate (m : rucreate)
  | Mtumkdir (m : tumkdir)
  | Mrumkdir (m : rumkdir)
  | Mtumknod (m : tumknod)
  | Mrumknod (m : rumknod)
  | Mtusymlink (m : tusymlink)
  | Mrusymlink (m : rusymlink)
  | Mtlock (m : tlock)
  | Mrlock (m : rlock).

(** ** The interface methods, dispatched on the dynamic type *)

Definition message_typ (m : message) : Z :=
  match m with
  | Mtversion _ => typ tversion
  | Mrversion _ => typ rversion
  | Mtflush _ => typ tflush
  | Mrflush _ => typ rflush
  | Mtwalk _ => typ twalk
  | Mrwalk _ => typ rwalk
  | Mtclunk _ => typ tclunk
  | Mrclunk _ => typ rclunk
  | Mtremove _ => typ tremove
  | Mrremove _ => typ rremove
  | Mrlerror _ => typ rlerror
  | Mtauth _ => typ tauth
  | Mrauth _ => typ rauth
  | Mtattach _ => typ tattach
  | Mrattach _ => typ rattach
  | Mtlopen _ => typ tlopen
  | Mrlopen _ => typ rlopen
  | Mtlcreate _ => typ tlcreate
  | Mrlcreate _ => typ rlcreate
  | Mtsymlink _ => typ tsymlink
  | Mrsymlink _ => typ rsymlink
  | Mtlink _ => typ tlink
  | Mrlink _ => typ rlink
  | Mtrenameat _ => typ trenameat
  | Mrrenameat _ => typ rrenameat
  | Mtunlinkat _ => typ tunlinkat
  | Mrunlinkat _ => typ runlinkat
  | Mtrename _ => typ trename
  | Mrrename _ => typ rrename
  | Mtreadlink _ => typ treadlink
  | Mrreadlink _ => typ rreadlink
  | Mtread _ => typ tread
  | Mrread _ => typ rread
  | MrreadServerPayloader _ => typ rreadServerPayloader
  | Mtwrite _ => typ twrite
  | Mrwrite _ => typ rwrite
  | Mtmknod _ => typ tmknod
  | Mrmknod _ => typ rmknod
  | Mtmkdir _ => typ tmkdir
  | Mrmkdir _ => typ rmkdir
  | Mtgetattr _ => typ tgetattr
  | Mrgetattr _ => typ rgetattr
  | Mtsetattr _ => typ tsetattr
  | Mrsetattr _ => typ rsetattr
  | Mtxattrwalk _ => typ txattrwalk
  | Mrxattrwalk _ => typ rxattrwalk
  | Mtxattrcreate _ => typ txattrcreate
  | Mrxattrcreate _ => typ rxattrcreate
  | Mtreaddir _ => typ treaddir
  | Mrreaddir _ => typ rreaddir
  | Mtfsync _ => typ tfsync
  | Mrfsync _ => typ rfsync
  | Mtstatfs _ => typ tstatfs
  | Mrstatfs _ => typ rstatfs
  | Mtwalkgetattr _ => typ twalkgetattr
  | Mrwalkgetattr _ => typ rwalkgetattr
  | Mtucreate _ => typ tucreate
  | Mrucreate _ => typ rucreate
  | Mtumkdir _ => typ tumkdir
  | Mrumkdir _ => typ rumkdir
  | Mtumknod _ => typ tumknod
  | Mrumknod _ => typ rumknod
  | Mtusymlink _ => typ tusymlink
  | Mrusymlink _ => typ rusymlink
  | Mtlock _ => typ tlock
  | Mrlock _ => typ rlock
  end.

Definition message_encode (m : message) : BufM message :=
  match m with
  | Mtversion m => Mtversion <$> encode m
  | Mrversion m => Mrversion <$> encode m
  | Mtflush m => Mtflush <$> encode m
  | Mrflush m => Mrflush <$> encode m
  | Mtwalk m => Mtwalk <$> encode m
  | Mrwalk m => Mrwalk <$> encode m
  | Mtclunk m => Mtclunk <$> encode m
  | Mrclunk m => Mrclunk <$> encode m
  | Mtremove m => Mtremove <$> encode m
  | Mrremove m => Mrremove <$> encode m
  | Mrlerror m => Mrlerror <$> encode m
  | Mtauth m => Mtauth <$> encode m
  | Mrauth m => Mrauth <$> encode m
  | Mtattach m => Mtattach <$> encode m
  | Mrattach m => Mrattach <$> encode m
  | Mtlopen m => Mtlopen <$> encode m
  | Mrlopen m => Mrlopen <$> encode m
  | Mtlcreate m => Mtlcreate <$> encode m
  | Mrlcreate m => Mrlcreate <$> encode m
  | Mtsymlink m => Mtsymlink <$> encode m
  | Mrsymlink m => Mrsymlink <$> encode m
  | Mtlink m => Mtlink <$> encode m
  | Mrlink m => Mrlink <$> encode m
  | Mtrenameat m => Mtrenameat <$> encode m
  | Mrrenameat m => Mrrenameat <$> encode m
  | Mtunlinkat m => Mtunlinkat <$> encode m
  | Mrunlinkat m => Mrunlinkat <$> encode m
  | Mtrename m => Mtrename <$> encode m
  | Mrrename m => Mrrename <$> encode m
  | Mtreadlink m => Mtreadlink <$> encode m
  | Mrreadlink m => Mrreadlink <$> encode m
  | Mtread m => Mtread <$> encode m
  | Mrread m => Mrread <$> encode m
  | MrreadServerPayloader m => MrreadServerPayloader <$> encode m
  | Mtwrite m => Mtwrite <$> encode m
  | Mrwrite m => Mrwrite <$> encode m
  | Mtmknod m => Mtmknod <$> encode m
  | Mrmknod m => Mrmknod <$> encode m
  | Mtmkdir m => Mtmkdir <$> encode m
  | Mrmkdir m => Mrmkdir <$> encode m
  | Mtgetattr m => Mtgetattr <$> encode m
  | Mrgetattr m => Mrgetattr <$> encode m
  | Mtsetattr m => Mtsetattr <$> encode m
  | Mrsetattr m => Mrsetattr <$> encode m
  | Mtxattrwalk m => Mtxattrwalk <$> encode m
  | Mrxattrwalk m => Mrxattrwalk <$> encode m
  | Mtxattrcreate m => Mtxattrcreate <$> encode m
  | Mrxattrcreate m => Mrxattrcreate <$> encode m
  | Mtreaddir m => Mtreaddir <$> encode m
  | Mrreaddir m => Mrreaddir <$> encode m
  | Mtfsync m => Mtfsync <$> encode m
  | Mrfsync m => Mrfsync <$> encode m
  | Mtstatfs m => Mtstatfs <$> encode m
  | Mrstatfs m => Mrstatfs <$> encode m
  | Mtwalkgetattr m => Mtwalkgetattr <$> encode m
  | Mrwalkgetattr m => Mrwalkgetattr <$> encode m
  | Mtucreate m => Mtucreate <$> encode m
  | Mrucreate m => Mrucreate <$> encode m
  | Mtumkdir m => Mtumkdir <$> encode m
  | Mrumkdir m => Mrumkdir <$> encode m
  | Mtumknod m => Mtumknod <$> encode m
  | Mrumknod m => Mrumknod <$> encode m
  | Mtusymlink m => Mtusymlink <$> encode m
  | Mrusymlink m => Mrusymlink <$> encode m
  | Mtlock m => Mtlock <$> encode m
  | Mrlock m => Mrlock <$> encode m
  end.

(** [old.decode(b)]: the receiver keeps its dynamic type. *)
Definition message_decode (m : message) : BufM message :=
  match m with
  | Mtversion m => Mtversion <$> decode m
  | Mrversion m => Mrversion <$> decode m
  | Mtflush m => Mtflush <$> decode m
  | Mrflush m => Mrflush <$> decode m
  | Mtwalk m => Mtwalk <$> decode m
  | Mrwalk m => Mrwalk <$> decode m
  | Mtclunk m => Mtclunk <$> decode m
  | Mrclunk m => Mrclunk <$> decode m
  | Mtremove m => Mtremove <$> decode m
  | Mrremove m => Mrremove <$> decode m
  | Mrlerror m => Mrlerror <$> decode m
  | Mtauth m => Mtauth <$> decode m
  | Mrauth m => Mrauth <$> decode m
  | Mtattach m => Mtattach <$> decode m
  | Mrattach m => Mrattach <$> decode m
  | Mtlopen m => Mtlopen <$> decode m
  | Mrlopen m => Mrlopen <$> decode m
  | Mtlcreate m => Mtlcreate <$> decode m
  | Mrlcreate m => Mrlcreate <$> decode m
  | Mtsymlink m => Mtsymlink <$> decode m
  | Mrsymlink m => Mrsymlink <$> decode m
  | Mtlink m => Mtlink <$> decode m
  | Mrlink m => Mrlink <$> decode m
  | Mtrenameat m => Mtrenameat <$> decode m
  | Mrrenameat m => Mrrenameat <$> decode m
  | Mtunlinkat m => Mtunlinkat <$> decode m
  | Mrunlinkat m => Mrunlinkat <$> decode m
  | Mtrename m => Mtrename <$> decode m
  | Mrrename m => Mrrename <$> decode m
  | Mtreadlink m => Mtreadlink <$> decode m
  | Mrreadlink m => Mrreadlink <$> decode m
  | Mtread m => Mtread <$> decode m
  | Mrread m => Mrread <$> decode m
  | MrreadServerPayloader m => MrreadServerPayloader <$> decode m
  | Mtwrite m => Mtwrite <$> decode m
  | Mrwrite m => Mrwrite <$> decode m
  | Mtmknod m => Mtmknod <$> decode m
  | Mrmknod m => Mrmknod <$> decode m
  | Mtmkdir m => Mtmkdir <$> decode m
  | Mrmkdir m => Mrmkdir <$> decode m
  | Mtgetattr m => Mtgetattr <$> decode m
  | Mrgetattr m => Mrgetattr <$> decode m
  | Mtsetattr m => Mtsetattr <$> decode m
  | Mrsetattr m => Mrsetattr <$> decode m
  | Mtxattrwalk m => Mtxattrwalk <$> decode m
  | Mrxattrwalk m => Mrxattrwalk <$> decode m
  | Mtxattrcreate m => Mtxattrcreate <$> decode m
  | Mrxattrcreate m => Mrxattrcreate <$> decode m
  | Mtreaddir m => Mtreaddir <$> decode m
  | Mrreaddir m => Mrreaddir <$> decode m
  | Mtfsync m => Mtfsync <$> decode m
  | Mrfsync m => Mrfsync <$> decode m
  | Mtstatfs m => Mtstatfs <$> decode m
  | Mrstatfs m => Mrstatfs <$> decode m
  | Mtwalkgetattr m => Mtwalkgetattr <$> decode m
  | Mrwalkgetattr m => Mrwalkgetattr <$> decode m
  | Mtucreate m => Mtucreate <$> decode m
  | Mrucreate m => Mrucreate <$> decode m
  | Mtumkdir m => Mtumkdir <$> decode m
  | Mrumkdir m => Mrumkdir <$> decode m
  | Mtumknod m => Mtumknod <$> decode m
  | Mrumknod m => Mrumknod <$> decode m
  | Mtusymlink m => Mtusymlink <$> decode m
  | Mrusymlink m => Mrusymlink <$> decode m
  | Mtlock m => Mtlock <$> decode m
  | Mrlock m => Mrlock <$> decode m
  end.

(** [m.(payloader)] and its methods; [None] when [m] is not a [payloader]. *)
Definition message_FixedSize (m : message) : option Z :=
  match m with
  | Mrread _ => Some (FixedSize rread)
  | MrreadServerPayloader _ => Some (FixedSize rreadServerPayloader)
  | Mtwrite _ => Some (FixedSize twrite)
  | Mrreaddir _ => Some (FixedSize rreaddir)
  | _ => None
  end.

Definition message_Payload (m : message) : option (list byte) :=
  match m with
  | Mrread m => Some (Payload m)
  | MrreadServerPayloader m => Some (Payload m)
  | Mtwrite m => Some (Payload m)
  | Mrreaddir m => Some (Payload m)
  | _ => None
  end.

Definition message_SetPayload (m : message) (p : list byte) : message :=
  match m with
  | Mrread r => Mrread (SetPayload r p)
  | MrreadServerPayloader r => MrreadServerPayloader (SetPayload r p)
  | Mtwrite r => Mtwrite (SetPayload r p)
  | Mrreaddir r => Mrreaddir (SetPayload r p)
  | _ => m
  end.

(** ** The registry *)

Definition maxCacheSize : nat := 3.

(** [create] stands for the factory function: the message it returns. *)
Record msgFactory := mk_msgFactory { create : message; cache : list message }.

Record registry := mk_registry {
  factories : gmap Z msgFactory;
  largestFixedSize : Z;
}.

Definition calculateSize (m : message) : Z :=
  match message_FixedSize m with
  | Some n => n
  | None => wrap32 (Z.of_nat (length (data (message_encode m (Buffer [] false)).2)))
  end.

(** [None] is the panic of a duplicate or too large message number. *)
Definition register (t : Z) (fn : message) (r : registry) : option registry :=
  if 256 <=? t then None
  else match factories r !! t with
  | Some _ => None
  | None =>
      let size := calculateSize fn in
      Some (mk_registry (<[t := mk_msgFactory fn []]> (factories r))
              (if largestFixedSize r <? size then size else largestFixedSize r))
  end.

(** [r.get(_, t)]: a cached message or a fresh one; [None] is
    [ErrInvalidMsgType]. *)
Definition registry_get (r : registry) (t : Z) : option (message * registry) :=
  entry ← factories r !! t;
  match cache entry with
  | msg :: rest =>
      Some (msg, mk_registry (<[t := mk_msgFactory (create entry) rest]> (factories r))
                   (largestFixedSize r))
  | [] => Some (create entry, r)
  end.

(** [r.put(msg)]; the send on a full or nil cache channel is dropped. *)
Definition registry_put (r : registry) (msg : message) : registry :=
  let msg := match message_Payload msg with
             | Some _ => message_SetPayload msg []
             | None => msg
             end in
  match factories r !! message_typ msg with
  | None => r
  | Some entry =>
      if (length (cache entry) <? maxCacheSize)%nat
      then mk_registry (<[message_typ msg := mk_msgFactory (create entry)
                                               (cache entry ++ [msg])]> (factories r))
             (largestFixedSize r)
      else r
  end.

Definition rread_zero : rread := mk_rread [].
Definition twrite_zero : twrite := mk_twrite 0 0 [].
Definition rreaddir_zero : rreaddir := mk_rreaddir 0 [] [].

(** The registrations of [init], in their order. *)
Definition registrations : list (Z * message) := [
  (msgRlerror, Mrlerror rlerror_zero);
  (msgTstatfs, Mtstatfs tstatfs_zero);
  (msgRstatfs, Mrstatfs rstatfs_zero);
  (msgTlopen, Mtlopen tlopen_zero);
  (msgRlopen, Mrlopen rlopen_zero);
  (msgTlcreate, Mtlcreate tlcreate_zero);
  (msgRlcreate, Mrlcreate rlcreate_zero);
  (msgTsymlink, Mtsymlink tsymlink_zero);
  (msgRsymlink, Mrsymlink rsymlink_zero);
  (msgTmknod, Mtmknod tmknod_zero);
  (msgRmknod, Mrmknod rmknod_zero);
  (msgTrename, Mtrename trename_zero);
  (msgRrename, Mrrename mk_rrename);
  (msgTreadlink, Mtreadlink treadlink_zero);
  (msgRreadlink, Mrreadlink rreadlink_zero);
  (msgTgetattr, Mtgetattr tgetattr_zero);
  (msgRgetattr, Mrgetattr rgetattr_zero);
  (msgTsetattr, Mtsetattr tsetattr_zero);
  (msgRsetattr, Mrsetattr mk_rsetattr);
  (msgTxattrwalk, Mtxattrwalk txattrwalk_zero);
  (msgRxattrwalk, Mrxattrwalk rxattrwalk_zero);
  (msgTxattrcreate, Mtxattrcreate txattrcreate_zero);
  (msgRxattrcreate, Mrxattrcreate mk_rxattrcreate);
  (msgTreaddir, Mtreaddir treaddir_zero);
  (msgRreaddir, Mrreaddir rreaddir_zero);
  (msgTfsync, Mtfsync tfsync_zero);
  (msgRfsync, Mrfsync mk_rfsync);
  (msgTlink, Mtlink tlink_zero);
  (msgRlink, Mrlink mk_rlink);
  (msgTlock, Mtlock tlock_zero);
  (msgRlock, Mrlock rlock_zero);
  (msgTmkdir, Mtmkdir tmkdir_zero);
  (msgRmkdir, Mrmkdir rmkdir_zero);
  (msgTrenameat, Mtrenameat trenameat_zero);
  (msgRrenameat, Mrrenameat mk_rrenameat);
  (msgTunlinkat, Mtunlinkat tunlinkat_zero);
  (msgRunlinkat, Mrunlinkat mk_runlinkat);
  (msgTversion, Mtversion tversion_zero);
  (msgRversion, Mrversion rversion_zero);
  (msgTauth, Mtauth tauth_zero);
  (msgRauth, Mrauth rauth_zero);
  (msgTattach, Mtattach tattach_zero);
  (msgRattach, Mrattach rattach_zero);
  (msgTflush, Mtflush tflush_zero);
  (msgRflush, Mrflush mk_rflush);
  (msgTwalk, Mtwalk twalk_zero);
  (msgRwalk, Mrwalk rwalk_zero);
  (msgTread, Mtread tread_zero);
  (msgRread, Mrread rread_zero);
  (msgTwrite, Mtwrite twrite_zero);
  (msgRwrite, Mrwrite rwrite_zero);
  (msgTclunk, Mtclunk tclunk_zero);
  (msgRclunk, Mrclunk mk_rclunk);
  (msgTremove, Mtremove tremove_zero);
  (msgRremove, Mrremove mk_rremove);
  (msgTwalkgetattr, Mtwalkgetattr twalkgetattr_zero);
  (msgRwalkgetattr, Mrwalkgetattr rwalkgetattr_zero);
  (msgTucreate, Mtucreate tucreate_zero);
  (msgRucreate, Mrucreate rucreate_zero);
  (msgTumkdir, Mtumkdir tumkdir_zero);
  (msgRumkdir, Mrumkdir rumkdir_zero);
  (msgTumknod, Mtumknod tumknod_zero);
  (msgRumknod, Mrumknod rumknod_zero);
  (msgTusymlink, Mtusymlink tusymlink_zero);
  (msgRusymlink, Mrusymlink rusymlink_zero)
].

Fixpoint register_all (l : list (Z * message)) (r : registry) : option registry :=
  match l with
  | [] => Some r
  | (t, fn) :: l => r ← register t fn r; register_all l r
  end.

Definition registry_init : option registry :=
  register_all registrations (mk_registry ∅ 0).

(** The registry after package initialisation. *)
Definition msgDotLRegistry : registry := default (mk_registry ∅ 0) registry_init.

(** ** Well-formed messages *)

Definition message_wf (m : message) : Prop :=
  match m with
  | Mtversion m => tversion_wf m
  | Mrversion m => rversion_wf m
  | Mtflush m => tflush_wf m
  | Mtwalk m => twalk_wf m
  | Mrwalk m => rwalk_wf m
  | Mtclunk m => tclunk_wf m
  | Mtremove m => tremove_wf m
  | Mrlerror m => rlerror_wf m
  | Mtauth m => tauth_wf m
  | Mrauth m => rauth_wf m
  | Mtattach m => tattach_wf m
  | Mrattach m => rattach_wf m
  | Mtlopen m => tlopen_wf m
  | Mrlopen m => rlopen_wf m
  | Mtlcreate m => tlcreate_wf m
  | Mrlcreate m => rlcreate_wf m
  | Mtsymlink m => tsymlink_wf m
  | Mrsymlink m => rsymlink_wf m
  | Mtlink m => tlink_wf m
  | Mtrenameat m => trenameat_wf m
  | Mtunlinkat m => tunlinkat_wf m
  | Mtrename m => trename_wf m
  | Mtreadlink m => treadlink_wf m
  | Mrreadlink m => rreadlink_wf m
  | Mtread m => tread_wf m
  | Mrread m => rread_wf m
  | Mtwrite m => twrite_wf m
  | Mrwrite m => rwrite_wf m
  | Mtmknod m => tmknod_wf m
  | Mrmknod m => rmknod_wf m
  | Mtmkdir m => tmkdir_wf m
  | Mrmkdir m => rmkdir_wf m
  | Mtgetattr m => tgetattr_wf m
  | Mrgetattr m => rgetattr_wf m
  | Mtsetattr m => tsetattr_wf m
  | Mtxattrwalk m => txattrwalk_wf m
  | Mrxattrwalk m => rxattrwalk_wf m
  | Mtxattrcreate m => txattrcreate_wf m
  | Mtreaddir m => treaddir_wf m
  | Mrreaddir m => rreaddir_wf m
  | Mtfsync m => tfsync_wf m
  | Mtstatfs m => tstatfs_wf m
  | Mrstatfs m => rstatfs_wf m
  | Mtwalkgetattr m => twalkgetattr_wf m
  | Mrwalkgetattr m => rwalkgetattr_wf m
  | Mtucreate m => tucreate_wf m
  | Mrucreate m => rucreate_wf m
  | Mtumkdir m => tumkdir_wf m
  | Mrumkdir m => rumkdir_wf m
  | Mtumknod m => tumknod_wf m
  | Mrumknod m => rumknod_wf m
  | Mtusymlink m => tusymlink_wf m
  | Mrusymlink m => rusymlink_wf m
  | Mtlock m => tlock_wf m
  | Mrlock m => rlock_wf m
  | MrreadServerPayloader m => rread_wf (rsp_rread m)
  | _ => True
  end.

(** * Theorems *)

(** ** Round trip and reuse of the messages without a payload *)

Lemma codec_fmap {A B} e (d : BufM A) (f : A -> B) a :
  codec e d a -> codec e (f <$> d) (f a).
Proof. intros H. exact (codec_map e d f a (f a) H eq_refl). Qed.

(** [encode] as a computation that only writes. *)
Definition message_write (m : message) : BufM unit := (fun _ => tt) <$> message_encode m.

Lemma codec_ext {A} (e e' : BufM unit) (d : BufM A) a :
  (forall b, e b = e' b) -> codec e d a -> codec e' d a.
Proof.
  intros He (Hs & bs & Hw & Hr). split; [done|]. exists bs. split; [|done].
  intros b. by rewrite <- He.
Qed.

Lemma codec_message {A} (mk : A -> message) (e : A -> BufM unit) (d : BufM A) m :
  (forall b, message_encode (mk m) b = (mk <$> keep e m) b) ->
  codec (e m) d m -> codec (message_write (mk m)) (mk <$> d) (mk m).
Proof.
  intros He Hc. eapply codec_ext; [|by apply codec_fmap].
  intros b. unfold message_write, fmap, BufM_fmap. rewrite He.
  unfold keep, fmap, BufM_fmap, mbind, BufM_bind. by destruct (e m b) as [[] b'].
Qed.

(** What the message writes is what decoding a receiver of the same dynamic
    type reads back, whatever the receiver held. *)
Lemma codec_no_payload m old :
  message_wf m -> message_Payload m = None ->
  message_typ old = message_typ m -> message_Payload old = None ->
  codec (message_write m) (message_decode old) m.
Proof.
  intros Hw Hp Ht Ho. destruct m; try discriminate Hp; clear Hp;
    destruct old; try discriminate Ho; clear Ho; try discriminate Ht; clear Ht;
    cbn [message_wf] in Hw;
    (eapply codec_message; [intros b; reflexivity|eauto with codec]).
Qed.

(** ** The directory listing *)

(** The bytes of one entry. *)
Definition Dirent_bytes (d : Dirent) : list byte :=
  QID_bytes (Dirent_QID d) ++ le_bytes 8 (Dirent_Offset d) ++
  le_bytes 1 (Dirent_Type d) ++
  le_bytes 2 (wrap16 (Z.of_nat (String.length (Dirent_Name d)))) ++
  bytes_of_string (Dirent_Name d).

Arguments Dirent_bytes : simpl never.

Lemma writes_Dirent d : writes (Dirent_encode d) (Dirent_bytes d).
Proof.
  repeat apply writes_bind; try (by intros b). apply writes_write_bytes.
Qed.

Lemma length_Dirent_bytes d :
  length (Dirent_bytes d) = (24 + String.length (Dirent_Name d))%nat.
Proof.
  unfold Dirent_bytes, QID_bytes. rewrite !length_app, !length_le_bytes.
  rewrite length_bytes_of_string. lia.
Qed.

Lemma reads_Dirent d :
  Dirent_wf d -> reads (Dirent_decode Dirent_zero) (Dirent_bytes d) d.
Proof.
  intros Hd. by apply (codec_bytes _ _ _ _ (codec_Dirent d _ Hd) (writes_Dirent d)).
Qed.

(** The reference: the longest prefix of the entries whose encodings, after
    [used] bytes, stay within the limit. *)
Fixpoint entries_that_fit (Count : Z) (used : nat) (es : list Dirent) : list Dirent :=
  match es with
  | [] => []
  | d :: es =>
      let used := (used + length (Dirent_bytes d))%nat in
      if Count <? Z.of_nat used then [] else d :: entries_that_fit Count used es
  end.

Definition Dirents_bytes (es : list Dirent) : list byte := concat (map Dirent_bytes es).

Lemma Dirents_bytes_nil : Dirents_bytes [] = [].
Proof. done. Qed.
Lemma Dirents_bytes_cons d es :
  Dirents_bytes (d :: es) = Dirent_bytes d ++ Dirents_bytes es.
Proof. done. Qed.

Lemma rreaddir_fill_spec Count es pre ov :
  let es' := entries_that_fit Count (length pre) es in
  let '(b, n) := rreaddir_fill Count es (Buffer pre ov) (length pre) in
  n = length (pre ++ Dirents_bytes es') /\ take n (data b) = pre ++ Dirents_bytes es'.
Proof.
  revert pre. induction es as [|d es IH]; intros pre; cbn [rreaddir_fill entries_that_fit].
  - by rewrite Dirents_bytes_nil, app_nil_r, take_ge.
  - rewrite writes_Dirent. cbn [data overflow]. rewrite length_app.
    destruct (Count <? _) eqn:E; cbn [data].
    + by rewrite Dirents_bytes_nil, app_nil_r, take_app_length.
    + specialize (IH (pre ++ Dirent_bytes d)). rewrite length_app in IH.
      case_match. destruct IH as [-> IH]. rewrite Dirents_bytes_cons.
      rewrite IH, !app_assoc. done.
Qed.

Lemma entries_that_fit_prefix Count used es :
  entries_that_fit Count used es `prefix_of` es.
Proof.
  revert used. induction es as [|d es IH]; intros used; cbn; [done|].
  case_match; [apply prefix_nil|]. by apply prefix_cons.
Qed.

Lemma entries_that_fit_bound Count used es :
  Z.of_nat used <= Count ->
  Z.of_nat (used + length (Dirents_bytes (entries_that_fit Count used es))) <= Count.
Proof.
  revert used. induction es as [|d es IH]; intros used Hu; cbn [entries_that_fit].
  - rewrite Dirents_bytes_nil. cbn. lia.
  - case_match eqn:E; [rewrite Dirents_bytes_nil; cbn; lia|].
    apply Z.ltb_ge in E. specialize (IH _ E).
    rewrite Dirents_bytes_cons, length_app. lia.
Qed.

(** The first entry left out is the one that would exceed the limit. *)
Lemma entries_that_fit_maximal Count used es d rest :
  es = entries_that_fit Count used es ++ d :: rest ->
  Count < Z.of_nat (used + length (Dirents_bytes (entries_that_fit Count used es))
                    + length (Dirent_bytes d)).
Proof.
  revert used. induction es as [|x es IH]; intros used; cbn [entries_that_fit].
  - intros H. discriminate H.
  - case_match eqn:E; intros H.
    + injection H as -> ->. apply Z.ltb_lt in E.
      rewrite Dirents_bytes_nil. cbn [length]. lia.
    + apply cons_tail_inj in H. specialize (IH _ H).
      rewrite Dirents_bytes_cons, length_app. lia.
Qed.

(** What [encode] makes of a listing. *)
Definition rreaddir_fit (r : rreaddir) : list Dirent :=
  entries_that_fit (rreaddir_Count r) 0 (rreaddir_Entries r).
Definition rreaddir_marshalled (r : rreaddir) : rreaddir :=
  mk_rreaddir (Z.of_nat (length (Dirents_bytes (rreaddir_fit r))))
    (rreaddir_Entries r) (Dirents_bytes (rreaddir_fit r)).

Lemma rreaddir_encode_spec r b :
  rreaddir_wf r ->
  rreaddir_encode r b =
    (rreaddir_marshalled r,
     Buffer (data b ++ le_bytes 4 (Z.of_nat (length (Dirents_bytes (rreaddir_fit r)))))
       (overflow b)).
Proof.
  intros [[Hc0 Hc] _]. unfold rreaddir_encode, rreaddir_marshalled.
  pose proof (rreaddir_fill_spec (rreaddir_Count r) (rreaddir_Entries r) [] false) as H.
  cbn [length] in H. fold (rreaddir_fit r) in H. case_match. destruct H as [-> ->].
  pose proof (entries_that_fit_bound (rreaddir_Count r) 0 (rreaddir_Entries r) Hc0) as Hb.
  fold (rreaddir_fit r) in Hb. cbn [app] in *. unfold wrap32.
  rewrite Z.mod_small by lia. done.
Qed.

(** Decoding eats entries one by one, and stops on a rest too short for one. *)
Lemma rreaddir_entries_step d fuel rest Entries :
  Dirent_wf d ->
  rreaddir_entries (S fuel) (Buffer (Dirent_bytes d ++ rest) false) Entries
  = rreaddir_entries fuel (Buffer rest false) (Entries ++ [d]).
Proof. intros Hd. cbn [rreaddir_entries]. by rewrite reads_Dirent. Qed.

Lemma Dirent_decode_empty old ov : overflow (Dirent_decode old (Buffer [] ov)).2 = true.
Proof.
  change (Dirent_decode old (Buffer [] ov)) with
    (let '(x, b) := Read8 (Buffer [] ov) in
     (Version ← Read32; Path ← Read64;
      let d := old <| Dirent_QID := Dirent_QID old <| QID_Type := x |>
        <| QID_Version := Version |> <| QID_Path := Path |> |> in
      Offset ← Read64; let d := d <| Dirent_Offset := Offset |> in
      Type_ ← ReadQIDType; let d := d <| Dirent_Type := Type_ |> in
      Name ← ReadString; let d := d <| Dirent_Name := Name |> in mret d) b).
  cbn [Read8 consume]. apply (sticky_bind _ _); eauto 20 with sticky.
Qed.

Lemma rreaddir_entries_all es fuel Entries :
  Forall Dirent_wf es -> (length es < fuel)%nat ->
  rreaddir_entries fuel (Buffer (Dirents_bytes es) false) Entries = Entries ++ es.
Proof.
  intros Hes. revert fuel Entries.
  induction Hes as [|d es Hd Hes IH]; intros fuel Entries Hf.
  - rewrite app_nil_r. destruct fuel; [done|]. cbn [rreaddir_entries].
    rewrite Dirents_bytes_nil. pose proof (Dirent_decode_empty Dirent_zero false) as Hov.
    destruct (Dirent_decode _ (Buffer [] false)) as [x b]. cbn in Hov.
    unfold isOverrun. by rewrite Hov.
  - destruct fuel; [cbn in Hf; lia|].
    rewrite Dirents_bytes_cons, rreaddir_entries_step by done.
    rewrite IH by (cbn in Hf; lia). by rewrite <- app_assoc.
Qed.

Lemma length_Dirents_bytes es : (length es <= length (Dirents_bytes es))%nat.
Proof.
  induction es as [|d es IH]; [done|]. rewrite Dirents_bytes_cons.
  cbn [length]. rewrite length_app, length_Dirent_bytes. lia.
Qed.

(** The loop of [rreaddir.decode] as the source writes it: decode an entry,
    leave at the first overrun, else append and go on. *)
Inductive entries_loop : buffer -> list Dirent -> list Dirent -> Prop :=
| entries_loop_break b Entries d b' :
    Dirent_decode Dirent_zero b = (d, b') -> isOverrun b' = true ->
    entries_loop b Entries Entries
| entries_loop_next b Entries d b' es :
    Dirent_decode Dirent_zero b = (d, b') -> isOverrun b' = false ->
    entries_loop b' (Entries ++ [d]) es -> entries_loop b Entries es.

Lemma progresses_Dirent old : progresses (Dirent_decode old).
Proof.
  unfold Dirent_decode. apply progresses_bind; intros; eauto 20 with sticky.
  - unfold QID_decode. apply progresses_bind; intros; eauto 20 with sticky.
    + apply progresses_Read8.
    + eauto 20 with shrinks.
  - unfold ReadQIDType. eauto 20 with shrinks.
Qed.

(** ** The registry *)

(** A message that the registry may hold under number [t]. *)
Definition pooled (t : Z) (m : message) : Prop :=
  message_typ m = t /\ match m with MrreadServerPayloader _ => False | _ => True end.

(** Every factory and every cached message sits under its own number. *)
Definition registry_ok (r : registry) : Prop :=
  map_Forall (fun t e =>
    pooled t (create e) /\ Forall (pooled t) (cache e) /\
    (length (cache e) <= maxCacheSize)%nat) (factories r).

Lemma pooled_SetPayload t m p : pooled t m -> pooled t (message_SetPayload m p).
Proof. by destruct m. Qed.

(** Decoding assigns to every field that is not the payload: the result depends on
    the receiver's dynamic type and payload only. *)
Lemma message_decode_fresh t m m' :
  pooled t m -> pooled t m' -> message_Payload m = message_Payload m' ->
  same_decode (message_decode m) (message_decode m').
Proof.
  intros [Ht Hm] [Ht' Hm'] Hp. rewrite <- Ht in Ht'. clear Ht.
  destruct m; try done; clear Hm; destruct m'; try done; clear Hm'; try discriminate Ht';
    clear Ht'; cbn [message_decode]; apply same_decode_fmap;
    lazymatch goal with
    | |- same_decode (@decode _ (@Message_encoder _ ?I) _) _ =>
        unfold I; cbn [decode Message_encoder]
    end; first [solve [fresh_record] | idtac].
  all: match goal with |- same_decode (_ ?m) (_ ?m') => destruct m, m' end;
    injection Hp as Hp; cbn in Hp; subst.
  - apply same_decode_refl.
  - unfold twrite_decode. solve_fresh.
  - unfold rreaddir_decode. solve_fresh.
Qed.

Lemma registry_ok_insert r t e n :
  registry_ok r ->
  (pooled t (create e) /\ Forall (pooled t) (cache e) /\
    (length (cache e) <= maxCacheSize)%nat) ->
  registry_ok (mk_registry (<[t := e]> (factories r)) n).
Proof. intros Hr He. apply map_Forall_insert_2; done. Qed.

Lemma registry_ok_get r t m r' :
  registry_ok r -> registry_get r t = Some (m, r') -> pooled t m /\ registry_ok r'.
Proof.
  unfold registry_get. intros Hr Hg.
  destruct (factories r !! t) as [e|] eqn:E; [|discriminate]. cbn in Hg.
  destruct (Hr t e E) as (Hc & Hm & Hl).
  destruct (cache e) as [|x rest] eqn:Ec; injection Hg as <- <-; [done|].
  apply Forall_cons_1 in Hm as [Hx Hm]. split; [done|].
  apply registry_ok_insert; [done|]. cbn in *. split; [done|]. split; [done|lia].
Qed.

(** Which numbers have a factory never changes after initialisation. *)
Lemma registry_get_dom r t m r' :
  registry_get r t = Some (m, r') -> dom (factories r') = dom (factories r).
Proof.
  unfold registry_get. destruct (factories r !! t) as [e|] eqn:E; [|discriminate].
  cbn. destruct (cache e); intros [= <- <-]; [done|]. cbn.
  apply dom_insert_lookup_L. by exists e.
Qed.

Lemma registry_ok_put r m :
  registry_ok r -> pooled (message_typ m) m -> registry_ok (registry_put r m).
Proof.
  intros Hr Hm. unfold registry_put.
  set (m' := match message_Payload m with Some _ => _ | None => _ end).
  assert (Hm' : pooled (message_typ m') m').
  { unfold m'. case_match; [|done]. pose proof (pooled_SetPayload _ _ [] Hm) as [_ Hp].
    split; [done|exact Hp]. }
  destruct (factories r !! message_typ m') as [e|] eqn:E; [|done].
  destruct (Hr _ _ E) as (Hc & Hca & Hl).
  case_match eqn:El; [|done]. apply Nat.ltb_lt in El.
  apply registry_ok_insert; [done|]. cbn. split; [done|]. split.
  - apply Forall_app. split; [done|]. by constructor.
  - rewrite length_app. cbn. lia.
Qed.

Lemma registry_ok_register t fn r r' :
  registry_ok r -> pooled t fn -> register t fn r = Some r' -> registry_ok r'.
Proof.
  unfold register. intros Hr Ht Hreg. repeat case_match; try discriminate;
    injection Hreg as <-; (apply registry_ok_insert; [done|]); cbn;
    (split; [done|]; split; [constructor|lia]).
Qed.

Lemma registry_ok_register_all l r r' :
  registry_ok r -> Forall (fun '(t, fn) => pooled t fn) l ->
  register_all l r = Some r' -> registry_ok r'.
Proof.
  intros Hr Hl. revert r Hr. induction Hl as [|[t fn] l Ht Hl IH]; intros r Hr; cbn.
  - by intros [= <-].
  - destruct (register t fn r) as [r1|] eqn:E; [|discriminate]. cbn.
    apply IH. by eapply registry_ok_register.
Qed.

(** [largestFixedSize] bounds the fixed part of every registered message. *)
Definition sizes_ok (r : registry) : Prop :=
  map_Forall (fun _ e => calculateSize (create e) <= largestFixedSize r) (factories r).

Lemma sizes_ok_register t fn r r' :
  sizes_ok r -> register t fn r = Some r' -> sizes_ok r'.
Proof.
  unfold register. intros Hr Hreg.
  destruct (256 <=? t); [discriminate|].
  destruct (factories r !! t); [discriminate|]. injection Hreg as <-.
  unfold sizes_ok. cbn [factories largestFixedSize].
  set (n := calculateSize fn). set (n' := if largestFixedSize r <? n then n else _).
  assert (Hn : n <= n' /\ largestFixedSize r <= n').
  { unfold n'. destruct (Z.ltb_spec (largestFixedSize r) n); lia. }
  apply map_Forall_insert_2; [apply Hn|].
  eapply map_Forall_impl; [exact Hr|]. intros i e He. cbv beta in *. lia.
Qed.

Lemma sizes_ok_register_all l r r' :
  sizes_ok r -> register_all l r = Some r' -> sizes_ok r'.
Proof.
  revert r. induction l as [|[t fn] l IH]; intros r Hr; cbn [register_all].
  - by intros [= <-].
  - destruct (register t fn r) as [r1|] eqn:E; [|discriminate].
    apply IH. by eapply sizes_ok_register.
Qed.

Lemma registrations_pooled : Forall (fun '(t, fn) => pooled t fn) registrations.
Proof. repeat constructor. Qed.

Lemma registry_init_ok : registry_init = Some msgDotLRegistry /\ registry_ok msgDotLRegistry.
Proof.
  assert (H : registry_init = Some msgDotLRegistry) by (vm_compute; reflexivity).
  split; [done|]. eapply registry_ok_register_all; [|exact registrations_pooled|exact H].
  apply map_Forall_empty.
Qed.

(** * Properties *)

(** The loop of [rreaddir.decode] terminates on every payload, and what it
    has appended by then is the result: the run of the loop as the source
    writes it is the one that the fuel, one more than the number of bytes,
    computes. *)
Theorem rreaddir_loop_terminates b Entries :
  entries_loop b Entries (rreaddir_entries (S (length (data b))) b Entries).
Proof.
  assert (H : forall fuel b Entries, (length (data b) < fuel)%nat ->
    entries_loop b Entries (rreaddir_entries fuel b Entries)); [|apply H; lia].
  clear b Entries. induction fuel as [|fuel IH]; intros b Entries Hf; [lia|].
  cbn [rreaddir_entries]. destruct (Dirent_decode Dirent_zero b) as [d b'] eqn:Ed. destruct (isOverrun b') eqn:Eo.
  - by eapply entries_loop_break.
  - eapply entries_loop_next; [exact Ed|exact Eo|]. apply IH.
    pose proof (progresses_Dirent Dirent_zero b) as Hp. rewrite Ed in Hp. specialize (Hp Eo).
    cbn in Hp. lia.
Qed.

(** C39: [rreaddir.encode] marshals a prefix of the entries: its bytes are within
    the client's limit, no further entry would have been, and decoding the
    payload gives back exactly that prefix. *)
Theorem rreaddir_prefix r b :
  rreaddir_wf r ->
  let r' := (rreaddir_encode r b).1 in
  let fit := rreaddir_entries (S (length (rreaddir_payload r')))
               (Buffer (rreaddir_payload r') false) [] in
  fit `prefix_of` rreaddir_Entries r /\
  rreaddir_Count r' = Z.of_nat (length (rreaddir_payload r')) /\
  rreaddir_Count r' <= rreaddir_Count r /\
  (forall d rest, rreaddir_Entries r = fit ++ d :: rest ->
     rreaddir_Count r < rreaddir_Count r' + Z.of_nat (24 + String.length (Dirent_Name d))).
Proof.
  intros Hr r' fit. pose proof Hr as [[Hc _] Hes].
  assert (Hr' : r' = rreaddir_marshalled r) by (unfold r'; by rewrite rreaddir_encode_spec).
  pose proof (entries_that_fit_prefix (rreaddir_Count r) 0 (rreaddir_Entries r)) as Hpre.
  assert (Hfit : fit = rreaddir_fit r).
  { unfold fit. rewrite Hr'. apply rreaddir_entries_all.
    - destruct Hpre as [k Hk]. rewrite Hk in Hes. by apply Forall_app in Hes as [? _].
    - pose proof (length_Dirents_bytes (rreaddir_fit r)). cbn. lia. }
  rewrite Hfit, Hr'. split; [exact Hpre|]. split; [done|]. split.
  - exact (entries_that_fit_bound (rreaddir_Count r) 0 _ Hc).
  - intros d rest Hd. pose proof (entries_that_fit_maximal _ _ _ _ _ Hd) as Hm.
    fold (rreaddir_fit r) in Hm. rewrite length_Dirent_bytes in Hm. cbn in *. lia.
Qed.

Definition example_dirent : Dirent := mkDirent (mkQID 0 0 7) 1 0 "a".

Lemma rreaddir_prefix_witness :
  rreaddir_wf (mk_rreaddir 49 [example_dirent; example_dirent] []) /\
  let r' := (rreaddir_encode (mk_rreaddir 49 [example_dirent; example_dirent] [])
               (Buffer [] false)).1 in
  rreaddir_Count r' = 25 /\ rreaddir_Count r' <= 49.
Proof.
  assert (H : rreaddir_wf (mk_rreaddir 49 [example_dirent; example_dirent] [])).
  { split; [done|]. repeat constructor; done. }
  split; [exact H|]. split; [reflexivity|].
  exact (proj1 (proj2 (proj2 (rreaddir_prefix _ (Buffer [] false) H)))).
Defined.

(** Package initialisation does not panic on a duplicate or too large
    message number, every factory creates a message of the number it is
    registered under, and the largest fixed part of a message, which the client
    subtracts from the message size, is 153 bytes (that of [rgetattr]). *)
Theorem registry_init_correct :
  registry_init = Some msgDotLRegistry /\
  registry_ok msgDotLRegistry /\
  largestFixedSize msgDotLRegistry = 153 /\
  map_Forall (fun _ e => calculateSize (create e) <= 153) (factories msgDotLRegistry).
Proof.
  destruct registry_init_ok as [H1 H2]. split; [done|]. split; [done|].
  split; [vm_compute; reflexivity|].
  assert (largestFixedSize msgDotLRegistry = 153) as <- by (vm_compute; reflexivity).
  eapply sizes_ok_register_all; [|exact H1]. apply map_Forall_empty.
Qed.
