(* ===== verification/Fmt.v ===== *)
(** * Formatting with [fmt.Sprintf] (standard library)

    What the [String] methods use of it: the verbs [%d], [%o], [%s], [%v], [%x] and [%X],
    and the flag [#] with the last two. An argument is a value with as much of its type as
    the verbs look at: a type that has a [String] method is printed by it, but only where
    the verb is one for strings, which [%x] and [%X] are and [%d] is not. *)
From S2P Require Import Prelude.

#[local] Open Scope string_scope.

(** ** Values *)

Inductive value :=
| Num (type : string) (n : Z)
| Bool (b : bool)
| Text (s : string)
| Slice (vs : list value)
| Struct (vs : list value)
| Stringer (text : string) (v : value)  (* with what its method [String] returns *)
| Pointer (text : string).              (* to a value, with the method *)

(** ** Digits *)

Definition digit (upper : bool) (d : Z) : ascii :=
  ascii_of_nat (Z.to_nat (if d <? 10 then d + 48 else d + (if upper then 55 else 87))%Z).

Fixpoint digits (fuel : nat) (base : Z) (upper : bool) (n : Z) (acc : string) : string :=
  match fuel with
  | O => acc
  | S fuel =>
      let acc := String (digit upper (n mod base)%Z) acc in
      if (n <? base)%Z then acc else digits fuel base upper (n / base)%Z acc
  end.

(** 64 digits are enough for a [uint64], in any base. *)
Definition format_base (base : Z) (upper : bool) (n : Z) : string :=
  if (n <? 0)%Z then String "-" (digits 64 base upper (- n) EmptyString)
  else digits 64 base upper n EmptyString.

Fixpoint hex_of_string (upper : bool) (s : string) : string :=
  match s with
  | EmptyString => EmptyString
  | String c s =>
      let n := Z.of_nat (nat_of_ascii c) in
      String (digit upper (n / 16)%Z) (String (digit upper (n mod 16)%Z) (hex_of_string upper s))
  end.

(** ** Verbs *)

Definition string_verb (verb : ascii) : bool :=
  existsb (Ascii.eqb verb) ["s"; "v"; "x"; "X"]%char.

(** [%!d(string=hi)]: a verb that the type does not have. *)
Definition bad_verb (verb : ascii) (type text : string) : string :=
  "%!" ++ String verb ("(" ++ type ++ "=" ++ text ++ ")").

Definition sharp_prefix (sharp : bool) (verb : ascii) : string :=
  if sharp then (if Ascii.eqb verb "X" then "0X" else "0x") else EmptyString.

Definition print_num (verb : ascii) (sharp : bool) (type : string) (n : Z) : string :=
  if Ascii.eqb verb "d" || Ascii.eqb verb "v" then format_base 10 false n
  else if Ascii.eqb verb "o" then format_base 8 false n
  else if Ascii.eqb verb "x" then sharp_prefix sharp verb ++ format_base 16 false n
  else if Ascii.eqb verb "X" then sharp_prefix sharp verb ++ format_base 16 true n
  else bad_verb verb type (format_base 10 false n).

Definition print_text (verb : ascii) (sharp : bool) (s : string) : string :=
  if Ascii.eqb verb "s" || Ascii.eqb verb "v" then s
  else if Ascii.eqb verb "x" then sharp_prefix sharp verb ++ hex_of_string false s
  else if Ascii.eqb verb "X" then sharp_prefix sharp verb ++ hex_of_string true s
  else bad_verb verb "string" s.

Definition print_bool (verb : ascii) (b : bool) : string :=
  let text := if b then "true" else "false" in
  if Ascii.eqb verb "v" then text else bad_verb verb "bool" text.

(** [strings.Join]. *)
Fixpoint Join_strings (sep : string) (elems : list string) : string :=
  match elems with
  | [] => EmptyString
  | [s] => s
  | s :: elems => s ++ sep ++ Join_strings sep elems
  end.

Fixpoint print (verb : ascii) (sharp : bool) (v : value) : string :=
  match v with
  | Num type n => print_num verb sharp type n
  | Bool b => print_bool verb b
  | Text s => print_text verb sharp s
  | Slice vs => "[" ++ Join_strings " " (map (print verb sharp) vs) ++ "]"
  | Struct vs => "{" ++ Join_strings " " (map (print verb sharp) vs) ++ "}"
  | Stringer s v => if string_verb verb then print_text verb sharp s else print verb sharp v
  | Pointer s => if string_verb verb then print_text verb sharp s else bad_verb verb "pointer" s
  end.

(** The name of the type of an argument, of which only numbers are told apart. *)
Fixpoint extra (args : list value) : list string :=
  match args with
  | [] => []
  | v :: args =>
      (match v with
       | Num type _ => type | Bool _ => "bool" | Text _ => "string" | _ => "value"
       end ++ "=" ++ print "v" false v) :: extra args
  end.

Definition extra_args (args : list value) : string :=
  match args with
  | [] => EmptyString
  | _ => "%!(EXTRA " ++ Join_strings ", " (extra args) ++ ")"
  end.

Fixpoint Sprintf (format : string) (args : list value) : string :=
  match format with
  | EmptyString => extra_args args
  | String "%" EmptyString => "%!(NOVERB)" ++ extra_args args
  | String "%" (String "%" format) => String "%" (Sprintf format args)
  | String "%" (String "#" (String verb format)) =>
      match args with
      | v :: args => print verb true v ++ Sprintf format args
      | [] => "%!" ++ String verb "(MISSING)" ++ Sprintf format []
      end
  | String "%" (String verb format) =>
      match args with
      | v :: args => print verb false v ++ Sprintf format args
      | [] => "%!" ++ String verb "(MISSING)" ++ Sprintf format []
      end
  | String c format => String c (Sprintf format args)
  end.

(** ** Examples, from the documentation of the package *)

Example Sprintf_verbs :
  Sprintf "%d 0o%o %x %#x %X %s %v" [Num "int" 23; Num "int" 23; Num "int" 26; Num "int" 26;
    Num "int" 26; Text "hi"; Slice [Text "a"; Num "int" 0; Bool true]]
  = "23 0o27 1a 0x1a 1A hi [a 0 true]".
Proof. reflexivity. Qed.

Example Sprintf_stringer :
  Sprintf "%s %v %d %X" (repeat (Stringer "hi" (Struct [Num "int" 1; Num "int" 2])) 4)
  = "hi hi {1 2} 6869".
Proof. reflexivity. Qed.

Example Sprintf_errors :
  Sprintf "%d %s" [Text "hi"] = "%!d(string=hi) %!s(MISSING)" /\
  Sprintf "%s" [Num "int" 7; Text "x"] = "%!s(int=7)%!(EXTRA string=x)".
Proof. split; reflexivity. Qed.

(** ** Lemmas *)

(** Text before the first verb is copied. *)
Fixpoint plain (s : string) : bool :=
  match s with
  | EmptyString => true
  | String c s => negb (Ascii.eqb c "%") && plain s
  end.

Lemma Sprintf_plain s format args :
  plain s = true -> Sprintf (s ++ format) args = s ++ Sprintf format args.
Proof.
  induction s as [|c s IH]; [done|]. cbn [plain].
  intros [Hc Hs]%andb_true_iff. transitivity (String c (Sprintf (s ++ format) args)).
  - destruct c as [[] [] [] [] [] [] [] []]; done.
  - by rewrite IH.
Qed.

Lemma Join_strings_cons sep s elems :
  Join_strings sep (s :: elems)
  = match elems with [] => s | _ => s ++ sep ++ Join_strings sep elems end.
Proof. by destruct elems. Qed.
