(* ===== verification/Strings.v ===== *)
(** * What is logged ([String] methods of [p9/p9.go] and [p9/messages.go])

    Each [String] method as a call of [Sprintf] with the format of the source, and the
    values that its arguments are for [fmt]: a type that has a [String] method is printed by
    it where the verb is one for strings. *)
From S2P Require Import Prelude Buffer Types Messages Message Fmt.

#[local] Open Scope string_scope.

(** ** Flags and types *)

Definition OpenFlags_String (o : Z) : string :=
  if (o =? ReadOnly)%Z then "ReadOnly"
  else if (o =? WriteOnly)%Z then "WriteOnly"
  else if (o =? ReadWrite)%Z then "ReadWrite"
  else if (o =? OpenFlagsModeMask)%Z then "OpenFlagsModeMask"
  else Sprintf "unknown (%#x)" [Num "uint32" o].

Definition OpenFlags_value (o : Z) : value := Stringer (OpenFlags_String o) (Num "p9.OpenFlags" o).

Definition TypeExclusive : Z := 0x20.
Definition TypeMount : Z := 0x10.
Definition TypeAuth : Z := 0x08.
Definition TypeTemporary : Z := 0x04.
Definition TypeLink : Z := 0x01.

Definition qidTypeString : list (Z * string) :=
  [(TypeDir, "QID Type Directory");
   (TypeAppendOnly, "QID Type Append Only");
   (TypeExclusive, "QID Type Exclusive");
   (TypeMount, "QID Type Mount");
   (TypeAuth, "QID Type Auth");
   (TypeTemporary, "QID Type Temporary");
   (TypeSymlink, "QID Type Symlink");
   (TypeLink, "QID Type Link");
   (TypeRegular, "QID Type Regular")].

Definition QIDType_String (q : Z) : string :=
  match List.find (fun entry => (fst entry =? q)%Z) qidTypeString with
  | Some (_, s) => s
  | None => Sprintf "unknown QID type (%#x)" [Num "uint8" q]
  end.

Definition QIDType_value (q : Z) : value := Stringer (QIDType_String q) (Num "p9.QIDType" q).

Definition LockType_String (l : Z) : string :=
  if (l =? ReadLock)%Z then "ReadLock"
  else if (l =? WriteLock)%Z then "WriteLock"
  else if (l =? Unlock)%Z then "Unlock"
  else "unknown lock type".

Definition LockStatus_String (s : Z) : string :=
  if (s =? LockStatusOK)%Z then "LockStatusOK"
  else if (s =? LockStatusBlocked)%Z then "LockStatusBlocked"
  else if (s =? LockStatusError)%Z then "LockStatusError"
  else if (s =? LockStatusGrace)%Z then "LockStatusGrace"
  else "unknown lock status".

Definition LockStatus_value (s : Z) : value :=
  Stringer (LockStatus_String s) (Num "p9.LockStatus" s).

(** ** Data *)

Definition QID_String (q : QID) : string :=
  Sprintf "QID{Type: %d, Version: %d, Path: %d}"
    [QIDType_value (QID_Type q); Num "uint32" (QID_Version q); Num "uint64" (QID_Path q)].

Definition QID_value (q : QID) : value :=
  Stringer (QID_String q)
    (Struct [QIDType_value (QID_Type q); Num "uint32" (QID_Version q); Num "uint64" (QID_Path q)]).

(** It has no [String] method. *)
Definition FSStat_value (f : FSStat) : value :=
  Struct [Num "uint32" (FSStat_Type f); Num "uint32" (FSStat_BlockSize f);
    Num "uint64" (FSStat_Blocks f); Num "uint64" (FSStat_BlocksFree f);
    Num "uint64" (FSStat_BlocksAvailable f); Num "uint64" (FSStat_Files f);
    Num "uint64" (FSStat_FilesFree f); Num "uint64" (FSStat_FSID f);
    Num "uint32" (FSStat_NameLength f)].

(** [if b { masks = append(masks, name) }] *)
Definition mask_name (b : bool) (name : string) (masks : list string) : list string :=
  if b then (masks ++ [name])%list else masks.

Definition AttrMask_names (a : AttrMask) : list string :=
  let masks := [] in
  let masks := mask_name (AM_Mode a) "Mode" masks in
  let masks := mask_name (AM_NLink a) "NLink" masks in
  let masks := mask_name (AM_UID a) "UID" masks in
  let masks := mask_name (AM_GID a) "GID" masks in
  let masks := mask_name (AM_RDev a) "RDev" masks in
  let masks := mask_name (AM_ATime a) "ATime" masks in
  let masks := mask_name (AM_MTime a) "MTime" masks in
  let masks := mask_name (AM_CTime a) "CTime" masks in
  let masks := mask_name (AM_INo a) "INo" masks in
  let masks := mask_name (AM_Size a) "Size" masks in
  let masks := mask_name (AM_Blocks a) "Blocks" masks in
  let masks := mask_name (AM_BTime a) "BTime" masks in
  let masks := mask_name (AM_Gen a) "Gen" masks in
  mask_name (AM_DataVersion a) "DataVersion" masks.

Definition AttrMask_String (a : AttrMask) : string :=
  Sprintf "AttrMask{with: %s}" [Text (Join_strings " " (AttrMask_names a))].

Definition AttrMask_value (a : AttrMask) : value :=
  Stringer (AttrMask_String a)
    (Struct (map Bool [AM_Mode a; AM_NLink a; AM_UID a; AM_GID a; AM_RDev a; AM_ATime a;
       AM_MTime a; AM_CTime a; AM_INo a; AM_Size a; AM_Blocks a; AM_BTime a; AM_Gen a;
       AM_DataVersion a])).

Definition SetAttrMask_names (s : SetAttrMask) : list string :=
  let masks := [] in
  let masks := mask_name (SAM_Permissions s) "Permissions" masks in
  let masks := mask_name (SAM_UID s) "UID" masks in
  let masks := mask_name (SAM_GID s) "GID" masks in
  let masks := mask_name (SAM_Size s) "Size" masks in
  let masks := mask_name (SAM_ATime s) "ATime" masks in
  let masks := mask_name (SAM_MTime s) "MTime" masks in
  let masks := mask_name (SAM_CTime s) "CTime" masks in
  let masks := mask_name (SAM_ATimeNotSystemTime s) "ATimeNotSystemTime" masks in
  mask_name (SAM_MTimeNotSystemTime s) "MTimeNotSystemTime" masks.

Definition SetAttrMask_String (s : SetAttrMask) : string :=
  Sprintf "SetAttrMask{with: %s}" [Text (Join_strings " " (SetAttrMask_names s))].

Definition SetAttrMask_value (s : SetAttrMask) : value :=
  Stringer (SetAttrMask_String s)
    (Struct (map Bool [SAM_Permissions s; SAM_UID s; SAM_GID s; SAM_Size s; SAM_ATime s;
       SAM_MTime s; SAM_CTime s; SAM_ATimeNotSystemTime s; SAM_MTimeNotSystemTime s])).

Definition Attr_fields (a : Attr) : list value :=
  [Num "p9.FileMode" (Attr_Mode a); Num "p9.UID" (Attr_UID a); Num "p9.GID" (Attr_GID a);
   Num "p9.NLink" (Attr_NLink a); Num "p9.Dev" (Attr_RDev a); Num "uint64" (Attr_Size a);
   Num "uint64" (Attr_BlockSize a); Num "uint64" (Attr_Blocks a);
   Num "uint64" (Attr_ATimeSeconds a); Num "uint64" (Attr_ATimeNanoSeconds a);
   Num "uint64" (Attr_MTimeSeconds a); Num "uint64" (Attr_MTimeNanoSeconds a);
   Num "uint64" (Attr_CTimeSeconds a); Num "uint64" (Attr_CTimeNanoSeconds a);
   Num "uint64" (Attr_BTimeSeconds a); Num "uint64" (Attr_BTimeNanoSeconds a);
   Num "uint64" (Attr_Gen a); Num "uint64" (Attr_DataVersion a)].

Definition Attr_String (a : Attr) : string :=
  Sprintf "Attr{Mode: 0o%o, UID: %d, GID: %d, NLink: %d, RDev: %d, Size: %d, BlockSize: %d, Blocks: %d, ATime: {Sec: %d, NanoSec: %d}, MTime: {Sec: %d, NanoSec: %d}, CTime: {Sec: %d, NanoSec: %d}, BTime: {Sec: %d, NanoSec: %d}, Gen: %d, DataVersion: %d}"
    (Attr_fields a).

Definition Attr_value (a : Attr) : value := Stringer (Attr_String a) (Struct (Attr_fields a)).

Definition SetAttr_fields (s : SetAttr) : list value :=
  [Num "p9.FileMode" (SA_Permissions s); Num "p9.UID" (SA_UID s); Num "p9.GID" (SA_GID s);
   Num "uint64" (SA_Size s); Num "uint64" (SA_ATimeSeconds s);
   Num "uint64" (SA_ATimeNanoSeconds s); Num "uint64" (SA_MTimeSeconds s);
   Num "uint64" (SA_MTimeNanoSeconds s)].

Definition SetAttr_String (s : SetAttr) : string :=
  Sprintf "SetAttr{Permissions: 0o%o, UID: %d, GID: %d, Size: %d, ATime: {Sec: %d, NanoSec: %d}, MTime: {Sec: %d, NanoSec: %d}}"
    (SetAttr_fields s).

Definition SetAttr_value (s : SetAttr) : value :=
  Stringer (SetAttr_String s) (Struct (SetAttr_fields s)).

Definition Dirent_String (d : Dirent) : string :=
  Sprintf "Dirent{QID: %d, Offset: %d, Type: 0x%X, Name: %s}"
    [QID_value (Dirent_QID d); Num "uint64" (Dirent_Offset d); QIDType_value (Dirent_Type d);
     Text (Dirent_Name d)].

Definition Dirent_value (d : Dirent) : value :=
  Stringer (Dirent_String d)
    (Struct [QID_value (Dirent_QID d); Num "uint64" (Dirent_Offset d);
       QIDType_value (Dirent_Type d); Text (Dirent_Name d)]).

(** The type of an entry, meant as a number, comes out as its name in hexadecimal: [%X] is a
    verb for strings, and [QIDType] has a [String] method. *)
Example Dirent_type_in_hex :
  Dirent_String (mkDirent (mkQID 0 0 5) 1 0 "a")
  = "Dirent{QID: {0 0 5}, Offset: 1, Type: 0x51494420547970652052656775" ++ "6C6172, Name: a}".
Proof. vm_compute. reflexivity. Qed.

(** ** Messages *)

Definition tversion_String (t : tversion) : string :=
  Sprintf "Tversion{MSize: %d, Version: %s}"
    [Num "uint32" (tversion_MSize t); Text (tversion_Version t)].

Definition rversion_String (r : rversion) : string :=
  Sprintf "Rversion{MSize: %d, Version: %s}"
    [Num "uint32" (rversion_MSize r); Text (rversion_Version r)].

Definition tflush_String (t : tflush) : string :=
  Sprintf "Tflush{OldTag: %d}"
    [Num "p9.tag" (tflush_OldTag t)].

Definition rflush_String (r : rflush) : string :=
  Sprintf "Rflush{}" [].

Definition twalk_String (t : twalk) : string :=
  Sprintf "Twalk{FID: %d, newFID: %d, Names: %v}"
    [Num "p9.fid" (twalk_fid t); Num "p9.fid" (twalk_newFID t);
     Slice (map Text (twalk_Names t))].

Definition rwalk_String (r : rwalk) : string :=
  Sprintf "Rwalk{QIDs: %v}"
    [Slice (map QID_value (rwalk_QIDs r))].

Definition tclunk_String (t : tclunk) : string :=
  Sprintf "Tclunk{FID: %d}"
    [Num "p9.fid" (tclunk_fid t)].

Definition rclunk_String (r : rclunk) : string :=
  Sprintf "Rclunk{}" [].

Definition tremove_String (t : tremove) : string :=
  Sprintf "Tremove{FID: %d}"
    [Num "p9.fid" (tremove_fid t)].

Definition rremove_String (r : rremove) : string :=
  Sprintf "Rremove{}" [].

Definition rlerror_String (r : rlerror) : string :=
  Sprintf "Rlerror{Error: %d}"
    [Num "uint32" (rlerror_Error r)].

Definition tauth_String (t : tauth) : string :=
  Sprintf "Tauth{AuthFID: %d, UserName: %s, AttachName: %s, UID: %d"
    [Num "p9.fid" (tauth_Authenticationfid t); Text (tauth_UserName t);
     Text (tauth_AttachName t); Num "p9.UID" (tauth_UID t)].

Definition rauth_String (r : rauth) : string :=
  Sprintf "Rauth{QID: %s}"
    [QID_value (rauth_QID r)].

Definition tattach_String (t : tattach) : string :=
  Sprintf "Tattach{FID: %d, AuthFID: %d, UserName: %s, AttachName: %s, UID: %d}"
    [Num "p9.fid" (tattach_fid t); Num "p9.fid" (tauth_Authenticationfid (tattach_Auth t));
     Text (tauth_UserName (tattach_Auth t)); Text (tauth_AttachName (tattach_Auth t));
     Num "p9.UID" (tauth_UID (tattach_Auth t))].

Definition rattach_String (r : rattach) : string :=
  Sprintf "Rattach{QID: %s}"
    [QID_value (rattach_QID r)].

Definition tlopen_String (t : tlopen) : string :=
  Sprintf "Tlopen{FID: %d, Flags: %v}"
    [Num "p9.fid" (tlopen_fid t); OpenFlags_value (tlopen_Flags t)].

Definition rlopen_String (r : rlopen) : string :=
  Sprintf "Rlopen{QID: %s, IoUnit: %d}"
    [QID_value (rlopen_QID r); Num "uint32" (rlopen_IoUnit r)].

Definition tlcreate_String (t : tlcreate) : string :=
  Sprintf "Tlcreate{FID: %d, Name: %s, OpenFlags: %s, Permissions: 0o%o, GID: %d}"
    [Num "p9.fid" (tlcreate_fid t); Text (tlcreate_Name t);
     OpenFlags_value (tlcreate_OpenFlags t); Num "p9.FileMode" (tlcreate_Permissions t);
     Num "p9.GID" (tlcreate_GID t)].

Definition rlcreate_String (r : rlcreate) : string :=
  Sprintf "Rlcreate{QID: %s, IoUnit: %d}"
    [QID_value (rlopen_QID (rlcreate_rlopen r));
     Num "uint32" (rlopen_IoUnit (rlcreate_rlopen r))].

Definition tsymlink_String (t : tsymlink) : string :=
  Sprintf "Tsymlink{DirectoryFID: %d, Name: %s, Target: %s, GID: %d}"
    [Num "p9.fid" (tsymlink_Directory t); Text (tsymlink_Name t); Text (tsymlink_Target t);
     Num "p9.GID" (tsymlink_GID t)].

Definition rsymlink_String (r : rsymlink) : string :=
  Sprintf "Rsymlink{QID: %s}"
    [QID_value (rsymlink_QID r)].

Definition tlink_String (t : tlink) : string :=
  Sprintf "Tlink{DirectoryFID: %d, TargetFID: %d, Name: %s}"
    [Num "p9.fid" (tlink_Directory t); Num "p9.fid" (tlink_Target t); Text (tlink_Name t)].

Definition rlink_String (r : rlink) : string :=
  Sprintf "Rlink{}" [].

Definition trenameat_String (t : trenameat) : string :=
  Sprintf "TrenameAt{OldDirectoryFID: %d, OldName: %s, NewDirectoryFID: %d, NewName: %s}"
    [Num "p9.fid" (trenameat_OldDirectory t); Text (trenameat_OldName t);
     Num "p9.fid" (trenameat_NewDirectory t); Text (trenameat_NewName t)].

Definition rrenameat_String (r : rrenameat) : string :=
  Sprintf "Rrenameat{}" [].

Definition tunlinkat_String (t : tunlinkat) : string :=
  Sprintf "Tunlinkat{DirectoryFID: %d, Name: %s, Flags: 0x%X}"
    [Num "p9.fid" (tunlinkat_Directory t); Text (tunlinkat_Name t);
     Num "uint32" (tunlinkat_Flags t)].

Definition runlinkat_String (r : runlinkat) : string :=
  Sprintf "Runlinkat{}" [].

Definition trename_String (t : trename) : string :=
  Sprintf "Trename{FID: %d, DirectoryFID: %d, Name: %s}"
    [Num "p9.fid" (trename_fid t); Num "p9.fid" (trename_Directory t); Text (trename_Name t)].

Definition rrename_String (r : rrename) : string :=
  Sprintf "Rrename{}" [].

Definition treadlink_String (t : treadlink) : string :=
  Sprintf "Treadlink{FID: %d}"
    [Num "p9.fid" (treadlink_fid t)].

Definition rreadlink_String (r : rreadlink) : string :=
  Sprintf "Rreadlink{Target: %s}"
    [Text (rreadlink_Target r)].

Definition tread_String (t : tread) : string :=
  Sprintf "Tread{FID: %d, Offset: %d, Count: %d}"
    [Num "p9.fid" (tread_fid t); Num "uint64" (tread_Offset t); Num "uint32" (tread_Count t)].

Definition rread_String (r : rread) : string :=
  Sprintf "Rread{len(Data): %d}"
    [Num "int" (Z.of_nat (length (rread_Data r)))].

Definition twrite_String (t : twrite) : string :=
  Sprintf "Twrite{FID: %v, Offset %d, len(Data): %d}"
    [Num "p9.fid" (twrite_fid t); Num "uint64" (twrite_Offset t);
     Num "int" (Z.of_nat (length (twrite_Data t)))].

Definition rwrite_String (r : rwrite) : string :=
  Sprintf "Rwrite{Count: %d}"
    [Num "uint32" (rwrite_Count r)].

Definition tmknod_String (t : tmknod) : string :=
  Sprintf "Tmknod{DirectoryFID: %d, Name: %s, Mode: 0o%o, Major: %d, Minor: %d, GID: %d}"
    [Num "p9.fid" (tmknod_Directory t); Text (tmknod_Name t); Num "p9.FileMode" (tmknod_Mode t);
     Num "uint32" (tmknod_Major t); Num "uint32" (tmknod_Minor t); Num "p9.GID" (tmknod_GID t)].

Definition rmknod_String (r : rmknod) : string :=
  Sprintf "Rmknod{QID: %s}"
    [QID_value (rmknod_QID r)].

Definition tmkdir_String (t : tmkdir) : string :=
  Sprintf "Tmkdir{DirectoryFID: %d, Name: %s, Permissions: 0o%o, GID: %d}"
    [Num "p9.fid" (tmkdir_Directory t); Text (tmkdir_Name t);
     Num "p9.FileMode" (tmkdir_Permissions t); Num "p9.GID" (tmkdir_GID t)].

Definition rmkdir_String (r : rmkdir) : string :=
  Sprintf "Rmkdir{QID: %s}"
    [QID_value (rmkdir_QID r)].

Definition tgetattr_String (t : tgetattr) : string :=
  Sprintf "Tgetattr{FID: %d, AttrMask: %s}"
    [Num "p9.fid" (tgetattr_fid t); AttrMask_value (tgetattr_AttrMask t)].

Definition rgetattr_String (r : rgetattr) : string :=
  Sprintf "Rgetattr{Valid: %v, QID: %s, Attr: %s}"
    [AttrMask_value (rgetattr_Valid r); QID_value (rgetattr_QID r);
     Attr_value (rgetattr_Attr r)].

Definition tsetattr_String (t : tsetattr) : string :=
  Sprintf "Tsetattr{FID: %d, Valid: %v, SetAttr: %s}"
    [Num "p9.fid" (tsetattr_fid t); SetAttrMask_value (tsetattr_Valid t);
     SetAttr_value (tsetattr_SetAttr t)].

Definition rsetattr_String (r : rsetattr) : string :=
  Sprintf "Rsetattr{}" [].

Definition txattrwalk_String (t : txattrwalk) : string :=
  Sprintf "Txattrwalk{FID: %d, newFID: %d, Name: %s}"
    [Num "p9.fid" (txattrwalk_fid t); Num "p9.fid" (txattrwalk_newFID t);
     Text (txattrwalk_Name t)].

Definition rxattrwalk_String (r : rxattrwalk) : string :=
  Sprintf "Rxattrwalk{Size: %d}"
    [Num "uint64" (rxattrwalk_Size r)].

Definition txattrcreate_String (t : txattrcreate) : string :=
  Sprintf "Txattrcreate{FID: %d, Name: %s, AttrSize: %d, Flags: %d}"
    [Num "p9.fid" (txattrcreate_fid t); Text (txattrcreate_Name t);
     Num "uint64" (txattrcreate_AttrSize t); Num "uint32" (txattrcreate_Flags t)].

Definition rxattrcreate_String (r : rxattrcreate) : string :=
  Sprintf "Rxattrcreate{}" [].

Definition treaddir_String (t : treaddir) : string :=
  Sprintf "Treaddir{DirectoryFID: %d, Offset: %d, Count: %d}"
    [Num "p9.fid" (treaddir_Directory t); Num "uint64" (treaddir_Offset t);
     Num "uint32" (treaddir_Count t)].

Definition rreaddir_String (r : rreaddir) : string :=
  Sprintf "Rreaddir{Count: %d, Entries: %s}"
    [Num "uint32" (rreaddir_Count r); Slice (map Dirent_value (rreaddir_Entries r))].

Definition tfsync_String (t : tfsync) : string :=
  Sprintf "Tfsync{FID: %d}"
    [Num "p9.fid" (tfsync_fid t)].

Definition rfsync_String (r : rfsync) : string :=
  Sprintf "Rfsync{}" [].

Definition tstatfs_String (t : tstatfs) : string :=
  Sprintf "Tstatfs{FID: %d}"
    [Num "p9.fid" (tstatfs_fid t)].

Definition rstatfs_String (r : rstatfs) : string :=
  Sprintf "Rstatfs{FSStat: %v}"
    [FSStat_value (rstatfs_FSStat r)].

Definition twalkgetattr_String (t : twalkgetattr) : string :=
  Sprintf "Twalkgetattr{FID: %d, newFID: %d, Names: %v}"
    [Num "p9.fid" (twalkgetattr_fid t); Num "p9.fid" (twalkgetattr_newFID t);
     Slice (map Text (twalkgetattr_Names t))].

Definition rwalkgetattr_String (r : rwalkgetattr) : string :=
  Sprintf "Rwalkgetattr{Valid: %s, Attr: %s, QIDs: %v}"
    [AttrMask_value (rwalkgetattr_Valid r); Attr_value (rwalkgetattr_Attr r);
     Slice (map QID_value (rwalkgetattr_QIDs r))].

Definition tucreate_String (t : tucreate) : string :=
  Sprintf "Tucreate{Tlcreate: %v, UID: %d}"
    [Pointer (tlcreate_String (tucreate_tlcreate t)); Num "p9.UID" (tucreate_UID t)].

Definition rucreate_String (r : rucreate) : string :=
  Sprintf "Rucreate{%v}"
    [Pointer (rlcreate_String (rucreate_rlcreate r))].

Definition tumkdir_String (t : tumkdir) : string :=
  Sprintf "Tumkdir{Tmkdir: %v, UID: %d}"
    [Pointer (tmkdir_String (tumkdir_tmkdir t)); Num "p9.UID" (tumkdir_UID t)].

Definition rumkdir_String (r : rumkdir) : string :=
  Sprintf "Rumkdir{%v}"
    [Pointer (rmkdir_String (rumkdir_rmkdir r))].

Definition tumknod_String (t : tumknod) : string :=
  Sprintf "Tumknod{Tmknod: %v, UID: %d}"
    [Pointer (tmknod_String (tumknod_tmknod t)); Num "p9.UID" (tumknod_UID t)].

Definition rumknod_String (r : rumknod) : string :=
  Sprintf "Rumknod{%v}"
    [Pointer (rmknod_String (rumknod_rmknod r))].

Definition tusymlink_String (t : tusymlink) : string :=
  Sprintf "Tusymlink{Tsymlink: %v, UID: %d}"
    [Pointer (tsymlink_String (tusymlink_tsymlink t)); Num "p9.UID" (tusymlink_UID t)].

Definition rusymlink_String (r : rusymlink) : string :=
  Sprintf "Rusymlink{%v}"
    [Pointer (rsymlink_String (rusymlink_rsymlink r))].

Definition tlock_String (t : tlock) : string :=
  Sprintf "Tlock{Type: %s, Flags: %#x, Start: %d, Length: %d, PID: %d, Client: %s}"
    [Text (LockType_String (tlock_Type t)); Num "p9.LockFlags" (tlock_Flags t);
     Num "uint64" (tlock_Start t); Num "uint64" (tlock_Length t); Num "int32" (tlock_PID t);
     Text (tlock_Client t)].

Definition rlock_String (r : rlock) : string :=
  Sprintf "Rlock{Status: %s}"
    [LockStatus_value (rlock_Status r)].

(** The method of a message, that of the embedded [rread] for the server's. *)
Definition message_String (m : message) : string :=
  match m with
  | Mtversion m => tversion_String m
  | Mrversion m => rversion_String m
  | Mtflush m => tflush_String m
  | Mrflush m => rflush_String m
  | Mtwalk m => twalk_String m
  | Mrwalk m => rwalk_String m
  | Mtclunk m => tclunk_String m
  | Mrclunk m => rclunk_String m
  | Mtremove m => tremove_String m
  | Mrremove m => rremove_String m
  | Mrlerror m => rlerror_String m
  | Mtauth m => tauth_String m
  | Mrauth m => rauth_String m
  | Mtattach m => tattach_String m
  | Mrattach m => rattach_String m
  | Mtlopen m => tlopen_String m
  | Mrlopen m => rlopen_String m
  | Mtlcreate m => tlcreate_String m
  | Mrlcreate m => rlcreate_String m
  | Mtsymlink m => tsymlink_String m
  | Mrsymlink m => rsymlink_String m
  | Mtlink m => tlink_String m
  | Mrlink m => rlink_String m
  | Mtrenameat m => trenameat_String m
  | Mrrenameat m => rrenameat_String m
  | Mtunlinkat m => tunlinkat_String m
  | Mrunlinkat m => runlinkat_String m
  | Mtrename m => trename_String m
  | Mrrename m => rrename_String m
  | Mtreadlink m => treadlink_String m
  | Mrreadlink m => rreadlink_String m
  | Mtread m => tread_String m
  | Mrread m => rread_String m
  | MrreadServerPayloader m => rread_String (rsp_rread m)
  | Mtwrite m => twrite_String m
  | Mrwrite m => rwrite_String m
  | Mtmknod m => tmknod_String m
  | Mrmknod m => rmknod_String m
  | Mtmkdir m => tmkdir_String m
  | Mrmkdir m => rmkdir_String m
  | Mtgetattr m => tgetattr_String m
  | Mrgetattr m => rgetattr_String m
  | Mtsetattr m => tsetattr_String m
  | Mrsetattr m => rsetattr_String m
  | Mtxattrwalk m => txattrwalk_String m
  | Mrxattrwalk m => rxattrwalk_String m
  | Mtxattrcreate m => txattrcreate_String m
  | Mrxattrcreate m => rxattrcreate_String m
  | Mtreaddir m => treaddir_String m
  | Mrreaddir m => rreaddir_String m
  | Mtfsync m => tfsync_String m
  | Mrfsync m => rfsync_String m
  | Mtstatfs m => tstatfs_String m
  | Mrstatfs m => rstatfs_String m
  | Mtwalkgetattr m => twalkgetattr_String m
  | Mrwalkgetattr m => rwalkgetattr_String m
  | Mtucreate m => tucreate_String m
  | Mrucreate m => rucreate_String m
  | Mtumkdir m => tumkdir_String m
  | Mrumkdir m => rumkdir_String m
  | Mtumknod m => tumknod_String m
  | Mrumknod m => rumknod_String m
  | Mtusymlink m => tusymlink_String m
  | Mrusymlink m => rusymlink_String m
  | Mtlock m => tlock_String m
  | Mrlock m => rlock_String m
  end.

(** The name that its log line starts with. *)
Definition log_name (m : message) : string :=
  match m with
  | Mtversion _ => "Tversion"
  | Mrversion _ => "Rversion"
  | Mtflush _ => "Tflush"
  | Mrflush _ => "Rflush"
  | Mtwalk _ => "Twalk"
  | Mrwalk _ => "Rwalk"
  | Mtclunk _ => "Tclunk"
  | Mrclunk _ => "Rclunk"
  | Mtremove _ => "Tremove"
  | Mrremove _ => "Rremove"
  | Mrlerror _ => "Rlerror"
  | Mtauth _ => "Tauth"
  | Mrauth _ => "Rauth"
  | Mtattach _ => "Tattach"
  | Mrattach _ => "Rattach"
  | Mtlopen _ => "Tlopen"
  | Mrlopen _ => "Rlopen"
  | Mtlcreate _ => "Tlcreate"
  | Mrlcreate _ => "Rlcreate"
  | Mtsymlink _ => "Tsymlink"
  | Mrsymlink _ => "Rsymlink"
  | Mtlink _ => "Tlink"
  | Mrlink _ => "Rlink"
  | Mtrenameat _ => "TrenameAt"
  | Mrrenameat _ => "Rrenameat"
  | Mtunlinkat _ => "Tunlinkat"
  | Mrunlinkat _ => "Runlinkat"
  | Mtrename _ => "Trename"
  | Mrrename _ => "Rrename"
  | Mtreadlink _ => "Treadlink"
  | Mrreadlink _ => "Rreadlink"
  | Mtread _ => "Tread"
  | Mrread _ => "Rread"
  | MrreadServerPayloader _ => "Rread"
  | Mtwrite _ => "Twrite"
  | Mrwrite _ => "Rwrite"
  | Mtmknod _ => "Tmknod"
  | Mrmknod _ => "Rmknod"
  | Mtmkdir _ => "Tmkdir"
  | Mrmkdir _ => "Rmkdir"
  | Mtgetattr _ => "Tgetattr"
  | Mrgetattr _ => "Rgetattr"
  | Mtsetattr _ => "Tsetattr"
  | Mrsetattr _ => "Rsetattr"
  | Mtxattrwalk _ => "Txattrwalk"
  | Mrxattrwalk _ => "Rxattrwalk"
  | Mtxattrcreate _ => "Txattrcreate"
  | Mrxattrcreate _ => "Rxattrcreate"
  | Mtreaddir _ => "Treaddir"
  | Mrreaddir _ => "Rreaddir"
  | Mtfsync _ => "Tfsync"
  | Mrfsync _ => "Rfsync"
  | Mtstatfs _ => "Tstatfs"
  | Mrstatfs _ => "Rstatfs"
  | Mtwalkgetattr _ => "Twalkgetattr"
  | Mrwalkgetattr _ => "Rwalkgetattr"
  | Mtucreate _ => "Tucreate"
  | Mrucreate _ => "Rucreate"
  | Mtumkdir _ => "Tumkdir"
  | Mrumkdir _ => "Rumkdir"
  | Mtumknod _ => "Tumknod"
  | Mrumknod _ => "Rumknod"
  | Mtusymlink _ => "Tusymlink"
  | Mrusymlink _ => "Rusymlink"
  | Mtlock _ => "Tlock"
  | Mrlock _ => "Rlock"
  end.

(** * Log lines tell messages apart *)

Lemma prefix_same p q s :
  String.prefix p s = true -> String.prefix q s = true ->
  String.prefix p q = true \/ String.prefix q p = true.
Proof.
  revert q s. induction p as [|a p IH]; intros q s; [left; by destruct q|].
  destruct q as [|b q]; [intros _ _; by right|]. destruct s as [|c s]; [done|]. cbn.
  destruct (ascii_dec a c) as [->|]; [|done]. destruct (ascii_dec b c) as [->|]; [|done].
  intros Hp Hq. destruct (IH q s Hp Hq) as [H|H]; [left|right];
    (destruct (ascii_dec c c) as [|n]; [exact H|by destruct n]).
Qed.

Lemma log_line_name m : String.prefix (log_name m ++ "{") (message_String m) = true.
Proof. destruct m; reflexivity. Qed.

(** The names with the numbers of their messages: none starts another. *)
Definition log_names : list (string * Z) :=
  (fun '(t, m) => (log_name m, t)) <$> registrations.

Lemma log_name_registered m : In (log_name m, message_typ m) log_names.
Proof.
  assert (H : existsb (fun e => String.eqb (fst e) (log_name m) && (snd e =? message_typ m)%Z)
    log_names = true) by (destruct m; vm_compute; reflexivity).
  apply existsb_exists in H as ([n t] & Hin & [Hn Ht]%andb_true_iff).
  apply String.eqb_eq in Hn as <-. by apply Z.eqb_eq in Ht as <-.
Qed.

Lemma log_names_prefix_free :
  forallb (fun '(n, t) => forallb (fun '(n', t') =>
    implb (String.prefix (n ++ "{") (n' ++ "{")) (t =? t')%Z) log_names) log_names = true.
Proof. vm_compute. reflexivity. Qed.

(** Two messages with the same log line are of the same type. *)
Lemma message_String_type m m' :
  message_String m = message_String m' -> message_typ m = message_typ m'.
Proof.
  intros H. pose proof (log_line_name m) as Hm. pose proof (log_line_name m') as Hm'.
  rewrite H in Hm.
  assert (Hfree : forall m m', String.prefix (log_name m ++ "{") (log_name m' ++ "{") = true ->
    message_typ m = message_typ m').
  { intros m1 m2 Hp. pose proof log_names_prefix_free as Hf. rewrite forallb_forall in Hf.
    specialize (Hf _ (log_name_registered m1)). cbn beta iota in Hf. rewrite forallb_forall in Hf.
    specialize (Hf _ (log_name_registered m2)). cbn beta iota in Hf. rewrite Hp in Hf.
    by apply Z.eqb_eq. }
  destruct (prefix_same _ _ _ Hm Hm') as [Hp|Hp]; [|symmetry]; by apply Hfree.
Qed.
