(* ===== verification/Transport.v ===== *)
(** * Framing messages on a byte stream ([p9/transport.go])

    A connection is the list of the bytes still to come, followed by its end.
    [send] yields the bytes that go out, [recv] takes one frame off the input.
    The buffer pools only recycle memory and are not modelled; [vecs.ReadFrom]
    and [io.Copy(ioutil.Discard, ..)] read what they ask for, or to the end. *)
From S2P Require Import Prelude Errno Buffer Types Messages Message.

Definition headerLength : Z := 7.
Definition maximumLength : Z := 4 * 1024 * 1024.

(** ** Sending *)

(** The header: total length, message type, tag. *)
Definition frame_header (totalLength : Z) (t tag : Z) : list byte :=
  data ((Write32 totalLength;; WriteMsgType t;; WriteTag tag) (Buffer [] false)).2.

(** The vectors that [send] builds, and the message as [encode] leaves it. *)
Definition send_vecs (tag : Z) (m : message) : list (list byte) * message :=
  let '(m, dataBuf) := message_encode m (Buffer [] false) in
  let body := if (0 <? length (data dataBuf))%nat then [data dataBuf] else [] in
  let totalLength := wrap32 (headerLength + wrap32 (Z.of_nat (length (data dataBuf)))) in
  let '(payload, totalLength) :=
    match message_Payload m with
    | Some p =>
        if (0 <? length p)%nat
        then ([p], wrap32 (totalLength + wrap32 (Z.of_nat (length p))))
        else ([], totalLength)
    | None => ([], totalLength)
    end in
  (frame_header totalLength (message_typ m) tag :: body ++ payload, m).

(** [vecs.WriteTo(w)]: [w] takes the bytes of the vectors, or fails. *)
Definition send (w : list byte -> option error) (tag : Z) (m : message)
    : option error * message :=
  let '(vecs, m) := send_vecs tag m in
  match w (concat vecs) with
  | Some err => (Some (ConnError err), m)
  | None => (None, m)
  end.

(** The bytes of the frame. *)
Definition frame (tag : Z) (m : message) : list byte := concat (send_vecs tag m).1.

(** ** Receiving *)

Section recv.
(** [lookup] may change a state, as [registry.get] does. *)
Context {S : Type} (lookup : Z -> Z -> S -> (message + error) * S).

(** [vecs.ReadFrom(r)] for [n] bytes in all: the bytes and what is left. *)
Definition ReadFrom (n : nat) (r : list byte) : option (list byte * list byte) :=
  if (n <=? length r)%nat then Some (take n r, drop n r) else None.

(** Decoding of the data that was read into the message. *)
Definition recv_decode (tag : Z) (m : message) (dataBuf : list byte)
    : Z * (message + error) :=
  let '(m, b) := message_decode m (Buffer dataBuf false) in
  if isOverrun b then (noTag, inr ErrNoValidMessage) else (tag, inl m).

(** The part of [recv] after the lookup of the message. *)
Definition recv_body (tag : Z) (m : message) (remaining : Z) (r : list byte)
    : (Z * (message + error)) * list byte :=
  match message_FixedSize m with
  | Some fixedSize =>
      if remaining <? fixedSize
      then ((noTag, inr ErrNoValidMessage), drop (Z.to_nat remaining) r)
      else match ReadFrom (Z.to_nat remaining) r with
      | None => ((noTag, inr (ConnError io_EOF)), [])
      | Some (bs, r) =>
          let m := message_SetPayload m (drop (Z.to_nat fixedSize) bs) in
          (recv_decode tag m (take (Z.to_nat fixedSize) bs), r)
      end
  | None =>
      match ReadFrom (Z.to_nat remaining) r with
      | None => ((noTag, inr (ConnError io_EOF)), [])
      | Some (bs, r) => (recv_decode tag m bs, r)
      end
  end.

Definition recv (r : list byte) (msize : Z) (s : S)
    : (Z * (message + error)) * list byte * S :=
  if (length r <? Z.to_nat headerLength)%nat
  then ((noTag, inr (ConnError (match r with [] => io_EOF | _ => io_ErrUnexpectedEOF end))),
        [], s)
  else
    let hdr := take (Z.to_nat headerLength) r in
    let r := drop (Z.to_nat headerLength) r in
    let '((size, t, tag), _) :=
      (size ← Read32; t ← ReadMsgType; tag ← ReadTag; mret (size, t, tag))
        (Buffer hdr false) in
    if size <? headerLength
    then ((noTag, inr (ConnError ErrNoValidMessage)), r, s)
    else if (maximumLength <? size) || (msize <? size)
    then ((noTag, inr (ConnError (ErrMessageTooLarge size msize))), r, s)
    else
      let remaining := size - headerLength in
      let '(m, s) := lookup tag t s in
      match m with
      | inr err => ((tag, inr err), drop (Z.to_nat remaining) r, s)
      | inl m => let '(res, r) := recv_body tag m remaining r in (res, r, s)
      end.
End recv.

(** [registry.get] as the lookup function of the server. *)
Definition registry_lookup (_ t : Z) (r : registry) : (message + error) * registry :=
  match registry_get r t with
  | Some (m, r) => (inl m, r)
  | None => (inr (ErrInvalidMsgType t), r)
  end.

(** * Lemmas *)

Lemma frame_header_bytes total t tag :
  frame_header total t tag = le_bytes 4 total ++ le_bytes 1 t ++ le_bytes 2 tag.
Proof. done. Qed.

Lemma length_frame_header total t tag : length (frame_header total t tag) = 7%nat.
Proof. rewrite frame_header_bytes, !length_app, !length_le_bytes. done. Qed.

Arguments frame_header : simpl never.

(** The fixed part and the payload of the frame. *)
Definition fixed_bytes (m : message) : list byte :=
  data (message_encode m (Buffer [] false)).2.
Definition payload_bytes (m : message) : list byte :=
  default [] (message_Payload (message_encode m (Buffer [] false)).1).
Definition frame_length (m : message) : Z :=
  headerLength + Z.of_nat (length (fixed_bytes m)) + Z.of_nat (length (payload_bytes m)).

(** What can be put on the wire: a tag and a message in range, of a length that the
    header can tell. *)
Definition sendable (req : Z * message) : Prop :=
  message_wf req.2 /\ u16 req.1 /\ frame_length req.2 < 2 ^ 32.

Lemma message_encode_typ m b : message_typ (message_encode m b).1 = message_typ m.
Proof.
  destruct m; cbn; unfold fmap, BufM_fmap; by case_match.
Qed.

Lemma total_length a b :
  wrap32 (wrap32 (headerLength + wrap32 a) + wrap32 b) = wrap32 (headerLength + a + b).
Proof.
  rewrite wrap32_add_l, wrap32_add_r, <- Z.add_assoc, (Z.add_comm (wrap32 a)).
  by rewrite Z.add_assoc, wrap32_add_r, <- Z.add_assoc, (Z.add_comm b), Z.add_assoc.
Qed.

Lemma frame_eq tag m :
  frame tag m =
    frame_header (wrap32 (frame_length m)) (message_typ m) tag
    ++ fixed_bytes m ++ payload_bytes m.
Proof.
  unfold frame, send_vecs, frame_length, fixed_bytes, payload_bytes.
  pose proof (message_encode_typ m (Buffer [] false)) as Ht.
  destruct (message_encode m (Buffer [] false)) as [m' [bs ov]]. cbn [fst snd data] in *.
  rewrite Ht.
  assert (Hb : forall bs : list byte,
    concat (if (0 <? length bs)%nat then [bs] else []) = bs).
  { intros [|c l]; cbn; [done|by rewrite app_nil_r]. }
  destruct (message_Payload m') as [p|] eqn:Ep; cbn [default].
  - destruct (0 <? length p)%nat eqn:E0; cbn [fst concat]; rewrite concat_app, Hb.
    + cbn [concat]. by rewrite app_nil_r, total_length.
    + apply Nat.ltb_ge in E0. destruct p; [|cbn in E0; lia].
      cbn [concat length]. by rewrite wrap32_add_r, Z.add_0_r.
  - cbn [fst concat]. rewrite concat_app, Hb. cbn [concat length].
    by rewrite wrap32_add_r, Z.add_0_r.
Qed.

(** The header of a frame reads back. *)
Lemma header_decode total t tag rest :
  u32 total -> u8 t -> u16 tag ->
  (size ← Read32; t ← ReadMsgType; tag ← ReadTag; mret (size, t, tag))
    (Buffer (frame_header total t tag ++ rest) false) = ((total, t, tag), Buffer rest false).
Proof.
  intros H1 H2 H3. rewrite frame_header_bytes.
  rewrite <- !app_assoc. unfold mbind, BufM_bind.
  rewrite (reads_32 _ H1). unfold ReadMsgType. rewrite (reads_8 _ H2).
  unfold ReadTag. by rewrite (reads_16 _ H3).
Qed.

(** What the receiver gets of a message: of a directory listing the entries that
    fit; of a server's read response the plain response. *)
Definition received (m : message) : message :=
  match m with
  | MrreadServerPayloader r => Mrread (rsp_rread r)
  | Mrreaddir r =>
      Mrreaddir (mk_rreaddir (Z.of_nat (length (Dirents_bytes (rreaddir_fit r))))
                   (rreaddir_fit r) (Dirents_bytes (rreaddir_fit r)))
  | m => m
  end.

(** A receiver of the dynamic type that the registry creates for [m]. *)
Definition receiver_of (old m : message) : Prop :=
  message_typ old = message_typ m /\
  match old with MrreadServerPayloader _ => False | _ => True end.

Lemma receiver_of_no_payload old m :
  receiver_of old m -> message_Payload m = None -> message_Payload old = None.
Proof.
  intros [Ht Ho] Hm. destruct old; try done; exfalso;
    destruct m; (discriminate Hm || discriminate Ht).
Qed.

Lemma message_FixedSize_None m : message_Payload m = None -> message_FixedSize m = None.
Proof. by destruct m. Qed.

Lemma message_encode_keep m b :
  message_Payload m = None -> (message_encode m b).1 = m.
Proof.
  intros Hp. destruct m; try discriminate Hp; cbn;
    unfold fmap, BufM_fmap, keep, mbind, BufM_bind, mret, BufM_ret;
    repeat case_match; simplify_eq; done.
Qed.

Lemma recv_body_no_payload tag m old rest :
  message_wf m -> message_Payload m = None -> receiver_of old m ->
  recv_body tag old (Z.of_nat (length (fixed_bytes m))) (fixed_bytes m ++ rest)
    = ((tag, inl m), rest).
Proof.
  intros Hw Hp Hold. pose proof (receiver_of_no_payload _ _ Hold Hp) as Ho.
  destruct Hold as [Ht _].
  destruct (codec_no_payload m old Hw Hp Ht Ho) as (_ & bs & Hwr & Hr & _).
  assert (fixed_bytes m = bs) as ->.
  { specialize (Hwr (Buffer [] false)). unfold message_write, fmap, BufM_fmap in Hwr.
    unfold fixed_bytes. destruct (message_encode m _) as [? ?]. cbn.
    by injection Hwr as ->. }
  unfold recv_body, ReadFrom. rewrite message_FixedSize_None by done.
  rewrite Nat2Z.id, length_app, (proj2 (Nat.leb_le _ _)) by lia.
  rewrite take_app_length, drop_app_length. unfold recv_decode.
  specialize (Hr [] false). rewrite app_nil_r in Hr. rewrite Hr. done.
Qed.

(** The same for a payloader: its decoder runs on the fixed part, with the
    payload already in place. *)
Lemma recv_body_payload tag old fixedSize fixed payload rest m' :
  message_FixedSize old = Some fixedSize -> fixedSize = Z.of_nat (length fixed) ->
  message_decode (message_SetPayload old payload) (Buffer fixed false)
    = (m', Buffer [] false) ->
  recv_body tag old (Z.of_nat (length fixed) + Z.of_nat (length payload))
    (fixed ++ payload ++ rest) = ((tag, inl m'), rest).
Proof.
  intros Hf -> Hd. unfold recv_body, ReadFrom. rewrite Hf.
  rewrite (proj2 (Z.ltb_ge _ _)) by lia.
  rewrite app_assoc, <- Nat2Z.inj_add, <- length_app, Nat2Z.id.
  rewrite (length_app _ rest), (proj2 (Nat.leb_le _ _)) by lia.
  rewrite take_app_length, drop_app_length, Nat2Z.id.
  rewrite take_app_length, drop_app_length. unfold recv_decode. by rewrite Hd.
Qed.

Lemma rread_decode_data p rest ov :
  u32 (Z.of_nat (length p)) ->
  rread_decode (mk_rread p) (Buffer (le_bytes 4 (wrap32 (Z.of_nat (length p))) ++ rest) ov)
    = (mk_rread p, Buffer rest ov).
Proof.
  intros Hp. unfold wrap32. rewrite Z.mod_small by done.
  unfold rread_decode, mbind, BufM_bind. rewrite (reads_32 _ Hp). cbn [rread_Data].
  unfold wrap32. by rewrite Z.mod_small, Z.eqb_refl.
Qed.

Lemma twrite_decode_data t fid off rest ov :
  twrite_wf t ->
  twrite_decode (mk_twrite fid off (twrite_Data t))
    (Buffer (data (twrite_encode t (Buffer [] false)).2 ++ rest) ov) = (t, Buffer rest ov).
Proof.
  destruct t as [f o p]. intros (H1 & H2 & H3). cbn [twrite_fid twrite_Offset twrite_Data] in *.
  destruct (codec_FID _ H1) as (_ & b1 & Hw1 & Hr1 & _).
  destruct (codec_64 _ H2) as (_ & b2 & Hw2 & Hr2 & _).
  destruct (codec_32 _ H3) as (_ & b3 & Hw3 & Hr3 & _).
  unfold twrite_encode. cbn [twrite_fid twrite_Offset twrite_Data].
  unfold wrap32 at 1. rewrite (Z.mod_small (Z.of_nat _)) by done.
  unfold mbind, BufM_bind. rewrite Hw1, Hw2, Hw3. cbn [snd data overflow app].
  rewrite <- !app_assoc. unfold twrite_decode, mbind, BufM_bind.
  rewrite Hr1, Hr2, Hr3. cbn [twrite_Data].
  unfold wrap32. by rewrite Z.mod_small, Z.eqb_refl.
Qed.

Lemma Forall_prefix {A} (P : A -> Prop) l1 l2 :
  l1 `prefix_of` l2 -> Forall P l2 -> Forall P l1.
Proof. intros [k ->] H. by apply Forall_app in H as [H _]. Qed.

Lemma rreaddir_decode_data r old ov :
  rreaddir_wf r ->
  rreaddir_decode (SetPayload old (Dirents_bytes (rreaddir_fit r)))
    (Buffer (le_bytes 4 (Z.of_nat (length (Dirents_bytes (rreaddir_fit r))))) ov)
  = (mk_rreaddir (Z.of_nat (length (Dirents_bytes (rreaddir_fit r)))) (rreaddir_fit r)
       (Dirents_bytes (rreaddir_fit r)), Buffer [] ov).
Proof.
  intros [[Hc0 Hc] Hes].
  pose proof (entries_that_fit_bound (rreaddir_Count r) 0 (rreaddir_Entries r) Hc0) as Hb.
  fold (rreaddir_fit r) in Hb. cbn [Nat.add] in Hb.
  set (n := length (Dirents_bytes (rreaddir_fit r))) in *.
  assert (Hn : u32 (Z.of_nat n)) by (unfold u32; lia).
  unfold rreaddir_decode, mbind, BufM_bind. pose proof (reads_32 _ Hn [] ov) as Hr.
  rewrite app_nil_r in Hr. rewrite Hr.
  unfold mret, BufM_ret. destruct old as [c es pl]. cbn -[rreaddir_entries].
  rewrite rreaddir_entries_all; [done| |].
  - eapply Forall_prefix; [apply entries_that_fit_prefix|done].
  - pose proof (length_Dirents_bytes (rreaddir_fit r)). lia.
Qed.

(** The receiver of a payloader. *)
Lemma receiver_of_payloader old m :
  receiver_of old m -> message_typ m = msgRread \/ message_typ m = msgTwrite \/
    message_typ m = msgRreaddir ->
  match m with
  | Mrread _ | MrreadServerPayloader _ => exists r, old = Mrread r
  | Mtwrite _ => exists t, old = Mtwrite t
  | Mrreaddir _ => exists r, old = Mrreaddir r
  | _ => True
  end.
Proof.
  intros [Ht Ho] _. destruct m; try done; destruct old; try done;
    try discriminate Ht; eauto.
Qed.

Lemma recv_body_frame tag m old rest :
  message_wf m -> receiver_of old m ->
  recv_body tag old (Z.of_nat (length (fixed_bytes m)) + Z.of_nat (length (payload_bytes m)))
    (fixed_bytes m ++ payload_bytes m ++ rest) = ((tag, inl (received m)), rest).
Proof.
  intros Hw Hold. destruct (message_Payload m) as [p|] eqn:Hp.
  - destruct m; try discriminate Hp; pose proof (receiver_of_payloader _ _ Hold) as Hr;
      cbn [message_typ typ] in Hr; destruct (Hr ltac:(auto)) as [old' ->]; clear Hr;
      cbn [message_wf] in Hw.
    + eapply recv_body_payload; [reflexivity|done|].
      pose proof (rread_decode_data (rread_Data m) [] false Hw) as H.
      rewrite app_nil_r in H. destruct m as [p'].
      exact (f_equal (fun '(a, b) => (Mrread a, b)) H).
    + destruct m as [[p'] f]. eapply recv_body_payload; [reflexivity|done|].
      pose proof (rread_decode_data p' [] false Hw) as H.
      rewrite app_nil_r in H. exact (f_equal (fun '(a, b) => (Mrread a, b)) H).
    + eapply recv_body_payload; [reflexivity|done|].
      pose proof (twrite_decode_data m (twrite_fid old') (twrite_Offset old') [] false Hw) as H.
      rewrite app_nil_r in H. exact (f_equal (fun '(a, b) => (Mtwrite a, b)) H).
    + assert (Hf : fixed_bytes (Mrreaddir m)
        = le_bytes 4 (Z.of_nat (length (Dirents_bytes (rreaddir_fit m))))).
      { unfold fixed_bytes. cbn [message_encode encode Message_encoder rreaddir_Message].
        unfold fmap, BufM_fmap. by rewrite rreaddir_encode_spec. }
      assert (Hpl : payload_bytes (Mrreaddir m) = Dirents_bytes (rreaddir_fit m)).
      { unfold payload_bytes. cbn [message_encode encode Message_encoder rreaddir_Message].
        unfold fmap, BufM_fmap. by rewrite rreaddir_encode_spec. }
      rewrite Hf, Hpl. eapply recv_body_payload; [reflexivity|by rewrite length_le_bytes|].
      cbn [message_SetPayload message_decode decode Message_encoder rreaddir_Message].
      unfold fmap, BufM_fmap. rewrite rreaddir_decode_data by done. done.
  - assert (payload_bytes m = []) as ->.
    { unfold payload_bytes. by rewrite message_encode_keep, Hp. }
    cbn [length app]. rewrite Z.add_0_r.
    rewrite recv_body_no_payload by done. by destruct m.
Qed.

(** ** Taking a whole frame off the stream *)

Lemma recv_header {St} (lookup : Z -> Z -> St -> (message + error) * St) size t tag r msize s :
  u32 size -> u8 t -> u16 tag ->
  recv lookup (frame_header size t tag ++ r) msize s =
    if size <? headerLength
    then ((noTag, inr (ConnError ErrNoValidMessage)), r, s)
    else if (maximumLength <? size) || (msize <? size)
    then ((noTag, inr (ConnError (ErrMessageTooLarge size msize))), r, s)
    else
      let '(m, s) := lookup tag t s in
      match m with
      | inr err => ((tag, inr err), drop (Z.to_nat (size - headerLength)) r, s)
      | inl m => let '(res, r) := recv_body tag m (size - headerLength) r in (res, r, s)
      end.
Proof.
  intros Hsize Ht Htag. unfold recv. pose proof (length_frame_header size t tag) as Hl.
  change (Z.to_nat headerLength) with 7%nat.
  rewrite (proj2 (Nat.ltb_ge _ _)) by (rewrite length_app; lia).
  rewrite <- Hl, take_app_length, drop_app_length.
  pose proof (header_decode size t tag [] Hsize Ht Htag) as Hd.
  rewrite app_nil_r in Hd. by rewrite Hd.
Qed.

Lemma message_typ_u8 m : u8 (message_typ m).
Proof. destruct m; split; reflexivity || discriminate. Qed.

(** A header that [recv] accepts: its fields fit and the size is in bounds. *)
Definition acceptable (size t tag msize : Z) : Prop :=
  (u8 t /\ u16 tag) /\ headerLength <= size <= Z.min maximumLength msize.

Lemma recv_acceptable {St} (lookup : Z -> Z -> St -> (message + error) * St) size t tag r msize s :
  acceptable size t tag msize ->
  recv lookup (frame_header size t tag ++ r) msize s =
      let '(m, s) := lookup tag t s in
      match m with
      | inr err => ((tag, inr err), drop (Z.to_nat (size - headerLength)) r, s)
      | inl m => let '(res, r) := recv_body tag m (size - headerLength) r in (res, r, s)
      end.
Proof.
  intros ((Ht & Htag) & Hsize). unfold maximumLength, headerLength in *.
  rewrite recv_header by (unfold u32; done || lia).
  rewrite (proj2 (Z.ltb_ge _ _)) by (unfold headerLength; lia).
  by rewrite (proj2 (Z.ltb_ge _ size)), (proj2 (Z.ltb_ge _ _))
    by (unfold maximumLength; lia).
Qed.

(** The body is taken off whole, whatever becomes of the message. *)
Lemma recv_body_rest tag m remaining body rest :
  0 <= remaining -> Z.of_nat (length body) = remaining ->
  (recv_body tag m remaining (body ++ rest)).2 = rest.
Proof.
  intros H0 <-. unfold recv_body, ReadFrom. rewrite Nat2Z.id.
  rewrite length_app, (proj2 (Nat.leb_le _ _)) by lia.
  rewrite take_app_length, drop_app_length. by repeat case_match.
Qed.

(** The message is decoded or dropped, but no connection error is raised. *)
Lemma recv_body_no_ConnError tag m remaining body rest err :
  0 <= remaining -> Z.of_nat (length body) = remaining ->
  (recv_body tag m remaining (body ++ rest)).1.2 = inr err -> err = ErrNoValidMessage.
Proof.
  intros H0 <-. unfold recv_body, ReadFrom, recv_decode. rewrite Nat2Z.id.
  rewrite length_app, (proj2 (Nat.leb_le _ _)) by lia.
  repeat case_match; cbn; congruence.
Qed.

Lemma recv_body_short tag m remaining r :
  (length r < Z.to_nat remaining)%nat -> exists err, (recv_body tag m remaining r).1 = (noTag, inr err).
Proof.
  intros Hr. unfold recv_body, ReadFrom. rewrite (proj2 (Nat.leb_gt _ _)) by done.
  repeat case_match; eauto.
Qed.

(** Receiving a whole frame. *)
Lemma recv_of_frame {St} (lookup : Z -> Z -> St -> (message + error) * St)
    tag m old rest msize s s' :
  message_wf m -> u16 tag -> frame_length m <= Z.min maximumLength msize ->
  lookup tag (message_typ m) s = (inl old, s') -> receiver_of old m ->
  recv lookup (frame tag m ++ rest) msize s = ((tag, inl (received m)), rest, s').
Proof.
  intros Hw Htag Hlen Hlk Hold.
  assert (Hu : wrap32 (frame_length m) = frame_length m).
  { unfold wrap32. apply Z.mod_small. unfold frame_length, maximumLength, headerLength in *. lia. }
  rewrite frame_eq, Hu, <- !app_assoc, recv_acceptable, Hlk.
  - replace (frame_length m - headerLength) with
      (Z.of_nat (length (fixed_bytes m)) + Z.of_nat (length (payload_bytes m)))
      by (unfold frame_length; lia).
    by rewrite recv_body_frame.
  - split; [split; [apply message_typ_u8|done]|]. unfold frame_length in *. lia.
Qed.

(** What is made of a message's bytes depends on the dynamic type of the object that
    they are decoded into, not on the values that its fields had. *)
Lemma recv_body_fresh t tag m m' remaining r :
  pooled t m -> pooled t m' ->
  recv_body tag m remaining r = recv_body tag m' remaining r.
Proof.
  intros Hm Hm'. unfold recv_body.
  assert (Hf : message_FixedSize m = message_FixedSize m').
  { destruct Hm as [Ht Hm], Hm' as [Ht' Hm']. rewrite <- Ht in Ht'.
    destruct m; try done; destruct m'; done. }
  rewrite <- Hf. destruct (message_FixedSize m) as [fs|] eqn:Ef.
  - case_match; [done|]. destruct (ReadFrom _ r) as [[bs r']|]; [|done]. f_equal.
    unfold recv_decode. rewrite (message_decode_fresh t _ (message_SetPayload m' (drop (Z.to_nat fs) bs)));
      [done|by apply pooled_SetPayload..|].
    destruct m; try discriminate Ef; destruct m'; try discriminate Hf; done || (by destruct Hm, Hm').
  - destruct (ReadFrom _ r) as [[bs r']|]; [|done]. f_equal. unfold recv_decode.
    rewrite (message_decode_fresh t m m'); [done..|].
    destruct m; try discriminate Ef; destruct m'; done.
Qed.

(** A lookup that creates a new object for every message. *)
Definition fresh_lookup (_ t : Z) (r : registry) : (message + error) * registry :=
  match factories r !! t with
  | Some entry => (inl (create entry), r)
  | None => (inr (ErrInvalidMsgType t), r)
  end.

(** The lookup finds an object of the type of the registered factory. *)
Lemma registry_lookup_fresh reg tag t :
  registry_ok reg ->
  match (registry_lookup tag t reg).1, (fresh_lookup tag t reg).1 with
  | inl m, inl m' => pooled t m /\ pooled t m'
  | inr err, inr err' => err = err'
  | _, _ => False
  end.
Proof.
  intros Hok. unfold registry_lookup, fresh_lookup.
  destruct (registry_get reg t) as [[m reg']|] eqn:Hg.
  - destruct (registry_ok_get _ _ _ _ Hok Hg) as [Hm _]. unfold registry_get in Hg.
    destruct (factories reg !! t) as [e|] eqn:He; [|discriminate Hg].
    split; [done|]. by destruct (Hok _ _ He).
  - unfold registry_get in Hg. destruct (factories reg !! t) as [e|]; [|done].
    cbn in Hg. by destruct (cache e).
Qed.

(** * Properties *)

(** C33: what one side sends the other receives: for every kind of message with
    in-range fields whose frame is within the sizes that [recv] accepts, and
    any way of finding the message object that has the right dynamic type
    (the server's registry, the client's table of pending tags), [recv] on
    the bytes that [send] writes returns the tag and the message, and leaves
    exactly what followed the frame. *)
Theorem recv_frame {St} (lookup : Z -> Z -> St -> (message + error) * St)
    tag m old rest msize s s' :
  message_wf m -> u16 tag -> frame_length m <= Z.min maximumLength msize ->
  lookup tag (message_typ m) s = (inl old, s') -> receiver_of old m ->
  recv lookup (frame tag m ++ rest) msize s = ((tag, inl (received m)), rest, s').
Proof. apply recv_of_frame. Qed.

Definition example_tversion : message := Mtversion (mk_tversion 8192 "9P2000.L").

Lemma recv_frame_witness :
  (message_wf example_tversion /\ frame_length example_tversion = 21) /\
  recv registry_lookup (frame noTag example_tversion ++ [x00]) 8192 msgDotLRegistry
  = ((noTag, inl example_tversion), [x00], msgDotLRegistry).
Proof.
  assert (Hw : message_wf example_tversion) by (split; done).
  assert (Hl : frame_length example_tversion = 21) by (vm_compute; reflexivity).
  assert (Hk : registry_lookup noTag (message_typ example_tversion) msgDotLRegistry
    = (inl (Mtversion tversion_zero), msgDotLRegistry)) by (vm_compute; reflexivity).
  split; [exact (conj Hw Hl)|].
  refine (recv_frame registry_lookup noTag example_tversion (Mtversion tversion_zero) [x00]
    8192 msgDotLRegistry msgDotLRegistry Hw _ _ Hk _).
  - split; reflexivity || discriminate.
  - rewrite Hl. discriminate.
  - split; reflexivity.
Defined.

(** C35: [recv] never loses its place in the stream: given a header that it
    accepts and a body of the announced length, it takes exactly the frame off
    the stream, whether the message is unknown, malformed or good, and an error
    is then not a connection error but the lookup's or [ErrNoValidMessage]. *)
Theorem recv_in_sync {St} (lookup : Z -> Z -> St -> (message + error) * St)
    size t tag body rest msize s :
  acceptable size t tag msize -> Z.of_nat (length body) = size - headerLength ->
  let '(_, res, r, s') := recv lookup (frame_header size t tag ++ body ++ rest) msize s in
  r = rest /\ s' = (lookup tag t s).2 /\
  (forall err, res = inr err ->
     err = ErrNoValidMessage \/ (lookup tag t s).1 = inr err).
Proof.
  intros Ha Hb. rewrite recv_acceptable by done.
  assert (H0 : 0 <= size - headerLength) by lia.
  destruct (lookup tag t s) as [[m|e] s']; cbn [fst snd].
  - pose proof (recv_body_rest tag m _ _ rest H0 Hb) as Hr.
    pose proof (fun err => recv_body_no_ConnError tag m _ _ rest err H0 Hb) as He.
    destruct (recv_body tag m _ _) as [[tag' res] r]. cbn in *. eauto.
  - rewrite <- Hb, Nat2Z.id, drop_app_length. split; [done|]. split; [done|].
    intros err [= ->]. by right.
Qed.

(** A lookup that knows the one message type [Tclunk]. *)
Definition clunk_lookup (_ t : Z) (_ : unit) : (message + error) * unit :=
  if t =? msgTclunk then (inl (Mtclunk tclunk_zero), tt) else (inr (ErrInvalidMsgType t), tt).

Lemma recv_in_sync_witness :
  acceptable 9 msgTclunk 5 4096 /\
  let '(_, res, r, _) :=
    recv clunk_lookup (frame_header 9 msgTclunk 5 ++ [x01; x02] ++ [x03]) 4096 tt in
  r = [x03].
Proof.
  assert (Ha : acceptable 9 msgTclunk 5 4096) by (repeat split; done).
  split; [exact Ha|].
  pose proof (recv_in_sync clunk_lookup 9 msgTclunk 5 [x01; x02] [x03] 4096 tt Ha eq_refl) as H.
  destruct (recv _ _ _ _) as [[[tg res] r] s']. exact (proj1 H).
Defined.

(** C36: a frame cut short anywhere is a connection or decoding error, never a
    message: on a strict prefix of the bytes that [send] writes [recv] returns
    [noTag] and an error, provided the lookup finds a message. *)
Theorem recv_truncated {St} (lookup : Z -> Z -> St -> (message + error) * St)
    tag m old s s' msize p :
  u16 tag -> frame_length m <= Z.min maximumLength msize ->
  lookup tag (message_typ m) s = (inl old, s') ->
  p `prefix_of` frame tag m -> p <> frame tag m ->
  exists err, (recv lookup p msize s).1.1 = (noTag, inr err).
Proof.
  intros Htag Hlen Hlk Hp Hne.
  assert (Hu : wrap32 (frame_length m) = frame_length m).
  { unfold wrap32. apply Z.mod_small. unfold frame_length, maximumLength, headerLength in *. lia. }
  rewrite frame_eq, Hu in Hp, Hne.
  destruct (prefix_app_inv_or _ _ _ Hp) as [[[k Hk] Hn]|[q [-> Hq]]].
  - unfold recv. apply (f_equal length) in Hk as Hl.
    rewrite length_app, length_frame_header in Hl.
    change (Z.to_nat headerLength) with 7%nat.
    destruct k; [by rewrite app_nil_r in Hk|]. cbn [length] in Hl.
    rewrite (proj2 (Nat.ltb_lt _ _)) by lia. eauto.
  - rewrite recv_acceptable, Hlk.
    + destruct Hq as [k Hk]. apply (f_equal length) in Hk as Hl.
      assert (length k <> 0%nat) by (destruct k; [rewrite app_nil_r in Hk; congruence|done]).
      rewrite !length_app in Hl.
      destruct (recv_body_short tag old (frame_length m - headerLength) q) as [err He].
      { unfold frame_length. lia. }
      destruct (recv_body _ _ _ _) as [res r]. cbn in *. eauto.
    + split; [split; [apply message_typ_u8|done]|]. unfold frame_length in *. lia.
Qed.

Lemma recv_truncated_witness :
  exists err, (recv clunk_lookup (take 10 (frame 3 (Mtclunk (mk_tclunk 1)))) 4096 tt).1.1
    = (noTag, inr err).
Proof.
  apply (recv_truncated clunk_lookup 3 (Mtclunk (mk_tclunk 1)) (Mtclunk tclunk_zero) tt tt 4096);
    [done|vm_compute; discriminate|done|apply prefix_take|vm_compute; discriminate].
Defined.

(** A message with too few bytes in an otherwise consistent frame is
    rejected as [ErrNoValidMessage]: decoding never makes up the missing
    fields. *)
Theorem recv_short_message {St} (lookup : Z -> Z -> St -> (message + error) * St)
    tag m old body rest s s' msize :
  message_wf m -> message_Payload m = None -> receiver_of old m ->
  body `prefix_of` fixed_bytes m -> body <> fixed_bytes m ->
  let size := headerLength + Z.of_nat (length body) in
  acceptable size (message_typ m) tag msize ->
  lookup tag (message_typ m) s = (inl old, s') ->
  recv lookup (frame_header size (message_typ m) tag ++ body ++ rest) msize s
  = ((noTag, inr ErrNoValidMessage), rest, s').
Proof.
  intros Hw Hp Hold Hpre Hne size Ha Hlk. rewrite recv_acceptable, Hlk by done.
  replace (size - headerLength) with (Z.of_nat (length body)) by (unfold size; lia).
  pose proof (receiver_of_no_payload _ _ Hold Hp) as Ho. destruct Hold as [Ht _].
  destruct (codec_no_payload m old Hw Hp Ht Ho) as (_ & bs & Hwr & _ & Hj).
  assert (fixed_bytes m = bs) as <-.
  { specialize (Hwr (Buffer [] false)). unfold message_write, fmap, BufM_fmap in Hwr.
    unfold fixed_bytes. destruct (message_encode m _) as [? ?]. cbn.
    by injection Hwr as ->. }
  unfold recv_body, ReadFrom. rewrite message_FixedSize_None by done.
  rewrite Nat2Z.id, length_app, (proj2 (Nat.leb_le _ _)) by lia.
  rewrite take_app_length, drop_app_length. unfold recv_decode.
  specialize (Hj body Hpre Hne). destruct (message_decode old _) as [m' b].
  unfold isOverrun. cbn in Hj. by rewrite Hj.
Qed.

Lemma recv_short_message_witness :
  recv clunk_lookup (frame_header 9 msgTclunk 3 ++ [x01; x00] ++ []) 4096 tt
  = ((noTag, inr ErrNoValidMessage), [], tt).
Proof.
  apply (recv_short_message clunk_lookup 3 (Mtclunk (mk_tclunk 1)) (Mtclunk tclunk_zero)
    [x01; x00] [] tt tt 4096); try done.
  by exists [x00; x00].
Defined.

(** C37: a frame whose announced size is below the header's or above the limits
    is refused before the message is looked up or its body touched. *)
Theorem recv_bad_size {St} (lookup : Z -> Z -> St -> (message + error) * St)
    size t tag r msize s :
  u32 size -> u8 t -> u16 tag -> (size < headerLength \/ Z.min maximumLength msize < size) ->
  exists err, recv lookup (frame_header size t tag ++ r) msize s
    = ((noTag, inr (ConnError err)), r, s).
Proof.
  intros Hsize Ht Htag Hb. rewrite recv_header by done.
  destruct (Z.ltb_spec size headerLength); [eauto|].
  destruct (Z.ltb_spec maximumLength size); [cbn; eauto|].
  destruct (Z.ltb_spec msize size); [cbn; eauto|lia].
Qed.

Lemma recv_bad_size_witness :
  exists err, recv clunk_lookup (frame_header 6 msgTclunk 3 ++ [x01]) 4096 tt
    = ((noTag, inr (ConnError err)), [x01], tt).
Proof. apply recv_bad_size; [done..|left; done]. Defined.

(** C38: a recycled message is received like a new one: whatever the registry's
    caches hold and whatever bytes arrive, [recv] returns the same tag, message
    or error and leaves the same rest of the stream as when every message is a
    new object from its factory.  The decoders assign to the fields of the object
    that they are given, so this is that each of them assigns to, or resets, every
    field; the payload is replaced before. *)
Theorem recycled_message_decodes_fresh r msize reg :
  registry_ok reg ->
  (recv registry_lookup r msize reg).1 = (recv fresh_lookup r msize reg).1.
Proof.
  intros Hok. unfold recv. case_match; [done|].
  lazymatch goal with |- context [?d (Buffer (take _ r) false)] =>
    destruct (d (Buffer (take (Z.to_nat headerLength) r) false)) as [[[size t] tag] b] end.
  case_match; [done|]. case_match; [done|].
  pose proof (registry_lookup_fresh reg tag t Hok) as Hl.
  destruct (registry_lookup tag t reg) as [[m|err] reg1];
    destruct (fresh_lookup tag t reg) as [[m'|err'] reg2]; cbn in Hl; try done.
  - destruct Hl as [Hm Hm']. rewrite (recv_body_fresh t tag m m') by done.
    by destruct (recv_body tag m' _ _).
  - by subst err'.
Qed.

(** The cache after a [twalk] of two FIDs and one name was given back, and the frame
    of one with other FIDs and no name. *)
Definition example_stale : message := Mtwalk (mk_twalk 1 2 ["x"%string]).
Definition example_registry : registry := registry_put msgDotLRegistry example_stale.
Definition example_walk : list byte := frame 3 (Mtwalk (mk_twalk 4 5 [])).

Lemma recycled_message_decodes_fresh_witness :
  registry_ok example_registry /\
  (registry_lookup 3 msgTwalk example_registry).1 = inl example_stale /\
  (recv registry_lookup example_walk 8192 example_registry).1
    = ((3, inl (Mtwalk (mk_twalk 4 5 []))), []).
Proof.
  assert (Hok : registry_ok example_registry).
  { apply registry_ok_put; [exact (proj2 registry_init_ok)|]. split; reflexivity. }
  split; [exact Hok|]. split; [vm_compute; reflexivity|].
  rewrite (recycled_message_decodes_fresh example_walk 8192 example_registry Hok).
  vm_compute. reflexivity.
Defined.
