(* ===== verification/Version.v ===== *)
(** * Protocol versions ([p9/version.go])

    Parsing and printing of version strings, the feature predicates, and the
    string functions of the standard library that the parser calls
    ([strings.Split], [strconv.ParseUint] and [fmt.Sprintf] with [%d]). *)
From S2P Require Import Prelude.

#[local] Open Scope string_scope.
#[local] Open Scope Z_scope.

Definition highestSupportedVersion : Z := 7.
Definition lowestSupportedVersion : Z := 0.

(** [baseVersion] is a string type; the constants of the source. *)
Definition undetermined : string := EmptyString.
Definition version9P2000 : string := "9P2000".
Definition version9P2000U : string := "9P2000.u".
Definition version9P2000L : string := "9P2000.L".

(** ** Library functions *)

(** [strings.Split(s, sep)] for a separator of one byte. *)
Fixpoint Split (sep : ascii) (s : string) : list string :=
  match s with
  | EmptyString => [EmptyString]
  | String c s =>
      if Ascii.eqb c sep then EmptyString :: Split sep s
      else match Split sep s with
           | w :: ws => String c w :: ws
           | [] => [String c EmptyString]
           end
  end.

Definition digit_of (c : ascii) : option Z :=
  let n := Z.of_nat (nat_of_ascii c) in
  if (48 <=? n) && (n <=? 57) then Some (n - 48) else None.

(** The loop of [strconv.ParseUint(s, 10, 32)] from the value [n] on: [None]
    for a byte that is no digit and for a value above [2^32 - 1]. *)
Fixpoint parse_digits (n : Z) (s : string) : option Z :=
  match s with
  | EmptyString => Some n
  | String c s =>
      match digit_of c with
      | None => None
      | Some d => if 2 ^ 32 - 1 <? n * 10 + d then None else parse_digits (n * 10 + d) s
      end
  end.

Definition ParseUint (s : string) : option Z :=
  match s with EmptyString => None | _ => parse_digits 0 s end.

Definition digit_char (d : Z) : ascii := ascii_of_nat (Z.to_nat (48 + d)).

(** [%d] of a non-negative integer below [10^fuel]. *)
Fixpoint decimal (fuel : nat) (v : Z) (acc : string) : string :=
  match fuel with
  | O => acc
  | S fuel =>
      let acc := String (digit_char (v mod 10)) acc in
      if v <? 10 then acc else decimal fuel (v / 10) acc
  end.

(** Ten digits are enough for a [uint32]. *)
Definition format_uint32 (v : Z) : string := decimal 10 v EmptyString.

(** ** Operations *)

Definition parseVersion (str : string) : option (string * Z) :=
  if String.eqb str "9P2000.L" then Some (version9P2000L, 0)
  else if String.eqb str "9P2000.u" then Some (version9P2000U, 0)
  else if String.eqb str "9P2000" then Some (version9P2000, 0)
  else
    match Split "." str with
    | [s0; s1; s2; s3] =>
        if negb (String.eqb s0 "9P2000") || negb (String.eqb s1 "L") || negb (String.eqb s2 "Google")
           || (String.length s3 =? 0)%nat
        then None
        else v ← ParseUint s3; Some (version9P2000L, v)
    | _ => None
    end.

Definition versionString (baseVersion : string) (version : Z) : string :=
  if (version =? 0)%Z then baseVersion
  else "9P2000.L.Google." ++ format_uint32 version.

Definition HighestVersionString : string :=
  versionString version9P2000L highestSupportedVersion.

Definition versionSupportsTwalkgetattr (v : Z) : bool := (2 <=? v)%Z.
Definition versionSupportsTucreation (v : Z) : bool := (3 <=? v)%Z.
Definition VersionSupportsMultiUser (v : Z) : bool := (6 <=? v)%Z.

(** * Lemmas *)

Lemma digit_of_digit_char d : 0 <= d < 10 -> digit_of (digit_char d) = Some d.
Proof.
  intros Hd. assert (H : d = 0 \/ d = 1 \/ d = 2 \/ d = 3 \/ d = 4 \/ d = 5 \/ d = 6 \/
    d = 7 \/ d = 8 \/ d = 9) by lia.
  destruct_or!; subst d; reflexivity.
Qed.

Lemma digit_char_not_dot d : 0 <= d < 10 -> Ascii.eqb (digit_char d) "." = false.
Proof.
  intros Hd. apply Ascii.eqb_neq. intros H.
  pose proof (digit_of_digit_char d Hd) as E. rewrite H in E. discriminate.
Qed.

(** Printing puts digits in front of [acc] which the parser accumulates. *)
Lemma parse_digits_decimal fuel v acc :
  0 <= v < 10 ^ Z.of_nat fuel -> v < 2 ^ 32 ->
  parse_digits 0 (decimal fuel v acc) = parse_digits v acc.
Proof.
  revert v acc. induction fuel as [|fuel IH]; intros v acc Hv Hmax.
  - cbn in *. f_equal. lia.
  - cbn [decimal]. pose proof (Z.mod_pos_bound v 10 ltac:(lia)) as Hm.
    assert (Hstep : forall n, n * 10 + v mod 10 = v ->
      parse_digits n (String (digit_char (v mod 10)) acc) = parse_digits v acc).
    { intros n Hn. cbn [parse_digits]. rewrite digit_of_digit_char, Hn by done.
      by rewrite (proj2 (Z.ltb_ge _ _)) by lia. }
    destruct (Z.ltb_spec v 10) as [Hlt|Hge].
    + apply Hstep. rewrite Z.mod_small; lia.
    + rewrite Nat2Z.inj_succ, Z.pow_succ_r in Hv by lia.
      assert (v = 10 * (v / 10) + v mod 10) by (apply Z.div_mod; lia).
      rewrite IH by lia. apply Hstep. lia.
Qed.

(** A decimal has no dot, so it stays in one piece. *)
Lemma Split_decimal fuel v acc :
  0 <= v -> Split "." acc = [acc] -> Split "." (decimal fuel v acc) = [decimal fuel v acc].
Proof.
  revert v acc. induction fuel as [|fuel IH]; intros v acc Hv Hacc; [done|].
  cbn [decimal]. pose proof (Z.mod_pos_bound v 10 ltac:(lia)) as Hm.
  assert (Hs : Split "." (String (digit_char (v mod 10)) acc)
    = [String (digit_char (v mod 10)) acc]).
  { cbn [Split]. by rewrite digit_char_not_dot, Hacc. }
  destruct (v <? 10)%Z; [done|]. apply IH; [|done]. apply Z.div_pos; lia.
Qed.

Lemma decimal_nonempty fuel v c acc : exists d s, decimal fuel v (String c acc) = String d s.
Proof.
  revert v c acc. induction fuel as [|fuel IH]; intros v c acc; cbn [decimal]; [eauto|].
  case_match; eauto.
Qed.

Lemma format_uint32_cons v : exists d s, format_uint32 v = String d s.
Proof.
  unfold format_uint32. cbn [decimal]. case_match; [eauto|]. apply (decimal_nonempty 9).
Qed.

Lemma ParseUint_format v : u32 v -> ParseUint (format_uint32 v) = Some v.
Proof.
  intros [H0 Hv]. destruct (format_uint32_cons v) as (d & s & Hd).
  transitivity (parse_digits 0 (format_uint32 v)); [by rewrite Hd|].
  unfold format_uint32. rewrite parse_digits_decimal; [done|lia|done].
Qed.

(** The four pieces of a version string of the extended form. *)
Lemma Split_version s :
  Split "." s = [s] -> Split "." ("9P2000.L.Google." ++ s) = ["9P2000"; "L"; "Google"; s].
Proof. intros H. cbv [String.append]. cbn. by rewrite H. Qed.

Lemma parseVersion_extended s :
  Split "." s = [s] -> (String.length s =? 0)%nat = false ->
  parseVersion ("9P2000.L.Google." ++ s) = v ← ParseUint s; Some (version9P2000L, v).
Proof.
  intros Hs Hl. unfold parseVersion. rewrite Split_version by done.
  cbv [String.append]. cbn. by rewrite Hl.
Qed.

Lemma parse_digits_range n s v :
  0 <= n < 2 ^ 32 -> parse_digits n s = Some v -> 0 <= v < 2 ^ 32.
Proof.
  revert n. induction s as [|c s IH]; intros n Hn; cbn [parse_digits].
  - by intros [= <-].
  - unfold digit_of. destruct (_ && _) eqn:Ed; [|discriminate].
    apply andb_true_iff in Ed as [H1 H2]. apply Z.leb_le in H1, H2.
    destruct (Z.ltb_spec (2 ^ 32 - 1) (n * 10 + (Z.of_nat (nat_of_ascii c) - 48)));
      [discriminate|]. apply IH. lia.
Qed.

Lemma ParseUint_range s v : ParseUint s = Some v -> u32 v.
Proof. destruct s; [discriminate|]. by apply parse_digits_range. Qed.

(** * Properties *)

(** A version string that one side prints for a 32-bit version of the
    [9P2000.L] dialect is parsed by the other side to that dialect and
    version, version 0 being the plain dialect name. *)
Theorem parseVersion_versionString v :
  u32 v -> parseVersion (versionString version9P2000L v) = Some (version9P2000L, v).
Proof.
  intros Hv. unfold versionString. destruct (Z.eqb_spec v 0) as [->|Hne]; [done|].
  rewrite parseVersion_extended.
  - by rewrite ParseUint_format.
  - apply Split_decimal; [apply Hv|done].
  - destruct (format_uint32_cons v) as (d & s & ->). done.
Qed.

Lemma parseVersion_versionString_witness :
  u32 4294967295 /\
  parseVersion "9P2000.L.Google.4294967295" = Some (version9P2000L, 4294967295).
Proof.
  assert (H : u32 4294967295) by done.
  split; [exact H|]. exact (parseVersion_versionString 4294967295 H).
Defined.

(** what [parseVersion] accepts: the three dialect names with version 0, or
    four dot-separated pieces of which the last is a decimal that fits 32 bits;
    the version it yields is always a 32-bit value, and a non-zero one is of
    dialect [9P2000.L]. *)
Theorem parseVersion_sound str base v :
  parseVersion str = Some (base, v) ->
  u32 v /\
  ((v = 0 /\ str = base /\ base ∈ [version9P2000L; version9P2000U; version9P2000]) \/
   (base = version9P2000L /\ exists s, Split "." str = ["9P2000"; "L"; "Google"; s] /\
      ParseUint s = Some v)).
Proof.
  unfold parseVersion.
  destruct (String.eqb_spec str "9P2000.L") as [->|_];
    [intros [= <- <-]; split; [done|left; set_solver]|].
  destruct (String.eqb_spec str "9P2000.u") as [->|_];
    [intros [= <- <-]; split; [done|left; set_solver]|].
  destruct (String.eqb_spec str "9P2000") as [->|_];
    [intros [= <- <-]; split; [done|left; set_solver]|].
  destruct (Split "." str) as [|s0 [|s1 [|s2 [|s3 [|]]]]]; try discriminate.
  destruct (String.eqb_spec s0 "9P2000") as [->|_]; [|discriminate].
  destruct (String.eqb_spec s1 "L") as [->|_]; [|discriminate].
  destruct (String.eqb_spec s2 "Google") as [->|_]; [|discriminate].
  destruct (String.length s3 =? 0)%nat; [discriminate|]. cbn [negb orb].
  destruct (ParseUint s3) as [v'|] eqn:E; [|discriminate]. intros [= <- <-].
  split; [by eapply ParseUint_range|]. right. split; [done|]. by exists s3.
Qed.

Lemma parseVersion_sound_witness :
  parseVersion "9P2000.L.Google.007" = Some (version9P2000L, 7) /\ u32 7.
Proof.
  assert (H : parseVersion "9P2000.L.Google.007" = Some (version9P2000L, 7)) by reflexivity.
  split; [exact H|]. exact (proj1 (parseVersion_sound _ _ _ H)).
Defined.
