(* ===== verification/Pool.v ===== *)
(** * The pool of tags and FIDs ([p9/pool.go])

    [pool] hands out 64-bit values from [start] (included) to [limit]
    (excluded), preferring those that were given back.  The mutex makes each
    operation atomic, so the operations are functions on the fields. *)
From S2P Require Import Prelude.

Record pool := mk_pool { cache : list Z; start : Z; limit : Z }.

(** [p.cache = append(p.cache, v)]: the last element of the slice is the head
    of the list here, the end at which both operations work. *)
Definition Put (v : Z) (p : pool) : pool := mk_pool (v :: cache p) (start p) (limit p).

Definition Get (p : pool) : option Z * pool :=
  match cache p with
  | v :: rest => (Some v, mk_pool rest (start p) (limit p))
  | [] =>
      if start p =? limit p then (None, p)
      else (Some (start p), mk_pool [] (wrap64 (start p + 1)) (limit p))
  end.

(** ** The state machine of a pool and its users

    [held] are the values handed out and not yet given back. A user gives back
    only what it holds. *)
Inductive pool_step : pool * list Z -> pool * list Z -> Prop :=
| step_Get p v p' held :
    Get p = (Some v, p') -> pool_step (p, held) (p', v :: held)
| step_Get_fail p p' held :
    Get p = (None, p') -> pool_step (p, held) (p', held)
| step_Put p v held1 held2 :
    pool_step (p, held1 ++ v :: held2) (Put v p, held1 ++ held2).

Definition pool_steps : relation (pool * list Z) := rtc pool_step.

(** Every value from [first] up to [start] is either cached or held, once. *)
Definition pool_inv (first lim : Z) (s : pool * list Z) : Prop :=
  let '(p, held) := s in
  limit p = lim /\ first <= start p <= lim /\
  cache p ++ held ≡ₚ seqZ first (start p - first).

Lemma pool_inv_perm first lim p held held' :
  held ≡ₚ held' -> pool_inv first lim (p, held) -> pool_inv first lim (p, held').
Proof. intros Hh (H1 & H2 & H3). split; [done|]. split; [done|]. by rewrite <- Hh. Qed.

Lemma pool_inv_init first lim :
  first <= lim -> pool_inv first lim (mk_pool [] first lim, []).
Proof. intros H. repeat split; cbn; [lia..|]. by rewrite Z.sub_diag. Qed.

Lemma pool_inv_step first lim s s' :
  0 <= first -> lim < 2 ^ 64 -> pool_inv first lim s -> pool_step s s' ->
  pool_inv first lim s'.
Proof.
  intros H0 H64 Hinv Hstep. destruct Hstep as [p v p' held Hg|p p' held Hg|p v h1 h2];
    destruct p as [c st l]; destruct Hinv as (Hl & Hst & Hp); cbn in Hl, Hst, Hp.
  - unfold Get in Hg. cbn in Hg |- *. destruct c as [|x c]; [destruct (Z.eqb_spec st l); [discriminate|]|];
      injection Hg as <- <-; cbn.
    + unfold wrap64. rewrite Z.mod_small by lia. split; [done|]. split; [lia|].
      replace (st + 1 - first) with ((st - first) + 1) by lia.
      rewrite seqZ_app by lia. rewrite <- Hp. cbn [app].
      replace (first + (st - first)) with st by lia.
      rewrite seqZ_cons by lia. apply Permutation_cons_append.
    + split; [done|]. split; [lia|]. rewrite <- Hp. symmetry. apply Permutation_middle.
  - unfold Get in Hg. cbn in Hg. destruct c; [|discriminate]. destruct (st =? l); [|discriminate]. injection Hg as <-. done.
  - cbn. split; [done|]. split; [lia|]. rewrite <- Hp, app_comm_cons. rewrite !app_assoc.
    rewrite <- Permutation_middle. by rewrite app_comm_cons.
Qed.

Lemma pool_inv_steps first lim s s' :
  0 <= first -> lim < 2 ^ 64 -> pool_inv first lim s -> pool_steps s s' ->
  pool_inv first lim s'.
Proof. intros H0 H64 Hi. induction 1; eauto using pool_inv_step. Qed.

(** What is out of a pool is different, in range and not what is given out next. *)
Lemma pool_out_inv first lim p held :
  0 <= first -> lim < 2 ^ 64 -> pool_inv first lim (p, held) ->
  NoDup held /\ Forall (fun v => first <= v < lim) held /\
  (forall v, (Get p).1 = Some v -> v ∉ held).
Proof.
  intros H0 H64 (Hl & Hst & Hp). assert (Hnd : NoDup (cache p ++ held)) by (rewrite Hp; apply NoDup_seqZ).
  assert (Hr : forall v, v ∈ held -> first <= v < start p).
  { intros v Hv. assert (v ∈ seqZ first (start p - first)) as Hin by (rewrite <- Hp; set_solver).
    apply elem_of_seqZ in Hin. lia. }
  split; [by apply NoDup_app in Hnd as (_ & _ & ?)|]. split.
  - apply Forall_forall. intros v Hv. specialize (Hr v Hv). lia.
  - intros v Hg Hv. unfold Get in Hg. destruct (cache p) as [|w c] eqn:Ec.
    + destruct (_ =? _); [discriminate|]. injection Hg as <-. specialize (Hr _ Hv). lia.
    + injection Hg as <-. apply NoDup_app in Hnd as (_ & Hd & _). eapply Hd; [left|exact Hv].
Qed.

(** * Properties *)

(** C40: the values that are out at the same time are pairwise different and in
    the pool's range, in every run of [Get] and [Put] that starts with a fresh
    pool and gives back only what was handed out; and [Get] fails only when
    the whole range is out. This is what makes concurrent requests of a client
    use different tags, and its files different FIDs. *)
Theorem pool_unique first lim p held :
  0 <= first <= lim -> lim < 2 ^ 64 ->
  pool_steps (mk_pool [] first lim, []) (p, held) ->
  NoDup held /\ Forall (fun v => first <= v < lim) held /\
  ((Get p).1 = None -> held ≡ₚ seqZ first (lim - first)).
Proof.
  intros H0 H64 Hs.
  pose proof (pool_inv_steps first lim _ _ (proj1 H0) H64
    (pool_inv_init _ _ (proj2 H0)) Hs) as (Hl & Hst & Hp).
  destruct (pool_out_inv first lim p held (proj1 H0) H64) as (Hnd & Hr & _); [done|].
  split; [done|]. split; [done|].
  unfold Get. destruct (cache p) eqn:Ec; [|done].
  destruct (Z.eqb_spec (start p) (limit p)) as [He|]; [|done].
  intros _. rewrite Hl in He. rewrite He in Hp. exact Hp.
Qed.

Lemma pool_unique_witness :
  pool_steps (mk_pool [] 1 3, []) (mk_pool [1] 3 3, [2]) /\ NoDup [2].
Proof.
  assert (H : pool_steps (mk_pool [] 1 3, []) (mk_pool [1] 3 3, [2])).
  { eapply rtc_l; [by eapply step_Get|]. eapply rtc_l; [by eapply step_Get|].
    eapply rtc_l; [exact (step_Put (mk_pool [] 3 3) 1 [2] [])|]. apply rtc_refl. }
  split; [exact H|]. eapply (pool_unique 1 3); [split; discriminate|done|exact H].
Defined.
