(* ===== verification/File.v ===== *)
(** * The interface to the file system behind the server ([p9/file.go])

    [Attacher] and [File] are interfaces that users of the package implement.
    A call of one of their methods is a value of [FileE A], where [A] is the type
    of what the method returns; what the call does is given by a [Backend], an
    argument of everything that calls it.  The concurrency guarantee that the
    comments of [File] promise for a method is [guarantee]. *)
From S2P Require Import Prelude Errno Buffer Types.

Section FileE.
(** The values of type [File]. *)
Context {File : Type}.

(** A result next to an error is present only where the code uses it when the
    error is not nil: elsewhere it is one or the other. *)
Inductive FileE : Type -> Type :=
| FAttach : FileE (File + error)
| FWalk (f : File) (names : list string) : FileE (list QID * File + error)
| FWalkGetAttr (f : File) (names : list string)
  : FileE (list QID * File * AttrMask * Attr + error)
| FStatFS (f : File) : FileE (FSStat + error)
| FGetAttr (f : File) (req : AttrMask) : FileE (QID * AttrMask * Attr + error)
| FSetAttr (f : File) (valid : SetAttrMask) (attr : SetAttr) : FileE (option error)
| FClose (f : File) : FileE (option error)
| FOpen (f : File) (mode : Z) : FileE (QID * Z + error)
  (* the contents of the slice [p] before and after, the count, the error *)
| FReadAt (f : File) (p : list byte) (offset : Z) : FileE (list byte * Z * option error)
| FWriteAt (f : File) (p : list byte) (offset : Z) : FileE (Z + error)
| FSetXattr (f : File) (attr : string) (data : list byte) (flags : Z) : FileE (option error)
| FGetXattr (f : File) (attr : string) : FileE (list byte + error)
| FListXattrs (f : File) : FileE (list string + error)
| FRemoveXattr (f : File) (attr : string) : FileE (option error)
| FFSync (f : File) : FileE (option error)
| FLock (f : File) (pid locktype flags start length : Z) (client : string)
  : FileE (Z + error)
| FCreate (f : File) (name : string) (flags permissions uid gid : Z)
  : FileE (File * QID * Z + error)
| FMkdir (f : File) (name : string) (permissions uid gid : Z) : FileE (QID + error)
| FSymlink (f : File) (oldName newName : string) (uid gid : Z) : FileE (QID + error)
| FLink (f : File) (target : File) (newName : string) : FileE (option error)
| FMknod (f : File) (name : string) (mode major minor uid gid : Z) : FileE (QID + error)
| FRename (f : File) (newDir : File) (newName : string) : FileE (option error)
| FRenameAt (f : File) (oldName : string) (newDir : File) (newName : string)
  : FileE (option error)
| FUnlinkAt (f : File) (name : string) (flags : Z) : FileE (option error)
| FReaddir (f : File) (offset count : Z) : FileE (list Dirent * option error)
| FReadlink (f : File) : FileE (string + error)
| FRenamed (f : File) (newDir : File) (newName : string) : FileE unit.

(** The path elements that a call hands to the backend: the names of things in
    a directory, not the target of a symbolic link, which is free text. *)
Definition path_elements {A} (e : FileE A) : list string :=
  match e with
  | FWalk _ names | FWalkGetAttr _ names => names
  | FCreate _ name _ _ _ _ | FMkdir _ name _ _ _ | FMknod _ name _ _ _ _ _
  | FUnlinkAt _ name _ => [name]
  | FSymlink _ _ newName _ _ | FLink _ _ newName | FRename _ _ newName
  | FRenamed _ _ newName => [newName]
  | FRenameAt _ oldName _ newName => [oldName; newName]
  | _ => []
  end.

(** The receiver. *)
Definition receiver {A} (e : FileE A) : option File :=
  match e with
  | FAttach => None
  | FWalk f _ | FWalkGetAttr f _ | FStatFS f | FGetAttr f _ | FSetAttr f _ _
  | FClose f | FOpen f _ | FReadAt f _ _ | FWriteAt f _ _ | FSetXattr f _ _ _
  | FGetXattr f _ | FListXattrs f | FRemoveXattr f _ | FFSync f
  | FLock f _ _ _ _ _ _ | FCreate f _ _ _ _ _ | FMkdir f _ _ _ _
  | FSymlink f _ _ _ _ | FLink f _ _ | FMknod f _ _ _ _ _ _ | FRename f _ _
  | FRenameAt f _ _ _ | FUnlinkAt f _ _ | FReaddir f _ _ | FReadlink f
  | FRenamed f _ _ => Some f
  end.

(** "There are three different types of guarantees provided", and none. *)
Inductive guarantee_level := GNone | GRead | GWrite | GGlobal.

(** What the comment of each method says; the methods on extended attributes
    have none there. *)
Definition guarantee {A} (e : FileE A) : guarantee_level :=
  match e with
  | FWalk _ _ | FWalkGetAttr _ _ | FGetAttr _ _ | FOpen _ _ | FReadAt _ _ _
  | FWriteAt _ _ _ | FFSync _ | FReaddir _ _ _ | FReadlink _ => GRead
  | FSetAttr _ _ _ | FCreate _ _ _ _ _ _ | FMkdir _ _ _ _ _ | FSymlink _ _ _ _ _
  | FLink _ _ _ | FMknod _ _ _ _ _ _ _ | FUnlinkAt _ _ _ => GWrite
  | FRenameAt _ _ _ _ | FRenamed _ _ _ => GGlobal
  | _ => GNone
  end.
End FileE.
Arguments FileE : clear implicits.

(** An implementation of the interfaces over a world [W]: what a call returns and what it
    makes of the world, and whether it panics, when there is no result but the world has
    changed all the same; and the order in which the runtime iterates over a map, which the
    language leaves open. *)
Class Backend (W File : Type) := {
  exec : forall {A}, FileE File A -> W -> A * W;
  panics : forall {A}, FileE File A -> W -> bool;
  range : forall {A}, W -> list A -> list A;
  range_perm : forall A w (l : list A), range w l ≡ₚ l;
}.

(** No method panics.  What is proved without this holds of every implementation. *)
Class Returning {W File : Type} (B : Backend W File) : Prop :=
  returning : forall A (e : FileE File A) w, panics e w = false.
