(* ===== verification/State.v ===== *)
(** * The server's state and the monad of its code ([p9/server.go], [p9/path_tree.go])

    Pointers to [pathNode] and [fidRef] are numbers that index the heap [St],
    connections are numbers too.  Code is a computation of the monad [M]: it gets
    the locks that the goroutine holds, changes the state, and returns, panics or
    is stuck.  Every lock of the server is held for the extent of a call ([Lock]
    followed by [Unlock] or a deferred [Unlock]), so [with_lock] brackets a
    computation; acquiring a lock that the goroutine itself holds in a conflicting
    mode blocks for good.  Each call into the backend is recorded with the locks
    held around it. *)
From S2P Require Import Prelude Errno Buffer Types File.

(** Pointers. *)
Definition nid : Set := nat.
Definition rid : Set := nat.
Definition cid : Set := nat.

(** ** Path nodes *)

Record pathNode := mk_pathNode {
  deleted : bool;
  childNodes : gmap string nid;
  childRefs : gmap string (gset rid);
  childRefNames : gmap rid string;
}.

Definition newPathNode : pathNode := mk_pathNode false ∅ ∅ ∅.

(** ** Locks *)

Inductive lock :=
| renameMu
| opMu (n : nid)
| childMu (n : nid)
| fidMu (c : cid)
| tagMu (c : cid).

#[export] Instance lock_eq_dec : EqDecision lock.
Proof. solve_decision. Defined.

(** The locks that are held, [true] for a lock held for writing. *)
Definition held : Type := list (lock * bool).

Definition conflicts (h : held) (l : lock) (w : bool) : bool :=
  existsb (fun '(l', w') => bool_decide (l = l') && (w || w')) h.

(** ** References *)

Inductive xattrOp := xattrNone | xattrCreate | xattrWalk.

Record pendingXattr := mk_pendingXattr {
  px_op : xattrOp; px_name : string; px_size : Z; px_flags : Z; px_buf : list byte;
}.
Definition pendingXattr_zero : pendingXattr := mk_pendingXattr xattrNone EmptyString 0 0 [].

Record fidRef {File : Type} := mk_fidRef {
  file : File;
  fr_pendingXattr : pendingXattr;
  refs : Z;
  opened : bool;
  mode : Z;
  openFlags : Z;
  fr_pathNode : nid;
  parent : option rid;
}.
Arguments fidRef : clear implicits.

(** ** Connections *)

(** [cs_readBufPool] is the size that the pool's [New] makes buffers of, [None]
    before the version is negotiated, and the buffers given back to it. *)
Record connState := mk_connState {
  fids : gmap Z rid;
  tags : gset Z;
  messageSize : Z;
  readBufPool : option (Z * list (list byte));
  pristineZeros : nat;
  baseVersion : string;
  version : Z;
}.

Definition new_connState : connState := mk_connState ∅ ∅ 0 None 0 EmptyString 0.

(** ** The monad *)

Section monad.
Context {W File : Type}.

(** A call into the backend: the method and its arguments, the reference whose
    file is the receiver ([None] when the file belongs to none yet) with its
    path node and the one of the reference above it, the locks held. *)
Record event := mk_event {
  ev_ret : Type;
  ev_call : FileE File ev_ret;
  ev_ref : option rid;
  ev_node : option nid;
  ev_above : option nid;
  ev_locks : held;
}.

Record St := mk_St {
  world : W;
  nodes : gmap nid pathNode;
  refHeap : gmap rid (fidRef File);
  conns : gmap cid connState;
  next_node : nid;
  next_ref : rid;
  (* the latest call first *)
  trace : list event;
}.

Inductive outcome (A : Type) :=
| Ret (a : A) (s : St)
| Panic (s : St)
(** Blocked on a lock that this goroutine holds, or in a recursion that does
    not end. *)
| Stuck.
Arguments Ret {A}. Arguments Panic {A}. Arguments Stuck {A}.

Definition M (A : Type) : Type := held -> St -> outcome A.

#[global] Instance M_ret : MRet M := fun A a _ s => Ret a s.
#[global] Instance M_bind : MBind M := fun A B k m h s =>
  match m h s with
  | Ret a s => k a h s
  | Panic s => Panic s
  | Stuck => Stuck
  end.

Definition panic {A} : M A := fun _ s => Panic s.
Definition stuck {A} : M A := fun _ _ => Stuck.

(** [defer d] in front of [m]: [d] runs when [m] returns and when it panics. *)
Definition defer {A B} (d : M B) (m : M A) : M A := fun h s =>
  match m h s with
  | Ret a s => match d h s with Ret _ s => Ret a s | Panic s => Panic s | Stuck => Stuck end
  | Panic s => match d h s with Ret _ s => Panic s | Panic s => Panic s | Stuck => Stuck end
  | Stuck => Stuck
  end.

(** [l.Lock()] ([w = true]) or [l.RLock()], [m], and the unlock. *)
Definition with_lock {A} (l : lock) (w : bool) (m : M A) : M A := fun h s =>
  if conflicts h l w then Stuck else m ((l, w) :: h) s.

(** The node of a reference, and that of its parent or, of a root, its own. *)
Definition node_in (heap : gmap rid (fidRef File)) (r : rid) : option nid :=
  fr_pathNode <$> heap !! r.
Definition above_in (heap : gmap rid (fidRef File)) (r : rid) : option nid :=
  fr ← heap !! r; node_in heap (default r (parent fr)).

(** What is recorded of a call. *)
Definition event_of {A} (s : St) (r : option rid) (e : FileE File A) (h : held) : event :=
  mk_event A e r (r ≫= node_in (refHeap s)) (r ≫= above_in (refHeap s)) h.

(** A call of a method of the backend, which may panic. *)
Definition call {B : Backend W File} {A} (r : option rid) (e : FileE File A) : M A :=
  fun h s =>
    let '(a, w) := exec e (world s) in
    let s' := mk_St w (nodes s) (refHeap s) (conns s) (next_node s) (next_ref s)
                (event_of s r e h :: trace s) in
    if panics e (world s) then Panic s' else Ret a s'.

(** Of an implementation whose methods return. *)
Lemma call_returning {B : Backend W File} {RB : Returning B} {A} r (e : FileE File A) h s :
  call r e h s = let '(a, w) := exec e (world s) in
    Ret a (mk_St w (nodes s) (refHeap s) (conns s) (next_node s) (next_ref s)
             (event_of s r e h :: trace s)).
Proof. unfold call. by rewrite returning. Qed.

(** The order in which a [for ... range] over a map visits it. *)
Definition map_range {B : Backend W File} {A} (l : list A) : M (list A) := fun _ s =>
  Ret (range (world s) l) s.

Fixpoint for_each {A} (f : A -> M unit) (l : list A) : M unit :=
  match l with
  | [] => mret tt
  | x :: l => f x;; for_each f l
  end.

(** *** The heap: a missing entry is a nil pointer *)

Definition get_node (n : nid) : M pathNode := fun _ s =>
  match nodes s !! n with Some nd => Ret nd s | None => Panic s end.
Definition set_node (n : nid) (nd : pathNode) : M unit := fun _ s =>
  Ret tt (mk_St (world s) (<[n := nd]> (nodes s)) (refHeap s) (conns s) (next_node s)
            (next_ref s) (trace s)).
Definition new_node (nd : pathNode) : M nid := fun _ s =>
  Ret (next_node s)
    (mk_St (world s) (<[next_node s := nd]> (nodes s)) (refHeap s) (conns s)
       (S (next_node s)) (next_ref s) (trace s)).

Definition get_ref (r : rid) : M (fidRef File) := fun _ s =>
  match refHeap s !! r with Some fr => Ret fr s | None => Panic s end.
Definition set_ref (r : rid) (fr : fidRef File) : M unit := fun _ s =>
  Ret tt (mk_St (world s) (nodes s) (<[r := fr]> (refHeap s)) (conns s) (next_node s)
            (next_ref s) (trace s)).
Definition new_ref (fr : fidRef File) : M rid := fun _ s =>
  Ret (next_ref s)
    (mk_St (world s) (nodes s) (<[next_ref s := fr]> (refHeap s)) (conns s)
       (next_node s) (S (next_ref s)) (trace s)).
Definition count_refs : M nat := fun _ s => Ret (size (refHeap s)) s.
Definition count_nodes : M nat := fun _ s => Ret (size (nodes s)) s.

Definition get_conn (c : cid) : M connState := fun _ s =>
  match conns s !! c with Some cs => Ret cs s | None => Panic s end.
Definition set_conn (c : cid) (cs : connState) : M unit := fun _ s =>
  Ret tt (mk_St (world s) (nodes s) (refHeap s) (<[c := cs]> (conns s)) (next_node s)
            (next_ref s) (trace s)).
End monad.
Arguments event : clear implicits.
Arguments St : clear implicits.
Arguments outcome : clear implicits.
Arguments M : clear implicits.
Arguments Ret {W File A}. Arguments Panic {W File A}. Arguments Stuck {W File A}.

(** [if err := e; err != nil { return err }]: the rest of a function that
    returns an error next to its result. *)
Definition bind_err {W File A B} (e : M W File (A + error)) (k : A -> M W File (B + error))
    : M W File (B + error) :=
  r ← e; match r with inl x => k x | inr err => mret (inr err) end.
Notation "x ←? e ; k" := (bind_err e (fun x => k))
  (at level 20, e at level 100, k at level 200, right associativity).
Notation "' x ←? e ; k" := (bind_err e (fun x => k))
  (at level 20, x pattern, e at level 100, k at level 200, right associativity).

(** [if cond { return err }]. *)
Definition reject_if {W File A} (cond : bool) (err : error) (k : M W File (A + error))
    : M W File (A + error) :=
  if cond then mret (inr err) else k.

(** An [error] alone is a result without a value. *)
Definition err_result (e : option error) : unit + error :=
  match e with None => inl tt | Some err => inr err end.

(** Field updates. *)
Definition set_childNodes (f : gmap string nid -> gmap string nid) (nd : pathNode) : pathNode :=
  mk_pathNode (deleted nd) (f (childNodes nd)) (childRefs nd) (childRefNames nd).
Definition set_deleted (b : bool) (nd : pathNode) : pathNode :=
  mk_pathNode b (childNodes nd) (childRefs nd) (childRefNames nd).
Definition set_childRefs (f : gmap string (gset rid) -> gmap string (gset rid))
    (g : gmap rid string -> gmap rid string) (nd : pathNode) : pathNode :=
  mk_pathNode (deleted nd) (childNodes nd) (f (childRefs nd)) (g (childRefNames nd)).

Section updates.
Context {File : Type}.
Implicit Type fr : fidRef File.
Definition set_refs (n : Z) fr : fidRef File :=
  mk_fidRef _ (file fr) (fr_pendingXattr fr) n (opened fr) (mode fr) (openFlags fr)
    (fr_pathNode fr) (parent fr).
Definition set_parent (p : option rid) fr : fidRef File :=
  mk_fidRef _ (file fr) (fr_pendingXattr fr) (refs fr) (opened fr) (mode fr) (openFlags fr)
    (fr_pathNode fr) p.
Definition set_opened (flags : Z) fr : fidRef File :=
  mk_fidRef _ (file fr) (fr_pendingXattr fr) (refs fr) true (mode fr) flags
    (fr_pathNode fr) (parent fr).
Definition set_pendingXattr (px : pendingXattr) fr : fidRef File :=
  mk_fidRef _ (file fr) px (refs fr) (opened fr) (mode fr) (openFlags fr)
    (fr_pathNode fr) (parent fr).
End updates.

Definition set_fids (f : gmap Z rid -> gmap Z rid) (cs : connState) : connState :=
  mk_connState (f (fids cs)) (tags cs) (messageSize cs) (readBufPool cs) (pristineZeros cs)
    (baseVersion cs) (version cs).
Definition set_tags (f : gset Z -> gset Z) (cs : connState) : connState :=
  mk_connState (fids cs) (f (tags cs)) (messageSize cs) (readBufPool cs) (pristineZeros cs)
    (baseVersion cs) (version cs).
Definition set_readBufPool (p : option (Z * list (list byte))) (cs : connState) : connState :=
  mk_connState (fids cs) (tags cs) (messageSize cs) p (pristineZeros cs)
    (baseVersion cs) (version cs).

(** The server's root node. *)
Definition pathTree : nid := 0%nat.

(** [NewServer]: only the root of the path tree, no connection. *)
Definition NewServer {W File} (w : W) : St W File :=
  mk_St w {[ pathTree := newPathNode ]} ∅ ∅ 1%nat 0%nat [].
