(* ===== verification/PathTree.v ===== *)
(** * Path nodes ([p9/path_tree.go])

    The operations of [pathNode] that do not touch references; [removeWithName]
    and the traversals, whose callbacks do, are in FidRef. *)
From S2P Require Import Prelude Errno Buffer Types File State.

Section PathTree.
Context {W File : Type}.
Local Notation M := (M W File).

Definition pathNodeFor (p : nid) (name : string) : M nid :=
  (* Fast path, node already exists. *)
  nd ← with_lock (childMu p) false (get_node p);
  match childNodes nd !! name with
  | Some pn => mret pn
  | None =>
      (* Slow path, create a new pathNode for shared use. *)
      with_lock (childMu p) true (
        nd ← get_node p;
        match childNodes nd !! name with
        | Some pn => mret pn
        | None =>
            pn ← new_node newPathNode;
            set_node p (set_childNodes (<[name := pn]>) nd);;
            mret pn
        end)
  end.

Definition nameFor (p : nid) (ref : rid) : M string :=
  nd ← with_lock (childMu p) false (get_node p);
  match childRefNames nd !! ref with
  | Some n => mret n
  | None => panic
  end.

Definition addChildLocked (p : nid) (ref : rid) (name : string) : M unit :=
  nd ← get_node p;
  match childRefNames nd !! ref with
  | Some _ => panic
  | None =>
      let m := default ∅ (childRefs nd !! name) in
      set_node p (set_childRefs (<[name := {[ref]} ∪ m]>) (<[ref := name]>) nd)
  end.

Definition addChild (p : nid) (ref : rid) (name : string) : M unit :=
  with_lock (childMu p) true (addChildLocked p ref name).

Definition removeChild (p : nid) (ref : rid) : M unit :=
  with_lock (childMu p) true (
    nd ← get_node p;
    match childRefNames nd !! ref with
    | Some name =>
        match childRefs nd !! name with
        | None => panic
        | Some m =>
            let m := m ∖ {[ref]} in
            set_node p (set_childRefs
              (if (size m =? 0)%nat then delete name else <[name := m]>) (delete ref) nd)
        end
    | None => set_node p (set_childRefs (fun m => m) (delete ref) nd)
    end).

Definition addPathNodeFor (p : nid) (name : string) (pn : nid) : M unit :=
  with_lock (childMu p) true (
    nd ← get_node p;
    match childNodes nd !! name with
    | Some _ => panic
    | None => set_node p (set_childNodes (<[name := pn]>) nd)
    end).
End PathTree.
