(* ===== verification/FidRef.v ===== *)
(** * References, the path tree's callbacks and the FID table ([p9/server.go],
    [p9/path_tree.go])

    Reference counting, deletion and rename notification, the [safely] brackets,
    and the per-connection tables of FIDs and tags. *)
From S2P Require Import Prelude Errno Buffer Types File State PathTree.

Section FidRef.
Context {W File : Type} {B : Backend W File}.
Local Notation M := (M W File).

(** ** Reference counts *)

Definition IncRef (f : rid) : M unit :=
  fr ← get_ref f; set_ref f (set_refs (refs fr + 1) fr).

(** [errors.Join(errs...)]. *)
Definition join_errors (errs : list error) : option error :=
  match errs with [] => None | _ => Some (Join errs) end.

(** The recursion goes on only when a count drops to zero, which happens once
    per reference: one more round than there are references is enough. *)
Fixpoint DecRef_fuel (fuel : nat) (f : rid) : M (option error) :=
  match fuel with
  | O => stuck
  | S fuel =>
      fr ← get_ref f;
      set_ref f (set_refs (refs fr - 1) fr);;
      if refs fr - 1 =? 0 then
        err ← call (Some f) (FClose (file fr));
        let errs := match err with Some err => [Wrap err] | None => [] end in
        match parent fr with
        | Some p =>
            (* Drop the parent reference. *)
            pr ← get_ref p;
            removeChild (fr_pathNode pr) f;;
            pErr ← DecRef_fuel fuel p;
            let errs := errs ++ match pErr with Some pErr => [Wrap pErr] | None => [] end in
            mret (join_errors errs)
        | None => mret (join_errors errs)
        end
      else mret None
  end.

Definition DecRef (f : rid) : M (option error) :=
  n ← count_refs; DecRef_fuel (S n) f.

Definition TryIncRef (f : rid) : M bool :=
  fr ← get_ref f;
  if refs fr <=? 0 then mret false
  else set_ref f (set_refs (refs fr + 1) fr);; mret true.

Definition isDeleted (f : rid) : M bool :=
  fr ← get_ref f; nd ← get_node (fr_pathNode fr); mret (deleted nd).

(** Despite its name, true of a root. *)
Definition hasParent (f : rid) : M bool :=
  fr ← get_ref f; mret (match parent fr with None => true | Some _ => false end).

Definition maybeParent (f : rid) : M rid :=
  fr ← get_ref f; mret (match parent fr with Some p => p | None => f end).

(** [f.parent], as a receiver: nil panics. *)
Definition parent_of (f : rid) : M rid :=
  fr ← get_ref f; match parent fr with Some p => mret p | None => panic end.

(** ** Traversals of the path tree *)

(** The callbacks do not change [childRefs] of a node during its traversal. *)
Definition forEachChildRef (p : nid) (fn : rid -> string -> M unit) : M unit :=
  with_lock (childMu p) false (
    nd ← get_node p;
    names ← map_range (map_to_list (childRefs nd));
    for_each (fun '(name, m) =>
      rs ← map_range (elements m); for_each (fun ref => fn ref name) rs) names).

Definition forEachChildNode (p : nid) (fn : nid -> M unit) : M unit :=
  with_lock (childMu p) false (
    nd ← get_node p;
    pns ← map_range (map_to_list (childNodes nd));
    for_each (fun '(_, pn) => fn pn) pns).

Definition removeWithName (p : nid) (name : string) (fn : option (rid -> M unit))
    : M (option nid) :=
  with_lock (childMu p) true (
    nd ← get_node p;
    match childRefs nd !! name with
    | Some m =>
        rs ← map_range (elements m);
        for_each (fun ref =>
          nd ← get_node p;
          (* An entry removed in the meantime is not visited. *)
          if negb (bool_decide (ref ∈ default ∅ (childRefs nd !! name))) then mret tt
          else
            set_node p (set_childRefs (alter (fun m => m ∖ {[ref]}) name) (delete ref) nd);;
            match fn with
            | None => mret tt
            | Some fn =>
                ok ← TryIncRef ref;
                if (ok : bool) then fn ref;; _ ← DecRef ref; mret tt else mret tt
            end) rs
    | None => mret tt
    end;;
    (* Return the original path node, if it exists. *)
    nd ← get_node p;
    set_node p (set_childNodes (delete name) nd);;
    mret (childNodes nd !! name)).

(** A recursion deeper than there are nodes goes around a cycle for good. *)
Fixpoint notifyDelete_fuel (fuel : nat) (pn : nid) : M unit :=
  match fuel with
  | O => stuck
  | S fuel =>
      nd ← get_node pn;
      set_node pn (set_deleted true nd);;
      forEachChildNode pn (notifyDelete_fuel fuel)
  end.
Definition notifyDelete (pn : nid) : M unit :=
  n ← count_nodes; notifyDelete_fuel (S n) pn.

Definition markChildDeleted (f : rid) (name : string) : M unit :=
  fr ← get_ref f;
  origPathNode ← removeWithName (fr_pathNode fr) name None;
  match origPathNode with
  | Some pn => notifyDelete pn
  | None => mret tt
  end.

Fixpoint notifyNameChange_fuel (fuel : nat) (pn : nid) : M unit :=
  match fuel with
  | O => stuck
  | S fuel =>
      forEachChildRef pn (fun ref name =>
        fr ← get_ref ref;
        p ← parent_of ref;
        pr ← get_ref p;
        call (Some ref) (FRenamed (file fr) (file pr) name));;
      forEachChildNode pn (notifyNameChange_fuel fuel)
  end.
Definition notifyNameChange (pn : nid) : M unit :=
  n ← count_nodes; notifyNameChange_fuel (S n) pn.

Definition renameChildTo (f : rid) (oldName : string) (target : rid) (newName : string)
    : M unit :=
  markChildDeleted target newName;;
  fr ← get_ref f;
  tr ← get_ref target;
  origPathNode ← removeWithName (fr_pathNode fr) oldName (Some (fun ref =>
    p ← parent_of ref;
    _ ← DecRef p;                                       (* Drop original reference. *)
    rr ← get_ref ref;
    set_ref ref (set_parent (Some target) rr);;         (* Change parent. *)
    IncRef target;;                                     (* Acquire new one. *)
    (if bool_decide (fr_pathNode fr = fr_pathNode tr)
     then addChildLocked (fr_pathNode tr) ref newName
     else addChild (fr_pathNode tr) ref newName);;
    call (Some ref) (FRenamed (file rr) (file tr) newName)));
  match origPathNode with
  | Some pn =>
      (* Replace the previous (now deleted) path node. *)
      addPathNodeFor (fr_pathNode tr) newName pn;;
      (* Call Renamed on all children. *)
      notifyNameChange pn
  | None => mret tt
  end.

(** ** Locking brackets *)

Definition safelyRead {A} (f : rid) (fn : M A) : M A :=
  with_lock renameMu false (
    fr ← get_ref f; with_lock (opMu (fr_pathNode fr)) false fn).

Definition safelyWrite {A} (f : rid) (fn : M A) : M A :=
  with_lock renameMu false (
    fr ← get_ref f; with_lock (opMu (fr_pathNode fr)) true fn).

Definition safelyGlobal {A} (f : rid) (fn : M A) : M A := with_lock renameMu true fn.

(** ** The FID table of a connection *)

Definition LookupFID (c : cid) (fid : Z) : M (option rid) :=
  with_lock (fidMu c) true (
    cs ← get_conn c;
    match fids cs !! fid with
    | Some fidRef => IncRef fidRef;; mret (Some fidRef)
    | None => mret None
    end).

Definition InsertFID (c : cid) (fid : Z) (newRef : rid) : M unit :=
  with_lock (fidMu c) true (
    cs ← get_conn c;
    let insert := IncRef newRef;; set_conn c (set_fids (<[fid := newRef]>) cs) in
    match fids cs !! fid with
    | Some origRef => defer (DecRef origRef) insert
    | None => insert
    end).

Definition DeleteFID (c : cid) (fid : Z) : M (option error) :=
  with_lock (fidMu c) true (
    cs ← get_conn c;
    match fids cs !! fid with
    | None => mret (Some (Errno EBADF))
    | Some fidRef =>
        set_conn c (set_fids (delete fid) cs);;
        DecRef fidRef
    end).

(** ** Tags *)

Definition StartTag (c : cid) (t : Z) : M bool :=
  with_lock (tagMu c) true (
    cs ← get_conn c;
    if bool_decide (t ∈ tags cs) then mret false
    else set_conn c (set_tags (fun ts => {[t]} ∪ ts) cs);; mret true).

Definition ClearTag (c : cid) (t : Z) : M unit :=
  with_lock (tagMu c) true (
    cs ← get_conn c;
    if bool_decide (t ∈ tags cs) then set_conn c (set_tags (fun ts => ts ∖ {[t]}) cs)
    else panic).

(** Requests are run one at a time here, so a tag that is active is never
    cleared while this request waits for it. *)
Definition WaitTag (c : cid) (t : Z) : M unit :=
  cs ← with_lock (tagMu c) true (get_conn c);
  if bool_decide (t ∈ tags cs) then stuck else mret tt.
End FidRef.
