(* ===== verification/Handlers.v ===== *)
(** * The message handlers ([p9/handlers.go], [handle] of [p9/server.go])

    One definition per handler, with the guards in the order of the source.
    A handler gets its connection and the message and returns the response. *)
From S2P Require Import Prelude Errno Buffer Types Messages Message Transport Version.
From S2P Require Import File State PathTree FidRef.

Definition newErr (err : error) : message := Mrlerror (mk_rlerror (wrap32 (ExtractErrno err))).

(** ** Names *)

(** [strings.Contains(s, "/")]. *)
Fixpoint contains_slash (s : string) : bool :=
  match s with
  | EmptyString => false
  | String c s => Ascii.eqb c "/" || contains_slash s
  end.

Definition safe_name (name : string) : bool :=
  negb (String.eqb name EmptyString) && negb (contains_slash name)
  && negb (String.eqb name ".") && negb (String.eqb name "..").

Definition checkSafeName (name : string) : option error :=
  if safe_name name then None else Some (Errno EINVAL).

(** The first error of [checkSafeName] over the names. *)
Definition checkSafeNames (names : list string) : option error := first_some checkSafeName names.

(** [path.IsAbs]. *)
Definition IsAbs (s : string) : bool :=
  match s with String c _ => Ascii.eqb c "/" | EmptyString => false end.

(** [strings.Join(xs, "\000") + "\000"]. *)
Definition join_nul (xs : list string) : list byte :=
  (fix go (xs : list string) : list byte :=
     match xs with
     | [] => []
     | [x] => bytes_of_string x
     | x :: xs => bytes_of_string x ++ x00 :: go xs
     end) xs ++ [x00].

(** Go's [copy(dst, src)]. *)
Definition copy (dst src : list byte) : list byte :=
  take (length dst) src ++ drop (length src) dst.

Definition CanOpen (mode : Z) : bool :=
  FileMode_IsRegular mode || FileMode_IsDir mode || FileMode_IsNamedPipe mode
  || FileMode_IsBlockDevice mode || FileMode_IsCharacterDevice mode.

Section Handlers.
Context {W File : Type} {B : Backend W File}.
Local Notation M := (M W File).

(** [ref, ok := cs.LookupFID(fid); if !ok { return EBADF }; defer ref.DecRef()],
    the rest of the handler being [k]. *)
Definition with_fid {A} (c : cid) (fid : Z) (bad : A) (k : rid -> M A) : M A :=
  o ← LookupFID c fid;
  match o with
  | None => mret bad
  | Some ref => defer (DecRef ref) (k ref)
  end.

(** [if err := e; err != nil { return newErr(err) }; return k]. *)
Definition reply {A} (e : M (A + error)) (k : A -> M message) : M message :=
  r ← e; match r with inl x => k x | inr err => mret (newErr err) end.

(** The same for an error alone. *)
Definition call_err (r : option rid) (e : FileE File (option error)) : M (unit + error) :=
  err ← call r e; mret (err_result err).

(** [if ref.isDeleted() || !ref.mode.IsDir()] and [if ref.opened]: the guards of
    the operations that change a directory. *)
Definition check_dir (ref : rid) (k : M (unit + error)) : M (unit + error) :=
  d ← isDeleted ref;
  fr ← get_ref ref;
  reject_if (d || negb (FileMode_IsDir (mode fr))) (Errno EINVAL) (
  reject_if (opened fr) (Errno EINVAL) k).

(** ** Version, flush, auth *)

Definition unknown_version : message := Mrversion (mk_rversion 0 "unknown").

Definition handle_tversion (t : tversion) (c : cid) : M message :=
  if tversion_MSize t =? 0 then mret unknown_version
  else
    let msize := if maximumLength <? tversion_MSize t then maximumLength
                 else tversion_MSize t in
    match parseVersion (tversion_Version t) with
    | None => mret unknown_version
    | Some (reqBaseVersion, reqVersion) =>
        if String.eqb reqBaseVersion version9P2000 || String.eqb reqBaseVersion version9P2000U
        then mret unknown_version
        else
          let version := if highestSupportedVersion <? reqVersion
                         then highestSupportedVersion else reqVersion in
          cs ← get_conn c;
          set_conn c (mk_connState (fids cs) (tags cs) msize (Some (msize, []))
                        (Z.to_nat msize) reqBaseVersion version);;
          mret (Mrversion (mk_rversion msize (versionString reqBaseVersion version)))
    end.

Definition handle_tflush (t : tflush) (c : cid) : M message :=
  WaitTag c (tflush_OldTag t);; mret (Mrflush mk_rflush).

Definition handle_tauth (t : tauth) (c : cid) : M message := mret (newErr (Errno ENOSYS)).

(** ** Clunk and remove *)

Definition clunkHandleXattr (t : tclunk) (c : cid) : M (option message) :=
  with_fid c (tclunk_fid t) (Some (newErr (Errno EBADF))) (fun ref =>
    r ← safelyRead ref (
      fr ← get_ref ref;
      let px := fr_pendingXattr fr in
      match px_op px with
      | xattrCreate =>
          reject_if (negb (Z.of_nat (length (px_buf px)) =? sint64 (px_size px)))
            (Errno EINVAL) (
          if (px_flags px =? XattrReplace) && (px_size px =? 0)
          then call_err (Some ref) (FRemoveXattr (file fr) (px_name px))
          else call_err (Some ref)
                 (FSetXattr (file fr) (px_name px) (px_buf px) (px_flags px)))
      | _ => mret (inl tt)
      end);
    match r with
    | inr err => mret (Some (newErr err))
    | inl _ => mret None
    end).

Definition handle_tclunk (t : tclunk) (c : cid) : M message :=
  cerr ← clunkHandleXattr t c;
  err ← DeleteFID c (tclunk_fid t);
  match err with
  | Some err => mret (newErr err)
  | None => match cerr with Some cerr => mret cerr | None => mret (Mrclunk mk_rclunk) end
  end.

Definition handle_tremove (t : tremove) (c : cid) : M message :=
  with_fid c (tremove_fid t) (newErr (Errno EBADF)) (fun ref =>
    err ← safelyGlobal ref (
      (* Is this a root? Can't remove that. *)
      root ← hasParent ref;
      reject_if root (Errno EINVAL) (
      (* Is this file already deleted? *)
      d ← isDeleted ref;
      reject_if d (Errno EINVAL) (
      (* Retrieve the file's proper name. *)
      p ← parent_of ref;
      pr ← get_ref p;
      name ← nameFor (fr_pathNode pr) ref;
      (* Attempt the removal. *)
      _ ←? call_err (Some p) (FUnlinkAt (file pr) name 0);
      (* Mark all relevant fids as deleted. *)
      markChildDeleted p name;;
      mret (inl tt))));
    fidErr ← DeleteFID c (tremove_fid t);
    match fidErr with
    | Some fidErr => mret (newErr fidErr)
    | None => match err with
              | inr err => mret (newErr err)
              | inl _ => mret (Mrremove mk_rremove)
              end
    end).

(** ** Walking *)

(** [walkOne]: [from] is the file of reference [r].  A file that was walked to
    but cannot be used is closed. *)
Definition walkOne (qids : list QID) (r : rid) (from : File) (names : list string)
    (getattr : bool) : M (list QID * File * AttrMask * Attr + error) :=
  let nwname := length names in
  reject_if (1 <? nwname)%nat (Errno EINVAL) (
  (* The default case of the switch. *)
  let walk :=
    '(localQIDs, sf) ←? call (Some r) (FWalk from names);
    if getattr then
      res ← call None (FGetAttr sf AttrMaskAll);
      match res with
      | inr err => _ ← call None (FClose sf); mret (inr err)     (* Don't leak the file. *)
      | inl (_, valid, attr) => mret (inl (localQIDs, sf, valid, attr))
      end
    else mret (inl (localQIDs, sf, AttrMask_zero, Attr_zero)) in
  '(localQIDs, sf, valid, attr) ←?
    (if getattr then
       res ← call (Some r) (FWalkGetAttr from names);
       match res with
       | inr err => if Is err (TErrno ENOSYS) then walk else mret (inr err)
       | inl res => mret (inl res)
       end
     else walk);
  if (nwname =? 1)%nat && negb (length localQIDs =? 1)%nat then
    (* Expected a single QID. *)
    _ ← call None (FClose sf); mret (inr (Errno EINVAL))
  else mret (inl (qids ++ localQIDs, sf, valid, attr))).

(** The loop of [doWalk]: [walkRef] carries a reference of the walk's own. *)
Fixpoint doWalk_loop (qids : list QID) (walkRef : rid) (valid : AttrMask) (attr : Attr)
    (names : list string) : M (list QID * rid * AttrMask * Attr + error) :=
  match names with
  | [] => mret (inl (qids, walkRef, valid, attr))
  | name :: names =>
      wr ← get_ref walkRef;
      if negb (FileMode_IsDir (mode wr)) then
        _ ← DecRef walkRef; mret (inr (Errno EINVAL))   (* Drop walk reference. *)
      else
        r ← safelyRead walkRef (
          d ← isDeleted walkRef;
          reject_if d (Errno ENOENT) (
          '(qids, sf, valid, attr) ←? walkOne qids walkRef (file wr) [name] true;
          pn ← pathNodeFor (fr_pathNode wr) name;
          newRef ← new_ref (mk_fidRef _ sf pendingXattr_zero 0 false
                     (FileMode_FileType (Attr_Mode attr)) 0 pn (Some walkRef));
          addChild (fr_pathNode wr) newRef name;;
          IncRef newRef;;
          mret (inl (qids, newRef, valid, attr))));
        match r with
        | inr err => _ ← DecRef walkRef; mret (inr err)   (* Drop the old walkRef. *)
        | inl (qids, walkRef, valid, attr) => doWalk_loop qids walkRef valid attr names
        end
  end.

Definition doWalk (ref : rid) (names : list string) (getattr : bool)
    : M (list QID * rid * AttrMask * Attr + error) :=
  match checkSafeNames names with
  | Some err => mret (inr err)
  | None =>
      match names with
      | [] =>
          mp ← maybeParent ref;
          (* Clone the single element. *)
          '(newRef, valid, attr) ←? safelyRead mp (
            fr ← get_ref ref;
            '(_, sf, valid, attr) ←? walkOne [] ref (file fr) [] getattr;
            newRef ← new_ref (mk_fidRef _ sf pendingXattr_zero 0 false (mode fr) 0
                                (fr_pathNode fr) (parent fr));
            match parent fr with
            | Some p =>
                d ← isDeleted newRef;
                pr ← get_ref p;
                (if (d : bool) then mret tt
                 else
                   (* Add only if a non-root node; the same node. *)
                   name ← nameFor (fr_pathNode pr) ref;
                   addChild (fr_pathNode pr) newRef name);;
                IncRef p                                 (* Acquire parent reference. *)
            | None => mret tt
            end;;
            IncRef newRef;;
            mret (inl (newRef, valid, attr)));
          (* Do not return the new QID. *)
          mret (inl ([], newRef, valid, attr))
      | _ =>
          IncRef ref;;
          doWalk_loop [] ref AttrMask_zero Attr_zero names
      end
  end.

(** The check of [twalk] and [twalkgetattr] on the fid they replace. *)
Definition check_walk_busy (ref : rid) (fid newFID : Z) : M (unit + error) :=
  safelyRead ref (
    fr ← get_ref ref;
    mret (if opened fr && (fid =? newFID) then inr (Errno EBUSY) else inl tt)).

Definition handle_twalk (t : twalk) (c : cid) : M message :=
  with_fid c (twalk_fid t) (newErr (Errno EBADF)) (fun ref =>
    reply (check_walk_busy ref (twalk_fid t) (twalk_newFID t)) (fun _ =>
    reply (doWalk ref (twalk_Names t) false) (fun '(qids, newRef, _, _) =>
    defer (DecRef newRef) (
      (* Install the new fid. *)
      InsertFID c (twalk_newFID t) newRef;;
      mret (Mrwalk (mk_rwalk qids)))))).

Definition handle_twalkgetattr (t : twalkgetattr) (c : cid) : M message :=
  with_fid c (twalkgetattr_fid t) (newErr (Errno EBADF)) (fun ref =>
    reply (check_walk_busy ref (twalkgetattr_fid t) (twalkgetattr_newFID t)) (fun _ =>
    reply (doWalk ref (twalkgetattr_Names t) true) (fun '(qids, newRef, valid, attr) =>
    defer (DecRef newRef) (
      InsertFID c (twalkgetattr_newFID t) newRef;;
      mret (Mrwalkgetattr (mk_rwalkgetattr valid attr qids)))))).

(** ** Attach *)

Definition handle_tattach (t : tattach) (c : cid) : M message :=
  let auth := tattach_Auth t in
  if negb (tauth_Authenticationfid auth =? noFID) then mret (newErr (Errno EINVAL))
  else
    let attachName :=
      if IsAbs (tauth_AttachName auth)
      then match tauth_AttachName auth with String _ s => s | s => s end
      else tauth_AttachName auth in
    (* Do the attach on the root. *)
    reply (call None FAttach) (fun sf =>
    res ← call None (FGetAttr sf AttrMaskAll);
    match res with
    | inr err => _ ← call None (FClose sf); mret (newErr err)
    | inl (qid, valid, attr) =>
        if negb (AM_Mode valid) then
          _ ← call None (FClose sf); mret (newErr (Errno EINVAL))
        else
          (* Build a transient reference. *)
          root ← new_ref (mk_fidRef _ sf pendingXattr_zero 1 false
                            (FileMode_FileType (Attr_Mode attr)) 0 pathTree None);
          defer (DecRef root) (
            match attachName with
            | EmptyString =>
                InsertFID c (tattach_fid t) root;;
                mret (Mrattach (mk_rattach qid))
            | _ =>
                reply (doWalk root (Split "/" attachName) false) (fun '(_, newRef, _, _) =>
                defer (DecRef newRef) (
                  InsertFID c (tattach_fid t) newRef;;
                  mret (Mrattach (mk_rattach qid))))
            end)
    end).

(** ** Open and create *)

Definition handle_tlopen (t : tlopen) (c : cid) : M message :=
  with_fid c (tlopen_fid t) (newErr (Errno EBADF)) (fun ref =>
    reply (safelyRead ref (
      (* Has it been deleted already? *)
      d ← isDeleted ref;
      reject_if d (Errno EINVAL) (
      fr ← get_ref ref;
      (* Has it been opened already? *)
      reject_if (opened fr || negb (CanOpen (mode fr))) (Errno EINVAL) (
      (* Is this an attempt to open a directory as writable? *)
      reject_if (FileMode_IsDir (mode fr)
                 && negb (OpenFlags_Mode (tlopen_Flags t) =? ReadOnly)) (Errno EISDIR) (
      call (Some ref) (FOpen (file fr) (tlopen_Flags t))))))) (fun '(qid, ioUnit) =>
    (* Mark file as opened and set open mode. *)
    fr ← get_ref ref;
    set_ref ref (set_opened (tlopen_Flags t) fr);;
    mret (Mrlopen (mk_rlopen qid ioUnit)))).

Definition tlcreate_do (t : tlcreate) (c : cid) (uid : Z) : M (rlcreate + error) :=
  match checkSafeName (tlcreate_Name t) with
  | Some err => mret (inr err)
  | None =>
      with_fid c (tlcreate_fid t) (inr (Errno EBADF)) (fun ref =>
        '(newRef, qid, ioUnit) ←? safelyWrite ref (
          (* Don't allow creation from non-directories or deleted directories. *)
          d ← isDeleted ref;
          fr ← get_ref ref;
          reject_if (d || negb (FileMode_IsDir (mode fr))) (Errno EINVAL) (
          (* Not allowed on open directories. *)
          reject_if (opened fr) (Errno EINVAL) (
          (* Do the create. *)
          '(nsf, qid, ioUnit) ←? call (Some ref)
            (FCreate (file fr) (tlcreate_Name t) (tlcreate_OpenFlags t)
               (tlcreate_Permissions t) uid (tlcreate_GID t));
          pn ← pathNodeFor (fr_pathNode fr) (tlcreate_Name t);
          newRef ← new_ref (mk_fidRef _ nsf pendingXattr_zero 0 true ModeRegular
                              (tlcreate_OpenFlags t) pn (Some ref));
          addChild (fr_pathNode fr) newRef (tlcreate_Name t);;
          IncRef ref;;                                   (* Acquire parent reference. *)
          mret (inl (newRef, qid, ioUnit)))));
        (* Replace the fid reference. *)
        InsertFID c (tlcreate_fid t) newRef;;
        mret (inl (mk_rlcreate (mk_rlopen qid ioUnit))))
  end.

Definition handle_tlcreate (t : tlcreate) (c : cid) : M message :=
  reply (tlcreate_do t c NoUID) (fun r => mret (Mrlcreate r)).

(** ** Making and linking entries *)

Definition tsymlink_do (t : tsymlink) (c : cid) (uid : Z) : M (rsymlink + error) :=
  match checkSafeName (tsymlink_Name t) with
  | Some err => mret (inr err)
  | None =>
      with_fid c (tsymlink_Directory t) (inr (Errno EBADF)) (fun ref =>
        qid ←? safelyWrite ref (
          d ← isDeleted ref;
          fr ← get_ref ref;
          reject_if (d || negb (FileMode_IsDir (mode fr))) (Errno EINVAL) (
          reject_if (opened fr) (Errno EINVAL) (
          call (Some ref) (FSymlink (file fr) (tsymlink_Target t) (tsymlink_Name t) uid
                             (tsymlink_GID t)))));
        mret (inl (mk_rsymlink qid)))
  end.

Definition handle_tsymlink (t : tsymlink) (c : cid) : M message :=
  reply (tsymlink_do t c NoUID) (fun r => mret (Mrsymlink r)).

Definition handle_tlink (t : tlink) (c : cid) : M message :=
  match checkSafeName (tlink_Name t) with
  | Some err => mret (newErr err)
  | None =>
      with_fid c (tlink_Directory t) (newErr (Errno EBADF)) (fun ref =>
      with_fid c (tlink_Target t) (newErr (Errno EBADF)) (fun refTarget =>
        reply (safelyWrite ref (check_dir ref (
          fr ← get_ref ref;
          tr ← get_ref refTarget;
          call_err (Some ref) (FLink (file fr) (file tr) (tlink_Name t)))))
        (fun _ => mret (Mrlink mk_rlink))))
  end.

Definition tmknod_do (t : tmknod) (c : cid) (uid : Z) : M (rmknod + error) :=
  match checkSafeName (tmknod_Name t) with
  | Some err => mret (inr err)
  | None =>
      with_fid c (tmknod_Directory t) (inr (Errno EBADF)) (fun ref =>
        qid ←? safelyWrite ref (
          d ← isDeleted ref;
          fr ← get_ref ref;
          reject_if (d || negb (FileMode_IsDir (mode fr))) (Errno EINVAL) (
          reject_if (opened fr) (Errno EINVAL) (
          call (Some ref) (FMknod (file fr) (tmknod_Name t) (tmknod_Mode t) (tmknod_Major t)
                             (tmknod_Minor t) uid (tmknod_GID t)))));
        mret (inl (mk_rmknod qid)))
  end.

Definition handle_tmknod (t : tmknod) (c : cid) : M message :=
  reply (tmknod_do t c NoUID) (fun r => mret (Mrmknod r)).

Definition tmkdir_do (t : tmkdir) (c : cid) (uid : Z) : M (rmkdir + error) :=
  match checkSafeName (tmkdir_Name t) with
  | Some err => mret (inr err)
  | None =>
      with_fid c (tmkdir_Directory t) (inr (Errno EBADF)) (fun ref =>
        qid ←? safelyWrite ref (
          d ← isDeleted ref;
          fr ← get_ref ref;
          reject_if (d || negb (FileMode_IsDir (mode fr))) (Errno EINVAL) (
          reject_if (opened fr) (Errno EINVAL) (
          call (Some ref) (FMkdir (file fr) (tmkdir_Name t) (tmkdir_Permissions t) uid
                             (tmkdir_GID t)))));
        mret (inl (mk_rmkdir qid)))
  end.

Definition handle_tmkdir (t : tmkdir) (c : cid) : M message :=
  reply (tmkdir_do t c NoUID) (fun r => mret (Mrmkdir r)).

Definition handle_tucreate (t : tucreate) (c : cid) : M message :=
  reply (tlcreate_do (tucreate_tlcreate t) c (tucreate_UID t))
    (fun r => mret (Mrucreate (mk_rucreate r))).
Definition handle_tumkdir (t : tumkdir) (c : cid) : M message :=
  reply (tmkdir_do (tumkdir_tmkdir t) c (tumkdir_UID t))
    (fun r => mret (Mrumkdir (mk_rumkdir r))).
Definition handle_tusymlink (t : tusymlink) (c : cid) : M message :=
  reply (tsymlink_do (tusymlink_tsymlink t) c (tusymlink_UID t))
    (fun r => mret (Mrusymlink (mk_rusymlink r))).
Definition handle_tumknod (t : tumknod) (c : cid) : M message :=
  reply (tmknod_do (tumknod_tmknod t) c (tumknod_UID t))
    (fun r => mret (Mrumknod (mk_rumknod r))).

(** ** Renaming and unlinking *)

Definition handle_trenameat (t : trenameat) (c : cid) : M message :=
  match checkSafeName (trenameat_OldName t) with
  | Some err => mret (newErr err)
  | None =>
  match checkSafeName (trenameat_NewName t) with
  | Some err => mret (newErr err)
  | None =>
      with_fid c (trenameat_OldDirectory t) (newErr (Errno EBADF)) (fun ref =>
      with_fid c (trenameat_NewDirectory t) (newErr (Errno EBADF)) (fun refTarget =>
        (* Perform the rename holding the global lock. *)
        reply (safelyGlobal ref (
          (* Don't allow renaming across deleted directories. *)
          d ← isDeleted ref;
          fr ← get_ref ref;
          td ← isDeleted refTarget;
          tr ← get_ref refTarget;
          reject_if (d || negb (FileMode_IsDir (mode fr))
                     || td || negb (FileMode_IsDir (mode tr))) (Errno EINVAL) (
          (* Not allowed on open directories. *)
          reject_if (opened fr) (Errno EINVAL) (
          (* Is this the same file? If yes, short-circuit and return success. *)
          if bool_decide (fr_pathNode fr = fr_pathNode tr)
             && String.eqb (trenameat_OldName t) (trenameat_NewName t)
          then mret (inl tt)
          else
            (* Attempt the actual rename. *)
            _ ←? call_err (Some ref) (FRenameAt (file fr) (trenameat_OldName t) (file tr)
                                        (trenameat_NewName t));
            (* Update the path tree. *)
            renameChildTo ref (trenameat_OldName t) refTarget (trenameat_NewName t);;
            mret (inl tt)))))
        (fun _ => mret (Mrrenameat mk_rrenameat))))
  end end.

Definition handle_tunlinkat (t : tunlinkat) (c : cid) : M message :=
  match checkSafeName (tunlinkat_Name t) with
  | Some err => mret (newErr err)
  | None =>
      with_fid c (tunlinkat_Directory t) (newErr (Errno EBADF)) (fun ref =>
        reply (safelyWrite ref (check_dir ref (
          fr ← get_ref ref;
          (* No operations may be in flight on the child. *)
          childPathNode ← pathNodeFor (fr_pathNode fr) (tunlinkat_Name t);
          with_lock (opMu childPathNode) true (
            (* Do the unlink. *)
            _ ←? call_err (Some ref) (FUnlinkAt (file fr) (tunlinkat_Name t)
                                        (tunlinkat_Flags t));
            (* Mark the path as deleted. *)
            markChildDeleted ref (tunlinkat_Name t);;
            mret (inl tt)))))
        (fun _ => mret (Mrunlinkat mk_runlinkat)))
  end.

Definition handle_trename (t : trename) (c : cid) : M message :=
  match checkSafeName (trename_Name t) with
  | Some err => mret (newErr err)
  | None =>
      with_fid c (trename_fid t) (newErr (Errno EBADF)) (fun ref =>
      with_fid c (trename_Directory t) (newErr (Errno EBADF)) (fun refTarget =>
        reply (safelyGlobal ref (
          (* Don't allow a root rename. *)
          root ← hasParent ref;
          reject_if root (Errno EINVAL) (
          (* Don't allow renaming deleting entries, or target non-directories. *)
          d ← isDeleted ref;
          td ← isDeleted refTarget;
          tr ← get_ref refTarget;
          reject_if (d || td || negb (FileMode_IsDir (mode tr))) (Errno EINVAL) (
          (* If the parent is deleted, but we not, something is seriously wrong. *)
          p ← parent_of ref;
          pd ← isDeleted p;
          if (pd : bool) then panic
          else
            pr ← get_ref p;
            oldName ← nameFor (fr_pathNode pr) ref;
            (* Check for the exact same file and short-circuit. *)
            if bool_decide (fr_pathNode pr = fr_pathNode tr)
               && String.eqb oldName (trename_Name t)
            then mret (inl tt)
            else
              (* Call the rename method on the parent. *)
              _ ←? call_err (Some p) (FRenameAt (file pr) oldName (file tr)
                                        (trename_Name t));
              (* Update the path tree. *)
              renameChildTo p oldName refTarget (trename_Name t);;
              mret (inl tt)))))
        (fun _ => mret (Mrrename mk_rrename))))
  end.

Definition handle_treadlink (t : treadlink) (c : cid) : M message :=
  with_fid c (treadlink_fid t) (newErr (Errno EBADF)) (fun ref =>
    reply (safelyRead ref (
      d ← isDeleted ref;
      fr ← get_ref ref;
      reject_if (d || negb (FileMode_IsSymlink (mode fr))) (Errno EINVAL) (
      call (Some ref) (FReadlink (file fr)))))
    (fun target => mret (Mrreadlink (mk_rreadlink target)))).

(** ** Reading and writing *)

(** [cs.readBufPool.Get().( *[]byte)]: before the version is negotiated the
    pool has no [New], and the type assertion on nil panics. *)
Definition readBufPool_Get (c : cid) : M (list byte) :=
  cs ← get_conn c;
  match readBufPool cs with
  | None => panic
  | Some (msize, b :: bs) => set_conn c (set_readBufPool (Some (msize, bs)) cs);; mret b
  | Some (msize, []) => mret (replicate (Z.to_nat msize) x00)
  end.

(** [b[:n]], with the capacity of [b] being its length. *)
Definition slice_to {A} (b : list A) (n : Z) : M (list A) :=
  if (n <? 0) || (Z.of_nat (length b) <? n) then panic else mret (take (Z.to_nat n) b).
Definition slice_from {A} (b : list A) (n : Z) : M (list A) :=
  if (n <? 0) || (Z.of_nat (length b) <? n) then panic else mret (drop (Z.to_nat n) b).

(** The closure of [tread]: the buffer as it leaves it, the count, the error. *)
Definition tread_fn (t : tread) (ref : rid) (dataBuf : list byte)
    : M (list byte * Z * option error) :=
  fr ← get_ref ref;
  let fail e := mret (dataBuf, 0, Some (Errno e)) in
  match px_op (fr_pendingXattr fr) with
  | xattrNone =>
      (* Has it been opened already? *)
      if negb (opened fr) then fail EINVAL
      (* Can it be read? Check permissions. *)
      else if Z.land (openFlags fr) OpenFlagsModeMask =? WriteOnly then fail EPERM
      else
        p ← slice_to dataBuf (tread_Count t);
        '(p', n, err) ← call (Some ref) (FReadAt (file fr) p (sint64 (tread_Offset t)));
        mret (copy p p' ++ drop (length p) dataBuf, n, err)
  | xattrWalk =>
      let px := fr_pendingXattr fr in
      if tread_Count t =? 0 then
        if px_size px =? 0 then mret (dataBuf, 0, None) else fail EINVAL
      else if Z.of_nat (length (px_buf px)) <? wrap64 (tread_Offset t + tread_Count t)
      then fail EINVAL
      else
        p ← slice_to dataBuf (tread_Count t);
        src ← slice_from (px_buf px) (tread_Offset t);
        mret (copy p src ++ drop (length p) dataBuf,
              Z.of_nat (Nat.min (length p) (length src)), None)
  | xattrCreate => fail EINVAL
  end.

Definition handle_tread (t : tread) (c : cid) : M message :=
  with_fid c (tread_fid t) (newErr (Errno EBADF)) (fun ref =>
    (* Constrain the size of the read buffer. *)
    if maximumLength <? tread_Count t then mret (newErr (Errno ENOBUFS))
    else
      dataBuf ← readBufPool_Get c;
      '(dataBuf, n, err) ← safelyRead ref (tread_fn t ref dataBuf);
      match err with
      | Some err =>
          if Is err TEOF
          then data ← slice_to dataBuf n;
               mret (MrreadServerPayloader (mk_rreadServerPayloader (mk_rread data) dataBuf))
          else mret (newErr err)
      | None =>
          data ← slice_to dataBuf n;
          mret (MrreadServerPayloader (mk_rreadServerPayloader (mk_rread data) dataBuf))
      end).

Definition handle_twrite (t : twrite) (c : cid) : M message :=
  with_fid c (twrite_fid t) (newErr (Errno EBADF)) (fun ref =>
    reply (safelyRead ref (
      fr ← get_ref ref;
      let px := fr_pendingXattr fr in
      match px_op px with
      | xattrNone =>
          (* Has it been opened already? *)
          reject_if (negb (opened fr)) (Errno EINVAL) (
          (* Can it be written? Check permissions. *)
          reject_if (Z.land (openFlags fr) OpenFlagsModeMask =? ReadOnly) (Errno EPERM) (
          call (Some ref) (FWriteAt (file fr) (twrite_Data t) (sint64 (twrite_Offset t)))))
      | xattrCreate =>
          reject_if (negb (Z.of_nat (length (px_buf px)) =? twrite_Offset t)) (Errno EINVAL) (
          reject_if (px_size px <? wrap64 (twrite_Offset t
                                           + Z.of_nat (length (twrite_Data t))))
            (Errno EINVAL) (
          set_ref ref (set_pendingXattr
            (mk_pendingXattr (px_op px) (px_name px) (px_size px) (px_flags px)
               (px_buf px ++ twrite_Data t)) fr);;
          mret (inl (Z.of_nat (length (twrite_Data t))))))
      | xattrWalk => mret (inr (Errno EINVAL))
      end))
    (fun n => mret (Mrwrite (mk_rwrite (wrap32 n))))).

(** ** Attributes *)

Definition handle_tgetattr (t : tgetattr) (c : cid) : M message :=
  with_fid c (tgetattr_fid t) (newErr (Errno EBADF)) (fun ref =>
    reply (safelyRead ref (
      fr ← get_ref ref;
      call (Some ref) (FGetAttr (file fr) (tgetattr_AttrMask t))))
    (fun '(qid, valid, attr) => mret (Mrgetattr (mk_rgetattr valid qid attr)))).

Definition handle_tsetattr (t : tsetattr) (c : cid) : M message :=
  with_fid c (tsetattr_fid t) (newErr (Errno EBADF)) (fun ref =>
    reply (safelyWrite ref (
      d ← isDeleted ref;
      reject_if d (Errno EINVAL) (
      fr ← get_ref ref;
      call_err (Some ref) (FSetAttr (file fr) (tsetattr_Valid t) (tsetattr_SetAttr t)))))
    (fun _ => mret (Mrsetattr mk_rsetattr))).

Definition handle_txattrwalk (t : txattrwalk) (c : cid) : M message :=
  with_fid c (txattrwalk_fid t) (newErr (Errno EBADF)) (fun ref =>
    reply (safelyRead ref (
      d ← isDeleted ref;
      reject_if d (Errno EINVAL) (
      fr ← get_ref ref;
      buf ←? (if (0 <? String.length (txattrwalk_Name t))%nat
              then call (Some ref) (FGetXattr (file fr) (txattrwalk_Name t))
              else
                xattrs ←? call (Some ref) (FListXattrs (file fr));
                mret (inl (join_nul xattrs)));
      reject_if (maximumLength <? wrap32 (Z.of_nat (length buf))) (Errno EINVAL) (
      let size := Z.of_nat (length buf) in
      newRef ← new_ref (mk_fidRef _ (file fr)
                 (mk_pendingXattr xattrWalk (txattrwalk_Name t) size 0 buf)
                 0 false 0 0 (fr_pathNode fr) None);
      InsertFID c (txattrwalk_newFID t) newRef;;
      mret (inl size)))))
    (fun size => mret (Mrxattrwalk (mk_rxattrwalk size)))).

Definition handle_txattrcreate (t : txattrcreate) (c : cid) : M message :=
  with_fid c (txattrcreate_fid t) (newErr (Errno EBADF)) (fun ref =>
    reply (safelyWrite ref (
      d ← isDeleted ref;
      reject_if d (Errno EINVAL) (
      fr ← get_ref ref;
      set_ref ref (set_pendingXattr
        (mk_pendingXattr xattrCreate (txattrcreate_Name t) (txattrcreate_AttrSize t)
           (txattrcreate_Flags t) []) fr);;
      mret (inl tt))))
    (fun _ => mret (Mrxattrcreate mk_rxattrcreate))).

Definition handle_treaddir (t : treaddir) (c : cid) : M message :=
  with_fid c (treaddir_Directory t) (newErr (Errno EBADF)) (fun ref =>
    reply (safelyRead ref (
      (* Don't allow reading deleted directories. *)
      d ← isDeleted ref;
      fr ← get_ref ref;
      reject_if (d || negb (FileMode_IsDir (mode fr))) (Errno EINVAL) (
      (* Has it been opened already? *)
      reject_if (negb (opened fr)) (Errno EINVAL) (
      (* Read the entries. *)
      '(entries, err) ← call (Some ref) (FReaddir (file fr) (treaddir_Offset t)
                                           (treaddir_Count t));
      match err with
      | Some err => if Is err TEOF then mret (inl entries) else mret (inr err)
      | None => mret (inl entries)
      end))))
    (fun entries => mret (Mrreaddir (mk_rreaddir (treaddir_Count t) entries [])))).

Definition handle_tfsync (t : tfsync) (c : cid) : M message :=
  with_fid c (tfsync_fid t) (newErr (Errno EBADF)) (fun ref =>
    reply (safelyRead ref (
      fr ← get_ref ref;
      reject_if (negb (opened fr)) (Errno EINVAL) (
      call_err (Some ref) (FFSync (file fr)))))
    (fun _ => mret (Mrfsync mk_rfsync))).

Definition handle_tstatfs (t : tstatfs) (c : cid) : M message :=
  with_fid c (tstatfs_fid t) (newErr (Errno EBADF)) (fun ref =>
    fr ← get_ref ref;
    reply (call (Some ref) (FStatFS (file fr))) (fun st => mret (Mrstatfs (mk_rstatfs st)))).

Definition handle_tlock (t : tlock) (c : cid) : M message :=
  with_fid c (tlock_fid t) (newErr (Errno EBADF)) (fun ref =>
    fr ← get_ref ref;
    reply (call (Some ref) (FLock (file fr) (tlock_PID t) (tlock_Type t) (tlock_Flags t)
                              (tlock_Start t) (tlock_Length t) (tlock_Client t)))
      (fun status => mret (Mrlock (mk_rlock status)))).
End Handlers.
