(* ===== verification/Server.v ===== *)
(** * Serving a connection ([p9/server.go])

    Dispatch of a message to its handler with the recovery from panics, the
    handling of one request from the bytes of its frame to the bytes of the
    response, the loop over the requests of a connection, and its end.  Requests
    are handled one at a time, in the order of arrival. *)
From S2P Require Import Prelude Errno Buffer Types Messages Message Transport Version.
From S2P Require Import File State PathTree FidRef Handlers.

Section Server.
Context {W File : Type} {B : Backend W File}.
Local Notation M := (M W File).

(** [m.(handler)]: the messages that have a [handle] method. *)
Definition handler (m : message) : option (cid -> M message) :=
  match m with
  | Mtversion t => Some (handle_tversion t)
  | Mtflush t => Some (handle_tflush t)
  | Mtclunk t => Some (handle_tclunk t)
  | Mtremove t => Some (handle_tremove t)
  | Mtauth t => Some (handle_tauth t)
  | Mtattach t => Some (handle_tattach t)
  | Mtlopen t => Some (handle_tlopen t)
  | Mtlcreate t => Some (handle_tlcreate t)
  | Mtsymlink t => Some (handle_tsymlink t)
  | Mtlink t => Some (handle_tlink t)
  | Mtrenameat t => Some (handle_trenameat t)
  | Mtunlinkat t => Some (handle_tunlinkat t)
  | Mtrename t => Some (handle_trename t)
  | Mtreadlink t => Some (handle_treadlink t)
  | Mtread t => Some (handle_tread t)
  | Mtwrite t => Some (handle_twrite t)
  | Mtmknod t => Some (handle_tmknod t)
  | Mtmkdir t => Some (handle_tmkdir t)
  | Mtgetattr t => Some (handle_tgetattr t)
  | Mtsetattr t => Some (handle_tsetattr t)
  | Mtxattrwalk t => Some (handle_txattrwalk t)
  | Mtxattrcreate t => Some (handle_txattrcreate t)
  | Mtreaddir t => Some (handle_treaddir t)
  | Mtfsync t => Some (handle_tfsync t)
  | Mtstatfs t => Some (handle_tstatfs t)
  | Mtlock t => Some (handle_tlock t)
  | Mtwalk t => Some (handle_twalk t)
  | Mtwalkgetattr t => Some (handle_twalkgetattr t)
  | Mtucreate t => Some (handle_tucreate t)
  | Mtumkdir t => Some (handle_tumkdir t)
  | Mtusymlink t => Some (handle_tusymlink t)
  | Mtumknod t => Some (handle_tumknod t)
  | _ => None
  end.

(** A deferred function that recovers from a panic of [m] and returns [a]. *)
Definition recover {A} (a : A) (m : M A) : M A := fun h s =>
  match m h s with
  | Panic s => Ret a s
  | o => o
  end.

Definition handle (c : cid) (m : message) : M message :=
  recover (newErr (Errno EFAULT))
    (match handler m with
     | Some handle => handle c
     | None => mret (newErr (Errno ENOSYS))
     end).

(** [PayloadCleanup], which [send] defers: the buffer of a read response goes
    back to the pool. *)
Definition PayloadCleanup (c : cid) (r : message) : M unit :=
  match r with
  | MrreadServerPayloader r =>
      cs ← get_conn c;
      let b := rreadServerPayloader_PayloadCleanup r (pristineZeros cs) in
      match readBufPool cs with
      | Some (msize, bs) => set_conn c (set_readBufPool (Some (msize, b :: bs)) cs)
      | None => mret tt
      end
  | _ => mret tt
  end.

(** The part of [handleRequest] after a message was received: the bytes that
    are sent. *)
Definition respond (c : cid) (tag : Z) (m : message) : M (list byte) :=
  ok ← StartTag c tag;
  if negb ok then mret []                 (* Nothing we can do; client is bogus. *)
  else
    r ← handle c m;
    (* Clear the tag before sending. *)
    ClearTag c tag;;
    PayloadCleanup c r;;
    mret (frame tag r).

(** [handleRequest]: whether to go on, the bytes sent, and the input and the
    message registry as they are left. *)
Definition handleRequest (c : cid) (input : list byte) (reg : registry)
    : M (bool * list byte * list byte * registry) :=
  cs ← get_conn c;
  let msize := if messageSize cs =? 0 then maximumLength else messageSize cs in
  let '(tag, res, rest, reg) := recv registry_lookup input msize reg in
  match res with
  | inr (ConnError _) => mret (false, [], rest, reg)
  | inr err => mret (true, frame tag (newErr err), rest, reg)
  | inl m =>
      out ← respond c tag m;
      (* Not put back where the tag was in use, which is when nothing is sent. *)
      mret (true, out, rest, match out with [] => reg | _ => registry_put reg m end)
  end.

(** [handleRequests]: each request takes seven bytes at least off the input. *)
Fixpoint handleRequests (fuel : nat) (c : cid) (input : list byte) (reg : registry)
    : M (list byte) :=
  match fuel with
  | O => stuck
  | S fuel =>
      '(go_on, out, rest, reg) ← handleRequest c input reg;
      if (go_on : bool)
      then out' ← handleRequests fuel c rest reg; mret (out ++ out')
      else mret out
  end.

(** [stop]: drops the last reference of each fid. *)
Definition stop (c : cid) : M unit :=
  cs ← get_conn c;
  rs ← map_range (map_to_list (fids cs));
  for_each (fun '(_, fidRef) => _ ← DecRef fidRef; mret tt) rs.

(** [Handle]: a connection from its start to its end. *)
Definition Handle (c : cid) (input : list byte) (reg : registry) : M (list byte) :=
  set_conn c new_connState;;
  defer (stop c) (handleRequests (S (length input)) c input reg).
End Server.
