(* ===== verification/Reach.v ===== *)
(** * The states that a server reaches, and a small backend for examples

    A server starts with an empty path tree; connections open, send requests, which
    are handled one at a time, and end; in between the world behind the backend may
    change by itself. *)
From S2P Require Import Prelude Errno Buffer Types Messages Message Transport Version.
From S2P Require Import File State PathTree FidRef Handlers Server.

(** ** Reachable states *)

Section reach.
Context {W File : Type} {B : Backend W File}.
Local Notation St := (St W File).

(** The state in which a computation ends. *)
Definition final {A} (o : outcome W File A) : option St :=
  match o with Ret _ s | Panic s => Some s | Stuck => None end.

Definition set_world (w : W) (s : St) : St :=
  mk_St w (nodes s) (refHeap s) (conns s) (next_node s) (next_ref s) (trace s).

(** [R] says how the world may change by itself. *)
Inductive server_step_by (R : relation W) : relation St :=
| step_connect s s' c :
    conns s !! c = None -> final (set_conn c new_connState [] s) = Some s' ->
    server_step_by R s s'
| step_request s s' c tag m :
    final (respond c tag m [] s) = Some s' -> server_step_by R s s'
| step_stop s s' c :
    final ((stop c;; set_conn c new_connState) [] s) = Some s' -> server_step_by R s s'
| step_world s w : R (world s) w -> server_step_by R s (set_world w s).

Definition server_step : relation St := server_step_by (fun _ _ => True).

Lemma server_step_mono R s s' : server_step_by R s s' -> server_step s s'.
Proof.
  intros [s1 s2 c H1 H2|s1 s2 c tag m H|s1 s2 c H|s1 w _].
  - by eapply step_connect.
  - by eapply step_request.
  - by eapply step_stop.
  - by apply step_world.
Qed.

(** What is reached from the world [w]. *)
Definition reachable_from (R : relation W) (w : W) (s : St) : Prop :=
  rtc (server_step_by R) (NewServer w) s.

Definition reachable (s : St) : Prop := exists w, rtc server_step (NewServer w) s.

Lemma reachable_step s s' : reachable s -> server_step s s' -> reachable s'.
Proof. intros [w Hw] Hs. exists w. by eapply rtc_r. Qed.

(** An invariant of the steps that holds of a new server. *)
Lemma reachable_ind' (P : St -> Prop) :
  (forall w, P (NewServer w)) -> (forall s s', P s -> server_step s s' -> P s') ->
  forall s, reachable s -> P s.
Proof.
  intros H0 Hstep s [w Hs]. specialize (H0 w).
  induction Hs as [|s1 s2 s3 H1 _ IH]; [done|]. apply IH. by eapply Hstep.
Qed.

Lemma reachable_from_reachable R w s : reachable_from R w s -> reachable s.
Proof.
  intros H. exists w. revert H. apply (rtc_subrel (server_step_by R) server_step).
  intros s1 s2. apply server_step_mono.
Qed.

(** *** Runs, for examples: one connection that sends the messages in turn *)

Fixpoint run_requests (ms : list message) (s : St) : option St :=
  match ms with
  | [] => Some s
  | m :: ms =>
      match respond 0%nat 1 m [] s with
      | Ret _ s => run_requests ms s
      | _ => None
      end
  end.

Definition connected (w : W) : St :=
  default (NewServer w) (final (set_conn 0%nat new_connState [] (NewServer w))).

Definition run (w : W) (ms : list message) : option St := run_requests ms (connected w).

(** The response to [m] after [ms]. *)
Definition response_after (w : W) (ms : list message) (m : message) : option message :=
  s ← run w ms;
  match handle 0%nat m [] s with Ret r _ => Some r | _ => None end.

Lemma connected_from R w : reachable_from R w (connected w).
Proof. apply rtc_once. by eapply (step_connect _ _ _ 0%nat). Qed.

Lemma run_requests_from R w ms s s' :
  reachable_from R w s -> run_requests ms s = Some s' -> reachable_from R w s'.
Proof.
  revert s. induction ms as [|m ms IH]; intros s Hs; cbn [run_requests]; [by intros [= <-]|].
  destruct (respond 0%nat 1 m [] s) as [out s1|s1|] eqn:E; [|done..].
  apply IH. eapply rtc_r; [exact Hs|]. eapply (step_request _ _ _ 0%nat 1 m).
  by rewrite E.
Qed.

Lemma run_from R w ms s : run w ms = Some s -> reachable_from R w s.
Proof. apply run_requests_from, connected_from. Qed.

Lemma run_reachable w ms s : run w ms = Some s -> reachable s.
Proof. intros H. eapply reachable_from_reachable, (run_from (fun _ _ => False)), H. Qed.

End reach.

(** ** A backend for examples

    Every directory has an entry of every name; the first letter of a name says
    what it is: [d] a directory, [l] a symbolic link, otherwise a regular file.  A
    file is its serial number, from the counter that is the world, and its mode. *)
Definition toy_file : Type := nat * Z.

Definition toy_mode (name : string) : Z :=
  match name with
  | String "d" _ => ModeDirectory
  | String "l" _ => ModeSymlink
  | _ => ModeRegular
  end.

Definition toy_qid : QID := mkQID 0 0 0.
Definition toy_attr (mode : Z) : Attr := mkAttr mode 0 0 1 0 0 0 0 0 0 0 0 0 0 0 0 0 0.

Definition toy_walk (f : toy_file) (names : list string) (w : nat) : list QID * toy_file :=
  ((fun _ => toy_qid) <$> names,
   (w, match last names with Some name => toy_mode name | None => f.2 end)).

Definition toy_exec {A} (e : FileE toy_file A) (w : nat) : A * nat :=
  match e in FileE _ A return A * nat with
  | FAttach => (inl (w, ModeDirectory), S w)
  | FWalk f names => (inl (toy_walk f names w), S w)
  | FWalkGetAttr f names => (inr (Errno ENOSYS), w)
  | FStatFS f => (inl (mkFSStat 0 0 0 0 0 0 0 0 0), w)
  | FGetAttr f req => (inl (toy_qid, AttrMaskAll, toy_attr f.2), w)
  | FSetAttr f _ _ => (None, w)
  | FClose f => (None, w)
  | FOpen f _ => (inl (toy_qid, 0), w)
  | FReadAt f p offset => (([x61], 1, None), w)
  | FWriteAt f p offset => (inl (Z.of_nat (length p)), w)
  | FSetXattr f _ _ _ => (None, w)
  | FGetXattr f _ => (inl [x76], w)
  | FListXattrs f => (inl ["user.a"%string], w)
  | FRemoveXattr f _ => (None, w)
  | FFSync f => (None, w)
  | FLock f _ _ _ _ _ _ => (inl 0, w)
  | FCreate f name _ _ _ _ => (inl ((w, toy_mode name), toy_qid, 0), S w)
  | FMkdir f _ _ _ _ => (inl toy_qid, w)
  | FSymlink f _ _ _ _ => (inl toy_qid, w)
  | FLink f _ _ => (None, w)
  | FMknod f _ _ _ _ _ _ => (inl toy_qid, w)
  | FRename f _ _ => (None, w)
  | FRenameAt f _ _ _ => (None, w)
  | FUnlinkAt f _ _ => (None, w)
  | FReaddir f _ _ => (([], Some io_EOF), w)
  | FReadlink f => (inl "target"%string, w)
  | FRenamed f _ _ => (tt, w)
  end.

#[export] Program Instance toy_backend : Backend nat toy_file := {|
  exec A e w := toy_exec e w;
  panics A e w := false;
  range A w l := l;
|}.
Next Obligation. done. Qed.
#[export] Instance toy_returning : Returning toy_backend.
Proof. by intros A e w. Qed.

(** The start of a session. *)
Definition toy_version : message := Mtversion (mk_tversion 64 "9P2000.L").
Definition toy_attach (fid : Z) : message :=
  Mtattach (mk_tattach fid (mk_tauth noFID EmptyString EmptyString 0)).

(** Two walks, one of them a copy, an unlinking, and renames by both requests. *)
Definition demo_requests : list message :=
  [toy_version; toy_attach 1;
   Mtwalk (mk_twalk 1 2 ["d1"%string; "f"%string]); Mtwalk (mk_twalk 1 3 []);
   Mtwalk (mk_twalk 1 4 ["d1"%string]);
   Mtrenameat (mk_trenameat 3 "d1" 3 "d2"); Mtrename (mk_trename 2 4 "g");
   Mtsetattr (mk_tsetattr 2 (SetAttrMask_of_bits 0) (mkSetAttr 0 0 0 0 0 0 0 0));
   Mtunlinkat (mk_tunlinkat 3 "d2" 0)].
Definition demo_state : St nat toy_file := default (connected 0%nat) (run 0%nat demo_requests).

Lemma demo_run : run 0%nat demo_requests = Some demo_state.
Proof. vm_compute. reflexivity. Qed.

Lemma demo_reachable : reachable demo_state.
Proof. exact (run_reachable _ _ _ demo_run). Qed.

(** The guarantees of the calls of the example, the latest first. *)
Lemma demo_trace :
  map (fun ev => guarantee (ev_call ev)) (trace demo_state)
  = [GWrite; GWrite; GGlobal; GNone; GGlobal; GGlobal; GGlobal; GGlobal; GGlobal;
     GRead; GRead; GRead; GRead; GRead; GRead; GRead; GRead; GRead; GRead; GRead; GNone].
Proof. vm_compute. reflexivity. Qed.
