(* ===== verification/ProgramLogic.v ===== *)
(** * A program logic for the server's code

    [wp] is a weakest precondition over an invariant [I] of the state and a
    preorder [ext] between the states before and after, which every computation
    keeps, also when it panics.  [keeps m] says no more than that; [keeps] is
    compositional and proved by the hint database [keeps].  A computation that is
    [Stuck] leaves no state behind and is not constrained. *)
From S2P Require Import Prelude Errno Buffer Types File State.

Section wp.
Context {W File : Type}.
Local Notation St := (St W File).
Local Notation M := (M W File).
Local Notation outcome := (outcome W File).

(** What a logic is about: the invariant and the preorder. *)
Class Inv := {
  I : St -> Prop;
  ext : St -> St -> Prop;
  ext_preorder : PreOrder ext;
}.
#[local] Existing Instance ext_preorder.
Context {inv : Inv}.

Definition wp {A} (s : St) (o : outcome A) (Q : A -> St -> Prop) : Prop :=
  I s ->
  match o with
  | Ret a s' => I s' /\ ext s s' /\ Q a s'
  | Panic s' => I s' /\ ext s s'
  | Stuck => True
  end.

(** An assertion that no step can falsify. *)
Class Stable (F : St -> Prop) := stable : forall s s', ext s s' -> F s -> F s'.
#[global] Instance stable_True : Stable (fun _ => True).
Proof. by intros ?. Qed.
#[global] Instance stable_and (F G : St -> Prop) :
  Stable F -> Stable G -> Stable (fun s => F s /\ G s).
Proof. intros HF HG s s' He [H1 H2]. split; [by eapply HF|by eapply HG]. Qed.

(** The computation keeps the invariant under the locks [h], in states where the
    stable assertion [F] holds. *)
Definition keeps {A} (h : held) (F : St -> Prop) (m : M A) : Prop :=
  forall s, F s -> wp s (m h s) (fun _ _ => True).

Lemma wp_ret {A} (a : A) h s (Q : A -> St -> Prop) :
  (I s -> Q a s) -> wp s ((mret a : M A) h s) Q.
Proof. intros H HI. cbn. split; [done|]. split; [reflexivity|auto]. Qed.

Lemma wp_panic {A} h s (Q : A -> St -> Prop) : wp s ((panic : M A) h s) Q.
Proof. intros HI. split; [done|reflexivity]. Qed.

Lemma wp_stuck {A} h s (Q : A -> St -> Prop) : wp s ((stuck : M A) h s) Q.
Proof. done. Qed.

Lemma wp_conseq {A} s (o : outcome A) (Q Q' : A -> St -> Prop) :
  wp s o Q -> (forall a s', I s' -> ext s s' -> Q a s' -> Q' a s') -> wp s o Q'.
Proof.
  intros H HQ HI. specialize (H HI). destruct o as [a s'|s'|]; [|done..].
  destruct H as (? & ? & ?). auto.
Qed.

Lemma wp_bind {A C} (m : M A) (k : A -> M C) h s (Q : C -> St -> Prop) :
  wp s (m h s) (fun a s' => wp s' (k a h s') Q) -> wp s ((m ≫= k) h s) Q.
Proof.
  intros H HI. specialize (H HI). unfold mbind, M_bind.
  destruct (m h s) as [a s'|s'|]; [|done..].
  destruct H as (HI' & He & Hk). specialize (Hk HI').
  destruct (k a h s') as [c s''|s''|]; [| |done]; naive_solver (etransitivity; eauto).
Qed.

(** Run [m] by its specification, then the rest. *)
Lemma wp_seq {A C} (m : M A) (k : A -> M C) h s (Q : C -> St -> Prop) (R : A -> St -> Prop) :
  wp s (m h s) R ->
  (forall a s', I s' -> ext s s' -> R a s' -> wp s' (k a h s') Q) ->
  wp s ((m ≫= k) h s) Q.
Proof. intros Hm Hk. apply wp_bind. by eapply wp_conseq. Qed.

Lemma wp_defer {A C} (d : M C) (m : M A) h s (Q : A -> St -> Prop) :
  wp s (m h s) Q -> (forall s', ext s s' -> wp s' (d h s') (fun _ _ => True)) ->
  (forall a s' s'', ext s' s'' -> Q a s' -> Q a s'') ->
  wp s (defer d m h s) Q.
Proof.
  intros Hm Hd HQ HI. specialize (Hm HI). unfold defer.
  destruct (m h s) as [a s'|s'|]; [| |done].
  - destruct Hm as (HI' & He & Ha). specialize (Hd s' He HI').
    destruct (d h s') as [x s''|s''|]; [| |done]; naive_solver (etransitivity; eauto).
  - destruct Hm as (HI' & He). specialize (Hd s' He HI').
    destruct (d h s') as [x s''|s''|]; [| |done]; naive_solver (etransitivity; eauto).
Qed.

Lemma wp_with_lock {A} l w (m : M A) h s (Q : A -> St -> Prop) :
  wp s (m ((l, w) :: h) s) Q -> wp s (with_lock l w m h s) Q.
Proof. unfold with_lock. by destruct (conflicts h l w). Qed.

(** *** Keeping the invariant *)

Section keeps.
Context {F : St -> Prop} {HF : Stable F}.

Lemma keeps_wp {A} h (m : M A) (Q : A -> St -> Prop) :
  (forall s, F s -> wp s (m h s) Q) -> keeps h F m.
Proof. intros H s Hs. eapply wp_conseq; [by apply H|done]. Qed.

Lemma keeps_ret {A} h (a : A) : keeps h F (mret a : M A).
Proof. intros s Hs. by apply wp_ret. Qed.
Lemma keeps_panic {A} h : keeps h F (panic : M A).
Proof. intros s Hs. apply wp_panic. Qed.
Lemma keeps_stuck {A} h : keeps h F (stuck : M A).
Proof. intros s Hs. apply wp_stuck. Qed.

(** The value that [m] returns is known to satisfy [R]. *)
Lemma keeps_bind_spec {A C} h (m : M A) (k : A -> M C) (R : A -> Prop) :
  (forall s, F s -> wp s (m h s) (fun a _ => R a)) -> (forall a, R a -> keeps h F (k a)) ->
  keeps h F (m ≫= k).
Proof.
  intros Hm Hk s Hs. eapply wp_seq; [by apply Hm|]. intros a s' _ He Ha.
  apply Hk; [done|]. by eapply HF.
Qed.

Lemma keeps_bind {A C} h (m : M A) (k : A -> M C) :
  keeps h F m -> (forall a, keeps h F (k a)) -> keeps h F (m ≫= k).
Proof. intros Hm Hk. apply keeps_bind_spec with (fun _ => True); auto. Qed.

Lemma keeps_bind_err {A C} h (m : M (A + error)) (k : A -> M (C + error)) :
  keeps h F m -> (forall a, keeps h F (k a)) -> keeps h F (bind_err m k).
Proof.
  intros Hm Hk. apply keeps_bind; [done|]. intros [a|e]; [apply Hk|apply keeps_ret].
Qed.

Lemma keeps_reject_if {A} h (b : bool) e (k : M (A + error)) :
  (b = false -> keeps h F k) -> keeps h F (reject_if b e k).
Proof. intros Hk. destruct b; [apply keeps_ret|by apply Hk]. Qed.

Lemma keeps_defer {A C} h (d : M C) (m : M A) :
  keeps h F d -> keeps h F m -> keeps h F (defer d m).
Proof.
  intros Hd Hm s Hs. apply wp_defer; [by apply Hm| |done].
  intros s' He. apply Hd. by eapply HF.
Qed.

Lemma keeps_with_lock {A} h l w (m : M A) :
  keeps ((l, w) :: h) F m -> keeps h F (with_lock l w m).
Proof. intros Hm s Hs. by apply wp_with_lock, Hm. Qed.

Lemma keeps_for_each {A} h (f : A -> M unit) l :
  (forall x, x ∈ l -> keeps h F (f x)) -> keeps h F (for_each f l).
Proof.
  intros Hf. induction l as [|x l IH]; cbn [for_each]; [apply keeps_ret|].
  apply keeps_bind; [apply Hf; by left|]. intros _. apply IH. intros y Hy. apply Hf. by right.
Qed.

(** What [m] learns about the state, when it lasts, may be used in the rest. *)
Lemma keeps_bind_fact {A C} h (m : M A) (k : A -> M C) (G : A -> St -> Prop) :
  (forall a, Stable (G a)) ->
  (forall s, F s -> wp s (m h s) (fun a s' => G a s')) ->
  (forall a, keeps h (fun s => F s /\ G a s) (k a)) ->
  keeps h F (m ≫= k).
Proof.
  intros HG Hm Hk s Hs. eapply wp_seq; [by apply Hm|]. intros a s' _ He Ha.
  apply Hk. split; [by eapply HF|done].
Qed.

(** Assumptions may be forgotten. *)
Lemma keeps_True {A} h (m : M A) : keeps h (fun _ => True) m -> keeps h F m.
Proof. intros H s _. by apply H. Qed.

Lemma keeps_mono {A} (G : St -> Prop) h (m : M A) :
  (forall s, F s -> G s) -> keeps h G m -> keeps h F m.
Proof. intros HG H s Hs. by apply H, HG. Qed.
End keeps.

(** A computation that only looks at the state. *)
Class ReadsOnly {A} (m : M A) : Prop := reads_only : forall h s,
  match m h s with Ret _ s' | Panic s' => s' = s | Stuck => True end.

Lemma keeps_reads_only {A} h F (m : M A) : ReadsOnly m -> keeps h F m.
Proof.
  intros Hm s _ HI. specialize (Hm h s).
  destruct (m h s); try subst; split_and?; try done; reflexivity.
Qed.

#[global] Instance reads_only_get_node n : ReadsOnly (get_node n : M _).
Proof. intros h s. unfold get_node. by destruct (_ !! _). Qed.
#[global] Instance reads_only_get_ref r : ReadsOnly (get_ref r : M _).
Proof. intros h s. unfold get_ref. by destruct (_ !! _). Qed.
#[global] Instance reads_only_get_conn c : ReadsOnly (get_conn c : M _).
Proof. intros h s. unfold get_conn. by destruct (_ !! _). Qed.
#[global] Instance reads_only_count_refs : ReadsOnly (count_refs : M _).
Proof. intros h s. reflexivity. Qed.
#[global] Instance reads_only_count_nodes : ReadsOnly (count_nodes : M _).
Proof. intros h s. reflexivity. Qed.
#[global] Instance reads_only_map_range {B : Backend W File} {A} (l : list A) :
  ReadsOnly (map_range l : M _).
Proof. intros h s. reflexivity. Qed.
End wp.
Arguments Inv : clear implicits.
#[export] Existing Instance ext_preorder.

Create HintDb keeps.
#[export] Hint Extern 1 (Stable _) => apply _ : keeps.
#[export] Hint Resolve keeps_ret keeps_panic keeps_stuck : keeps.
#[export] Hint Extern 1 (keeps _ _ (get_node _)) => apply keeps_reads_only, _ : keeps.
#[export] Hint Extern 1 (keeps _ _ (get_ref _)) => apply keeps_reads_only, _ : keeps.
#[export] Hint Extern 1 (keeps _ _ (get_conn _)) => apply keeps_reads_only, _ : keeps.
#[export] Hint Extern 1 (keeps _ _ count_refs) => apply keeps_reads_only, _ : keeps.
#[export] Hint Extern 1 (keeps _ _ count_nodes) => apply keeps_reads_only, _ : keeps.
#[export] Hint Extern 1 (keeps _ _ (map_range _)) => apply keeps_reads_only, _ : keeps.

(** One step of a [keeps] proof: by the shape of the code. *)
Ltac keeps_step :=
  intros; lazymatch goal with
  | |- keeps _ _ (mbind _ _) => apply keeps_bind
  | |- keeps _ _ (bind_err _ _) => apply keeps_bind_err
  | |- keeps _ _ (reject_if _ _ _) => apply keeps_reject_if
  | |- keeps _ _ (defer _ _) => apply keeps_defer
  | |- keeps _ _ (with_lock _ _ _) => apply keeps_with_lock
  | |- keeps _ _ (for_each _ _) => apply keeps_for_each
  | |- keeps _ _ (match ?x with _ => _ end) => destruct x
  end.
Ltac keeps_auto := repeat (first [solve [eauto 3 with keeps] | keeps_step]).

(** A fact from the stable assertions. *)
Ltac solve_fact := intros ?; cbv beta; intros; destruct_and?; eassumption.

(** Applies a rule of the logic, stability being found by itself. *)
Tactic Notation "rule" uconstr(l) := apply l; try apply _.
