(* ===== verification/TreeLogic.v ===== *)
(** * References and the path tree in the program logic

    Most of the server's code moves references about in the path tree. Whatever an
    invariant is about, that code keeps it if the primitives do: [TreeRules] is what an
    instance of the logic has to show for it. *)
From S2P Require Import Prelude Errno Buffer Types Messages Message Transport Version.
From S2P Require Import File State PathTree FidRef Handlers Server Reach ProgramLogic.

Section tree.
Context {W File : Type} {B : Backend W File} {inv : Inv W File}.
Local Notation St := (St W File).
Local Notation M := (M W File).
Implicit Types (s : St) (h : held) (F : St -> Prop).

(** The calls that walking, renaming and closing make. *)
Definition tree_call {A} (e : FileE File A) : bool :=
  match e with
  | FWalk _ _ | FWalkGetAttr _ _ | FGetAttr _ _ | FClose _ | FRenamed _ _ _ => true
  | _ => false
  end.

(** The fields of a reference that this code leaves alone. *)
Definition same_use (fr fr' : fidRef File) : Prop :=
  opened fr' = opened fr /\ openFlags fr' = openFlags fr /\ mode fr' = mode fr.

Class TreeRules : Prop := {
  tr_call : forall A h F r (e : FileE File A), tree_call e = true -> keeps h F (call r e : M _);
  tr_set_ref : forall h s r fr fr', refHeap s !! r = Some fr -> same_use fr fr' ->
    wp s ((set_ref r fr' : M _) h s) (fun _ _ => True);
  tr_new_ref : forall h F fr, opened fr = false -> keeps h F (new_ref fr : M _);
  tr_set_node : forall h F n nd, keeps h F (set_node n nd : M _);
  tr_new_node : forall h F nd, keeps h F (new_node nd : M _);
}.

(** What [get_ref] returns is in the state that follows. *)
Lemma keeps_get_exact {A} h F r (k : fidRef File -> M A) :
  (forall fr s, F s -> refHeap s !! r = Some fr -> wp s (k fr h s) (fun _ _ => True)) ->
  keeps h F (get_ref r ≫= k).
Proof.
  intros Hk s Hs. unfold mbind, M_bind, get_ref.
  destruct (refHeap s !! r) as [fr|] eqn:E; [by apply Hk|]. intros HI. by split.
Qed.

Context {rules : TreeRules}.
#[local] Hint Resolve tr_new_ref tr_set_node tr_new_node : keeps.
#[local] Hint Extern 1 (keeps _ _ (call _ _)) => by apply tr_call : keeps.

Lemma wp_set_ref_then {A} h F `{!Stable F} s r fr fr' (k : M A) :
  F s -> refHeap s !! r = Some fr -> same_use fr fr' -> keeps h F k ->
  wp s ((set_ref r fr';; k) h s) (fun _ _ => True).
Proof.
  intros Hs Hr Hf Hk. eapply wp_seq; [by eapply tr_set_ref|].
  intros _ s' _ He _. apply Hk. by eapply stable.
Qed.

(** [fr ← get_ref r; set_ref r (f fr); ...]. *)
Lemma keeps_update {A} h F `{!Stable F} r f (k : fidRef File -> M A) :
  (forall fr, same_use fr (f fr)) -> (forall fr, keeps h F (k fr)) ->
  keeps h F (fr ← get_ref r; set_ref r (f fr);; k fr).
Proof. intros Hf Hk. apply keeps_get_exact. intros fr s Hs Hr. by eapply wp_set_ref_then. Qed.

Lemma keeps_update_last h F r f :
  (forall fr, same_use fr (f fr)) -> keeps h F (fr ← get_ref r; (set_ref r (f fr) : M _)).
Proof. intros Hf. apply keeps_get_exact. intros fr s Hs Hr. by eapply tr_set_ref. Qed.

Lemma tree_IncRef h F r : keeps h F (IncRef r : M _).
Proof. unfold IncRef. by rule keeps_update_last. Qed.

Lemma tree_TryIncRef h F `{!Stable F} r : keeps h F (TryIncRef r : M _).
Proof.
  unfold TryIncRef. apply keeps_get_exact. intros fr s Hs Hr.
  destruct (refs fr <=? 0); [by apply wp_ret|]. eapply wp_set_ref_then; [done..|].
  apply keeps_ret.
Qed.

Lemma tree_DecRef h F r : keeps h F (DecRef r : M _).
Proof.
  apply keeps_True. unfold DecRef. rule keeps_bind; [keeps_auto|]. intros n.
  generalize (S n) as fuel. intros fuel. revert r.
  induction fuel as [|fuel IH]; intros r; cbn [DecRef_fuel]; [keeps_auto|].
  rule keeps_update; [done|]. unfold removeChild. keeps_auto.
Qed.
#[local] Hint Resolve tree_IncRef tree_TryIncRef tree_DecRef : keeps.

Lemma tree_pathNodeFor h F `{!Stable F} p name : keeps h F (pathNodeFor p name : M _).
Proof. unfold pathNodeFor. keeps_auto. Qed.
Lemma tree_addChildLocked h F `{!Stable F} p r name : keeps h F (addChildLocked p r name : M _).
Proof. unfold addChildLocked. keeps_auto. Qed.
Lemma tree_addChild h F `{!Stable F} p r name : keeps h F (addChild p r name : M _).
Proof. unfold addChild, addChildLocked. keeps_auto. Qed.
Lemma tree_addPathNodeFor h F `{!Stable F} p name pn : keeps h F (addPathNodeFor p name pn : M _).
Proof. unfold addPathNodeFor. keeps_auto. Qed.
Lemma tree_nameFor h F `{!Stable F} p r : keeps h F (nameFor p r : M _).
Proof. unfold nameFor. keeps_auto. Qed.
Lemma tree_isDeleted h F `{!Stable F} r : keeps h F (isDeleted r : M _).
Proof. unfold isDeleted. keeps_auto. Qed.
Lemma tree_hasParent h F `{!Stable F} r : keeps h F (hasParent r : M _).
Proof. unfold hasParent. keeps_auto. Qed.
Lemma tree_parent_of h F `{!Stable F} r : keeps h F (parent_of r : M _).
Proof. unfold parent_of. keeps_auto. Qed.
#[local] Hint Resolve tree_pathNodeFor tree_addChild tree_addChildLocked tree_addPathNodeFor
  tree_nameFor tree_isDeleted tree_parent_of : keeps.

Lemma tree_forEachChildNode h F `{!Stable F} p (fn : nid -> M unit) :
  (forall h n, keeps h F (fn n)) -> keeps h F (forEachChildNode p fn : M _).
Proof. intros Hfn. unfold forEachChildNode. keeps_auto. Qed.
Lemma tree_forEachChildRef h F `{!Stable F} p (fn : rid -> string -> M unit) :
  (forall h r name, keeps h F (fn r name)) -> keeps h F (forEachChildRef p fn : M _).
Proof. intros Hfn. unfold forEachChildRef. keeps_auto. Qed.

Lemma tree_notifyDelete h F pn : keeps h F (notifyDelete pn : M _).
Proof.
  apply keeps_True. unfold notifyDelete. rule keeps_bind; [keeps_auto|]. intros n.
  generalize (S n) as fuel. intros fuel. revert h pn.
  induction fuel as [|fuel IH]; intros h pn; cbn [notifyDelete_fuel]; [keeps_auto|].
  rule keeps_bind; [keeps_auto|]. intros nd. rule keeps_bind; [keeps_auto|]. intros _.
  rule tree_forEachChildNode. auto.
Qed.
Lemma tree_notifyNameChange h F pn : keeps h F (notifyNameChange pn : M _).
Proof.
  apply keeps_True. unfold notifyNameChange. rule keeps_bind; [keeps_auto|]. intros n.
  generalize (S n) as fuel. intros fuel. revert h pn.
  induction fuel as [|fuel IH]; intros h pn; cbn [notifyNameChange_fuel]; [keeps_auto|].
  rule keeps_bind; [|intros _; rule tree_forEachChildNode; auto].
  rule tree_forEachChildRef. keeps_auto.
Qed.
Lemma tree_removeWithName h F `{!Stable F} p name (fn : option (rid -> M unit)) :
  (forall h f r, fn = Some f -> keeps h F (f r)) -> keeps h F (removeWithName p name fn : M _).
Proof.
  intros Hfn. unfold removeWithName. apply keeps_with_lock. rule keeps_bind; [keeps_auto|].
  intros nd. rule keeps_bind; [|keeps_auto]. destruct (childRefs nd !! name); [|keeps_auto].
  rule keeps_bind; [keeps_auto|]. intros rs. rule keeps_for_each. intros r _.
  rule keeps_bind; [keeps_auto|]. intros nd'. destruct (negb _); [keeps_auto|].
  rule keeps_bind; [keeps_auto|]. intros _. destruct fn as [f|]; [|keeps_auto].
  rule keeps_bind; [keeps_auto|]. intros [|]; [|keeps_auto].
  rule keeps_bind; [by apply Hfn|]. keeps_auto.
Qed.
#[local] Hint Resolve tree_notifyDelete tree_notifyNameChange : keeps.

Lemma tree_markChildDeleted h F `{!Stable F} f name : keeps h F (markChildDeleted f name : M _).
Proof.
  unfold markChildDeleted. rule keeps_bind; [keeps_auto|]. intros fr.
  rule keeps_bind; [by rule tree_removeWithName|]. keeps_auto.
Qed.
#[local] Hint Resolve tree_markChildDeleted : keeps.

Lemma tree_renameChildTo h F `{!Stable F} f o t n : keeps h F (renameChildTo f o t n : M _).
Proof.
  unfold renameChildTo. rule keeps_bind; [keeps_auto|]. intros _.
  rule keeps_bind; [keeps_auto|]. intros fr. rule keeps_bind; [keeps_auto|]. intros tr.
  rule keeps_bind; [|keeps_auto]. rule tree_removeWithName. intros h' f' r [= <-].
  rule keeps_bind; [keeps_auto|]. intros p. rule keeps_bind; [keeps_auto|]. intros _.
  rule keeps_update; [done|]. keeps_auto.
Qed.

Lemma tree_walkOne h F `{!Stable F} qids r from names getattr :
  keeps h F (walkOne qids r from names getattr : M _).
Proof. unfold walkOne. keeps_auto. Qed.
#[local] Hint Resolve tree_walkOne : keeps.

Lemma tree_safelyRead {A} h F `{!Stable F} r (m : M A) :
  (forall h, keeps h F m) -> keeps h F (safelyRead r m).
Proof. intros Hm. unfold safelyRead. keeps_auto. Qed.
Lemma tree_safelyWrite {A} h F `{!Stable F} r (m : M A) :
  (forall h, keeps h F m) -> keeps h F (safelyWrite r m).
Proof. intros Hm. unfold safelyWrite. keeps_auto. Qed.

Lemma tree_doWalk_loop h F `{!Stable F} qids r valid attr names :
  keeps h F (doWalk_loop qids r valid attr names : M _).
Proof.
  revert qids r valid attr. induction names as [|name names IH]; intros qids r valid attr;
    cbn [doWalk_loop]; [keeps_auto|].
  rule keeps_bind; [keeps_auto|]. intros wr. destruct (negb _); [keeps_auto|].
  rule keeps_bind; [rule tree_safelyRead; keeps_auto|]. keeps_auto.
Qed.
#[local] Hint Resolve tree_doWalk_loop : keeps.

Lemma tree_doWalk h F `{!Stable F} r names getattr : keeps h F (doWalk r names getattr : M _).
Proof.
  unfold doWalk, maybeParent. destruct (checkSafeNames names); [keeps_auto|].
  destruct names as [|name names]; [|keeps_auto]. rule keeps_bind; [keeps_auto|]. intros mp.
  rule keeps_bind_err; [rule tree_safelyRead; keeps_auto|]. keeps_auto.
Qed.

(** ** From a handler to a step of the server *)

Lemma logic_recover {A} h F (a : A) (m : M A) : keeps h F m -> keeps h F (recover a m).
Proof.
  intros Hm s Hs HI. specialize (Hm s Hs HI). unfold recover. destruct (m h s); try done.
  naive_solver.
Qed.

Lemma logic_final {A} (m : M A) h s s' :
  keeps h (fun _ => True) m -> I s -> final (m h s) = Some s' -> I s'.
Proof.
  intros Hm HI Hf. assert (Hw := Hm s ltac:(done) HI). clear Hm.
  destruct (m h s); cbn in Hf; simplify_eq; naive_solver.
Qed.
End tree.
Arguments TreeRules W File {B inv}.

#[export] Hint Resolve tr_new_ref tr_set_node tr_new_node tree_IncRef tree_TryIncRef tree_DecRef
  tree_pathNodeFor tree_addChild tree_addChildLocked tree_addPathNodeFor tree_nameFor
  tree_isDeleted tree_hasParent tree_parent_of tree_notifyDelete tree_notifyNameChange
  tree_markChildDeleted tree_renameChildTo tree_walkOne tree_doWalk : keeps.
#[export] Hint Extern 1 (keeps _ _ (call _ _)) => by apply tr_call : keeps.
#[export] Hint Extern 1 (TreeRules _ _) => apply _ : keeps.
