(* ===== verification/Guarantees.v ===== *)
(** * What the backend may rely on

    Two promises of the server to the implementations of [File], for every call
    that it makes: the names of directory entries that it passes are safe path
    elements, and the locks that the comments of [File] promise are held.  Both are
    an invariant of the state, in which the trace of the calls is, and are kept by
    every operation and handler. *)
From S2P Require Import Prelude Errno Buffer Types Messages Message Transport Version.
From S2P Require Import File State PathTree FidRef Handlers Server ProgramLogic.

(** ** The promises *)

(** A name of a directory entry, where slashes separate the elements of a path. *)
Definition path_element (name : string) : Prop :=
  name <> EmptyString /\ name <> "."%string /\ name <> ".."%string /\
  forall i, String.get i name <> Some "/"%char.

Lemma contains_slash_get name i :
  contains_slash name = false -> String.get i name <> Some "/"%char.
Proof.
  revert i. induction name as [|c name IH]; intros i H; [by destruct i|].
  cbn in H. apply orb_false_iff in H as [Hc H]. destruct i as [|i]; [|by apply IH].
  cbn. intros [= ->]. done.
Qed.

Lemma safe_name_path_element name : safe_name name = true -> path_element name.
Proof.
  unfold safe_name. rewrite !andb_true_iff, !negb_true_iff, !String.eqb_neq.
  intros (((He & Hs) & Hd) & Hdd). split; [done|]. split; [done|]. split; [done|].
  intros i. by apply contains_slash_get.
Qed.

Section promises.
Context {File : Type}.

(** Exclusion of writers (and, with [holds_write], of readers) at node [n]. *)
Definition holds_read (L : held) (n : nid) : Prop :=
  (renameMu, true) ∈ L \/ ((renameMu, false) ∈ L /\ exists w, (opMu n, w) ∈ L).
Definition holds_write (L : held) (n : nid) : Prop :=
  (renameMu, true) ∈ L \/ ((renameMu, false) ∈ L /\ (opMu n, true) ∈ L).
Definition holds_global (L : held) : Prop := (renameMu, true) ∈ L.

(** A walk of no elements, which copies a reference. *)
Definition is_clone {A} (e : FileE File A) : bool :=
  match e with FWalk _ [] | FWalkGetAttr _ [] => true | _ => false end.
Definition is_getattr {A} (e : FileE File A) : bool :=
  match e with FGetAttr _ _ => true | _ => false end.
(** The calls that return a file to which no reference belongs yet. *)
Definition makes_file {A} (e : FileE File A) : bool :=
  match e with FAttach | FWalk _ _ => true | _ => false end.

(** The node whose lock a call of a reference's file is made under: the
    reference's own, or for a copy the one of the reference above it (a root's
    own). *)
Definition guard_node (ev : event File) : option nid :=
  if is_clone (ev_call ev) then ev_above ev else ev_node ev.

(** The locks held around the call give the guarantee that the method has.  The
    only method with a guarantee that is called on a file to which no reference
    belongs yet is [GetAttr]: the call before, made under the same locks, is the
    one that returned the file. *)
Definition guaranteed (before : list (event File)) (ev : event File) : Prop :=
  match guarantee (ev_call ev), ev_ref ev with
  | GNone, _ => True
  | GRead, Some _ => exists n, guard_node ev = Some n /\ holds_read (ev_locks ev) n
  | GRead, None =>
      is_getattr (ev_call ev) = true /\
      exists ev' before', before = ev' :: before' /\ makes_file (ev_call ev') = true /\
        ev_locks ev' = ev_locks ev
  | GWrite, _ => exists n, ev_node ev = Some n /\ holds_write (ev_locks ev) n
  | GGlobal, _ => holds_global (ev_locks ev)
  end.

Definition safe_elements (ev : event File) : Prop :=
  Forall (fun name => safe_name name = true) (path_elements (ev_call ev)).

Definition good_event (before : list (event File)) (ev : event File) : Prop :=
  safe_elements ev /\ guaranteed before ev.

(** Every call of a trace, the latest of which comes first, after those before. *)
Fixpoint good_trace (t : list (event File)) : Prop :=
  match t with
  | [] => True
  | ev :: t => good_event t ev /\ good_trace t
  end.

Lemma good_trace_app later ev earlier :
  good_trace (later ++ ev :: earlier) -> good_event earlier ev.
Proof. induction later as [|x later IH]; cbn; [by intros [? _]|intros [_ ?]; auto]. Qed.

Lemma good_trace_safe t : good_trace t -> Forall safe_elements t.
Proof. induction t as [|ev t IH]; [by constructor|]. intros [[? _] ?]. constructor; auto. Qed.

Lemma good_trace_elem ev t : ev ∈ t -> good_trace t -> exists t', good_event t' ev.
Proof.
  intros (later & earlier & ->)%list_elem_of_split Ht. exists earlier. by eapply good_trace_app.
Qed.
End promises.

(** ** The invariant *)

Section guarantees.
Context {W File : Type} {B : Backend W File}.
Local Notation St := (St W File).
Local Notation M := (M W File).
Implicit Types (s : St) (h : held).

Definition names_ok (nd : pathNode) : Prop :=
  (forall name m, childRefs nd !! name = Some m -> safe_name name = true) /\
  (forall r name, childRefNames nd !! r = Some name -> safe_name name = true).

(** The path node of a reference, which never changes. *)
Definition node_of s (r : rid) : option nid := fr_pathNode <$> refHeap s !! r.

#[export] Program Instance guarantees_inv : Inv W File := {|
  I s := map_Forall (fun _ nd => names_ok nd) (nodes s) /\
         (forall r fr, refHeap s !! r = Some fr -> (r < next_ref s)%nat) /\
         good_trace (trace s);
  ext s s' := forall r n, node_of s r = Some n -> node_of s' r = Some n;
|}.
Next Obligation. split; [by intros ?|]. intros s1 s2 s3 H1 H2 r n H. auto. Qed.

Lemma ext_same s s' : refHeap s' = refHeap s -> ext s s'.
Proof. intros H r n. unfold node_of. by rewrite H. Qed.

Definition at_node (r : rid) (n : nid) : St -> Prop := fun s => node_of s r = Some n.
#[export] Instance stable_at_node r n : Stable (at_node r n).
Proof. intros s s' He. apply He. Qed.

Lemma safe_newPathNode : names_ok newPathNode.
Proof. split; intros ? ? H; cbn in H; by rewrite lookup_empty in H. Qed.

(** *** The primitive steps *)

Lemma wp_get_ref h s r :
  wp s (get_ref r h s) (fun fr s' => s' = s /\ refHeap s !! r = Some fr).
Proof. intros HI. unfold get_ref. destruct (_ !! _); split_and!; done || reflexivity. Qed.

Lemma wp_get_node h s n :
  wp s (get_node n h s) (fun nd s' => s' = s /\ names_ok nd).
Proof.
  intros HI. unfold get_node. destruct (nodes s !! n) as [nd|] eqn:E; split_and!;
    try done; try reflexivity; by apply (proj1 HI n).
Qed.

Lemma wp_set_ref h s r fr :
  (exists fr0, refHeap s !! r = Some fr0 /\ fr_pathNode fr0 = fr_pathNode fr) ->
  wp s (set_ref r fr h s) (fun _ _ => True).
Proof.
  intros (fr0 & Hr & Hp) (Hn & Hh & Ht). split; [|split; [|done]].
  - split; [done|]. split; [|done]. cbn. intros r' fr'.
    rewrite lookup_insert_Some. intros [[<- _]|[_ H]]; [by eapply Hh|by eapply Hh].
  - intros r' n. unfold node_of. cbn. destruct (decide (r = r')) as [<-|Hne].
    + rewrite lookup_insert_eq, Hr. cbn. by rewrite Hp.
    + by rewrite lookup_insert_ne.
Qed.

Lemma wp_set_node h s n nd :
  names_ok nd -> wp s (set_node n nd h s) (fun _ _ => True).
Proof.
  intros Hnd (Hn & Hh & Ht). split; [|split; [by apply ext_same|done]].
  split; [|done]. by apply map_Forall_insert_2.
Qed.

Lemma wp_new_ref h s fr :
  wp s (new_ref fr h s) (fun r s' => node_of s' r = Some (fr_pathNode fr)).
Proof.
  intros (Hn & Hh & Ht). split; [|split].
  - split; [done|]. split; [|done]. cbn. intros r' fr'.
    rewrite lookup_insert_Some. intros [[<- _]|[_ H]]; [lia|]. apply Hh in H. lia.
  - intros r' n. unfold node_of. cbn. destruct (decide (next_ref s = r')) as [<-|Hne].
    + destruct (refHeap s !! next_ref s) eqn:E; [|done]. apply Hh in E. lia.
    + by rewrite lookup_insert_ne.
  - unfold node_of. cbn. by rewrite lookup_insert_eq.
Qed.

Lemma keeps_new_ref h F fr : keeps h F (new_ref fr : M _).
Proof. intros s _. eapply wp_conseq; [apply wp_new_ref|done]. Qed.

Lemma keeps_set_conn h F c cs : keeps h F (set_conn c cs : M _).
Proof. intros s _ HI. split; [exact HI|]. split; [by apply ext_same|done]. Qed.

Lemma keeps_new_node h F : keeps h F (new_node newPathNode : M _).
Proof.
  intros s _ (Hn & Hh & Ht). split; [|split; [by apply ext_same|done]].
  split; [|done]. apply map_Forall_insert_2; [apply safe_newPathNode|done].
Qed.

(** A call whose event is good; it changes neither references nor path nodes. *)
Lemma wp_call h s {A} r (e : FileE File A) :
  good_event (trace s) (event_of s r e h) ->
  wp s (call r e h s) (fun _ s' =>
    refHeap s' = refHeap s /\ trace s' = event_of s r e h :: trace s).
Proof.
  intros Hg (Hn & Hh & Ht). unfold call. destruct (exec e (world s)) as [a w].
  destruct (panics e (world s)); (split; [done|]);
    [by apply ext_same|split; [by apply ext_same|done]].
Qed.

Lemma keeps_call h F {A} r (e : FileE File A) :
  (forall s, F s -> good_event (trace s) (event_of s r e h)) ->
  keeps h F (call r e : M _).
Proof. intros Hg s Hs. eapply wp_conseq; [by apply wp_call, Hg|done]. Qed.

(** A method without guarantee that takes no path element may be called anyhow. *)
Lemma good_event_free h s {A} r (e : FileE File A) :
  guarantee e = GNone -> path_elements e = [] -> good_event (trace s) (event_of s r e h).
Proof.
  intros Hg Hp. unfold good_event, safe_elements, guaranteed. cbn. by rewrite Hg, Hp.
Qed.

Lemma keeps_call_free h F {A} r (e : FileE File A) :
  guarantee e = GNone -> path_elements e = [] -> keeps h F (call r e : M _).
Proof. intros Hg Hp. apply keeps_call. intros s _. by apply good_event_free. Qed.

(** The attributes of the file that the last call returned. *)
Lemma good_event_getattr h s f mask ev t :
  trace s = ev :: t -> makes_file (ev_call ev) = true -> ev_locks ev = h ->
  good_event (trace s) (event_of s None (FGetAttr f mask) h).
Proof.
  intros Ht Hm Hh. split; [by constructor|]. cbn. split; [done|]. by exists ev, t.
Qed.

Lemma keeps_call_global h F {A} r (e : FileE File A) :
  Forall (fun name => safe_name name = true) (path_elements e) ->
  guarantee e = GGlobal -> (renameMu, true) ∈ h -> keeps h F (call r e : M _).
Proof.
  intros Hp Hg Hh. apply keeps_call. intros s _. split; [done|].
  unfold guaranteed. cbn. by rewrite Hg.
Qed.

(** A call on a reference's file under the lock of its guard. *)
Lemma good_event_read h s r n {A} (e : FileE File A) :
  (if is_clone e then above_in (refHeap s) r else node_in (refHeap s) r) = Some n ->
  Forall (fun name => safe_name name = true) (path_elements e) ->
  guarantee e = GRead -> holds_read h n -> good_event (trace s) (event_of s (Some r) e h).
Proof.
  intros Hn Hp Hg Hh. split; [done|]. unfold guaranteed, guard_node. cbn. rewrite Hg.
  exists n. split; [|done]. by destruct (is_clone e).
Qed.

Lemma keeps_call_read h F r n {A} (e : FileE File A) :
  (forall s, F s -> at_node r n s) -> is_clone e = false ->
  Forall (fun name => safe_name name = true) (path_elements e) ->
  guarantee e = GRead -> holds_read h n -> keeps h F (call (Some r) e : M _).
Proof.
  intros Hn Hc Hp Hg Hh. apply keeps_call. intros s Hs.
  apply (good_event_read _ _ _ n); [|done..]. rewrite Hc. by apply Hn.
Qed.

Lemma keeps_call_write h F r n {A} (e : FileE File A) :
  (forall s, F s -> at_node r n s) ->
  Forall (fun name => safe_name name = true) (path_elements e) ->
  guarantee e = GWrite -> holds_write h n -> keeps h F (call (Some r) e : M _).
Proof.
  intros Hn Hp Hg Hh. apply keeps_call. intros s Hs. split; [done|].
  unfold guaranteed. cbn. rewrite Hg. exists n. split; [by apply Hn|done].
Qed.

(** *** Reading and writing the heap *)

Lemma keeps_get_ref {A} h F {HF : Stable F} r (k : fidRef File -> M A) :
  (forall fr, keeps h (fun s => F s /\ at_node r (fr_pathNode fr) s) (k fr)) ->
  keeps h F (get_ref r ≫= k).
Proof.
  apply keeps_bind_fact; [apply _|]. intros s _. eapply wp_conseq; [apply wp_get_ref|].
  intros fr s' _ _ [-> Hr]. unfold at_node, node_of. by rewrite Hr.
Qed.

Lemma keeps_set_ref h F r fr :
  (forall s, F s -> at_node r (fr_pathNode fr) s) -> keeps h F (set_ref r fr : M _).
Proof.
  intros Hn s Hs. apply wp_set_ref. apply Hn in Hs. unfold at_node, node_of in Hs.
  destruct (refHeap s !! r) as [fr0|]; [|done]. exists fr0. split; [done|].
  by injection Hs.
Qed.

Lemma keeps_get_node {A} h F {HF : Stable F} n (k : pathNode -> M A) :
  (forall nd, names_ok nd -> keeps h F (k nd)) -> keeps h F (get_node n ≫= k).
Proof.
  apply keeps_bind_spec. intros s _. eapply wp_conseq; [apply wp_get_node|].
  by intros nd s' _ _ [_ H].
Qed.

Lemma keeps_locked_node {A} h F {HF : Stable F} l w n (k : pathNode -> M A) :
  (forall nd, names_ok nd -> keeps h F (k nd)) ->
  keeps h F (with_lock l w (get_node n) ≫= k).
Proof.
  apply keeps_bind_spec. intros s _. apply wp_with_lock.
  eapply wp_conseq; [apply wp_get_node|]. by intros nd s' _ _ [_ H].
Qed.

Lemma keeps_set_node h F n nd : names_ok nd -> keeps h F (set_node n nd : M _).
Proof. intros Hnd s _. by apply wp_set_node. Qed.

Lemma names_ok_childNodes f nd : names_ok nd -> names_ok (set_childNodes f nd).
Proof. done. Qed.
Lemma names_ok_deleted b nd : names_ok nd -> names_ok (set_deleted b nd).
Proof. done. Qed.
Lemma names_ok_add nd name m r :
  names_ok nd -> safe_name name = true ->
  names_ok (set_childRefs (<[name := m]>) (<[r := name]>) nd).
Proof.
  intros [H1 H2] Hn. split; cbn; intros ? ?; rewrite lookup_insert_Some;
    intros [[? ?]|[? ?]]; subst; eauto.
Qed.
(** Changes of [childRefs] that add no name. *)
Lemma names_ok_shrink nd f r :
  names_ok nd ->
  (forall name m, f (childRefs nd) !! name = Some m -> is_Some (childRefs nd !! name)) ->
  names_ok (set_childRefs f (delete r) nd).
Proof.
  intros [H1 H2] Hf. split; cbn.
  - intros name m Hm. apply Hf in Hm as [m' Hm']. eauto.
  - intros ? ?. rewrite lookup_delete_Some. intros [? ?]. eauto.
Qed.
End guarantees.

#[export] Hint Resolve names_ok_childNodes names_ok_deleted names_ok_add : keeps.
#[export] Hint Resolve keeps_new_ref keeps_set_conn keeps_new_node keeps_set_node : keeps.
#[export] Hint Extern 1 (keeps _ _ (call _ _)) =>
  apply keeps_call_free; reflexivity : keeps.

(** A lock from those held. *)
Ltac solve_in := repeat first [apply list_elem_of_here | apply list_elem_of_further].
Ltac solve_holds := right; split; [by solve_in|first [by solve_in|eexists; by solve_in]].

(** One step of the proof that code keeps the guarantees. *)
Ltac guard_step :=
  intros; lazymatch goal with
  | |- keeps _ _ (mbind _ (get_ref _)) => apply keeps_get_ref
  | |- keeps _ _ (mbind _ (get_node _)) => apply keeps_get_node
  | |- keeps _ _ (mbind _ (with_lock _ _ (get_node _))) => apply keeps_locked_node
  | |- keeps _ _ (set_ref _ _) => apply keeps_set_ref; solve_fact
  | |- _ => keeps_step
  end.
Ltac keeps_code := repeat (first [solve [eauto 3 with keeps] | guard_step]).
