(* ===== verification/Promises.v ===== *)
(** * Every call keeps the promises

    Operation by operation and handler by handler, the code keeps the invariant
    of Guarantees; from it, the theorems on every state that a server reaches. *)
From S2P Require Import Prelude Errno Buffer Types Messages Message Transport Version.
From S2P Require Import File State PathTree FidRef Handlers Server Reach ProgramLogic TreeLogic Guarantees.

Section operations.
Context {W File : Type} {B : Backend W File}.
Local Notation St := (St W File).
Local Notation M := (M W File).
Implicit Types (h : held) (F : St -> Prop).

(** ** Path nodes *)

Lemma keeps_pathNodeFor h F `{!Stable F} p name : keeps h F (pathNodeFor p name : M _).
Proof. unfold pathNodeFor. keeps_code. Qed.

Lemma wp_nameFor h s p r : wp s ((nameFor p r : M _) h s) (fun n _ => safe_name n = true).
Proof.
  unfold nameFor. eapply wp_seq.
  - apply wp_with_lock, wp_get_node.
  - intros nd s' _ _ [_ [_ Hnd]]. destruct (childRefNames nd !! r) as [n|] eqn:E.
    + apply wp_ret. intros _. by eapply Hnd.
    + apply wp_panic.
Qed.

Lemma keeps_nameFor {A} h F `{!Stable F} p r (k : string -> M A) :
  (forall n, safe_name n = true -> keeps h F (k n)) -> keeps h F (nameFor p r ≫= k).
Proof. apply keeps_bind_spec. intros s _. apply wp_nameFor. Qed.

Lemma keeps_addChildLocked h F `{!Stable F} p r name :
  safe_name name = true -> keeps h F (addChildLocked p r name : M _).
Proof. intros Hn. unfold addChildLocked. keeps_code. Qed.

Lemma keeps_addChild h F `{!Stable F} p r name :
  safe_name name = true -> keeps h F (addChild p r name : M _).
Proof. intros Hn. unfold addChild. apply keeps_with_lock. by apply keeps_addChildLocked. Qed.

Lemma keeps_removeChild h F `{!Stable F} p r : keeps h F (removeChild p r : M _).
Proof.
  unfold removeChild. apply keeps_with_lock, keeps_get_node; [done|]. intros nd Hnd.
  destruct (childRefNames nd !! r) as [name|] eqn:E.
  - destruct (childRefs nd !! name) as [m|] eqn:Em; [|apply keeps_panic].
    apply keeps_set_node, names_ok_shrink; [done|]. intros name' m'. case_match.
    + rewrite lookup_delete_Some. intros [_ H']. by eexists.
    + rewrite lookup_insert_Some. intros [[<- _]|[_ H']]; by eexists.
  - apply keeps_set_node, names_ok_shrink; [done|]. intros ? ? H. by eexists.
Qed.

Lemma keeps_addPathNodeFor h F `{!Stable F} p name pn :
  keeps h F (addPathNodeFor p name pn : M _).
Proof. unfold addPathNodeFor. keeps_code. Qed.

(** ** References *)

Lemma keeps_IncRef h F `{!Stable F} r : keeps h F (IncRef r : M _).
Proof. unfold IncRef. keeps_code. Qed.

Lemma keeps_DecRef h F r : keeps h F (DecRef r : M _).
Proof.
  apply keeps_True. unfold DecRef. apply keeps_bind; [keeps_code|]. intros n.
  generalize (S n) as fuel. intros fuel. revert r.
  induction fuel as [|fuel IH]; intros r; cbn [DecRef_fuel]; [keeps_code|].
  assert (IH' : forall F p, keeps h F (DecRef_fuel fuel p : M _))
    by (intros; apply keeps_True, IH).
  pose proof keeps_removeChild. keeps_code.
Qed.

Lemma keeps_TryIncRef h F `{!Stable F} r : keeps h F (TryIncRef r : M _).
Proof. unfold TryIncRef. keeps_code. Qed.
Lemma keeps_isDeleted h F `{!Stable F} r : keeps h F (isDeleted r : M _).
Proof. unfold isDeleted. keeps_code. Qed.
Lemma keeps_hasParent h F `{!Stable F} r : keeps h F (hasParent r : M _).
Proof. unfold hasParent. keeps_code. Qed.
Lemma keeps_maybeParent h F `{!Stable F} r : keeps h F (maybeParent r : M _).
Proof. unfold maybeParent. keeps_code. Qed.
Lemma keeps_parent_of h F `{!Stable F} r : keeps h F (parent_of r : M _).
Proof. unfold parent_of. keeps_code. Qed.

#[local] Hint Resolve keeps_pathNodeFor keeps_addChildLocked keeps_addChild
  keeps_removeChild keeps_addPathNodeFor keeps_IncRef keeps_DecRef keeps_TryIncRef
  keeps_isDeleted keeps_hasParent keeps_maybeParent keeps_parent_of : keeps.

(** ** Traversals *)

Lemma keeps_map_range {A C} h F `{!Stable F} (l : list A) (k : list A -> M C) :
  (forall l', (forall x, x ∈ l' -> x ∈ l) -> keeps h F (k l')) -> keeps h F (map_range l ≫= k).
Proof.
  apply keeps_bind_spec. intros s _ HI. split; [done|]. split; [reflexivity|].
  intros x. by rewrite range_perm.
Qed.

Lemma keeps_forEachChildRef h F `{!Stable F} p (fn : rid -> string -> M unit) :
  (forall r name, safe_name name = true -> keeps ((childMu p, false) :: h) F (fn r name)) ->
  keeps h F (forEachChildRef p fn).
Proof.
  intros Hfn. unfold forEachChildRef. apply keeps_with_lock. rule keeps_get_node.
  intros nd [Hnd _]. rule keeps_map_range. intros l Hl.
  rule keeps_for_each. intros [name m] Hx. apply Hl, elem_of_map_to_list in Hx.
  rule keeps_map_range. intros rs _. rule keeps_for_each.
  intros r _. apply Hfn. by eapply Hnd.
Qed.

Lemma keeps_forEachChildNode h F `{!Stable F} p (fn : nid -> M unit) :
  (forall pn, keeps ((childMu p, false) :: h) F (fn pn)) ->
  keeps h F (forEachChildNode p fn).
Proof.
  intros Hfn. unfold forEachChildNode. apply keeps_with_lock. keeps_code.
Qed.

Lemma names_ok_alter nd name r :
  names_ok nd ->
  names_ok (set_childRefs (alter (fun m => m ∖ {[r]}) name) (delete r) nd).
Proof.
  intros H. apply names_ok_shrink; [done|]. intros name' m'.
  rewrite lookup_alter_Some. intros [(-> & m & Hm & _)|[_ Hm]]; by eexists.
Qed.
#[local] Hint Resolve names_ok_alter : keeps.

Lemma keeps_removeWithName h F `{!Stable F} p name (fn : option (rid -> M unit)) :
  (forall f r, fn = Some f -> keeps ((childMu p, true) :: h) F (f r)) ->
  keeps h F (removeWithName p name fn).
Proof.
  intros Hfn. unfold removeWithName. apply keeps_with_lock. rule keeps_get_node.
  intros nd Hnd. rule keeps_bind; [ |keeps_code].
  destruct (childRefs nd !! name) as [m|]; [|keeps_code].
  rule keeps_bind; [keeps_code|]. intros rs. rule keeps_for_each.
  intros r _. rule keeps_get_node. intros nd' Hnd'.
  destruct (negb _); [keeps_code|]. rule keeps_bind; [auto with keeps|]. intros _.
  destruct fn as [f|]; [|keeps_code]. pose proof (Hfn f r eq_refl). keeps_code.
Qed.

Lemma keeps_notifyDelete h F `{!Stable F} pn : keeps h F (notifyDelete pn : M _).
Proof.
  apply keeps_True. unfold notifyDelete. rule keeps_bind; [keeps_code|]. intros n.
  generalize (S n) as fuel. intros fuel. revert h pn.
  induction fuel as [|fuel IH]; intros h pn; cbn [notifyDelete_fuel]; [keeps_code|].
  rule keeps_get_node. intros nd Hnd.
  rule keeps_bind; [auto with keeps|]. intros _.
  rule keeps_forEachChildNode. intros pn'. apply IH.
Qed.

Lemma keeps_markChildDeleted h F `{!Stable F} r name :
  keeps h F (markChildDeleted r name : M _).
Proof.
  pose proof keeps_notifyDelete. unfold markChildDeleted.
  rule keeps_get_ref. intros fr. rule keeps_bind; [ |keeps_code].
  rule keeps_removeWithName; done.
Qed.

Lemma keeps_notifyNameChange h F `{!Stable F} pn :
  (renameMu, true) ∈ h -> keeps h F (notifyNameChange pn : M _).
Proof.
  intros Hh. apply keeps_True. unfold notifyNameChange.
  rule keeps_bind; [keeps_code|]. intros n.
  generalize (S n) as fuel. intros fuel. revert h Hh pn.
  induction fuel as [|fuel IH]; intros h Hh pn; cbn [notifyNameChange_fuel]; [keeps_code|].
  rule keeps_bind; [ |].
  - rule keeps_forEachChildRef. intros r name Hname. keeps_code.
    intros; apply keeps_call_global; [by repeat constructor|done|by right].
  - intros _. rule keeps_forEachChildNode. intros pn'. apply IH. by right.
Qed.

Lemma keeps_renameChildTo h F `{!Stable F} f oldName target newName :
  (renameMu, true) ∈ h -> safe_name newName = true ->
  keeps h F (renameChildTo f oldName target newName : M _).
Proof.
  intros Hh Hn. unfold renameChildTo.
  rule keeps_bind; [by apply keeps_markChildDeleted|]. intros _.
  rule keeps_get_ref. intros fr. rule keeps_get_ref. intros tr.
  pose proof keeps_notifyNameChange.
  rule keeps_bind; [ |intros o; destruct o; keeps_code].
  rule keeps_removeWithName. intros fn r [= <-]. keeps_code.
  intros; apply keeps_call_global; [by repeat constructor|done|by right].
Qed.

#[local] Hint Resolve keeps_markChildDeleted : keeps.

(** ** The tables of a connection *)

Lemma keeps_LookupFID h F `{!Stable F} c fid : keeps h F (LookupFID c fid : M _).
Proof. unfold LookupFID. keeps_code. Qed.
Lemma keeps_InsertFID h F `{!Stable F} c fid r : keeps h F (InsertFID c fid r : M _).
Proof. unfold InsertFID. keeps_code. Qed.
Lemma keeps_DeleteFID h F `{!Stable F} c fid : keeps h F (DeleteFID c fid : M _).
Proof. unfold DeleteFID. keeps_code. Qed.
Lemma keeps_StartTag h F `{!Stable F} c t : keeps h F (StartTag c t : M _).
Proof. unfold StartTag. keeps_code. Qed.
Lemma keeps_ClearTag h F `{!Stable F} c t : keeps h F (ClearTag c t : M _).
Proof. unfold ClearTag. keeps_code. Qed.
Lemma keeps_WaitTag h F `{!Stable F} c t : keeps h F (WaitTag c t : M _).
Proof. unfold WaitTag. keeps_code. Qed.
End operations.

#[export] Hint Resolve keeps_pathNodeFor keeps_addChildLocked keeps_addChild
  keeps_removeChild keeps_addPathNodeFor keeps_IncRef keeps_DecRef keeps_TryIncRef
  keeps_isDeleted keeps_hasParent keeps_maybeParent keeps_parent_of keeps_markChildDeleted
  keeps_LookupFID keeps_InsertFID keeps_DeleteFID keeps_StartTag keeps_ClearTag
  keeps_WaitTag : keeps.

Section handlers.
Context {W File : Type} {B : Backend W File}.
Local Notation St := (St W File).
Local Notation M := (M W File).
Implicit Types (h : held) (F : St -> Prop).

(** ** The patterns of the handlers *)

Lemma keeps_with_fid {A} h F `{!Stable F} c fid (bad : A) (k : rid -> M A) :
  (forall ref, keeps h F (k ref)) -> keeps h F (with_fid c fid bad k).
Proof. intros Hk. unfold with_fid. keeps_code. Qed.

Lemma keeps_reply {A} h F `{!Stable F} (e : M (A + error)) (k : A -> M message) :
  keeps h F e -> (forall x, keeps h F (k x)) -> keeps h F (reply e k).
Proof. intros He Hk. unfold reply. keeps_code. Qed.

Lemma keeps_call_err h F `{!Stable F} r (e : FileE File (option error)) :
  keeps h F (call r e : M _) -> keeps h F (call_err r e).
Proof. intros He. unfold call_err. keeps_code. Qed.

Lemma keeps_check_dir h F `{!Stable F} r (k : M (unit + error)) :
  (forall n, keeps h (fun s => F s /\ at_node r n s) k) -> keeps h F (check_dir r k).
Proof. intros Hk. unfold check_dir. keeps_code. Qed.

Lemma keeps_safelyRead {A} h F `{!Stable F} f (fn : M A) :
  (forall n, keeps ((opMu n, false) :: (renameMu, false) :: h)
               (fun s => F s /\ at_node f n s) fn) ->
  keeps h F (safelyRead f fn).
Proof.
  intros Hfn. unfold safelyRead. apply keeps_with_lock. rule keeps_get_ref. intros fr.
  by apply keeps_with_lock.
Qed.

Lemma keeps_safelyWrite {A} h F `{!Stable F} f (fn : M A) :
  (forall n, keeps ((opMu n, true) :: (renameMu, false) :: h)
               (fun s => F s /\ at_node f n s) fn) ->
  keeps h F (safelyWrite f fn).
Proof.
  intros Hfn. unfold safelyWrite. apply keeps_with_lock. rule keeps_get_ref. intros fr.
  by apply keeps_with_lock.
Qed.

Lemma keeps_safelyGlobal {A} h F `{!Stable F} f (fn : M A) :
  keeps ((renameMu, true) :: h) F fn -> keeps h F (safelyGlobal f fn).
Proof. apply keeps_with_lock. Qed.

(** A name that passed the check. *)
Lemma checkSafeName_None name : checkSafeName name = None -> safe_name name = true.
Proof. unfold checkSafeName. by destruct (safe_name name). Qed.

Lemma checkSafeNames_None names :
  checkSafeNames names = None -> Forall (fun name => safe_name name = true) names.
Proof.
  unfold checkSafeNames. induction names as [|x xs IH]; cbn; [by constructor|].
  destruct (checkSafeName x) eqn:E; [done|]. intros H. constructor; [|auto].
  by apply checkSafeName_None.
Qed.
End handlers.

(** One step through a handler; what remains are calls of guaranteed methods. *)
Ltac handler_step :=
  intros; lazymatch goal with
  | |- keeps _ _ (with_fid _ _ _ _) => rule keeps_with_fid
  | |- keeps _ _ (reply _ _) => rule keeps_reply
  | |- keeps _ _ (check_dir _ _) => rule keeps_check_dir
  | |- keeps _ _ (safelyRead _ _) => rule keeps_safelyRead
  | |- keeps _ _ (safelyWrite _ _) => rule keeps_safelyWrite
  | |- keeps _ _ (safelyGlobal _ _) => rule keeps_safelyGlobal
  | |- keeps _ _ (mbind _ (nameFor _ _)) => rule keeps_nameFor
  | |- keeps _ _ (call_err _ _) => rule keeps_call_err
  | |- keeps _ _ (match checkSafeName ?x with _ => _ end) =>
      let E := fresh "Hsafe" in destruct (checkSafeName x) eqn:E;
      [|apply checkSafeName_None in E]
  | |- keeps ?h _ (call (Some ?r) _) =>
      first
        [ match h with context [(opMu ?n, _)] =>
            first [ apply (keeps_call_read _ _ r n);
                      [solve_fact|reflexivity|by auto with keeps|reflexivity|solve_holds]
                  | apply (keeps_call_write _ _ r n);
                      [solve_fact|by auto with keeps|reflexivity|solve_holds] ] end
        | eapply keeps_call_write;
            [solve_fact|by auto with keeps|reflexivity|left; by solve_in]
        | apply keeps_call_global; [by auto with keeps|reflexivity|by solve_in] ]
  | |- _ => guard_step
  end.
Ltac handler := repeat (first [solve [eauto 3 with keeps] | handler_step]).
#[export] Hint Extern 1 (Forall _ (path_elements _)) => (cbn; repeat constructor; assumption) : keeps.

Section handlers.
Context {W File : Type} {B : Backend W File}.
Local Notation St := (St W File).
Local Notation M := (M W File).
Implicit Types (h : held) (F : St -> Prop).

(** A file that is asked for its attributes as soon as it is returned. *)
Lemma wp_call_getattr {A} h s ev t f mask (k : QID * AttrMask * Attr + error -> M A) Q :
  trace s = ev :: t -> makes_file (ev_call ev) = true -> ev_locks ev = h ->
  (forall r s', ext s s' -> wp s' (k r h s') Q) ->
  wp s ((call None (FGetAttr f mask) ≫= k) h s) Q.
Proof.
  intros Ht Hm Hh Hk. eapply wp_seq.
  - apply wp_call. by eapply good_event_getattr.
  - intros r s' _ He _. by apply Hk.
Qed.

(** [walkOne], where the guard of the walk's call is a fact [G] of the references:
    [WalkGetAttr] and [Walk] are called with the references as they are. *)
Lemma wp_walkOne h s qids r from names getattr n (G : gmap rid (fidRef File) -> Prop) :
  Forall (fun name => safe_name name = true) names ->
  (forall heap, G heap ->
     (if (match names with [] => true | _ => false end) then above_in heap r else node_in heap r)
     = Some n) ->
  holds_read h n -> G (refHeap s) ->
  wp s ((walkOne qids r from names getattr : M _) h s) (fun _ _ => True).
Proof.
  intros Hn HG Hh Hs. unfold walkOne. cbv zeta. lazymatch goal with
  |- context [if getattr then _ (call _ (FWalkGetAttr _ _)) else ?m] =>
    assert (Hwalk : forall s, G (refHeap s) -> wp s (m h s) (fun _ _ => True)) end.
  { clear s Hs. intros s Hs. unfold bind_err. eapply wp_seq.
    - apply wp_call. eapply good_event_read; [|exact Hn|done|exact Hh].
      specialize (HG _ Hs). by destruct names.
    - intros [[localQIDs sf]|err] s' _ _ [_ Ht]; [|by apply wp_ret].
      destruct getattr; [|by apply wp_ret]. eapply wp_call_getattr; [exact Ht|done|done|].
      clear Ht. intros res s'' _. apply (keeps_True (F := fun _ => True)); [|done]. handler. }
  unfold reject_if. destruct (1 <? length names)%nat; [by apply wp_ret|].
  unfold bind_err at 1. eapply wp_seq with (R := fun _ _ => True).
  - destruct getattr; [|by apply Hwalk]. eapply wp_seq.
    + apply wp_call. eapply good_event_read; [|exact Hn|done|exact Hh].
      specialize (HG _ Hs). by destruct names.
    + intros [res|err] s' _ _ [Hr _]; [by apply wp_ret|].
      destruct (Is err _); [apply Hwalk; by rewrite Hr|by apply wp_ret].
  - intros res s' _ _ _. apply (keeps_True (F := fun _ => True)); [|done]. handler.
Qed.

Lemma keeps_walkOne h F `{!Stable F} qids r n from name getattr :
  (forall s, F s -> at_node r n s) -> safe_name name = true -> holds_read h n ->
  keeps h F (walkOne qids r from [name] getattr : M _).
Proof.
  intros HF Hname Hh s Hs.
  apply (wp_walkOne _ _ _ _ _ _ _ n (fun heap => node_in heap r = Some n));
    [by repeat constructor|done|done|by apply HF].
Qed.

Lemma wp_maybeParent h s r :
  wp s ((maybeParent r : M _) h s) (fun mp s' => s' = s /\
    forall fr, refHeap s !! r = Some fr -> mp = default r (parent fr)).
Proof.
  unfold maybeParent. eapply wp_seq; [apply wp_get_ref|]. intros fr s' _ _ [-> Hr].
  apply wp_ret. intros _. split; [done|]. intros fr'. rewrite Hr. intros [= <-].
  by destruct (parent fr).
Qed.

(** A reference is copied under the lock of the node above it. *)
Lemma keeps_walkOne_clone {A} h F `{!Stable F} r mp getattr
    (k : fidRef File -> list QID * File * AttrMask * Attr -> M (A + error)) :
  (forall h fr res, keeps h F (k fr res)) ->
  forall s, F s -> (forall fr, refHeap s !! r = Some fr -> mp = default r (parent fr)) ->
  wp s (safelyRead mp (
          fr ← get_ref r;
          res ←? walkOne [] r (file fr) [] getattr;
          k fr res) h s) (fun _ _ => True).
Proof.
  intros Hk s Hs Hmp. unfold safelyRead. apply wp_with_lock. eapply wp_seq; [apply wp_get_ref|].
  intros mfr s' _ _ [-> Hm]. apply wp_with_lock. eapply wp_seq; [apply wp_get_ref|].
  intros fr s' _ _ [-> Hr]. rewrite (Hmp _ Hr) in Hm. unfold bind_err. eapply wp_seq.
  - apply (wp_walkOne _ _ _ _ _ _ _ (fr_pathNode mfr)
      (fun heap => above_in heap r = Some (fr_pathNode mfr))); [by constructor|done| |].
    + right. split; [by solve_in|eexists; by solve_in].
    + unfold above_in, node_in. rewrite Hr. cbn. by rewrite Hm.
  - intros [res|err] s' _ He _; [|by apply wp_ret]. apply Hk. by eapply stable.
Qed.

Lemma keeps_doWalk_loop h F `{!Stable F} qids r valid attr names :
  Forall (fun name => safe_name name = true) names ->
  keeps h F (doWalk_loop qids r valid attr names : M _).
Proof.
  intros Hn. revert qids r valid attr.
  induction Hn as [|name names Hname Hn IH]; intros qids r valid attr; cbn [doWalk_loop];
    [handler|].
  rule keeps_get_ref. intros wr. case_match; [handler|]. rule keeps_bind.
  - handler. intros; match goal with |- keeps ((opMu ?n, _) :: _) _ _ =>
      apply keeps_walkOne with n; [apply _|solve_fact|assumption|solve_holds] end.
  - intros [[[[qids' r'] valid'] attr']|err]; [|handler]. apply keeps_mono with F; [solve_fact|]. apply IH.
Qed.

Lemma keeps_doWalk h F `{!Stable F} r names getattr :
  keeps h F (doWalk r names getattr : M _).
Proof.
  unfold doWalk. destruct (checkSafeNames names) eqn:E; [handler|].
  apply checkSafeNames_None in E. destruct names as [|name names].
  - intros s Hs. eapply wp_seq.
    + apply wp_maybeParent.
    + intros mp s' _ _ [-> Hmp]. unfold bind_err at 1.
      eapply wp_seq with (R := fun _ _ => True).
      * refine (keeps_walkOne_clone h F r mp getattr (fun fr '(_, sf, valid, attr) => _) _ s Hs Hmp).
        clear s Hs Hmp. intros h' fr [[[qids sf] valid] attr]. handler.
      * intros [[[newRef valid] attr]|err] s' _ _ _; by apply wp_ret.
  - rule keeps_bind; [handler|]. intros _. by apply keeps_doWalk_loop.
Qed.
#[local] Hint Resolve keeps_doWalk : keeps.

Lemma keeps_check_walk_busy h F `{!Stable F} r fid newFID :
  keeps h F (check_walk_busy r fid newFID : M _).
Proof. unfold check_walk_busy. handler. Qed.
#[local] Hint Resolve keeps_check_walk_busy : keeps.

Lemma keeps_slice_to {A} h F `{!Stable F} (b : list A) n : keeps h F (slice_to b n : M _).
Proof. unfold slice_to. handler. Qed.
Lemma keeps_slice_from {A} h F `{!Stable F} (b : list A) n : keeps h F (slice_from b n : M _).
Proof. unfold slice_from. handler. Qed.
#[local] Hint Resolve keeps_slice_to keeps_slice_from : keeps.

(** ** The handlers *)

Lemma keeps_handle_tclunk h t c : keeps h (fun _ => True) (handle_tclunk t c : M _).
Proof.
  unfold handle_tclunk. rule keeps_bind; [unfold clunkHandleXattr|]; handler.
Qed.

Lemma keeps_tlcreate_do h t c uid : keeps h (fun _ => True) (tlcreate_do t c uid : M _).
Proof. unfold tlcreate_do. handler. Qed.
Lemma keeps_tsymlink_do h t c uid : keeps h (fun _ => True) (tsymlink_do t c uid : M _).
Proof. unfold tsymlink_do. handler. Qed.
Lemma keeps_tmknod_do h t c uid : keeps h (fun _ => True) (tmknod_do t c uid : M _).
Proof. unfold tmknod_do. handler. Qed.
Lemma keeps_tmkdir_do h t c uid : keeps h (fun _ => True) (tmkdir_do t c uid : M _).
Proof. unfold tmkdir_do. handler. Qed.
#[local] Hint Resolve keeps_tlcreate_do keeps_tsymlink_do keeps_tmknod_do
  keeps_tmkdir_do : keeps.

Lemma keeps_handle_trenameat h t c : keeps h (fun _ => True) (handle_trenameat t c : M _).
Proof.
  unfold handle_trenameat. handler. rule keeps_renameChildTo; [by solve_in|assumption].
Qed.

Lemma keeps_handle_trename h t c : keeps h (fun _ => True) (handle_trename t c : M _).
Proof.
  unfold handle_trename. handler. rule keeps_renameChildTo; [by solve_in|assumption].
Qed.

Lemma keeps_tread_fn h F t r n dataBuf :
  Stable F -> (forall s, F s -> at_node r n s) -> holds_read h n ->
  keeps h F (tread_fn t r dataBuf : M _).
Proof.
  intros HF Hn Hh. unfold tread_fn. handler.
  apply (keeps_call_read _ _ r n); [naive_solver|done|by constructor|done|done].
Qed.

Lemma keeps_handle_tread h t c : keeps h (fun _ => True) (handle_tread t c : M _).
Proof.
  unfold handle_tread, readBufPool_Get. handler.
  intros n. apply keeps_tread_fn with n; [apply _|solve_fact|solve_holds].
Qed.

Lemma keeps_handle_tattach t c : keeps [] (fun _ => True) (handle_tattach t c : M _).
Proof.
  unfold handle_tattach. cbv zeta. case_match; [handler|]. unfold reply.
  intros s _. eapply wp_seq; [by apply wp_call, good_event_free|].
  intros [sf|err] s' _ _ [_ Ht]; [|by apply wp_ret].
  eapply wp_call_getattr; [exact Ht|done|done|]. clear Ht. intros res s'' _.
  apply (keeps_True (F := fun _ => True)); [|done]. handler.
Qed.

Lemma keeps_handler m f c : handler m = Some f -> keeps [] (fun _ => True) (f c : M _).
Proof.
  destruct m; try discriminate; intros [= <-];
    first [ apply keeps_handle_tclunk | apply keeps_handle_trenameat
          | apply keeps_handle_trename | apply keeps_handle_tread | apply keeps_handle_tattach
          | unfold handle_tversion, handle_tflush, handle_tauth, handle_tremove,
              handle_tlopen, handle_tlcreate, handle_tsymlink,
              handle_tlink, handle_tunlinkat, handle_treadlink, handle_twrite,
              handle_tmknod, handle_tmkdir, handle_tgetattr, handle_tsetattr,
              handle_txattrwalk, handle_txattrcreate, handle_treaddir, handle_tfsync,
              handle_tstatfs, handle_tlock, handle_twalk, handle_twalkgetattr,
              handle_tucreate, handle_tumkdir, handle_tusymlink, handle_tumknod;
            handler ].
Qed.

(** Recovering from a panic keeps what the panic kept. *)
Lemma keeps_handle c m : keeps [] (fun _ => True) (handle c m : M _).
Proof.
  apply logic_recover. destruct (handler m) eqn:E; [by eapply keeps_handler|handler].
Qed.

Lemma keeps_respond c tag m : keeps [] (fun _ => True) (respond c tag m : M _).
Proof. pose proof keeps_handle. unfold respond, PayloadCleanup. handler. Qed.

Lemma keeps_handleRequests fuel c input reg :
  keeps [] (fun _ => True) (handleRequests fuel c input reg : M _).
Proof.
  revert input reg. induction fuel as [|fuel IH]; intros input reg; cbn [handleRequests];
    [handler|]. pose proof keeps_respond. unfold handleRequest. handler.
Qed.

Lemma keeps_stop c : keeps [] (fun _ => True) (stop c : M _).
Proof. unfold stop. handler. Qed.

Lemma keeps_Handle c input reg : keeps [] (fun _ => True) (Handle c input reg : M _).
Proof. pose proof keeps_handleRequests. pose proof keeps_stop. unfold Handle. handler. Qed.
End handlers.

(** * Reachable states *)

Section reachable.
Context {W File : Type} {B : Backend W File}.
Local Notation St := (St W File).

Lemma reachable_promises (s : St) : reachable s -> I s.
Proof.
  apply reachable_ind'.
  - intros w. split; [|split; [|done]].
    + apply (map_Forall_singleton (fun _ nd => names_ok nd)), safe_newPathNode.
    + intros r fr. cbn. by rewrite lookup_empty.
  - clear s. intros s1 s2 HI Hst. revert HI.
    destruct Hst as [s s' c _ Hs|s s' c tag m Hs|s s' c Hs|s w _]; intros HI; [..|exact HI].
    + eapply logic_final; [apply keeps_set_conn|exact HI|exact Hs].
    + eapply logic_final; [apply keeps_respond|exact HI|exact Hs].
    + eapply logic_final; [|exact HI|exact Hs].
      pose proof keeps_stop. handler.
Qed.
End reachable.

(** ** Exclusion

    Two sets of locks can be held at a time by different goroutines only if no lock
    is in both, unless for reading in both. *)
Definition compatible (L1 L2 : held) : Prop :=
  forall l w1 w2, (l, w1) ∈ L1 -> (l, w2) ∈ L2 -> w1 = false /\ w2 = false.

(** What the comments of [File] promise of two calls: a global one excludes every
    other with a guarantee; a write excludes reads and writes of its node.  A copy of
    a reference reads the node above it, and [GetAttr] of a file to which no
    reference belongs yet is not excluded. *)
Definition excludes {File} (ev1 ev2 : event File) : Prop :=
  match guarantee (ev_call ev1), guarantee (ev_call ev2) with
  | GGlobal, (GWrite | GGlobal) => True
  | GGlobal, GRead => is_Some (ev_ref ev2)
  | GWrite, GWrite => ev_node ev1 = ev_node ev2
  | GWrite, GRead => ev_node ev1 = guard_node ev2 /\ is_Some (ev_ref ev2)
  | _, _ => False
  end.

Lemma compatible_renameMu L1 L2 w :
  compatible L1 L2 -> (renameMu, true) ∈ L1 -> (renameMu, w) ∈ L2 -> False.
Proof. intros Hc H1 H2. by destruct (Hc _ _ _ H1 H2). Qed.

Lemma compatible_opMu L1 L2 n w :
  compatible L1 L2 -> (opMu n, true) ∈ L1 -> (opMu n, w) ∈ L2 -> False.
Proof. intros Hc H1 H2. by destruct (Hc _ _ _ H1 H2). Qed.

Lemma compatible_sym L1 L2 : compatible L1 L2 -> compatible L2 L1.
Proof. intros Hc l w1 w2 H1 H2. destruct (Hc l w2 w1 H2 H1). done. Qed.

(** Holding any guarantee means holding the rename lock. *)
Lemma holds_read_renameMu L n : holds_read L n -> exists w, (renameMu, w) ∈ L.
Proof. intros [H|[H _]]; eauto. Qed.
Lemma holds_write_read L n : holds_write L n -> holds_read L n.
Proof. intros [H|[H1 H2]]; [by left|right; eauto]. Qed.

Lemma holds_conflict L1 L2 n :
  compatible L1 L2 -> holds_write L1 n -> holds_read L2 n -> False.
Proof.
  intros Hc [H1|[H1 H1']] [H2|[H2 [w H2']]].
  - by eapply compatible_renameMu.
  - by eapply compatible_renameMu.
  - apply compatible_sym in Hc. by eapply compatible_renameMu.
  - by eapply compatible_opMu.
Qed.

Lemma guaranteed_renameMu {File} before (ev : event File) :
  guaranteed before ev -> guarantee (ev_call ev) <> GNone ->
  (guarantee (ev_call ev) = GRead -> is_Some (ev_ref ev)) ->
  exists w, (renameMu, w) ∈ ev_locks ev.
Proof.
  unfold guaranteed. destruct (guarantee (ev_call ev)); intros Hg Hn Hs.
  - done.
  - destruct (Hs eq_refl) as [r Hr]. rewrite Hr in Hg.
    destruct Hg as (n & _ & Hg). by eapply holds_read_renameMu.
  - destruct Hg as (n & _ & Hg). by eapply holds_read_renameMu, holds_write_read.
  - eauto.
Qed.

Lemma guaranteed_excludes {File} before1 before2 (ev1 ev2 : event File) :
  guaranteed before1 ev1 -> guaranteed before2 ev2 -> excludes ev1 ev2 ->
  ~ compatible (ev_locks ev1) (ev_locks ev2).
Proof.
  intros H1 H2 He Hc. unfold excludes in He.
  destruct (guarantee (ev_call ev1)) eqn:G1; [done..| |].
  - destruct (guarantee (ev_call ev2)) eqn:G2; [done| | |done];
      unfold guaranteed in H1, H2; rewrite G1 in H1; rewrite G2 in H2;
      destruct H1 as (n & Hn & H1).
    + destruct He as [He [r Hr]]. rewrite Hr, <- He, Hn in H2.
      destruct H2 as (n' & [= <-] & H2). by eapply holds_conflict.
    + destruct H2 as (n' & Hn' & H2). assert (n' = n) as -> by congruence.
      by eapply holds_conflict, holds_write_read.
  - assert (Hg : exists w, (renameMu, w) ∈ ev_locks ev2).
    { eapply guaranteed_renameMu; [done|by destruct (guarantee (ev_call ev2))|].
      intros G2. by rewrite G2 in He. }
    destruct Hg as [w Hw]. unfold guaranteed in H1. rewrite G1 in H1.
    by eapply compatible_renameMu.
Qed.

(** * Properties *)

Section properties.
Context {W File : Type} {B : Backend W File}.
Implicit Types s : St W File.

(** C1: no unsafe path element reaches the backend: in every state that the server
  reaches, whatever the clients sent and the backend answered, every name of a
  directory entry in every call made so far (to walk, create, link, rename, unlink
  or notify) is not empty, not [.] or [..] and has no slash. *)
Theorem path_elements_safe s :
reachable s ->
Forall (fun ev => Forall path_element (path_elements (ev_call ev))) (trace s).
Proof.
intros Hs. apply reachable_promises in Hs as (_ & _ & Ht).
eapply Forall_impl; [by apply good_trace_safe|]. intros ev H.
eapply Forall_impl; [exact H|]. exact safe_name_path_element.
Qed.

(** C2: the concurrency guarantees that the comments of [File] give hold, with two
  exceptions.  Every call in every reachable state was made under locks that give
  its method's guarantee at the path node of its receiver, except that: copying a
  reference is done under the read lock of the node above it, and not of its own
  (a root's own); and the first [GetAttr] of a file that [Attach] or [Walk] has
  just returned, to which no reference belongs yet, is made under whatever locks
  that call was made under: none for [Attach], where the comment of [GetAttr]
  promises a read guarantee.  No other call of a guaranteed method is made on a
  file without a reference.  What two calls are promised to exclude each other
  is in [promised_exclusion]. *)
Theorem concurrency_guaranteed s later ev earlier :
reachable s -> trace s = later ++ ev :: earlier -> guaranteed earlier ev.
Proof.
intros Hs Ht. apply reachable_promises in Hs as (_ & _ & Hg). rewrite Ht in Hg.
by destruct (good_trace_app _ _ _ Hg).
Qed.

(** So two calls of which one is promised to exclude the other never run at
  the same time: the locks held around them cannot be held at once by two
  requests. *)
Theorem promised_exclusion s1 s2 ev1 ev2 :
reachable s1 -> reachable s2 -> ev1 ∈ trace s1 -> ev2 ∈ trace s2 ->
excludes ev1 ev2 -> ~ compatible (ev_locks ev1) (ev_locks ev2).
Proof.
intros Hs1 Hs2 H1 H2. apply reachable_promises in Hs1 as (_ & _ & Ht1).
apply reachable_promises in Hs2 as (_ & _ & Ht2).
destruct (good_trace_elem _ _ H1 Ht1) as (t1 & _ & Hg1), (good_trace_elem _ _ H2 Ht2) as (t2 & _ & Hg2).
by eapply guaranteed_excludes.
Qed.
End properties.

Lemma path_elements_safe_witness :
  length (trace demo_state) = 21%nat /\
  Forall (fun ev => Forall path_element (path_elements (ev_call ev))) (trace demo_state).
Proof. split; [vm_compute; reflexivity|]. exact (path_elements_safe _ demo_reachable). Defined.

(** All of the calls of the demonstration, among them the [GetAttr] of an attachment. *)
Lemma concurrency_guaranteed_witness :
  length (trace demo_state) = 21%nat /\
  (forall i ev, trace demo_state !! i = Some ev -> guaranteed (drop (S i) (trace demo_state)) ev) /\
  exists ev, trace demo_state !! 19%nat = Some ev /\
    is_getattr (ev_call ev) = true /\ ev_ref ev = None /\ ev_locks ev = [].
Proof.
  split; [vm_compute; reflexivity|]. split.
  - intros i ev Hi.
    exact (concurrency_guaranteed demo_state _ ev _ demo_reachable
      (eq_sym (take_drop_middle _ _ _ Hi))).
  - eexists. split; [vm_compute; reflexivity|]. split_and!; reflexivity.
Defined.

(** The unlinking and the change of attributes exclude the first renaming. *)
Lemma promised_exclusion_witness :
  exists ev1 ev2, (trace demo_state !! 2%nat = Some ev1 /\ trace demo_state !! 0%nat = Some ev2)
    /\ ~ compatible (ev_locks ev1) (ev_locks ev2).
Proof.
  assert (H : exists ev1 ev2, trace demo_state !! 2%nat = Some ev1 /\
    trace demo_state !! 0%nat = Some ev2 /\ excludes ev1 ev2).
  { eexists _, _. split; [vm_compute; reflexivity|]. split; [vm_compute; reflexivity|].
    done. }
  destruct H as (ev1 & ev2 & H1 & H2 & He). exists ev1, ev2. split; [exact (conj H1 H2)|].
  refine (promised_exclusion demo_state demo_state ev1 ev2 demo_reachable demo_reachable _ _ He);
    [exact (list_elem_of_lookup_2 _ _ _ H1)|exact (list_elem_of_lookup_2 _ _ _ H2)].
Defined.
