(* ===== verification/Opens.v ===== *)
(** * What is asked of an open file

    The server calls a method of a file only where the kind of the file and the way that
    it was opened permit it. A reference is opened once; what it was opened for, and what
    kind of file it is, never change. *)
From S2P Require Import Prelude Errno Buffer Types Messages Message Transport Version.
From S2P Require Import File State PathTree FidRef Handlers Server Reach ProgramLogic TreeLogic.

(** ** Calls and what they demand of a reference *)

Section demands.
Context {File : Type}.

(** What a method demands of the reference that it is called through. *)
Definition demand {A} (e : FileE File A) : option (fidRef File -> Prop) :=
  match e with
  | FReadAt _ _ _ => Some (fun fr => opened fr = true /\ OpenFlags_Mode (openFlags fr) <> WriteOnly)
  | FWriteAt _ _ _ => Some (fun fr => opened fr = true /\ OpenFlags_Mode (openFlags fr) <> ReadOnly)
  | FReaddir _ _ _ => Some (fun fr => opened fr = true /\ FileMode_IsDir (mode fr) = true)
  | FFSync _ => Some (fun fr => opened fr = true)
  | FOpen _ flags => Some (fun fr => CanOpen (mode fr) = true /\
      (FileMode_IsDir (mode fr) = true -> OpenFlags_Mode flags = ReadOnly))
  | FCreate _ _ _ _ _ _ | FMkdir _ _ _ _ _ | FSymlink _ _ _ _ _ | FMknod _ _ _ _ _ _ _
  | FLink _ _ _ => Some (fun fr => FileMode_IsDir (mode fr) = true)
  | FReadlink _ => Some (fun fr => FileMode_IsSymlink (mode fr) = true)
  | _ => None
  end.

(** The methods that work on an open file. *)
Definition needs_open {A} (e : FileE File A) : bool :=
  match e with FReadAt _ _ _ | FWriteAt _ _ _ | FReaddir _ _ _ | FFSync _ => true | _ => false end.

(** The flags of a call that opens its file, and of one that makes an open file. *)
Definition open_flags {A} (e : FileE File A) : option Z :=
  match e with FOpen _ flags => Some flags | _ => None end.
Definition create_flags {A} (e : FileE File A) : option Z :=
  match e with FCreate _ _ flags _ _ _ => Some flags | _ => None end.

(** How a reference changes. *)
Definition evolves (fr fr' : fidRef File) : Prop :=
  mode fr' = mode fr /\
  (opened fr = true -> opened fr' = true /\ openFlags fr' = openFlags fr).

#[export] Instance evolves_preorder : PreOrder evolves.
Proof.
  split; [by intros fr|]. intros fr1 fr2 fr3 [Hm Ho] [Hm' Ho']. split; [congruence|].
  intros H. destruct (Ho H) as [H1 H2], (Ho' H1) as [H3 H4]. split; [done|congruence].
Qed.

Lemma demand_evolves {A} (e : FileE File A) P fr fr' :
  demand e = Some P -> evolves fr fr' -> P fr -> P fr'.
Proof.
  intros He [Hm Ho].
  destruct e; try discriminate He; injection He as <-; cbv beta; rewrite ?Hm; try by auto.
  all: first [intros [H1 H2]; destruct (Ho H1) as [E1 E2]; rewrite ?E1, ?E2; by auto
             |intros H1; exact (proj1 (Ho H1))].
Qed.

Lemma needs_open_demand {A} (e : FileE File A) :
  needs_open e = true -> exists P, demand e = Some P /\ forall fr, P fr -> opened fr = true.
Proof. destruct e; try done; intros _; eexists; (split; [reflexivity|naive_solver]). Qed.

Lemma tree_call_demand {A} (e : FileE File A) :
  tree_call e = true -> demand e = None /\ open_flags e = None.
Proof. by destruct e. Qed.

(** The events after an [Open] use the file, those before do not. *)
Fixpoint ordered (t : list (event File)) : Prop :=
  match t with
  | [] => True
  | ev :: t =>
      (is_Some (open_flags (ev_call ev)) -> forall ev', ev' ∈ t -> ev_ref ev' = ev_ref ev ->
         needs_open (ev_call ev') = false) /\ ordered t
  end.
End demands.

(** ** The invariant *)

Section opens.
Context {W File : Type} {B : Backend W File}.
Local Notation St := (St W File).
Local Notation M := (M W File).
Implicit Types (s : St) (h : held) (F : St -> Prop).

(** The reference has evolved from [fr]. *)
Definition knows (r : rid) (fr : fidRef File) : St -> Prop := fun s =>
  exists fr', refHeap s !! r = Some fr' /\ evolves fr fr'.

Definition meets s {A} (r : option rid) (e : FileE File A) : Prop :=
  match demand e with
  | None => True
  | Some P => exists r' fr, r = Some r' /\ refHeap s !! r' = Some fr /\ P fr
  end.

(** A call opened [r] with the flags, or made an open file with them. *)
Definition opened_by (r : rid) (flags : Z) s : Prop := exists ev, ev ∈ trace s /\
  (ev_ref ev = Some r /\ open_flags (ev_call ev) = Some flags \/
   create_flags (ev_call ev) = Some flags).

Definition created_with (flags : Z) s : Prop := exists ev, ev ∈ trace s /\
  create_flags (ev_call ev) = Some flags.

Lemma created_opened flags s r : created_with flags s -> opened_by r flags s.
Proof. intros (ev & Hev & H). exists ev. split; [done|by right]. Qed.

Record opens_ok s : Prop := {
  oi_fresh : forall r fr, refHeap s !! r = Some fr -> (r < next_ref s)%nat;
  oi_meets : forall ev, ev ∈ trace s -> meets s (ev_ref ev) (ev_call ev);
  oi_ordered : ordered (trace s);
  oi_opened : forall r fr, refHeap s !! r = Some fr -> opened fr = true ->
    opened_by r (openFlags fr) s;
}.

#[local] Program Instance opens_inv : Inv W File := {|
  I := opens_ok;
  ext s s' := (forall r fr, refHeap s !! r = Some fr -> knows r fr s') /\
              (forall ev, ev ∈ trace s -> ev ∈ trace s');
|}.
Next Obligation.
  split; [split; [|done]; intros r fr Hr; by exists fr|].
  intros s1 s2 s3 [H1 T1] [H2 T2]. split; [|by auto]. intros r fr Hr.
  destruct (H1 r fr Hr) as (fr2 & Hr2 & He2), (H2 r fr2 Hr2) as (fr3 & Hr3 & He3).
  exists fr3. split; [done|]. by etransitivity.
Qed.

#[export] Instance stable_knows r fr : Stable (knows r fr).
Proof.
  intros s s' [He _] (fr1 & Hr & H1). destruct (He _ _ Hr) as (fr2 & Hr2 & H2).
  exists fr2. split; [done|]. by etransitivity.
Qed.

#[export] Instance stable_opened_by r flags : Stable (opened_by r flags).
Proof. intros s s' [_ Ht] (ev & Hev & H). exists ev. split; [by apply Ht|done]. Qed.

#[export] Instance stable_created_with flags : Stable (created_with flags).
Proof. intros s s' [_ Ht] (ev & Hev & H). exists ev. split; [by apply Ht|done]. Qed.

Lemma meets_ext s s' {A} r (e : FileE File A) : ext s s' -> meets s r e -> meets s' r e.
Proof.
  intros [He _]. unfold meets. destruct (demand e) as [P|] eqn:E; [|done].
  intros (r' & fr & -> & Hr & HP). destruct (He _ _ Hr) as (fr' & Hr' & Hev).
  exists r', fr'. split; [done|]. split; [done|]. by eapply demand_evolves.
Qed.

(** *** Primitives *)

(** Changes that leave references and trace alone. *)
Lemma wp_rest {A} s (o : outcome W File A) :
  match o with
  | Ret _ s' | Panic s' =>
      refHeap s' = refHeap s /\ trace s' = trace s /\ (next_ref s <= next_ref s')%nat
  | Stuck => True
  end -> wp s o (fun _ _ => True).
Proof.
  intros H HI.
  assert (Hs : forall s', refHeap s' = refHeap s -> trace s' = trace s ->
    (next_ref s <= next_ref s')%nat -> I s' /\ ext s s').
  { intros s' Hr Ht Hn. assert (He : ext s s').
    { split; rewrite ?Ht; [|done]. intros r fr H1. exists fr. by rewrite Hr. }
    split; [|done]. destruct HI as [Hf Hm Ho Hp]. split; rewrite ?Ht, ?Hr; [| |done|].
    - intros r fr H1. specialize (Hf r fr H1). lia.
    - intros ev Hev. eapply meets_ext; [exact He|auto].
    - intros r fr H1 H2. eapply (stable_opened_by _ _ s); [exact He|by apply Hp]. }
  destruct o as [a s'|s'|]; [| |done]; destruct H as (H1 & H2 & H3); destruct (Hs s'); auto.
Qed.

Lemma opens_set_conn h F c cs : keeps h F (set_conn c cs : M _).
Proof. intros s _. by apply wp_rest. Qed.

(** A call whose demands are met; an [Open] finds the reference unused. *)
Lemma wp_call_opens {A} h s r (e : FileE File A) :
  meets s r e ->
  (is_Some (open_flags e) -> exists r' fr, r = Some r' /\ refHeap s !! r' = Some fr /\ opened fr = false) ->
  wp s ((call r e : M _) h s) (fun _ s' => refHeap s' = refHeap s /\
    trace s' = event_of s r e h :: trace s).
Proof.
  intros Hm Ho HI. unfold call. destruct (exec e (world s)) as [a w].
  set (ev := event_of s r e h).
  assert (He : ext s (mk_St w (nodes s) (refHeap s) (conns s) (next_node s) (next_ref s)
                        (ev :: trace s))).
  { split; cbn; [intros r' fr Hr; by exists fr|intros ev' Hev'; by right]. }
  enough (HI' : I (mk_St w (nodes s) (refHeap s) (conns s) (next_node s) (next_ref s)
                     (ev :: trace s))) by by destruct (panics e (world s)).
  pose proof HI as [Hf HM HO HP]. split; cbn [refHeap trace next_ref].
  - exact Hf.
  - intros ev' [->|Hev']%elem_of_cons; [exact Hm|]. eapply meets_ext; [exact He|auto].
  - split; [|done]. intros Hop ev' Hev' Hr. destruct (needs_open (ev_call ev')) eqn:E; [|done].
    destruct (Ho Hop) as (r' & fr & -> & Hfr & Hno). cbn in Hr.
    destruct (needs_open_demand _ E) as (P & HPd & HPo). specialize (HM _ Hev').
    unfold meets in HM. rewrite HPd in HM. destruct HM as (r2 & fr2 & E2 & Hfr2 & H2).
    apply HPo in H2. congruence.
  - intros r' fr Hr Hop. eapply (stable_opened_by _ _ s); [exact He|by apply HP].
Qed.

(** A change of one reference. *)
Lemma wp_set_ref_opens h s r fr fr' :
  refHeap s !! r = Some fr -> evolves fr fr' ->
  (opened fr' = true -> opened_by r (openFlags fr') s) ->
  wp s ((set_ref r fr' : M _) h s) (fun _ _ => True).
Proof.
  intros Hr Hev Hop HI. cbn. set (s' := mk_St _ _ _ _ _ _ _).
  assert (He : ext s s').
  { split; [|done]. intros r1 fr1 Hr1. unfold knows. cbn. destruct (decide (r = r1)) as [<-|Hne].
    - exists fr'. rewrite lookup_insert_eq. split; [done|]. congruence.
    - exists fr1. by rewrite lookup_insert_ne. }
  split; [|done]. pose proof HI as [Hf HM HO HP].
  split; [| |done|]; unfold s' in *; cbn [refHeap trace next_ref].
  - intros r1 fr1 [[<- _]|[_ H1]]%lookup_insert_Some; [by eapply Hf|by eapply Hf].
  - intros ev Hin. eapply meets_ext; [exact He|]. by apply HM.
  - intros r1 fr1 [[<- <-]|[_ H1]]%lookup_insert_Some Ho1; [by apply Hop|by eapply HP].
Qed.

Lemma opens_new_ref h F fr :
  (opened fr = true -> forall s r, F s -> opened_by r (openFlags fr) s) ->
  keeps h F (new_ref fr : M _).
Proof.
  intros Hop s Hs HI. cbn. set (s' := mk_St _ _ _ _ _ _ _).
  pose proof HI as [Hf HM HO HP].
  assert (Hnew : refHeap s !! next_ref s = None).
  { apply eq_None_not_Some. intros [fr1 H1]. apply Hf in H1. lia. }
  assert (He : ext s s').
  { split; [|done]. intros r1 fr1 Hr1. exists fr1. cbn. split; [|done].
    rewrite lookup_insert_ne; [done|congruence]. }
  split; [|done]. split; [| |done|]; unfold s' in *; cbn [refHeap trace next_ref].
  - intros r1 fr1 [[<- _]|[_ H1]]%lookup_insert_Some; cbn; [lia|]. apply Hf in H1. lia.
  - intros ev Hin. eapply meets_ext; [exact He|]. by apply HM.
  - intros r1 fr1 [[<- <-]|[_ H1]]%lookup_insert_Some Ho1; [exact (Hop Ho1 s _ Hs)|exact (HP _ _ H1 Ho1)].
Qed.

#[local] Instance opens_rules : TreeRules W File.
Proof.
  split.
  - intros A h F r e He s Hs. destruct (tree_call_demand e He) as [Hd Ho].
    eapply wp_conseq; [apply wp_call_opens|done]; [unfold meets; by rewrite Hd|].
    rewrite Ho. by intros [? ?].
  - intros h s r fr fr' Hr (Ho & Hfl & Hm) HI. eapply wp_set_ref_opens; [exact Hr| | |exact HI].
    + split; [done|]. rewrite Ho, Hfl. done.
    + rewrite Ho, Hfl. by apply (oi_opened _ HI).
  - intros h F fr Ho. apply opens_new_ref. by rewrite Ho.
  - intros h F n nd s _. by apply wp_rest.
  - intros h F nd s _. by apply wp_rest.
Qed.

(** *** Operations *)

Lemma opens_get_ref {A} h F `{!Stable F} r (k : fidRef File -> M A) :
  (forall fr, keeps h (fun s => F s /\ knows r fr s) (k fr)) -> keeps h F (get_ref r ≫= k).
Proof.
  apply keeps_bind_fact; [apply _|]. intros s Hs. unfold get_ref.
  destruct (refHeap s !! r) as [fr|] eqn:E; [|intros HI; by split].
  intros HI. split; [done|]. split; [reflexivity|]. by exists fr.
Qed.

(** A call whose demand the reference meets. *)
Lemma opens_call {A} h F r fr (e : FileE File A) P :
  demand e = Some P -> open_flags e = None -> P fr -> (forall s, F s -> knows r fr s) ->
  keeps h F (call (Some r) e : M _).
Proof.
  intros He Ho HP HF s Hs. eapply wp_conseq; [apply wp_call_opens|done].
  - unfold meets. rewrite He. destruct (HF s Hs) as (fr' & Hr & Hev).
    exists r, fr'. split; [done|]. split; [done|]. by eapply demand_evolves.
  - rewrite Ho. by intros [? ?].
Qed.

(** The state is the one that [get_ref] looked at. *)
Lemma wp_known {A} h s r fr (m : M A) :
  refHeap s !! r = Some fr -> keeps h (knows r fr) m -> wp s (m h s) (fun _ _ => True).
Proof. intros Hr Hm. apply Hm. by exists fr. Qed.

(** A call without demands. *)
Lemma opens_free_call {A} h F r (e : FileE File A) :
  demand e = None -> keeps h F (call r e : M _).
Proof.
  intros He s Hs. eapply wp_conseq; [apply wp_call_opens|done]; [unfold meets; by rewrite He|].
  destruct e; try done; by intros [? ?].
Qed.

Lemma opens_LookupFID h F `{!Stable F} c fid : keeps h F (LookupFID c fid : M _).
Proof. unfold LookupFID. keeps_auto. Qed.
#[local] Hint Resolve opens_set_conn opens_LookupFID : keeps.
Lemma opens_InsertFID h F `{!Stable F} c fid r : keeps h F (InsertFID c fid r : M _).
Proof. unfold InsertFID. keeps_auto. Qed.
Lemma opens_DeleteFID h F `{!Stable F} c fid : keeps h F (DeleteFID c fid : M _).
Proof. unfold DeleteFID. keeps_auto. Qed.
Lemma opens_readBufPool_Get h F `{!Stable F} c : keeps h F (readBufPool_Get c : M _).
Proof. unfold readBufPool_Get. keeps_auto. Qed.
Lemma opens_WaitTag h F `{!Stable F} c t : keeps h F (WaitTag c t : M _).
Proof. unfold WaitTag. keeps_auto. Qed.
Lemma opens_with_fid {A} h F `{!Stable F} c fid (bad : A) (k : rid -> M A) :
  (forall ref, keeps h F (k ref)) -> keeps h F (with_fid c fid bad k).
Proof. intros Hk. unfold with_fid. keeps_auto. Qed.
Lemma opens_reply {A} h F `{!Stable F} (m : M (A + error)) (k : A -> M message) :
  keeps h F m -> (forall a, keeps h F (k a)) -> keeps h F (reply m k).
Proof. intros Hm Hk. unfold reply. keeps_auto. Qed.

(** *** Opening and creating *)

(** [Open] is called on a file that is not open, and then no other thread is there to
    open it: it still is not when the reference is marked. *)
Lemma tlopen_calls h s ref flags :
  wp s (safelyRead ref (
      d ← isDeleted ref;
      reject_if d (Errno EINVAL) (
      fr ← get_ref ref;
      reject_if (opened fr || negb (CanOpen (mode fr))) (Errno EINVAL) (
      reject_if (FileMode_IsDir (mode fr)
                 && negb (OpenFlags_Mode flags =? ReadOnly)) (Errno EISDIR) (
      call (Some ref) (FOpen (file fr) flags))))) h s)
    (fun r s' => forall a, r = inl a ->
      (exists fr, refHeap s' !! ref = Some fr /\ opened fr = false) /\ opened_by ref flags s').
Proof.
  unfold safelyRead. apply wp_with_lock.
  unfold isDeleted, mbind, M_bind, get_ref. destruct (refHeap s !! ref) as [fr|] eqn:Hr;
    [|intros HI; by split]. apply wp_with_lock. rewrite Hr. unfold get_node.
  destruct (nodes s !! fr_pathNode fr) as [nd|]; [|intros HI; by split].
  cbn [mret M_ret]. unfold reject_if. destruct (deleted nd); [by apply wp_ret|]. rewrite Hr.
  destruct (opened fr) eqn:Ho; [by apply wp_ret|]. cbn [orb].
  destruct (CanOpen (mode fr)) eqn:Hc; [|by apply wp_ret]. cbn [negb].
  destruct (FileMode_IsDir (mode fr) && negb (OpenFlags_Mode flags =? ReadOnly)) eqn:Hd;
    [by apply wp_ret|].
  eapply wp_conseq; [apply wp_call_opens| ].
  - exists ref, fr. split; [done|]. split; [done|]. split; [done|]. intros Hdir.
    rewrite Hdir in Hd. cbn in Hd. by apply negb_false_iff, Z.eqb_eq in Hd.
  - intros _. by exists ref, fr.
  - intros r s' _ _ (Hh & Ht) a _. split; [exists fr; by rewrite Hh|].
    eexists. rewrite Ht. split; [left|by left].
Qed.

Lemma opens_handle_tlopen t c : keeps [] (fun _ => True) (handle_tlopen t c : M _).
Proof.
  unfold handle_tlopen. rule opens_with_fid. intros ref s Hs. unfold reply.
  eapply wp_seq; [apply tlopen_calls|]. intros [[qid ioUnit]|err] s' _ _ Hres; [|by apply wp_ret].
  destruct (Hres _ eq_refl) as [(fr & Hr & Ho) Hby]. unfold mbind, M_bind, get_ref. rewrite Hr.
  refine (wp_set_ref_opens [] s' ref fr (set_opened (tlopen_Flags t) fr) Hr _ _).
  - split; [done|]. by rewrite Ho.
  - intros _. exact Hby.
Qed.

(** The value of a call that makes an open file, with the fact that it did. *)
Lemma opens_create {A C} h F `{!Stable F} r fr (e : FileE File A) P flags (k : A -> M C) :
  demand e = Some P -> open_flags e = None -> create_flags e = Some flags -> P fr ->
  (forall s, F s -> knows r fr s) ->
  (forall a, keeps h (fun s => F s /\ created_with flags s) (k a)) ->
  keeps h F (call (Some r) e ≫= k).
Proof.
  intros He Ho Hc HP HF. apply keeps_bind_fact; [apply _|]. intros s Hs.
  eapply wp_conseq; [apply wp_call_opens|].
  - unfold meets. rewrite He. destruct (HF s Hs) as (fr' & Hr & Hev).
    exists r, fr'. split; [done|]. split; [done|]. by eapply demand_evolves.
  - rewrite Ho. by intros [? ?].
  - intros a s' _ _ (_ & Ht). eexists. rewrite Ht. split; [left|done].
Qed.
End opens.

#[local] Existing Instance opens_inv.
#[local] Existing Instance opens_rules.
#[local] Hint Resolve opens_set_conn opens_LookupFID opens_InsertFID opens_DeleteFID
  opens_readBufPool_Get opens_WaitTag opens_handle_tlopen : keeps.
#[local] Hint Extern 1 (keeps _ _ (call _ _)) => by apply opens_free_call : keeps.

(** The demand of a call from the checks before it. *)
Ltac demand_met :=
  cbv beta; rewrite ?orb_false_iff, ?negb_false_iff, ?Z.eqb_neq in *; destruct_and?; auto.
Ltac demand_call := eapply opens_call; [reflexivity|reflexivity| |solve_fact]; demand_met.

(** One step through a handler. *)
Ltac open_step :=
  intros; lazymatch goal with
  | |- keeps _ _ (mbind _ (get_ref _)) => rule opens_get_ref
  | |- keeps _ _ (with_fid _ _ _ _) => rule opens_with_fid
  | |- keeps _ _ (reply _ _) => rule opens_reply
  | |- keeps _ _ (check_dir _ _) => unfold check_dir
  | |- keeps _ _ (call_err _ _) => unfold call_err
  | |- keeps _ _ (safelyRead _ _) => unfold safelyRead
  | |- keeps _ _ (safelyWrite _ _) => unfold safelyWrite
  | |- keeps _ _ (safelyGlobal _ _) => unfold safelyGlobal
  | |- keeps _ _ (call (Some _) _) => solve [demand_call]
  | |- keeps _ _ (if ?b then _ else _) => destruct b eqn:?
  | |- _ => keeps_step
  end.
Ltac open_code := repeat (first [solve [eauto 3 with keeps] | open_step]).

Section handlers.
Context {W File : Type} {B : Backend W File}.
Local Notation St := (St W File).
Local Notation M := (M W File).
Implicit Types (s : St) (h : held) (F : St -> Prop).
Local Notation kept m := (keeps [] (fun _ => True) m) (only parsing).

Lemma opens_tlcreate_do t c uid : kept (tlcreate_do t c uid : M _).
Proof.
  unfold tlcreate_do. destruct (checkSafeName _); [open_code|].
  rule opens_with_fid. intros ref. rule keeps_bind_err; [|open_code].
  unfold safelyWrite. apply keeps_with_lock. rule opens_get_ref. intros fr0.
  apply keeps_with_lock. rule keeps_bind; [open_code|]. intros d.
  rule opens_get_ref. intros fr. apply keeps_reject_if. intros Hd. apply keeps_reject_if. intros Ho.
  unfold bind_err at 1. eapply (opens_create _ _ ref fr _ _ (tlcreate_OpenFlags t) _);
    try apply _; [reflexivity..|demand_met|solve_fact|].
  intros [[[nsf qid] ioUnit]|err]; [|open_code].
  rule keeps_bind; [open_code|]. intros pn. rule keeps_bind; [|open_code].
  apply opens_new_ref. intros _ s r [_ Hs]. by apply created_opened.
Qed.

Lemma opens_tsymlink_do t c uid : kept (tsymlink_do t c uid : M _).
Proof. unfold tsymlink_do. open_code. Qed.
Lemma opens_tmknod_do t c uid : kept (tmknod_do t c uid : M _).
Proof. unfold tmknod_do. open_code. Qed.
Lemma opens_tmkdir_do t c uid : kept (tmkdir_do t c uid : M _).
Proof. unfold tmkdir_do. open_code. Qed.
#[local] Hint Resolve opens_tlcreate_do opens_tsymlink_do opens_tmknod_do opens_tmkdir_do : keeps.

Lemma opens_handle_tlink t c : kept (handle_tlink t c : M _).
Proof.
  unfold handle_tlink. destruct (checkSafeName _); [open_code|].
  rule opens_with_fid. intros ref. rule opens_with_fid. intros refTarget.
  rule opens_reply; [|open_code]. unfold safelyWrite. apply keeps_with_lock.
  rule opens_get_ref. intros fr0. apply keeps_with_lock. unfold check_dir.
  rule keeps_bind; [open_code|]. intros d. rule opens_get_ref. intros fr.
  apply keeps_reject_if. intros Hd. apply keeps_reject_if. intros Ho.
  rule opens_get_ref. intros fr1. rule opens_get_ref. intros tr. unfold call_err.
  rule keeps_bind; [|open_code]. eapply (opens_call _ _ ref fr); [reflexivity|reflexivity|demand_met|solve_fact].
Qed.

Lemma opens_handle_tread t c : kept (handle_tread t c : M _).
Proof.
  unfold handle_tread, slice_to. rule opens_with_fid. intros ref.
  destruct (maximumLength <? tread_Count t); [open_code|].
  rule keeps_bind; [open_code|]. intros dataBuf. rule keeps_bind; [|open_code].
  unfold safelyRead. apply keeps_with_lock. rule opens_get_ref. intros fr0. apply keeps_with_lock.
  unfold tread_fn, slice_to, slice_from. open_code.
Qed.

Lemma opens_handle_twrite t c : kept (handle_twrite t c : M _).
Proof.
  unfold handle_twrite. rule opens_with_fid. intros ref. rule opens_reply; [|open_code].
  unfold safelyRead. apply keeps_with_lock. rule opens_get_ref. intros fr0. apply keeps_with_lock.
  apply keeps_get_exact. intros fr s Hs Hr. destruct (px_op (fr_pendingXattr fr)).
  1,3: apply (wp_known _ s ref fr); [done|open_code].
  unfold reject_if. destruct (negb _); [by apply wp_ret|]. destruct (_ <? _); [by apply wp_ret|].
  rule (wp_set_ref_then _ (fun _ => True) s ref fr); [done..|open_code].
Qed.

Lemma opens_handle_txattrcreate t c : kept (handle_txattrcreate t c : M _).
Proof.
  unfold handle_txattrcreate. rule opens_with_fid. intros ref. rule opens_reply; [|open_code].
  unfold safelyWrite. apply keeps_with_lock. rule opens_get_ref. intros fr0. apply keeps_with_lock.
  rule keeps_bind; [open_code|]. intros d. apply keeps_reject_if. intros _.
  rule keeps_update; [done|]. open_code.
Qed.
#[local] Hint Resolve opens_handle_tlink opens_handle_tread opens_handle_twrite
  opens_handle_txattrcreate : keeps.

Lemma opens_handler m f c : handler m = Some f -> kept (f c : M _).
Proof.
  destruct m; try discriminate; intros [= <-];
    try solve [eauto 3 with keeps];
    unfold handle_tversion, handle_tflush, handle_tauth, handle_tattach, handle_tclunk,
      handle_trenameat, handle_trename, handle_tremove, handle_tlcreate, handle_tsymlink,
      handle_tunlinkat, handle_treadlink, handle_tmknod, handle_tmkdir, handle_tgetattr,
      handle_tsetattr, handle_txattrwalk, handle_treaddir, handle_tfsync, handle_tstatfs,
      handle_tlock, handle_twalk, handle_twalkgetattr, handle_tucreate, handle_tumkdir,
      handle_tusymlink, handle_tumknod, clunkHandleXattr, check_walk_busy;
    open_code.
Qed.

Lemma opens_respond c tag m : kept (respond c tag m : M _).
Proof.
  unfold respond, StartTag, ClearTag, PayloadCleanup. rule keeps_bind; [open_code|].
  intros ok. destruct (negb ok); [open_code|]. rule keeps_bind; [|open_code].
  unfold handle. apply logic_recover. destruct (handler m) eqn:E; [by eapply opens_handler|open_code].
Qed.

Lemma reachable_opens s : reachable s -> opens_ok s.
Proof.
  apply reachable_ind'.
  - intros w. split; cbn; [|by intros ev ?%elem_of_nil|done|]; intros r fr; by rewrite lookup_empty.
  - clear s. intros s1 s2 HI Hst. revert HI.
    destruct Hst as [s s' c _ Hs|s s' c tag m Hs|s s' c Hs|s w _]; intros HI; [..|by destruct HI].
    + eapply (logic_final (inv := opens_inv)); [apply opens_set_conn|exact HI|exact Hs].
    + eapply (logic_final (inv := opens_inv)); [apply opens_respond|exact HI|exact Hs].
    + eapply (logic_final (inv := opens_inv)); [|exact HI|exact Hs]. unfold stop. open_code.
Qed.
End handlers.

(** ** What an implementation of [File] may rely on *)

Section discipline.
Context {W File : Type} {B : Backend W File}.
Implicit Types s : St W File.

Lemma ordered_split (later : list (event File)) ev earlier :
  ordered (later ++ ev :: earlier) -> is_Some (open_flags (ev_call ev)) ->
  forall ev', ev' ∈ earlier -> ev_ref ev' = ev_ref ev -> needs_open (ev_call ev') = false.
Proof.
  induction later as [|ev0 later IH]; cbn; [intros [H _]; exact H|]. intros [_ H]. by apply IH.
Qed.

(** C3: files are used as they were opened: in every state that the server reaches, a
  call to read, write, list or sync went through a reference that is open, for reading, for
  writing, of a directory, respectively; a call to open went to a file that can be opened,
  to a directory only for reading; entries were made in directories and links read from
  links; no call to open a file came after a use of it as an open one; and the flags of an
  open reference are those of the call that opened it or made it. *)
Theorem open_discipline s :
reachable s ->
(forall ev P, ev ∈ trace s -> demand (ev_call ev) = Some P ->
   exists r fr, ev_ref ev = Some r /\ refHeap s !! r = Some fr /\ P fr) /\
(forall later ev earlier ev', trace s = later ++ ev :: earlier ->
   is_Some (open_flags (ev_call ev)) -> ev' ∈ earlier -> ev_ref ev' = ev_ref ev ->
   needs_open (ev_call ev') = false) /\
(forall r fr, refHeap s !! r = Some fr -> opened fr = true -> opened_by r (openFlags fr) s).
Proof.
intros Hs. apply reachable_opens in Hs as [_ Hm Ho Hp]. split; [|split; [|exact Hp]].
- intros ev P Hev Hd. specialize (Hm ev Hev). unfold meets in Hm. by rewrite Hd in Hm.
- intros later ev earlier ev' Ht Hop Hev'. rewrite Ht in Ho. by apply (ordered_split later ev earlier).
Qed.
End discipline.

(** A file that is opened, written and read. *)
Definition open_requests : list message :=
  [toy_version; toy_attach 1; Mtwalk (mk_twalk 1 2 ["f"%string]);
   Mtlopen (mk_tlopen 2 ReadWrite); Mtwrite (mk_twrite 2 0 [x61]); Mtread (mk_tread 2 0 1)].

Lemma open_discipline_witness :
  exists s, run 0%nat open_requests = Some s /\
  map (fun ev => needs_open (ev_call ev)) (take 3 (trace s)) = [true; true; false] /\
  exists ev, head (trace s) = Some ev /\
  exists P r fr, demand (ev_call ev) = Some P /\
    ev_ref ev = Some r /\ refHeap s !! r = Some fr /\ P fr.
Proof.
  destruct (run 0%nat open_requests) as [s|] eqn:E; [|vm_compute in E; discriminate].
  pose proof (run_reachable _ _ _ E) as Hs.
  assert (H : map (fun ev => needs_open (ev_call ev)) (take 3 (trace s)) = [true; true; false]).
  { clear Hs. vm_compute in E. injection E as <-. reflexivity. }
  exists s. split; [reflexivity|]. split; [exact H|].
  destruct (trace s) as [|ev t] eqn:Ht; [discriminate H|]. exists ev. split; [reflexivity|].
  injection H as Hev _. destruct (needs_open_demand _ Hev) as (P & HP & _). exists P.
  destruct (proj1 (open_discipline s Hs) ev P) as (r & fr & H1); [|exact HP|].
  { rewrite Ht. left. }
  exists r, fr. split; [exact HP|exact H1].
Defined.
