(* ===== verification/RefCount.v ===== *)
(** * The reference count invariant

    Every reference of the server has a count that is the number of its holders:
    the FIDs that name it in any connection, the open references whose parent it
    is, and the references to it that running code owns.  A reference whose count
    drops to zero is closed; nothing is called on a closed reference.

    The holders are a multiset, so that an operation moves one element. [own] are
    the references that the running code owns.  [fresh] are references that were
    made but have no holder yet: their count is zero and their parent does not
    count them.  [loose] are references in the middle of a rename, each owned
    once, which their parent does not count either. *)
From stdpp Require Import gmultiset.
From S2P Require Import Prelude Errno Buffer Types File State.

(** ** Sums of multisets over a map *)

Section msum.
Context {K V : Type} `{Countable K}.
Implicit Types (f g : K -> V -> gmultiset rid) (m : gmap K V).

Definition msum f m : gmultiset rid := map_fold (fun k v acc => f k v ⊎ acc) ∅ m.

Lemma msum_empty f : msum f ∅ = ∅.
Proof. done. Qed.

Lemma msum_insert_new f m k v : m !! k = None -> msum f (<[k := v]> m) = f k v ⊎ msum f m.
Proof. intros Hk. unfold msum. rewrite map_fold_insert_L; [done| |done]. multiset_solver. Qed.

Lemma msum_delete f m k v : m !! k = Some v -> msum f m = f k v ⊎ msum f (delete k m).
Proof.
  intros Hk. rewrite <- (insert_delete_id m k v) at 1 by done.
  by rewrite msum_insert_new by apply lookup_delete_eq.
Qed.

Lemma msum_update f m k v0 v :
  m !! k = Some v0 -> f k v0 ⊎ msum f (<[k := v]> m) = f k v ⊎ msum f m.
Proof.
  intros Hk. rewrite <- insert_delete_eq, msum_insert_new by apply lookup_delete_eq.
  rewrite (msum_delete f m k v0) by done. multiset_solver.
Qed.

Lemma msum_ext f g m : (forall k v, m !! k = Some v -> f k v = g k v) -> msum f m = msum g m.
Proof.
  induction m as [|k v m Hk IH] using map_ind; intros He; [done|].
  rewrite !msum_insert_new by done. f_equal; [apply He, lookup_insert_eq|].
  apply IH. intros k' v' Hk'. apply He. rewrite lookup_insert_ne; [done|]. congruence.
Qed.

(** [f] and [g] differ at one key. *)
Lemma msum_change f g m k v :
  m !! k = Some v -> (forall k' v', k' <> k -> m !! k' = Some v' -> f k' v' = g k' v') ->
  g k v ⊎ msum f m = f k v ⊎ msum g m.
Proof.
  intros Hk He. rewrite (msum_delete f m k v), (msum_delete g m k v) by done.
  rewrite (msum_ext f g (delete k m)); [multiset_solver|].
  intros k' v'. rewrite lookup_delete_Some. intros [Hne Hk']. apply He; congruence.
Qed.

Lemma elem_of_msum f m k v x : m !! k = Some v -> x ∈ f k v -> x ∈ msum f m.
Proof. intros Hk Hx. rewrite (msum_delete f m k v) by done. multiset_solver. Qed.
End msum.

Section invariant.
Context {W File : Type}.
Local Notation St := (St W File).
Implicit Types (s : St) (own loose : gmultiset rid) (fresh : gset rid).

(** ** Closed references *)

Definition is_close {A} (e : FileE File A) : bool :=
  match e with FClose _ => true | _ => false end.

(** The references whose file was closed. *)
Definition closes (t : list (event File)) : list rid :=
  omap (fun ev => if is_close (ev_call ev) then ev_ref ev else None) t.

(** No call is made through a reference after its file was closed; in particular
    it is closed at most once. *)
Fixpoint trace_ok (t : list (event File)) : Prop :=
  match t with
  | [] => True
  | ev :: t => (forall r, ev_ref ev = Some r -> r ∉ closes t) /\ trace_ok t
  end.

(** ** Holders *)

Definition tok (o : option rid) : gmultiset rid :=
  match o with Some p => {[+ p +]} | None => ∅ end.

Definition fid_tokens (cs : gmap cid connState) : gmultiset rid :=
  msum (fun _ c => msum (fun _ r => {[+ r +]}) (fids c)) cs.

(** Not counted by its parent. *)
Definition uncounted (cl : list rid) fresh loose (r : rid) : Prop :=
  r ∈ cl \/ r ∈ fresh \/ r ∈ loose.
#[export] Instance uncounted_dec cl fresh loose r : Decision (uncounted cl fresh loose r).
Proof. unfold uncounted. apply _. Defined.

Definition parent_tokens (cl : list rid) fresh loose (h : gmap rid (fidRef File))
    : gmultiset rid :=
  msum (fun r fr => if decide (uncounted cl fresh loose r) then ∅ else tok (parent fr)) h.

Definition tokens own fresh loose s : gmultiset rid :=
  fid_tokens (conns s) ⊎ parent_tokens (closes (trace s)) fresh loose (refHeap s) ⊎ own ⊎ loose.

(** ** The invariant *)

(** A node's two views of its references agree; they are open, and children of
    references at this node. The nodes of its children exist. *)
Definition node_ok s (n : nid) (nd : pathNode) : Prop :=
  (forall r name, childRefNames nd !! r = Some name <->
     exists m, childRefs nd !! name = Some m /\ r ∈ m) /\
  (forall r name, childRefNames nd !! r = Some name ->
     r ∉ closes (trace s) /\
     exists fr p pr, refHeap s !! r = Some fr /\ parent fr = Some p /\
       refHeap s !! p = Some pr /\ fr_pathNode pr = n) /\
  (forall name pn, childNodes nd !! name = Some pn -> is_Some (nodes s !! pn)).

(** What holds of each reference. *)
Definition ref_ok own fresh loose s (r : rid) (fr : fidRef File) : Prop :=
  refs fr = Z.of_nat (multiplicity r (tokens own fresh loose s)) /\
  (refs fr = 0 -> r ∈ closes (trace s) \/ r ∈ fresh) /\
  (r < next_ref s)%nat /\
  is_Some (nodes s !! fr_pathNode fr) /\
  (forall p, parent fr = Some p -> is_Some (refHeap s !! p)).

Record RC own fresh loose s : Prop := {
  RC_ref : map_Forall (ref_ok own fresh loose s) (refHeap s);
  RC_tokens : forall r, r ∈ tokens own fresh loose s -> is_Some (refHeap s !! r);
  RC_closed : forall r, r ∈ closes (trace s) ->
    r ∉ tokens own fresh loose s /\ is_Some (refHeap s !! r);
  RC_fresh : forall r, r ∈ fresh ->
    r ∉ closes (trace s) /\ r ∉ tokens own fresh loose s /\ is_Some (refHeap s !! r);
  RC_node : map_Forall (node_ok s) (nodes s);
  RC_trace : trace_ok (trace s);
  RC_root : is_Some (nodes s !! pathTree);
}.

(** ** Consequences *)

(** A holder keeps its reference open. *)
Lemma RC_open own fresh loose s r :
  RC own fresh loose s -> r ∈ tokens own fresh loose s -> r ∉ closes (trace s).
Proof. intros HR Hr Hc. by apply (RC_closed _ _ _ _ HR) in Hc as [? _]. Qed.

Lemma RC_not_fresh own fresh loose s r :
  RC own fresh loose s -> r ∈ tokens own fresh loose s -> r ∉ fresh.
Proof. intros HR Hr Hf. by apply (RC_fresh _ _ _ _ HR) in Hf as (_ & ? & _). Qed.

Lemma own_token own fresh loose s r : r ∈ own -> r ∈ tokens own fresh loose s.
Proof. unfold tokens. multiset_solver. Qed.
Lemma loose_token own fresh loose s r : r ∈ loose -> r ∈ tokens own fresh loose s.
Proof. unfold tokens. multiset_solver. Qed.
Lemma fid_token own fresh loose s c cs fid r :
  conns s !! c = Some cs -> fids cs !! fid = Some r -> r ∈ tokens own fresh loose s.
Proof.
  intros Hc Hf. unfold tokens. assert (r ∈ fid_tokens (conns s)); [|multiset_solver].
  eapply elem_of_msum; [exact Hc|]. eapply elem_of_msum; [exact Hf|]. multiset_solver.
Qed.
Lemma parent_token own fresh loose s r fr p :
  refHeap s !! r = Some fr -> parent fr = Some p -> ~ uncounted (closes (trace s)) fresh loose r ->
  p ∈ tokens own fresh loose s.
Proof.
  intros Hr Hp Hu. unfold tokens.
  assert (p ∈ parent_tokens (closes (trace s)) fresh loose (refHeap s)); [|multiset_solver].
  eapply elem_of_msum; [exact Hr|]. cbn. rewrite decide_False by done. rewrite Hp. cbn.
  multiset_solver.
Qed.

(** The count of a reference with a holder is positive. *)
Lemma RC_positive own fresh loose s r fr :
  RC own fresh loose s -> refHeap s !! r = Some fr -> r ∈ tokens own fresh loose s ->
  0 < refs fr.
Proof.
  intros HR Hr Ht. destruct (RC_ref _ _ _ _ HR _ _ Hr) as [-> _].
  rewrite elem_of_multiplicity in Ht. lia.
Qed.
End invariant.
