(* ===== verification/RefSteps.v ===== *)
(** * The steps of the reference count invariant

    How each change of the state moves the holders of RefCount: the lemmas about
    states under the operations of RefOps. *)
From stdpp Require Import gmultiset.
From S2P Require Import Prelude Errno Buffer Types File State RefCount.

Section steps.
Context {W File : Type}.
Local Notation St := (St W File).
Implicit Types (s : St) (own loose : gmultiset rid) (fresh : gset rid).

(** ** Events *)

(** The same state but for the world, the counters of nodes and the trace. *)
Lemma RC_same own fresh loose s s' :
  RC own fresh loose s ->
  nodes s' = nodes s -> refHeap s' = refHeap s -> conns s' = conns s ->
  next_ref s' = next_ref s -> closes (trace s') = closes (trace s) -> trace_ok (trace s') ->
  RC own fresh loose s'.
Proof.
  intros HR Hn Hh Hc Hr Ht Hok.
  assert (Htok : tokens own fresh loose s' = tokens own fresh loose s)
    by (unfold tokens; by rewrite Hc, Ht, Hh).
  destruct HR as [H1 H2 H3 H4 H5 H6 H7]. split.
  - rewrite Hh. eapply map_Forall_impl; [exact H1|]. intros r fr.
    unfold ref_ok. by rewrite Htok, Ht, Hr, Hn, Hh.
  - intros r. rewrite Htok, Hh. apply H2.
  - intros r. rewrite Htok, Hh, Ht. apply H3.
  - intros r. rewrite Htok, Hh, Ht. apply H4.
  - rewrite Hn. eapply map_Forall_impl; [exact H5|]. intros n nd.
    unfold node_ok. by rewrite Ht, Hh, Hn.
  - exact Hok.
  - by rewrite Hn.
Qed.

(** A call that closes no reference, through an open one or through none. *)
Lemma RC_event own fresh loose s (w : W) (ev : event File) :
  RC own fresh loose s ->
  (forall r, ev_ref ev = Some r -> r ∉ closes (trace s) /\ is_close (ev_call ev) = false) ->
  RC own fresh loose
    (mk_St w (nodes s) (refHeap s) (conns s) (next_node s) (next_ref s) (ev :: trace s)).
Proof.
  intros HR Hev. eapply RC_same; [exact HR|done..| |].
  - cbn. destruct (ev_ref ev) as [r|] eqn:E.
    + destruct (Hev r eq_refl) as [_ ->]. done.
    + by destruct (is_close _).
  - split; [|by destruct HR]. intros r Hr. by apply Hev.
Qed.

(** ** The heap *)

Lemma parent_tokens_same_parent cl fresh loose (h : gmap rid (fidRef File)) r fr fr' :
  h !! r = Some fr -> parent fr' = parent fr ->
  parent_tokens cl fresh loose (<[r := fr']> h) = parent_tokens cl fresh loose h.
Proof.
  intros Hr Hp. unfold parent_tokens.
  pose proof (msum_update (fun r fr => if decide (uncounted cl fresh loose r) then ∅
    else tok (parent fr)) h r fr fr' Hr) as H. cbn in H. rewrite Hp in H. multiset_solver.
Qed.

Definition with_heap s (h : gmap rid (fidRef File)) : St :=
  mk_St (world s) (nodes s) h (conns s) (next_node s) (next_ref s) (trace s).

(** The nodes do not look at counts, flags or files. *)
Lemma node_ok_heap s s' n nd :
  node_ok s n nd -> trace s' = trace s -> nodes s' = nodes s ->
  (forall r fr, refHeap s !! r = Some fr -> exists fr', refHeap s' !! r = Some fr' /\
     parent fr' = parent fr /\ fr_pathNode fr' = fr_pathNode fr) ->
  node_ok s' n nd.
Proof.
  intros (H1 & H2 & H3) Ht Hnodes Hh. split; [done|]. rewrite Hnodes. split; [|done].
  intros r name Hr.
  destruct (H2 r name Hr) as (Hc & fr & p & pr & Hfr & Hp & Hpr & Hn). rewrite Ht.
  split; [done|]. destruct (Hh _ _ Hfr) as (fr' & Hfr' & Hp' & _).
  destruct (Hh _ _ Hpr) as (pr' & Hpr' & _ & Hn'). exists fr', p, pr'.
  split_and!; [done|congruence|done|congruence].
Qed.

Lemma same_shape_insert (h : gmap rid (fidRef File)) r fr fr' :
  h !! r = Some fr -> parent fr' = parent fr -> fr_pathNode fr' = fr_pathNode fr ->
  forall r' fr0, h !! r' = Some fr0 -> exists fr1, <[r := fr']> h !! r' = Some fr1 /\
    parent fr1 = parent fr0 /\ fr_pathNode fr1 = fr_pathNode fr0.
Proof.
  intros Hr Hp Hn r' fr0 Hr'. destruct (decide (r = r')) as [<-|Hne].
  - rewrite lookup_insert_eq. assert (fr0 = fr) as -> by congruence. eauto.
  - rewrite lookup_insert_ne by done. eauto.
Qed.

(** The master step: one record changes its count, and the ownership changes so
    that the holders change at this reference only. *)
Lemma RC_update own fresh loose own' fresh' loose' s r fr fr' :
  let s' := with_heap s (<[r := fr']> (refHeap s)) in
  RC own fresh loose s -> refHeap s !! r = Some fr ->
  parent fr' = parent fr -> fr_pathNode fr' = fr_pathNode fr ->
  refs fr' - refs fr = Z.of_nat (multiplicity r (tokens own' fresh' loose' s'))
                       - Z.of_nat (multiplicity r (tokens own fresh loose s)) ->
  (forall r', r' <> r -> multiplicity r' (tokens own' fresh' loose' s')
                         = multiplicity r' (tokens own fresh loose s)) ->
  (forall r', r' <> r -> r' ∈ fresh' <-> r' ∈ fresh) ->
  (r ∈ fresh' -> r ∉ closes (trace s)) ->
  (r ∈ closes (trace s) \/ r ∈ fresh' -> refs fr' = 0) ->
  (refs fr' = 0 -> r ∈ closes (trace s) \/ r ∈ fresh') ->
  RC own' fresh' loose' s'.
Proof.
  intros s' HR Hr Hp Hn Hd Hsame Hf Hfc H0 H0'.
  assert (Hin : forall r', r' <> r ->
    r' ∈ tokens own' fresh' loose' s' <-> r' ∈ tokens own fresh loose s).
  { intros r' Hne. by rewrite !elem_of_multiplicity, Hsame. }
  assert (Hdom : forall r', is_Some (refHeap s' !! r') <-> is_Some (refHeap s !! r')).
  { intros r'. unfold s', with_heap. cbn [refHeap]. destruct (decide (r = r')) as [<-|Hne].
    - rewrite lookup_insert_eq, Hr. split; by eexists.
    - by rewrite lookup_insert_ne. }
  pose proof (RC_ref _ _ _ _ HR _ _ Hr) as (Hc & Hz & Hlt & Hnd & Hpar).
  assert (Hin0 : refs fr' = 0 -> r ∉ tokens own' fresh' loose' s').
  { intros E. rewrite elem_of_multiplicity. lia. }
  split.
  - intros r' fr0 Hr'. destruct (decide (r = r')) as [<-|Hne].
    + unfold s', with_heap in Hr'. cbn [refHeap] in Hr'. rewrite lookup_insert_eq in Hr'.
      injection Hr' as <-. split; [lia|]. split; [done|]. split; [done|].
      split; [by rewrite Hn|]. intros p. rewrite Hp, Hdom. auto.
    + unfold s', with_heap in Hr'. cbn [refHeap] in Hr'. rewrite lookup_insert_ne in Hr' by done.
      destruct (RC_ref _ _ _ _ HR _ _ Hr') as (Hc' & Hz' & Hlt' & Hnd' & Hpar').
      split; [by rewrite Hsame|]. split; [by rewrite Hf by done|]. split; [done|].
      split; [done|]. intros p. rewrite Hdom. auto.
  - intros r' Hr'. rewrite Hdom. destruct (decide (r' = r)) as [->|Hne]; [by eexists|].
    eapply RC_tokens; [exact HR|]. by apply Hin.
  - intros r' Hr'. destruct (RC_closed _ _ _ _ HR _ Hr') as [Ht Hs]. rewrite Hdom.
    split; [|done]. destruct (decide (r' = r)) as [->|Hne]; [|by rewrite Hin].
    apply Hin0, H0. by left.
  - intros r' Hr'. destruct (decide (r' = r)) as [->|Hne].
    + split; [by apply Hfc|]. rewrite Hdom. split; [apply Hin0, H0; by right|by eexists].
    + rewrite Hf in Hr' by done. destruct (RC_fresh _ _ _ _ HR _ Hr') as (Ht & Hf' & Hs).
      rewrite Hdom, Hin by done. done.
  - eapply map_Forall_impl; [exact (RC_node _ _ _ _ HR)|]. intros n nd Hok. cbn in Hok |- *.
    eapply node_ok_heap; [exact Hok|done|done|]. by eapply same_shape_insert.
  - apply HR.
  - apply HR.
Qed.

(** The tokens of the parents when [r] gets counted by its parent. *)
Lemma parent_tokens_count cl fresh loose fresh' loose' (h : gmap rid (fidRef File)) r fr :
  h !! r = Some fr ->
  uncounted cl fresh loose r -> ~ uncounted cl fresh' loose' r ->
  (forall r', r' <> r -> uncounted cl fresh' loose' r' <-> uncounted cl fresh loose r') ->
  parent_tokens cl fresh' loose' h = tok (parent fr) ⊎ parent_tokens cl fresh loose h.
Proof.
  intros Hr Hu Hu' Hsame. unfold parent_tokens.
  pose proof (msum_change (fun r fr => if decide (uncounted cl fresh loose r) then ∅
    else tok (parent fr)) (fun r fr => if decide (uncounted cl fresh' loose' r) then ∅
    else tok (parent fr)) h r fr Hr) as H. cbn in H.
  rewrite (decide_True (P := uncounted cl fresh loose r)) in H by done.
  rewrite (decide_False (P := uncounted cl fresh' loose' r)) in H by done.
  rewrite H; [multiset_solver|]. intros k v Hk _. apply decide_ext. symmetry. by apply Hsame.
Qed.

(** A count changes, and the references that the code owns with it. *)
Lemma RC_set_ref own own' fresh loose s r fr fr' :
  RC own fresh loose s -> refHeap s !! r = Some fr ->
  parent fr' = parent fr -> fr_pathNode fr' = fr_pathNode fr ->
  refs fr' - refs fr = Z.of_nat (multiplicity r own') - Z.of_nat (multiplicity r own) ->
  (forall r', r' <> r -> multiplicity r' own' = multiplicity r' own) ->
  (own' = own \/ (r ∉ closes (trace s) /\ r ∉ fresh /\ 0 < refs fr')) ->
  RC own' fresh loose (with_heap s (<[r := fr']> (refHeap s))).
Proof.
  intros HR Hr Hp Hn Hd Hsame Hor.
  assert (Hpt : parent_tokens (closes (trace s)) fresh loose (<[r := fr']> (refHeap s))
    = parent_tokens (closes (trace s)) fresh loose (refHeap s))
    by (by eapply parent_tokens_same_parent).
  assert (Hself : own' = own -> refs fr' = refs fr) by (intros ->; lia).
  pose proof (RC_ref _ _ _ _ HR _ _ Hr) as (Hc & Hz & _).
  eapply RC_update; [exact HR|exact Hr|done|done| | |done| | |].
  - unfold tokens, with_heap. cbn [conns trace refHeap]. rewrite Hpt.
    rewrite !multiplicity_disj_union. lia.
  - intros r' Hne. unfold tokens, with_heap. cbn [conns trace refHeap]. rewrite Hpt.
    by rewrite !multiplicity_disj_union, Hsame.
  - intros Hf. by apply (RC_fresh _ _ _ _ HR) in Hf as [? _].
  - intros Hcf. assert (r ∉ tokens own fresh loose s) as Ht.
    { destruct Hcf as [H|H]; [by apply (RC_closed _ _ _ _ HR) in H as [? _]|].
      by apply (RC_fresh _ _ _ _ HR) in H as (_ & ? & _). }
    rewrite elem_of_multiplicity in Ht.
    destruct Hor as [E|(? & ? & _)]; [rewrite (Hself E); lia|by destruct Hcf].
  - intros H0. destruct Hor as [E|(_ & _ & ?)]; [apply Hz; rewrite <- Hself; done|lia].
Qed.

(** A reference that was made gets its first holder; its parent counts it. *)
Lemma RC_promote own fresh loose s r fr fr' :
  RC (tok (parent fr) ⊎ own) ({[r]} ∪ fresh) loose s -> refHeap s !! r = Some fr ->
  parent fr' = parent fr -> fr_pathNode fr' = fr_pathNode fr -> refs fr' = 1 -> r ∉ fresh ->
  RC ({[+ r +]} ⊎ own) fresh loose (with_heap s (<[r := fr']> (refHeap s))).
Proof.
  intros HR Hr Hp Hn H1 Hf.
  destruct (RC_fresh _ _ _ _ HR r) as (Hcl & Hnt & _); [set_solver|].
  pose proof (RC_ref _ _ _ _ HR _ _ Hr) as (Hc & Hz & _).
  assert (Hl : r ∉ loose) by (intros H; by eapply Hnt, loose_token).
  rewrite elem_of_multiplicity in Hnt.
  assert (Ht : tokens ({[+ r +]} ⊎ own) fresh loose (with_heap s (<[r := fr']> (refHeap s)))
    = {[+ r +]} ⊎ tokens (tok (parent fr) ⊎ own) ({[r]} ∪ fresh) loose s).
  { unfold tokens, with_heap. cbn [conns trace refHeap].
    rewrite (parent_tokens_same_parent _ _ _ _ _ fr) by done.
    rewrite (parent_tokens_count (closes (trace s)) ({[r]} ∪ fresh) loose fresh loose _ r fr).
    - multiset_solver.
    - done.
    - right; left. set_solver.
    - intros [?|[?|?]]; done.
    - intros r' Hne. unfold uncounted. set_solver. }
  eapply RC_update; [exact HR|exact Hr|done|done|..]; rewrite ?Ht.
  - rewrite multiplicity_disj_union, multiplicity_singleton_eq. lia.
  - intros r' Hne. by rewrite multiplicity_disj_union, multiplicity_singleton_ne.
  - set_solver.
  - done.
  - intros [?|?]; done.
  - lia.
Qed.

(** The last holder goes; the parent no longer counts the reference. *)
Lemma RC_demote own fresh loose s r fr fr' :
  RC ({[+ r +]} ⊎ own) fresh loose s -> refHeap s !! r = Some fr -> refs fr = 1 ->
  parent fr' = parent fr -> fr_pathNode fr' = fr_pathNode fr -> refs fr' = 0 ->
  RC (tok (parent fr) ⊎ own) ({[r]} ∪ fresh) loose (with_heap s (<[r := fr']> (refHeap s))).
Proof.
  intros HR Hr H1 Hp Hn H0.
  assert (Hrt : r ∈ tokens ({[+ r +]} ⊎ own) fresh loose s)
    by (apply own_token; multiset_solver).
  pose proof (RC_open _ _ _ _ _ HR Hrt) as Hcl. pose proof (RC_not_fresh _ _ _ _ _ HR Hrt) as Hf.
  pose proof (RC_ref _ _ _ _ HR _ _ Hr) as (Hc & Hz & _).
  assert (Hl : r ∉ loose).
  { intros H. rewrite elem_of_multiplicity in H. unfold tokens in Hc.
    rewrite !multiplicity_disj_union, multiplicity_singleton_eq in Hc. lia. }
  assert (Ht : tokens ({[+ r +]} ⊎ own) fresh loose s = {[+ r +]} ⊎
    tokens (tok (parent fr) ⊎ own) ({[r]} ∪ fresh) loose
      (with_heap s (<[r := fr']> (refHeap s)))).
  { unfold tokens, with_heap. cbn [conns trace refHeap].
    rewrite (parent_tokens_same_parent _ _ _ _ _ fr) by done.
    rewrite (parent_tokens_count (closes (trace s)) ({[r]} ∪ fresh) loose fresh loose _ r fr).
    - multiset_solver.
    - done.
    - right; left. set_solver.
    - intros [?|[?|?]]; done.
    - intros r' Hne. unfold uncounted. set_solver. }
  eapply RC_update; [exact HR|exact Hr|done|done|..]; rewrite ?Ht.
  - rewrite multiplicity_disj_union, multiplicity_singleton_eq. lia.
  - intros r' Hne. by rewrite multiplicity_disj_union, multiplicity_singleton_ne.
  - set_solver.
  - done.
  - done.
  - intros _. right. set_solver.
Qed.

Lemma with_heap_id s r fr : refHeap s !! r = Some fr ->
  with_heap s (<[r := fr]> (refHeap s)) = s.
Proof. intros Hr. unfold with_heap. rewrite insert_id by done. by destruct s. Qed.

(** A rename takes an owned reference from its parent's count, ... *)
Lemma RC_detach own fresh loose s r fr :
  RC ({[+ r +]} ⊎ own) fresh loose s -> refHeap s !! r = Some fr -> r ∉ loose ->
  RC (tok (parent fr) ⊎ own) fresh ({[+ r +]} ⊎ loose) s.
Proof.
  intros HR Hr Hl.
  assert (Hrt : r ∈ tokens ({[+ r +]} ⊎ own) fresh loose s)
    by (apply own_token; multiset_solver).
  pose proof (RC_open _ _ _ _ _ HR Hrt) as Hcl. pose proof (RC_not_fresh _ _ _ _ _ HR Hrt) as Hf.
  pose proof (RC_positive _ _ _ _ _ _ HR Hr Hrt).
  assert (Ht : tokens (tok (parent fr) ⊎ own) fresh ({[+ r +]} ⊎ loose) s
    = tokens ({[+ r +]} ⊎ own) fresh loose s).
  { unfold tokens.
    rewrite (parent_tokens_count (closes (trace s)) fresh ({[+ r +]} ⊎ loose) fresh loose _ r fr).
    - multiset_solver.
    - done.
    - right; right. multiset_solver.
    - intros [?|[?|?]]; done.
    - intros r' Hne. unfold uncounted. multiset_solver. }
  pose proof (RC_update ({[+ r +]} ⊎ own) fresh loose (tok (parent fr) ⊎ own) fresh
    ({[+ r +]} ⊎ loose) s r fr fr) as HU. cbv zeta in HU.
  rewrite (with_heap_id s r fr Hr), Ht in HU.
  apply HU; try done; try lia. intros [?|?]; done.
Qed.

(** ... and gives it to the count of the new parent. *)
Lemma RC_attach own fresh loose s r fr :
  RC (tok (parent fr) ⊎ own) fresh ({[+ r +]} ⊎ loose) s -> refHeap s !! r = Some fr ->
  r ∉ loose -> RC ({[+ r +]} ⊎ own) fresh loose s.
Proof.
  intros HR Hr Hl.
  assert (Hrt : r ∈ tokens (tok (parent fr) ⊎ own) fresh ({[+ r +]} ⊎ loose) s)
    by (apply loose_token; multiset_solver).
  pose proof (RC_open _ _ _ _ _ HR Hrt) as Hcl. pose proof (RC_not_fresh _ _ _ _ _ HR Hrt) as Hf.
  pose proof (RC_positive _ _ _ _ _ _ HR Hr Hrt).
  assert (Ht : tokens ({[+ r +]} ⊎ own) fresh loose s
    = tokens (tok (parent fr) ⊎ own) fresh ({[+ r +]} ⊎ loose) s).
  { unfold tokens.
    rewrite (parent_tokens_count (closes (trace s)) fresh ({[+ r +]} ⊎ loose) fresh loose _ r fr).
    - multiset_solver.
    - done.
    - right; right. multiset_solver.
    - intros [?|[?|?]]; done.
    - intros r' Hne. unfold uncounted. multiset_solver. }
  pose proof (RC_update (tok (parent fr) ⊎ own) fresh ({[+ r +]} ⊎ loose) ({[+ r +]} ⊎ own)
    fresh loose s r fr fr) as HU. cbv zeta in HU.
  rewrite (with_heap_id s r fr Hr), Ht in HU.
  apply HU; try done; try lia. intros [?|?]; done.
Qed.

(** ** Path nodes *)

Definition with_nodes s (m : gmap nid pathNode) (next : nid) : St :=
  mk_St (world s) m (refHeap s) (conns s) next (next_ref s) (trace s).

(** Nodes may change, and be added, as long as each is well formed. *)
Lemma RC_with_nodes own fresh loose s m next :
  RC own fresh loose s -> map_Forall (node_ok s) m ->
  (forall n, is_Some (nodes s !! n) -> is_Some (m !! n)) ->
  RC own fresh loose (with_nodes s m next).
Proof.
  intros [H1 H2 H3 H4 H5 H6 H7] Hm Hd. split; try done.
  - eapply map_Forall_impl; [exact H1|]. intros r fr (Hc & Hz & Hlt & Hnd & Hp).
    split_and!; try done. cbn. auto.
  - eapply map_Forall_impl; [exact Hm|]. intros n nd (Ha & Hb & Hch).
    split; [done|]. split; [done|]. cbn. eauto.
  - by apply Hd.
Qed.

Lemma RC_set_node own fresh loose s n nd :
  RC own fresh loose s -> node_ok s n nd ->
  RC own fresh loose (with_nodes s (<[n := nd]> (nodes s)) (next_node s)).
Proof.
  intros HR Hnd. apply RC_with_nodes; [done| |].
  - apply map_Forall_insert_2; [done|apply HR].
  - intros n' Hn'. destruct (decide (n = n')) as [<-|Hne].
    + rewrite lookup_insert_eq. by eexists.
    + by rewrite lookup_insert_ne.
Qed.

Lemma node_ok_new s n : node_ok s n newPathNode.
Proof.
  split_and!; cbn; intros r name; [|by rewrite lookup_empty..].
  rewrite lookup_empty. split; [done|]. intros (m & Hm & _). by rewrite lookup_empty in Hm.
Qed.

(** ** Connections *)

Definition with_conns s (cs : gmap cid connState) : St :=
  mk_St (world s) (nodes s) (refHeap s) cs (next_node s) (next_ref s) (trace s).

(** FIDs and the running code pass references to each other. *)
Lemma RC_with_conns own own' fresh loose s cs :
  RC own fresh loose s -> fid_tokens cs ⊎ own' = fid_tokens (conns s) ⊎ own ->
  RC own' fresh loose (with_conns s cs).
Proof.
  intros [H1 H2 H3 H4 H5 H6 H7] Ht.
  assert (Htok : tokens own' fresh loose (with_conns s cs) = tokens own fresh loose s).
  { unfold tokens, with_conns. cbn [conns trace refHeap]. multiset_solver. }
  split; try done.
  - eapply map_Forall_impl; [exact H1|]. intros r fr. unfold ref_ok. by rewrite Htok.
  - intros r. rewrite Htok. apply H2.
  - intros r. rewrite Htok. apply H3.
  - intros r. rewrite Htok. apply H4.
Qed.

Definition conn_tokens (cs : connState) : gmultiset rid :=
  msum (fun _ r => {[+ r +]}) (fids cs).

Lemma fid_tokens_insert (m : gmap cid connState) c cs cs' :
  m !! c = Some cs ->
  conn_tokens cs ⊎ fid_tokens (<[c := cs']> m) = conn_tokens cs' ⊎ fid_tokens m.
Proof. exact (msum_update (fun _ c => conn_tokens c) m c cs cs'). Qed.

(** ** A new reference *)

Definition with_new_ref s (fr : fidRef File) : St :=
  mk_St (world s) (nodes s) (<[next_ref s := fr]> (refHeap s)) (conns s) (next_node s)
    (S (next_ref s)) (trace s).

Lemma RC_next_ref own fresh loose s : RC own fresh loose s -> refHeap s !! next_ref s = None.
Proof.
  intros HR. destruct (refHeap s !! next_ref s) as [fr|] eqn:E; [|done].
  destruct (RC_ref _ _ _ _ HR _ _ E) as (_ & _ & ? & _). lia.
Qed.

Lemma RC_new_ref own fresh loose s fr :
  RC own fresh loose s -> refs fr = 0 -> is_Some (nodes s !! fr_pathNode fr) ->
  (forall p, parent fr = Some p -> is_Some (refHeap s !! p)) ->
  RC own ({[next_ref s]} ∪ fresh) loose (with_new_ref s fr) /\ next_ref s ∉ fresh.
Proof.
  intros HR H0 Hn Hp. pose proof (RC_next_ref _ _ _ _ HR) as Hnew. set (r := next_ref s) in *.
  destruct HR as [H1 H2 H3 H4 H5 H6 H7].
  assert (Hnone : ~ is_Some (refHeap s !! r)) by (rewrite Hnew; by intros [? ?]).
  assert (Hf : r ∉ fresh) by (intros H; by apply H4 in H as (_ & _ & ?)).
  assert (Hcl : r ∉ closes (trace s)) by (intros H; by apply H3 in H as [_ ?]).
  assert (Hnt : r ∉ tokens own fresh loose s) by (intros H; by apply H2 in H).
  assert (Htok : tokens own ({[r]} ∪ fresh) loose (with_new_ref s fr) = tokens own fresh loose s).
  { unfold tokens, with_new_ref. cbn [conns trace refHeap]. fold r. unfold parent_tokens.
    rewrite msum_insert_new by done. rewrite decide_True by (right; left; set_solver).
    rewrite (msum_ext _ (fun r0 fr0 => if decide (uncounted (closes (trace s)) fresh loose r0)
      then ∅ else tok (parent fr0))); [multiset_solver|].
    intros k v Hk. apply decide_ext. assert (k <> r) by congruence. unfold uncounted.
    set_solver. }
  assert (Hdom : forall r', is_Some (refHeap s !! r') ->
    is_Some (refHeap (with_new_ref s fr) !! r')).
  { intros r' Hr'. cbn. fold r. rewrite lookup_insert_ne; [done|]. by intros <-. }
  split; [|done]. split.
  - apply map_Forall_insert_2.
    + unfold ref_ok. rewrite Htok. split_and!; try done; [| |cbn; lia|].
      * rewrite elem_of_multiplicity in Hnt. fold r. lia.
      * intros _. right. set_solver.
      * intros p Hpp. by apply Hdom, Hp.
    + eapply map_Forall_impl; [exact H1|]. intros r' fr' (Hc & Hz & Hlt & Hnd & Hpar).
      unfold ref_ok. rewrite Htok. split_and!; try done; [| |].
      * intros E. destruct (Hz E); [by left|right; set_solver].
      * cbn. unfold r. lia.
      * intros p Hpp. by apply Hdom, Hpar.
  - intros r'. rewrite Htok. intros H. by apply Hdom, H2.
  - intros r' H. rewrite Htok. destruct (H3 r' H). split; [done|by apply Hdom].
  - intros r' H. rewrite Htok. apply elem_of_union in H as [H|H].
    + apply elem_of_singleton in H as ->. split_and!; [done|done|]. cbn. fold r.
      rewrite lookup_insert_eq. by eexists.
    + destruct (H4 r' H) as (? & ? & ?). split_and!; [done|done|by apply Hdom].
  - eapply map_Forall_impl; [exact H5|]. intros n nd Hok. eapply node_ok_heap; [exact Hok|done|done|].
    intros r' fr' Hr'. cbn. fold r. exists fr'. rewrite lookup_insert_ne; [done|congruence].
  - done.
  - done.
Qed.

(** ** Closing *)

(** The file of a reference without holders is closed, the nodes having no entry for
    it. *)
Lemma RC_close own fresh loose s (w : W) (ev : event File) r :
  RC own ({[r]} ∪ fresh) loose s -> r ∉ fresh -> ev_ref ev = Some r ->
  is_close (ev_call ev) = true ->
  map_Forall (fun _ nd => childRefNames nd !! r = None) (nodes s) ->
  RC own fresh loose
    (mk_St w (nodes s) (refHeap s) (conns s) (next_node s) (next_ref s) (ev :: trace s)).
Proof.
  intros HR Hf Hev Hclose Hnone. set (s' := mk_St _ _ _ _ _ _ _).
  assert (Hcl : closes (trace s') = r :: closes (trace s)) by (cbn; by rewrite Hclose, Hev).
  destruct (RC_fresh _ _ _ _ HR r) as (Hrc & Hrt & Hrs); [set_solver|].
  destruct HR as [H1 H2 H3 H4 H5 H6 H7].
  assert (Htok : tokens own fresh loose s' = tokens own ({[r]} ∪ fresh) loose s).
  { unfold tokens. rewrite Hcl. cbn [conns refHeap s']. do 3 f_equal.
    apply msum_ext. intros k v Hk. apply decide_ext. unfold uncounted. set_solver. }
  split.
  - eapply map_Forall_impl; [exact H1|]. intros r' fr' (Hc & Hz & Hlt & Hnd & Hpar).
    unfold ref_ok. rewrite Htok, Hcl. split_and!; try done. intros E. specialize (Hz E).
    set_solver.
  - intros r'. rewrite Htok. apply H2.
  - intros r'. rewrite Htok, Hcl. rewrite elem_of_cons. intros [->|H]; [done|by apply H3].
  - intros r' H. rewrite Htok, Hcl. destruct (H4 r') as (? & ? & ?); [set_solver|].
    split_and!; [|done|done]. rewrite elem_of_cons. intros [->|?]; done.
  - intros n nd Hn. destruct (H5 n nd Hn) as (Ha & Hb & Hch).
    split; [done|]. split; [|exact Hch]. intros r' name Hr'.
    destruct (Hb r' name Hr') as (Hc & Hd). split; [|done]. rewrite Hcl, elem_of_cons.
    intros [->|?]; [|done]. by rewrite (Hnone n nd Hn) in Hr'.
  - cbn. split; [|done]. intros r' Hr'. assert (r' = r) as -> by congruence. done.
  - done.
Qed.

(** ** Moving and removing children *)

(** A reference that no node has an entry for. *)
Definition nowhere s (r : rid) : Prop :=
  map_Forall (fun _ nd => childRefNames nd !! r = None) (nodes s).

(** A reference is an entry only of its parent's node. *)
Lemma RC_nowhere_parent own fresh loose s r fr n nd name :
  RC own fresh loose s -> refHeap s !! r = Some fr -> nodes s !! n = Some nd ->
  childRefNames nd !! r = Some name ->
  exists p pr, parent fr = Some p /\ refHeap s !! p = Some pr /\ fr_pathNode pr = n.
Proof.
  intros HR Hr Hn Hname. destruct (RC_node _ _ _ _ HR n nd Hn) as (_ & H2 & _).
  destruct (H2 r name Hname) as (_ & fr' & p & pr & Hfr & Hp & Hpr & Hpn).
  exists p, pr. split_and!; congruence.
Qed.

(** A new parent for a reference that is on the move. *)
Lemma RC_set_parent own fresh loose s r fr q :
  RC own fresh loose s -> refHeap s !! r = Some fr -> r ∈ loose -> nowhere s r ->
  is_Some (refHeap s !! q) ->
  RC own fresh loose (with_heap s (<[r := set_parent (Some q) fr]> (refHeap s))).
Proof.
  intros HR Hr Hl Hno Hq.
  assert (Htok : tokens own fresh loose (with_heap s (<[r := set_parent (Some q) fr]> (refHeap s)))
    = tokens own fresh loose s).
  { unfold tokens, with_heap. cbn [conns trace refHeap]. do 3 f_equal. unfold parent_tokens.
    pose proof (msum_update (fun r0 fr0 => if decide (uncounted (closes (trace s)) fresh loose r0)
      then ∅ else tok (parent fr0)) (refHeap s) r fr (set_parent (Some q) fr) Hr) as H.
    cbn in H. rewrite !(decide_True (P := uncounted _ _ _ r)) in H by (right; by right).
    by rewrite !(left_id_L ∅ disj_union) in H. }
  assert (Hdom : forall r', is_Some (refHeap s !! r') -> is_Some
    (refHeap (with_heap s (<[r := set_parent (Some q) fr]> (refHeap s))) !! r')).
  { intros r' Hr'. cbn. destruct (decide (r = r')) as [<-|Hne].
    - rewrite lookup_insert_eq. by eexists.
    - by rewrite lookup_insert_ne. }
  destruct HR as [H1 H2 H3 H4 H5 H6 H7]. split.
  - intros r' fr' Hr'. cbn in Hr'. unfold ref_ok. rewrite Htok.
    apply lookup_insert_Some in Hr' as [[<- <-]|[Hne Hr']].
    + destruct (H1 _ _ Hr) as (Hc & Hz & Hlt & Hnd & Hpar). split_and!; try done.
      intros p [= <-]. by apply Hdom.
    + destruct (H1 _ _ Hr') as (Hc & Hz & Hlt & Hnd & Hpar). split_and!; try done.
      intros p Hp. by apply Hdom, Hpar.
  - intros r'. rewrite Htok. intros H. by apply Hdom, H2.
  - intros r' H. rewrite Htok. destruct (H3 r' H). split; [done|by apply Hdom].
  - intros r' H. rewrite Htok. destruct (H4 r' H) as (? & ? & ?).
    split_and!; [done|done|by apply Hdom].
  - intros n nd Hn. destruct (H5 n nd Hn) as (Ha & Hb & Hch).
    split; [done|]. split; [|exact Hch]. intros r' name Hname.
    destruct (Hb r' name Hname) as (Hc & fr' & p & pr & Hfr & Hp & Hpr & Hpn).
    split; [done|]. assert (r <> r') by (intros <-; by rewrite (Hno n nd Hn) in Hname).
    cbn. destruct (decide (r = p)) as [<-|Hne].
    + exists fr', r, (set_parent (Some q) fr). rewrite lookup_insert_ne, lookup_insert_eq by done.
      split_and!; try done. cbn. congruence.
    + exists fr', p, pr. by rewrite !lookup_insert_ne.
  - done.
  - done.
Qed.

Lemma node_ok_remove s n nd r name m :
  node_ok s n nd -> childRefNames nd !! r = Some name -> childRefs nd !! name = Some m ->
  node_ok s n (set_childRefs
    (if (size (m ∖ {[r]}) =? 0)%nat then delete name else <[name := m ∖ {[r]}]>) (delete r) nd).
Proof.
  intros (H1 & H2 & H3) Hr Hm. split_and!; [| |exact H3]; cbn.
  - intros r' name'. rewrite lookup_delete_Some, H1. split.
    + intros (Hne & m' & Hm' & Hin). destruct (decide (name = name')) as [<-|Hnn].
      * assert (m' = m) as -> by congruence.
        destruct (Nat.eqb_spec (size (m ∖ {[r]})) 0) as [E|_].
        -- apply size_empty_inv in E. set_solver.
        -- rewrite lookup_insert_eq. eexists. split; [done|]. set_solver.
      * exists m'. split; [|done]. case_match;
          [by rewrite lookup_delete_ne|by rewrite lookup_insert_ne].
    + intros (m' & Hm' & Hin). destruct (decide (name = name')) as [<-|Hnn].
      * case_match; [by rewrite lookup_delete_eq in Hm'|]. rewrite lookup_insert_eq in Hm'.
        injection Hm' as <-. split; [set_solver|]. exists m. split; [done|set_solver].
      * assert (childRefs nd !! name' = Some m') as Hm''
          by (case_match; [by rewrite lookup_delete_ne in Hm'|by rewrite lookup_insert_ne in Hm']).
        split; [|by eauto]. intros <-. assert (childRefNames nd !! r = Some name')
          by (apply H1; eauto). congruence.
  - intros r' name'. rewrite lookup_delete_Some. intros [_ H]. by eapply H2.
Qed.

(** As [removeWithName] takes an entry out. *)
Lemma node_ok_alter s n nd r name m :
  node_ok s n nd -> childRefs nd !! name = Some m -> r ∈ m ->
  node_ok s n (set_childRefs (alter (fun m => m ∖ {[r]}) name) (delete r) nd).
Proof.
  intros (H1 & H2 & H3) Hm Hin.
  assert (Hr : childRefNames nd !! r = Some name) by (apply H1; eauto).
  split_and!; [| |exact H3]; cbn.
  - intros r' name'. rewrite lookup_delete_Some, H1. split.
    + intros (Hne & m' & Hm' & Hin'). destruct (decide (name = name')) as [<-|Hnn].
      * exists (m' ∖ {[r]}). rewrite lookup_alter_eq, Hm'. split; [done|set_solver].
      * exists m'. by rewrite lookup_alter_ne.
    + intros (m' & Hm' & Hin'). destruct (decide (name = name')) as [<-|Hnn].
      * rewrite lookup_alter_eq, Hm in Hm'. injection Hm' as <-.
        split; [set_solver|]. exists m. split; [done|set_solver].
      * rewrite lookup_alter_ne in Hm' by done. split; [|by eauto]. intros <-.
        assert (childRefNames nd !! r = Some name') by (apply H1; eauto). congruence.
  - intros r' name'. rewrite lookup_delete_Some. intros [_ H]. by eapply H2.
Qed.

Lemma node_ok_add s n nd r name :
  node_ok s n nd -> childRefNames nd !! r = None -> r ∉ closes (trace s) ->
  (exists fr p pr, refHeap s !! r = Some fr /\ parent fr = Some p /\
       refHeap s !! p = Some pr /\ fr_pathNode pr = n) ->
  node_ok s n (set_childRefs (<[name := {[r]} ∪ default ∅ (childRefs nd !! name)]>)
                 (<[r := name]>) nd).
Proof.
  intros (H1 & H2 & H3) Hr Hc Hp. split_and!; [| |exact H3]; cbn.
  - intros r' name'. rewrite lookup_insert_Some. split.
    + intros [[<- <-]|[Hne H]].
      * rewrite lookup_insert_eq. eexists. split; [done|set_solver].
      * apply H1 in H as (m & Hm & Hin). destruct (decide (name = name')) as [<-|Hnn].
        -- rewrite lookup_insert_eq, Hm. eexists. split; [done|]. cbn. set_solver.
        -- rewrite lookup_insert_ne by done. eauto.
    + intros (m & Hm & Hin). destruct (decide (name = name')) as [<-|Hnn].
      * rewrite lookup_insert_eq in Hm. injection Hm as <-.
        destruct (decide (r = r')) as [<-|Hne]; [by left|]. right. split; [done|].
        apply H1. destruct (childRefs nd !! name) as [m0|] eqn:E; cbn in Hin; [|set_solver].
        exists m0. split; [done|set_solver].
      * rewrite lookup_insert_ne in Hm by done.
        assert (childRefNames nd !! r' = Some name') as Hr' by (apply H1; eauto).
        right. split; [congruence|done].
  - intros r' name'. rewrite lookup_insert_Some. intros [[<- <-]|[_ H]]; [done|by eapply H2].
Qed.
End steps.
