(* ===== verification/RefOps.v ===== *)
(** * Reference counting: the operations

    How the operations of FidRef move the holders of RefCount.  [ok o Q X] says how
    a computation ends: with [Q] when it returns and with [X] when it panics. *)
From stdpp Require Import gmultiset.
From S2P Require Import Prelude Errno Buffer Types File State PathTree FidRef.
From S2P Require Import RefCount RefSteps.

Section ok.
Context {W File : Type}.
Local Notation St := (St W File).
Local Notation M := (M W File).
Local Notation outcome := (outcome W File).

(** ** How a computation ends *)

Definition ok {A} (o : outcome A) (Q : A -> St -> Prop) (X : St -> Prop) : Prop :=
  match o with Ret a s => Q a s | Panic s => X s | Stuck => True end.

Lemma ok_conseq {A} (o : outcome A) (Q Q' : A -> St -> Prop) (X X' : St -> Prop) :
  ok o Q X -> (forall a s, Q a s -> Q' a s) -> (forall s, X s -> X' s) -> ok o Q' X'.
Proof. destruct o; cbn; auto. Qed.

Lemma ok_bind {A C} (m : M A) (k : A -> M C) h s Q X :
  ok (m h s) (fun a s' => ok (k a h s') Q X) X -> ok ((m ≫= k) h s) Q X.
Proof. unfold mbind, M_bind. by destruct (m h s). Qed.

(** Run [m] by its specification, then the rest. *)
Lemma ok_seq {A C} (m : M A) (k : A -> M C) h s Q X (Q' : A -> St -> Prop) X' :
  ok (m h s) Q' X' -> (forall a s', Q' a s' -> ok (k a h s') Q X) ->
  (forall s', X' s' -> X s') -> ok ((m ≫= k) h s) Q X.
Proof. intros Hm Hk HX. apply ok_bind. by eapply ok_conseq. Qed.

Lemma ok_with_lock {A} l w (m : M A) h s Q X :
  ok (m ((l, w) :: h) s) Q X -> ok (with_lock l w m h s) Q X.
Proof. unfold with_lock. by destruct (conflicts h l w). Qed.

Lemma ok_defer {A C} (d : M C) (m : M A) h s Q X (Q' : A -> St -> Prop) X' :
  ok (m h s) Q' X' ->
  (forall a s', Q' a s' -> ok (d h s') (fun _ s'' => Q a s'') X) ->
  (forall s', X' s' -> ok (d h s') (fun _ s'' => X s'') X) ->
  ok (defer d m h s) Q X.
Proof.
  unfold defer. intros Hm HQ HX. destruct (m h s) as [a s'|s'|]; [| |done]; cbn in Hm.
  - specialize (HQ _ _ Hm). by destruct (d h s').
  - specialize (HX _ Hm). by destruct (d h s').
Qed.

(** *** Reading the heap *)

Lemma ok_get_ref {C} r fr (k : fidRef File -> M C) h s Q X :
  refHeap s !! r = Some fr -> ok (k fr h s) Q X -> ok ((get_ref r ≫= k) h s) Q X.
Proof. intros Hr Hk. apply ok_bind. unfold get_ref. by rewrite Hr. Qed.

Lemma ok_get_node {C} n nd (k : pathNode -> M C) h s Q X :
  nodes s !! n = Some nd -> ok (k nd h s) Q X -> ok ((get_node n ≫= k) h s) Q X.
Proof. intros Hr Hk. apply ok_bind. unfold get_node. by rewrite Hr. Qed.

(** ** What the dropping of a reference may change *)

Record dec_ext (s s' : St) : Prop := {
  de_heap : forall r fr, refHeap s !! r = Some fr ->
    exists fr', refHeap s' !! r = Some fr' /\ parent fr' = parent fr /\
      fr_pathNode fr' = fr_pathNode fr;
  de_nodes : forall n nd', nodes s' !! n = Some nd' ->
    exists nd, nodes s !! n = Some nd /\ childRefNames nd' ⊆ childRefNames nd;
  de_conns : conns s' = conns s;
}.

#[export] Instance dec_ext_preorder : PreOrder dec_ext.
Proof.
  split.
  - intros s. split; [by eauto|by eauto|done].
  - intros s1 s2 s3 [H1 H2 H3] [H1' H2' H3']. split; [| |congruence].
    + intros r fr Hr. destruct (H1 _ _ Hr) as (fr' & Hr' & ? & ?).
      destruct (H1' _ _ Hr') as (fr'' & ? & ? & ?). exists fr''. split_and!; congruence.
    + intros n nd Hn. destruct (H2' _ _ Hn) as (nd' & Hn' & ?).
      destruct (H2 _ _ Hn') as (nd'' & ? & ?). exists nd''. split; [done|by etrans].
Qed.

Lemma dec_ext_nowhere s s' r : dec_ext s s' -> nowhere s r -> nowhere s' r.
Proof.
  intros He Hno n nd' Hn. destruct (de_nodes _ _ He _ _ Hn) as (nd & Hnd & Hsub).
  destruct (childRefNames nd' !! r) as [name|] eqn:E; [|done].
  eapply lookup_weaken in E; [|exact Hsub]. by rewrite (Hno _ _ Hnd) in E.
Qed.
End ok.

Section ops.
Context {W File : Type} {B : Backend W File} {RB : Returning B}.
Local Notation St := (St W File).
Local Notation M := (M W File).
Implicit Types (s : St) (own loose : gmultiset rid) (fresh : gset rid).

(** ** Dropping a reference *)

Lemma removeChild_node s n nd r :
  nodes s !! n = Some nd -> node_ok s n nd -> forall h,
  ok (removeChild n r h s)
    (fun _ s' => exists nd', s' = with_nodes s (<[n := nd']> (nodes s)) (next_node s) /\
       node_ok s n nd' /\ childRefNames nd' = delete r (childRefNames nd))
    (fun _ => False).
Proof.
  intros Hn Hok h. unfold removeChild. apply ok_with_lock. eapply ok_get_node; [exact Hn|].
  destruct (childRefNames nd !! r) as [name|] eqn:E.
  - pose proof Hok as (H1 & _). pose proof (proj1 (H1 _ _) E) as (m & Hm & Hin). rewrite Hm.
    eexists. split; [done|]. split; [|done]. by eapply node_ok_remove.
  - eexists. split; [done|]. split; [|done]. unfold set_childRefs. rewrite delete_id by done.
    by destruct nd.
Qed.

(** A reference without holders is removed from its parent's node and closed. *)
Lemma RC_close_removed own fresh loose s (w : W) ev r fr p pr nd' :
  RC own ({[r]} ∪ fresh) loose s -> r ∉ fresh -> ev_ref ev = Some r ->
  is_close (ev_call ev) = true -> refHeap s !! r = Some fr -> parent fr = Some p ->
  refHeap s !! p = Some pr -> node_ok s (fr_pathNode pr) nd' -> childRefNames nd' !! r = None ->
  RC own fresh loose
    (mk_St w (<[fr_pathNode pr := nd']> (nodes s)) (refHeap s) (conns s) (next_node s)
       (next_ref s) (ev :: trace s)).
Proof.
  intros HR Hf Hev Hcl Hr Hp Hpr Hok Hnone.
  pose proof (RC_set_node _ _ _ _ _ _ HR Hok) as HR'.
  eapply (RC_close _ _ _ _ w ev r HR'); [done..|]. cbn. intros n nd.
  rewrite lookup_insert_Some. intros [[<- <-]|[Hne Hn]]; [done|].
  destruct (childRefNames nd !! r) as [name|] eqn:E; [|done].
  destruct (RC_nowhere_parent _ _ _ _ _ _ _ _ _ HR Hr Hn E) as (p' & pr' & ? & ? & ?).
  congruence.
Qed.

Lemma RC_close_root own fresh loose s (w : W) ev r fr :
  RC own ({[r]} ∪ fresh) loose s -> r ∉ fresh -> ev_ref ev = Some r ->
  is_close (ev_call ev) = true -> refHeap s !! r = Some fr -> parent fr = None ->
  RC own fresh loose
    (mk_St w (nodes s) (refHeap s) (conns s) (next_node s) (next_ref s) (ev :: trace s)).
Proof.
  intros HR Hf Hev Hcl Hr Hp. eapply RC_close; [done..|]. intros n nd Hn.
  destruct (childRefNames nd !! r) as [name|] eqn:E; [|done].
  destruct (RC_nowhere_parent _ _ _ _ _ _ _ _ _ HR Hr Hn E) as (p' & pr' & ? & _). congruence.
Qed.

Lemma dec_ext_set_ref s r fr fr' :
  refHeap s !! r = Some fr -> parent fr' = parent fr -> fr_pathNode fr' = fr_pathNode fr ->
  dec_ext s (with_heap s (<[r := fr']> (refHeap s))).
Proof.
  intros Hr Hp Hn. split; [|by eauto|done]. cbn. by eapply same_shape_insert.
Qed.

(** The entry is taken out after the call of [Close]. *)
Lemma removeChild_closed own fresh loose s (w : W) ev r fr p pr h :
  RC own ({[r]} ∪ fresh) loose s -> r ∉ fresh -> ev_ref ev = Some r ->
  is_close (ev_call ev) = true -> refHeap s !! r = Some fr -> parent fr = Some p ->
  refHeap s !! p = Some pr ->
  ok (removeChild (fr_pathNode pr) r h
        (mk_St w (nodes s) (refHeap s) (conns s) (next_node s) (next_ref s) (ev :: trace s)))
    (fun _ s' => RC own fresh loose s' /\ dec_ext s s') (fun _ => False).
Proof.
  intros HR Hf Hev Hcl Hr Hp Hpr.
  destruct (RC_ref _ _ _ _ HR _ _ Hpr) as (_ & _ & _ & [nd Hn] & _).
  pose proof (removeChild_node s (fr_pathNode pr) nd r Hn (RC_node _ _ _ _ HR _ _ Hn) h) as HX.
  set (s2 := mk_St _ _ _ _ _ _ _).
  assert (removeChild (fr_pathNode pr) r h s2 = match removeChild (fr_pathNode pr) r h s
    with Ret _ s' => Ret tt (mk_St w (nodes s') (refHeap s') (conns s') (next_node s')
       (next_ref s') (ev :: trace s')) | Panic s' => Panic s2 | Stuck => Stuck end) as ->.
  { unfold removeChild, with_lock. destruct (conflicts h _ _); [done|].
    unfold mbind, M_bind, get_node. cbn [nodes s2]. rewrite Hn.
    destruct (childRefNames nd !! r) as [name|]; [|done]. by destruct (childRefs nd !! name). }
  destruct (removeChild _ r h s) as [[] s'|s'|]; [|done..]. cbn in HX |- *.
  destruct HX as (nd' & -> & Hok' & Hnames). split.
  - eapply (RC_close_removed _ _ _ s w ev r fr p pr nd'); try done.
    rewrite Hnames. apply lookup_delete_eq.
  - split; [by eauto 6| |done]. cbn. intros n nd0 Hn0.
    apply lookup_insert_Some in Hn0 as [[<- <-]|[_ ?]]; [|by eauto].
    exists nd. split; [done|]. rewrite Hnames. apply delete_subseteq.
Qed.

(** Dropping a reference that the code owns never panics. *)
Lemma DecRef_fuel_ok fuel own fresh loose h s r :
  RC ({[+ r +]} ⊎ own) fresh loose s ->
  ok (DecRef_fuel fuel r h s) (fun _ s' => RC own fresh loose s' /\ dec_ext s s')
    (fun _ => False).
Proof.
  revert own h s r. induction fuel as [|fuel IH]; intros own h s r HR; [done|].
  assert (Hrt : r ∈ tokens ({[+ r +]} ⊎ own) fresh loose s)
    by (apply own_token; multiset_solver).
  destruct (RC_tokens _ _ _ _ HR r Hrt) as [fr Hr].
  cbn [DecRef_fuel]. eapply ok_get_ref; [exact Hr|]. apply ok_bind. cbn [set_ref ok].
  set (fr' := set_refs (refs fr - 1) fr).
  change (mk_St (world s) (nodes s) (<[r:=fr']> (refHeap s)) (conns s) (next_node s)
            (next_ref s) (trace s)) with (with_heap s (<[r:=fr']> (refHeap s))).
  pose proof (dec_ext_set_ref s r fr fr' Hr eq_refl eq_refl) as He.
  destruct (Z.eqb_spec (refs fr - 1) 0) as [H0|H0].
  - pose proof (RC_demote _ _ _ _ _ _ fr' HR Hr ltac:(lia) eq_refl eq_refl H0) as HR1.
    pose proof (RC_not_fresh _ _ _ _ _ HR Hrt) as Hf.
    set (s1 := with_heap _ _) in *. assert (Hr1 : refHeap s1 !! r = Some fr')
      by apply lookup_insert_eq.
    apply ok_bind. rewrite call_returning. destruct (exec (FClose (file fr)) (world s1)) as [err w].
    cbn [ok]. destruct (parent fr) as [p|] eqn:Hp.
    + destruct (RC_ref _ _ _ _ HR1 _ _ Hr1) as (_ & _ & _ & _ & Hpar).
      destruct (Hpar p Hp) as [pr Hpr]. eapply ok_get_ref; [exact Hpr|].
      set (ev := event_of _ _ _ _).
      eapply ok_seq; [eapply (removeChild_closed ({[+ p +]} ⊎ own) _ _ s1 w ev r fr');
        done| |done].
      intros _ s3 [HR3 He3]. eapply ok_seq; [by apply IH| |done].
      intros pErr s4 [HR4 He4]. split; [done|]. do 2 (etrans; [eassumption|]). done.
    + cbn [tok] in HR1. rewrite (left_id_L ∅ disj_union) in HR1. cbn [ok mret M_ret]. split.
      * by eapply (RC_close_root own _ _ s1 w _ r fr').
      * etrans; [exact He|]. split; [by eauto|by eauto|done].
  - cbn. split; [|done].
    eapply RC_set_ref; [exact HR|exact Hr|done|done|..].
    + cbn [refs fr' set_refs]. rewrite multiplicity_disj_union, multiplicity_singleton_eq. lia.
    + intros r' Hne. by rewrite multiplicity_disj_union, multiplicity_singleton_ne.
    + right. split; [by eapply RC_open|]. split; [by eapply RC_not_fresh|].
      pose proof (RC_positive _ _ _ _ _ _ HR Hr Hrt). cbn. lia.
Qed.

Lemma DecRef_ok own fresh loose h s r :
  RC ({[+ r +]} ⊎ own) fresh loose s ->
  ok (DecRef r h s) (fun _ s' => RC own fresh loose s' /\ dec_ext s s') (fun _ => False).
Proof. intros HR. apply ok_bind. by apply DecRef_fuel_ok. Qed.

(** ** Acquiring a reference *)

Lemma IncRef_ok own fresh loose h s r :
  RC own fresh loose s -> r ∈ tokens own fresh loose s ->
  ok (IncRef r h s) (fun _ s' => RC ({[+ r +]} ⊎ own) fresh loose s' /\ dec_ext s s' /\
      nodes s' = nodes s)
    (fun _ => False).
Proof.
  intros HR Ht. destruct (RC_tokens _ _ _ _ HR r Ht) as [fr Hr].
  pose proof (RC_positive _ _ _ _ _ _ HR Hr Ht).
  unfold IncRef. eapply ok_get_ref; [exact Hr|]. cbn [set_ref ok].
  split; [|split; [by eapply dec_ext_set_ref|done]].
  eapply RC_set_ref; [exact HR|exact Hr|done|done|..].
  - cbn [refs set_refs]. rewrite multiplicity_disj_union, multiplicity_singleton_eq. lia.
  - intros r' Hne. by rewrite multiplicity_disj_union, multiplicity_singleton_ne.
  - right. split; [by eapply RC_open|]. split; [by eapply RC_not_fresh|]. cbn. lia.
Qed.

(** The first holder of a new reference: its parent is acquired for it. *)
Lemma IncRef_new own fresh loose h s r fr :
  RC (tok (parent fr) ⊎ own) ({[r]} ∪ fresh) loose s -> refHeap s !! r = Some fr -> r ∉ fresh ->
  ok (IncRef r h s) (fun _ s' => RC ({[+ r +]} ⊎ own) fresh loose s' /\ dec_ext s s' /\
      nodes s' = nodes s)
    (fun _ => False).
Proof.
  intros HR Hr Hf. unfold IncRef. eapply ok_get_ref; [exact Hr|]. cbn [set_ref ok].
  split; [|split; [by eapply dec_ext_set_ref|done]].
  eapply RC_promote; [exact HR|exact Hr|done|done| |done].
  destruct (RC_fresh _ _ _ _ HR r) as (_ & Hnt & _); [set_solver|].
  destruct (RC_ref _ _ _ _ HR _ _ Hr) as (Hc & _). rewrite elem_of_multiplicity in Hnt.
  cbn. lia.
Qed.

Lemma TryIncRef_ok own fresh loose h s r :
  RC own fresh loose s ->
  ok (TryIncRef r h s) (fun b s' => dec_ext s s' /\ nodes s' = nodes s /\
      RC (if (b : bool) then {[+ r +]} ⊎ own else own) fresh loose s')
    (fun s' => s' = s).
Proof.
  intros HR. unfold TryIncRef, mbind, M_bind, get_ref.
  destruct (refHeap s !! r) as [fr|] eqn:Hr; [|done].
  destruct (Z.leb_spec (refs fr) 0) as [H|H]; [by cbn|].
  destruct (RC_ref _ _ _ _ HR _ _ Hr) as (Hc & _).
  assert (Ht : r ∈ tokens own fresh loose s) by (rewrite elem_of_multiplicity; lia).
  pose proof (IncRef_ok _ _ _ h _ _ HR Ht) as HI. unfold IncRef, mbind, M_bind, get_ref in HI.
  rewrite Hr in HI. cbn in HI |- *. naive_solver.
Qed.

(** ** The FID table *)

Lemma conn_tokens_insert cs fid r :
  tok (fids cs !! fid) ⊎ conn_tokens (set_fids (<[fid := r]>) cs) = {[+ r +]} ⊎ conn_tokens cs.
Proof.
  unfold conn_tokens. cbn [fids set_fids]. destruct (fids cs !! fid) as [r0|] eqn:E; cbn [tok].
  - exact (msum_update (fun _ r => {[+ r +]}) (fids cs) fid r0 r E).
  - rewrite msum_insert_new by done. multiset_solver.
Qed.

Lemma conn_tokens_delete cs fid r :
  fids cs !! fid = Some r -> {[+ r +]} ⊎ conn_tokens (set_fids (delete fid) cs) = conn_tokens cs.
Proof.
  intros E. unfold conn_tokens. cbn [fids set_fids].
  by rewrite (msum_delete (fun _ r => {[+ r +]}) (fids cs) fid r E).
Qed.

Lemma set_conn_ok own own' fresh loose h s c cs cs' :
  RC own fresh loose s -> conns s !! c = Some cs ->
  conn_tokens cs' ⊎ own' = conn_tokens cs ⊎ own ->
  ok (set_conn c cs' h s) (fun _ s' => RC own' fresh loose s') (fun _ => False).
Proof.
  intros HR Hc Ht. eapply (RC_with_conns _ _ _ _ _ (<[c := cs']> (conns s))); [exact HR|].
  pose proof (fid_tokens_insert _ _ _ cs' Hc). multiset_solver.
Qed.

Lemma LookupFID_ok own fresh loose h s c fid :
  RC own fresh loose s ->
  ok (LookupFID c fid h s) (fun o s' => RC (tok o ⊎ own) fresh loose s' /\ dec_ext s s' /\
      is_Some (conns s' !! c))
    (fun s' => s' = s).
Proof.
  intros HR. apply ok_with_lock, ok_bind. unfold get_conn.
  destruct (conns s !! c) as [cs|] eqn:Hc; [|done]. cbn [ok].
  destruct (fids cs !! fid) as [r|] eqn:Hf.
  - eapply ok_seq; [by eapply IncRef_ok, fid_token| |by intros ? []].
    intros _ s' (HR' & He & _). split; [done|]. split; [done|]. by rewrite (de_conns _ _ He), Hc.
  - cbn [ok mret M_ret tok]. rewrite (left_id_L ∅ disj_union). by rewrite Hc.
Qed.

(** The table gets a holder of its own; the replaced reference loses one. *)
Lemma InsertFID_gen own fresh loose h s c fid r :
  (forall h, ok (IncRef r h s) (fun _ s' => RC ({[+ r +]} ⊎ own) fresh loose s' /\
      conns s' = conns s) (fun _ => False)) ->
  ok (InsertFID c fid r h s) (fun _ s' => RC own fresh loose s')
    (fun s' => s' = s /\ conns s !! c = None).
Proof.
  intros HI. apply ok_with_lock, ok_bind. unfold get_conn.
  destruct (conns s !! c) as [cs|] eqn:Hc; [|done]. cbn [ok].
  assert (Hins : ok ((IncRef r;; set_conn c (set_fids (<[fid:=r]>) cs)) ((fidMu c, true) :: h) s)
    (fun _ s' => RC (tok (fids cs !! fid) ⊎ own) fresh loose s') (fun _ => False)).
  { eapply ok_seq; [apply HI| |done]. intros _ s' [HR' Hc'].
    eapply set_conn_ok; [exact HR'|by rewrite Hc'|].
    pose proof (conn_tokens_insert cs fid r). multiset_solver. }
  destruct (fids cs !! fid) as [r0|]; cbn [tok] in Hins.
  - eapply ok_defer; [exact Hins| |done]. intros ? s' HR'. cbn beta in HR'.
    eapply ok_conseq; [by eapply DecRef_ok|by intros ? s'' [? _]|done].
  - rewrite (left_id_L ∅ disj_union) in Hins. by eapply ok_conseq.
Qed.

Lemma InsertFID_ok own fresh loose h s c fid r :
  RC own fresh loose s -> r ∈ own ->
  ok (InsertFID c fid r h s) (fun _ s' => RC own fresh loose s')
    (fun s' => s' = s /\ conns s !! c = None).
Proof.
  intros HR Hr. apply InsertFID_gen. intros h'.
  eapply ok_conseq; [by eapply IncRef_ok, own_token| |done].
  intros _ s' (? & He & _). split; [done|]. apply (de_conns _ _ He).
Qed.

Lemma InsertFID_new own fresh loose h s c fid r fr :
  RC (tok (parent fr) ⊎ own) ({[r]} ∪ fresh) loose s -> refHeap s !! r = Some fr -> r ∉ fresh ->
  ok (InsertFID c fid r h s) (fun _ s' => RC own fresh loose s')
    (fun s' => s' = s /\ conns s !! c = None).
Proof.
  intros HR Hr Hf. apply InsertFID_gen. intros h'.
  eapply ok_conseq; [by eapply IncRef_new| |done].
  intros _ s' (? & He & _). split; [done|]. apply (de_conns _ _ He).
Qed.

Lemma DeleteFID_ok own fresh loose h s c fid :
  RC own fresh loose s ->
  ok (DeleteFID c fid h s) (fun _ s' => RC own fresh loose s') (fun s' => s' = s).
Proof.
  intros HR. apply ok_with_lock, ok_bind. unfold get_conn.
  destruct (conns s !! c) as [cs|] eqn:Hc; [|done]. cbn [ok].
  destruct (fids cs !! fid) as [r|] eqn:Hf; [|done].
  eapply ok_seq; [eapply (set_conn_ok own ({[+ r +]} ⊎ own)); [exact HR|exact Hc|]| |done].
  - pose proof (conn_tokens_delete cs fid r Hf). multiset_solver.
  - intros ? s' HR'. cbn beta in HR'. eapply ok_conseq; [by eapply DecRef_ok|by intros ? s'' [? _]|done].
Qed.
End ops.
