(* ===== verification/RefTree.v ===== *)
(** * Reference counting: unlinking and renaming

    The callbacks of the path tree keep every holder: [rc own s] says that the
    counts are right in [s] when the running code owns [own]. *)
From stdpp Require Import gmultiset.
From S2P Require Import Prelude Errno Buffer Types File State PathTree FidRef.
From S2P Require Import ProgramLogic RefCount RefSteps RefOps.

Section tree.
Context {W File : Type} {B : Backend W File} {RB : Returning B}.
Local Notation St := (St W File).
Local Notation M := (M W File).
Implicit Types (s : St) (own loose : gmultiset rid) (fresh : gset rid).

Definition rc own s : Prop := exists fresh, RC own fresh ∅ s.

(** ** Nodes whose references stay *)

Lemma node_ok_same_refs s n nd nd' :
  node_ok s n nd -> childRefs nd' = childRefs nd -> childRefNames nd' = childRefNames nd ->
  (forall name pn, childNodes nd' !! name = Some pn -> is_Some (nodes s !! pn)) ->
  node_ok s n nd'.
Proof. intros (H1 & H2 & H3) Hr Hn Hc. split_and!; [by rewrite Hr, Hn|by rewrite Hn|done]. Qed.

Lemma dec_ext_with_nodes s n nd nd' next :
  nodes s !! n = Some nd -> childRefNames nd' ⊆ childRefNames nd ->
  dec_ext s (with_nodes s (<[n := nd']> (nodes s)) next).
Proof.
  intros Hn Hsub. split; [by eauto| |done]. cbn. intros n' nd0.
  rewrite lookup_insert_Some. intros [[<- <-]|[_ ?]]; by eauto.
Qed.

(** The removal of an entry. *)
Lemma RC_drop_entry own fresh loose s n nd name m r :
  RC own fresh loose s -> nodes s !! n = Some nd -> childRefs nd !! name = Some m -> r ∈ m ->
  let s' := with_nodes s (<[n := set_childRefs (alter (fun m => m ∖ {[r]}) name) (delete r) nd]>
                            (nodes s)) (next_node s) in
  RC own fresh loose s' /\ dec_ext s s' /\ nowhere s' r /\
  exists fr q, refHeap s' !! r = Some fr /\ parent fr = Some q.
Proof.
  intros HR Hn Hm Hr s'. pose proof (RC_node _ _ _ _ HR _ _ Hn) as Hok.
  assert (Hname : childRefNames nd !! r = Some name) by (apply Hok; eauto).
  destruct (proj1 (proj2 Hok) _ _ Hname) as (_ & fr & q & pr & Hfr & Hq & Hpr & Hpn).
  split; [by eapply RC_set_node, node_ok_alter|].
  split; [eapply dec_ext_with_nodes; [done|apply delete_subseteq]|].
  split; [|by eauto]. intros n' nd'. cbn. rewrite lookup_insert_Some.
  intros [[<- <-]|[Hne Hn']]; [apply lookup_delete_eq|].
  destruct (childRefNames nd' !! r) as [name'|] eqn:E; [|done].
  destruct (RC_nowhere_parent _ _ _ _ _ _ _ _ _ HR Hfr Hn' E) as (q' & pr' & ? & ? & ?).
  congruence.
Qed.

(** ** [removeWithName] *)

Section removeWithName.
Context (own : gmultiset rid) (F : St -> Prop).
Context (F_dec : forall s s', dec_ext s s' -> F s -> F s').

(** What the callback has to do: it gets a reference of its own. *)
Definition callback_ok (fn : rid -> M unit) : Prop := forall ref h s fresh,
  RC ({[+ ref +]} ⊎ own) fresh ∅ s -> F s -> nowhere s ref ->
  (exists fr q, refHeap s !! ref = Some fr /\ parent fr = Some q) ->
  ok (fn ref h s) (fun _ s' => rc ({[+ ref +]} ⊎ own) s' /\ F s') (fun _ => False).

Lemma visit_ok fn h s ref :
  callback_ok fn -> rc own s -> F s -> nowhere s ref ->
  (exists fr q, refHeap s !! ref = Some fr /\ parent fr = Some q) ->
  ok ((ok ← TryIncRef ref; if (ok : bool) then fn ref;; _ ← DecRef ref; mret tt else mret tt) h s)
    (fun _ s' => rc own s' /\ F s') (rc own).
Proof.
  intros Hfn [fresh HR] HF Hno Hp.
  eapply ok_seq; [by apply TryIncRef_ok| |by intros ? ->; exists fresh].
  intros [|] s1 (He & Hn & HR1); [|split; [by exists fresh|by eapply F_dec]].
  eapply ok_seq.
  - eapply (Hfn _ _ _ _ HR1); [by eapply F_dec|by eapply dec_ext_nowhere|].
    destruct Hp as (fr & q & Hr & Hq). destruct (de_heap _ _ He _ _ Hr) as (fr' & ? & ? & _).
    exists fr', q. split; congruence.
  - intros [] s2 [[fresh2 HR2] HF2]. eapply ok_seq; [by apply DecRef_ok| |done].
    intros err s3 [HR3 He3]. split; [by exists fresh2|by eapply F_dec].
  - done.
Qed.

Lemma removeWithName_ok p name fn h s :
  match fn with None => True | Some fn => callback_ok fn end ->
  rc own s -> F s ->
  ok (removeWithName p name fn h s)
    (fun o s' => rc own s' /\ F s' /\ forall pn, o = Some pn -> is_Some (nodes s' !! pn))
    (rc own).
Proof.
  intros Hfn HR HF. apply ok_with_lock.
  assert (Hget : forall {C} n (k : pathNode -> M C) h s Q, rc own s ->
    (forall nd, nodes s !! n = Some nd -> ok (k nd h s) Q (rc own)) ->
    ok ((get_node n ≫= k) h s) Q (rc own)).
  { intros C n k h' s' Q HR' Hk. apply ok_bind. unfold get_node.
    destruct (nodes s' !! n) as [nd|] eqn:E; [by apply Hk|done]. }
  apply Hget; [done|]. intros nd0 _.
  eapply (ok_seq _ _ _ _ _ _ (fun _ s' => rc own s' /\ F s') (rc own)); [| |done].
  - destruct (childRefs nd0 !! name) as [m0|]; [|done].
    apply ok_bind. cbn [ok map_range]. generalize (range (world s) (elements m0)). intros rs.
    clear nd0. revert s HR HF. induction rs as [|ref rs IH]; intros s HR HF; [done|].
    cbn [for_each]. eapply (ok_seq _ _ _ _ _ _ (fun _ s' => rc own s' /\ F s') (rc own));
      [|intros [] s' [??]; by apply IH|done].
    apply Hget; [done|]. intros nd Hnd. case_bool_decide as Hin; [|done]. cbn [negb].
    destruct (childRefs nd !! name) as [m|] eqn:Hm; cbn [default] in Hin; [|set_solver].
    destruct HR as [fresh HR].
    destruct (RC_drop_entry _ _ _ _ _ _ _ _ _ HR Hnd Hm Hin) as (HR' & He & Hno & Hp).
    apply ok_bind. cbn [set_node ok]. destruct fn as [fn|].
    + eapply visit_ok; [done|by exists fresh|by eapply F_dec|done|done].
    + split; [by exists fresh|by eapply F_dec].
  - intros [] s' [HR' HF']. apply Hget; [done|]. intros nd Hnd. apply ok_bind.
    destruct HR' as [fresh HR']. pose proof (RC_node _ _ _ _ HR' _ _ Hnd) as Hok.
    cbn [set_node ok mret M_ret]. split; [|split].
    + exists fresh. eapply (RC_set_node _ _ _ _ _ _ HR').
      eapply node_ok_same_refs; [exact Hok|done..|]. cbn. intros name' pn.
      rewrite lookup_delete_Some. intros [_ H]. by eapply Hok.
    + eapply F_dec; [|exact HF']. eapply (dec_ext_with_nodes s'); done.
    + intros pn Hpn. cbn. destruct (decide (p = pn)) as [<-|Hne];
        [rewrite lookup_insert_eq; by eexists|].
      rewrite lookup_insert_ne by done. by eapply Hok.
Qed.
End removeWithName.

(** ** [renameChildTo] *)

(** The reference's node, which no step changes. *)
Definition at_node (r : rid) (n : nid) s : Prop :=
  exists fr, refHeap s !! r = Some fr /\ fr_pathNode fr = n.

Lemma at_node_dec r n s s' : dec_ext s s' -> at_node r n s -> at_node r n s'.
Proof.
  intros He (fr & Hr & Hn). destruct (de_heap _ _ He _ _ Hr) as (fr' & Hr' & _ & Hn').
  exists fr'. split; congruence.
Qed.

Lemma addChildLocked_ok own fresh loose s h n nd r name :
  RC own fresh loose s -> nodes s !! n = Some nd -> nowhere s r -> r ∉ closes (trace s) ->
  (exists fr p pr, refHeap s !! r = Some fr /\ parent fr = Some p /\
     refHeap s !! p = Some pr /\ fr_pathNode pr = n) ->
  ok (addChildLocked n r name h s)
    (fun _ s' => RC own fresh loose s' /\ refHeap s' = refHeap s /\ trace s' = trace s /\
       conns s' = conns s) (fun _ => False).
Proof.
  intros HR Hn Hno Hc Hp. unfold addChildLocked. eapply ok_get_node; [exact Hn|].
  pose proof (Hno _ _ Hn) as Hnone. cbn beta in Hnone. rewrite Hnone.
  split; [|done]. apply (RC_set_node _ _ _ _ _ _ HR).
  apply node_ok_add; [by eapply (RC_node _ _ _ _ HR)|done..].
Qed.

(** A new parent is set for a reference on the move. *)
Lemma move_ok own fresh s h target tn ref fr q (k : fidRef File -> M unit) Q X :
  RC own fresh ({[+ ref +]} ⊎ ∅) s -> target ∈ own -> at_node target tn s -> nowhere s ref ->
  refHeap s !! ref = Some fr -> parent fr = Some q ->
  (forall s', RC ({[+ ref +]} ⊎ own) fresh ∅ s' -> at_node target tn s' -> nowhere s' ref ->
     (exists fr', refHeap s' !! ref = Some fr' /\ parent fr' = Some target) ->
     ok (k fr h s') Q X) ->
  ok ((rr ← get_ref ref; set_ref ref (set_parent (Some target) rr);; IncRef target;; k rr) h s)
    Q X.
Proof.
  intros HR Ht (tr & Htr & Htn) Hno Hr Hq Hk. eapply ok_get_ref; [exact Hr|]. apply ok_bind.
  cbn [set_ref ok]. assert (Hl : ref ∈ {[+ ref +]} ⊎ (∅ : gmultiset rid)) by multiset_solver.
  pose proof (RC_set_parent _ _ _ _ _ _ target HR Hr Hl Hno ltac:(by eexists)) as HR1.
  set (s1 := with_heap _ _) in *.
  assert (Hat1 : at_node target tn s1).
  { unfold at_node, s1, with_heap. cbn [refHeap]. destruct (decide (ref = target)) as [->|Hne].
    - rewrite lookup_insert_eq. eexists. split; [done|]. cbn. congruence.
    - rewrite lookup_insert_ne by done. eauto. }
  assert (Hr1 : refHeap s1 !! ref = Some (set_parent (Some target) fr))
    by apply lookup_insert_eq.
  eapply ok_seq; [eapply IncRef_ok; [exact HR1|by apply own_token]| |done].
  intros _ s2 (HR2 & He2 & Hn2). destruct (de_heap _ _ He2 _ _ Hr1) as (fr2 & Hr2 & Hp2 & _).
  apply Hk; [|by eapply at_node_dec|by eapply dec_ext_nowhere|by eauto].
  eapply (RC_attach _ _ _ _ _ fr2); [|done|multiset_solver]. rewrite Hp2. exact HR2.
Qed.

Lemma call_ok {A} own fresh s h r (e : FileE File A) :
  RC own fresh ∅ s -> r ∉ closes (trace s) -> is_close e = false ->
  ok (call (Some r) e h s)
    (fun _ s' => RC own fresh ∅ s' /\ refHeap s' = refHeap s /\ nodes s' = nodes s /\
       conns s' = conns s /\ closes (trace s') = closes (trace s)) (fun _ => False).
Proof.
  intros HR Hr He. rewrite call_returning. destruct (exec e (world s)) as [a w]. cbn [ok].
  split; [|cbn; by rewrite He]. apply RC_event; [done|]. by intros ? [= <-].
Qed.

(** The callback of [renameChildTo]. *)
Definition rename_callback (target : rid) (dir tn : nid) (name : string)
    (renamed : fidRef File -> FileE File unit) (ref : rid) : M unit :=
  p ← parent_of ref;
  _ ← DecRef p;
  rr ← get_ref ref;
  set_ref ref (set_parent (Some target) rr);;
  IncRef target;;
  (if bool_decide (dir = tn) then addChildLocked tn ref name else addChild tn ref name);;
  call (Some ref) (renamed rr).

Lemma rename_callback_ok own target dir tn name renamed :
  target ∈ own -> (forall rr, is_close (renamed rr) = false) ->
  callback_ok own (at_node target tn) (rename_callback target dir tn name renamed).
Proof.
  intros Ht Hren ref h s fresh HR Hat Hno (fr & q & Hr & Hq). unfold rename_callback.
  eapply (ok_seq _ _ _ _ _ _ (fun p s' => p = q /\ s' = s) (fun _ => False)).
  { unfold parent_of. eapply ok_get_ref; [exact Hr|]. by rewrite Hq. }
  2: done.
  intros p ? [-> ->].
  pose proof (RC_detach _ _ _ _ _ _ HR Hr ltac:(multiset_solver)) as HR1. rewrite Hq in HR1.
  eapply ok_seq; [by eapply DecRef_ok| |done]. intros err s2 [HR2 He2].
  destruct (de_heap _ _ He2 _ _ Hr) as (fr2 & Hr2 & Hp2 & _).
  eapply move_ok; [exact HR2|done|by eapply at_node_dec|by eapply dec_ext_nowhere|exact Hr2
    |by rewrite Hp2|].
  intros s3 HR3 Hat3 Hno3 (fr3 & Hr3 & Hp3).
  assert (Hown : ref ∈ {[+ ref +]} ⊎ own) by multiset_solver.
  pose proof (RC_open _ _ _ _ _ HR3 (own_token _ _ _ _ _ Hown)) as Hc3.
  pose proof Hat3 as (tr & Htr & Htn). destruct (RC_ref _ _ _ _ HR3 _ _ Htr)
    as (_ & _ & _ & [nd Hn] & _). rewrite Htn in Hn.
  assert (Hadd : forall h, ok (addChildLocked tn ref name h s3)
    (fun _ s' => RC ({[+ ref +]} ⊎ own) fresh ∅ s' /\ refHeap s' = refHeap s3 /\
       trace s' = trace s3 /\ conns s' = conns s3) (fun _ => False)).
  { intros h'. eapply addChildLocked_ok; [done..|]. exists fr3, target, tr. done. }
  eapply ok_seq.
  - instantiate (2 := fun _ s' => RC ({[+ ref +]} ⊎ own) fresh ∅ s' /\ refHeap s' = refHeap s3 /\
       trace s' = trace s3 /\ conns s' = conns s3).
    case_bool_decide; [apply Hadd|apply ok_with_lock, Hadd].
  - intros [] s4 (HR4 & Hh4 & Ht4 & _).
    eapply ok_conseq; [apply call_ok; [exact HR4|by rewrite Ht4|apply Hren]| |done].
    intros [] s5 (HR5 & Hh5 & _). split; [by exists fresh|].
    unfold at_node. rewrite Hh5, Hh4. exact Hat3.
  - done.
Qed.
End tree.
