(* ===== verification/RefQuiet.v ===== *)
(** * Reference counting: code that moves no holder

    A computation is quiet when it neither closes a file nor changes counts and
    parents, as the body of most handlers.  Quiet code is an instance of the program
    logic, for given references [own] of the code around it. *)
From stdpp Require Import gmultiset.
From S2P Require Import Prelude Errno Buffer Types Messages Message Transport Version.
From S2P Require Import File State PathTree FidRef Handlers Server.
From S2P Require Import ProgramLogic RefCount RefSteps RefOps RefTree.

Section quiet.
Context {W File : Type} {B : Backend W File} {RB : Returning B}.
Local Notation St := (St W File).
Local Notation M := (M W File).
Implicit Types (s : St) (loose : gmultiset rid) (fresh : gset rid) (h : held).

(** ** The relation of quiet steps *)

Record quiet s s' : Prop := {
  q_closes : closes (trace s') = closes (trace s);
  q_heap : forall r fr, refHeap s !! r = Some fr -> exists fr', refHeap s' !! r = Some fr' /\
    parent fr' = parent fr /\ fr_pathNode fr' = fr_pathNode fr /\ refs fr' = refs fr;
  q_conns : forall c cs, conns s !! c = Some cs -> exists cs', conns s' !! c = Some cs' /\
    fids cs' = fids cs;
  q_nodes : forall n, is_Some (nodes s !! n) -> is_Some (nodes s' !! n);
}.

#[export] Instance quiet_preorder : PreOrder quiet.
Proof.
  split; [intros s; split; [done|by eauto 6|by eauto|done]|].
  intros s1 s2 s3 [H1 H2 H3 H4] [H1' H2' H3' H4']. split; [congruence| | |by auto].
  - intros r fr Hr. destruct (H2 _ _ Hr) as (fr' & Hr' & ? & ? & ?).
    destruct (H2' _ _ Hr') as (fr'' & ? & ? & ? & ?). exists fr''. split_and!; congruence.
  - intros c cs Hc. destruct (H3 _ _ Hc) as (cs' & Hc' & ?).
    destruct (H3' _ _ Hc') as (cs'' & ? & ?). exists cs''. split; congruence.
Qed.

Lemma quiet_same s s' :
  refHeap s' = refHeap s -> conns s' = conns s -> closes (trace s') = closes (trace s) ->
  (forall n, is_Some (nodes s !! n) -> is_Some (nodes s' !! n)) -> quiet s s'.
Proof. intros Hh Hc Ht Hn. split; [done|rewrite Hh; by eauto 6|rewrite Hc; by eauto|done]. Qed.

Lemma insert_dom {A} (m : gmap nid A) n (a : A) n' :
  is_Some (m !! n') -> is_Some (<[n := a]> m !! n').
Proof.
  intros H. destruct (decide (n = n')) as [<-|Hne];
    [rewrite lookup_insert_eq; by eexists|by rewrite lookup_insert_ne].
Qed.

Context (own : gmultiset rid).

#[local] Instance RCq : Inv W File := {| I := rc own; ext := quiet |}.

(** ** Facts that quiet code keeps *)

Definition unclosed (r : rid) : St -> Prop := fun s => r ∉ closes (trace s).
#[local] Instance stable_unclosed r : Stable (unclosed r).
Proof. intros s s' He. unfold unclosed. by rewrite (q_closes _ _ He). Qed.

(** The parts of a reference that do not change. *)
Definition shape (r : rid) (fr : fidRef File) : St -> Prop := fun s =>
  exists fr', refHeap s !! r = Some fr' /\ parent fr' = parent fr /\
    fr_pathNode fr' = fr_pathNode fr /\ refs fr' = refs fr.
#[local] Instance stable_shape r fr : Stable (shape r fr).
Proof.
  intros s s' He (fr' & Hr & ? & ? & ?). destruct (q_heap _ _ He _ _ Hr) as (fr'' & ? & ? & ? & ?).
  exists fr''. split_and!; congruence.
Qed.

Definition node_refs (n : nid) (nd : pathNode) : St -> Prop := fun s => node_ok s n nd.
#[local] Instance stable_node_refs n nd : Stable (node_refs n nd).
Proof.
  intros s s' He (H1 & H2 & H3). split; [done|].
  split; [|intros name pn Hpn; by eapply q_nodes, H3]. intros r name Hr.
  destruct (H2 _ _ Hr) as (Hc & fr & p & pr & Hfr & Hp & Hpr & Hn).
  rewrite (q_closes _ _ He). split; [done|].
  destruct (q_heap _ _ He _ _ Hfr) as (fr' & Hfr' & ? & _).
  destruct (q_heap _ _ He _ _ Hpr) as (pr' & Hpr' & _ & ? & _).
  exists fr', p, pr'. split_and!; congruence.
Qed.

Definition same_fids (c : cid) (cs : connState) : St -> Prop := fun s =>
  exists cs', conns s !! c = Some cs' /\ fids cs' = fids cs.
#[local] Instance stable_same_fids c cs : Stable (same_fids c cs).
Proof.
  intros s s' He (cs' & Hc & ?). destruct (q_conns _ _ He _ _ Hc) as (cs'' & ? & ?).
  exists cs''. split; congruence.
Qed.

(** ** Reading *)

Lemma rc_unclosed s r : rc own s -> r ∈ own -> unclosed r s.
Proof. intros [fresh HR] Hr. by eapply RC_open, own_token. Qed.

Lemma q_get_ref {A} h F {HF : Stable F} r (k : fidRef File -> M A) :
  (forall fr, keeps h (fun s => F s /\ shape r fr s) (k fr)) ->
  keeps h F (get_ref r ≫= k).
Proof.
  apply keeps_bind_fact; [apply _|]. intros s _ HI. unfold get_ref.
  destruct (refHeap s !! r) as [fr|] eqn:E; [|by split].
  split; [done|]. split; [reflexivity|]. by exists fr.
Qed.

(** The parent of a reference that the code owns is open. *)
Lemma wp_q_parent_of h s r :
  r ∈ own -> wp s ((parent_of r : M _) h s) (fun p s' => unclosed p s').
Proof.
  intros Hr HI. unfold parent_of, mbind, M_bind, get_ref.
  destruct (refHeap s !! r) as [fr|] eqn:E; [|by split].
  destruct (parent fr) as [p|] eqn:Hp; [|by split].
  split; [done|]. split; [reflexivity|]. destruct HI as [fresh HR]. cbn.
  assert (Ht : r ∈ tokens own fresh ∅ s) by by apply own_token.
  eapply RC_open; [exact HR|]. eapply parent_token; [exact E|exact Hp|].
  intros [H|[H|H]]; [by eapply RC_open|by eapply RC_not_fresh|multiset_solver].
Qed.

Lemma q_parent_of {A} h F {HF : Stable F} r (k : rid -> M A) :
  r ∈ own -> (forall p, keeps h (fun s => F s /\ unclosed p s) (k p)) ->
  keeps h F (parent_of r ≫= k).
Proof. intros Hr. apply keeps_bind_fact; [apply _|]. intros s _. by apply wp_q_parent_of. Qed.

Lemma wp_q_get_node h s n :
  wp s (get_node n h s) (fun nd s' => node_refs n nd s').
Proof.
  intros HI. unfold get_node. destruct (nodes s !! n) as [nd|] eqn:E; [|by split].
  split; [done|]. split; [reflexivity|]. destruct HI as [fresh HR].
  by apply (RC_node _ _ _ _ HR).
Qed.

Lemma q_get_node {A} h F {HF : Stable F} n (k : pathNode -> M A) :
  (forall nd, keeps h (fun s => F s /\ node_refs n nd s) (k nd)) ->
  keeps h F (get_node n ≫= k).
Proof. apply keeps_bind_fact; [apply _|]. intros s _. apply wp_q_get_node. Qed.

Lemma q_locked_node {A} h F {HF : Stable F} l w n (k : pathNode -> M A) :
  (forall nd, keeps h (fun s => F s /\ node_refs n nd s) (k nd)) ->
  keeps h F (with_lock l w (get_node n) ≫= k).
Proof.
  apply keeps_bind_fact; [apply _|]. intros s _. apply wp_with_lock, wp_q_get_node.
Qed.

Lemma q_get_conn {A} h F {HF : Stable F} c (k : connState -> M A) :
  (forall cs, keeps h (fun s => F s /\ same_fids c cs s) (k cs)) ->
  keeps h F (get_conn c ≫= k).
Proof.
  apply keeps_bind_fact; [apply _|]. intros s _ HI. unfold get_conn.
  destruct (conns s !! c) as [cs|] eqn:E; [|by split].
  split; [done|]. split; [reflexivity|]. by exists cs.
Qed.

(** ** Calling and writing *)

Lemma q_call h F {A} r (e : FileE File A) :
  is_close e = false -> (r ∈ own \/ forall s, F s -> unclosed r s) ->
  keeps h F (call (Some r) e : M _).
Proof.
  intros He Hr s Hs HI. assert (Hu : unclosed r s)
    by (destruct Hr as [?|Hr]; [by apply rc_unclosed|by apply Hr]).
  destruct HI as [fresh HR]. pose proof (call_ok own fresh s h r e HR Hu He) as Hok.
  destruct (call (Some r) e h s) as [a s'|s'|]; cbn in Hok |- *; [|done..].
  destruct Hok as (? & ? & ? & ? & ?). split; [by exists fresh|]. split; [|done].
  apply quiet_same; [done..|congruence].
Qed.

(** A file that belongs to no reference may be closed too. *)
Lemma q_call_none h F {A} (e : FileE File A) : keeps h F (call None e : M _).
Proof.
  intros s Hs [fresh HR]. rewrite call_returning. destruct (exec e (world s)) as [a w].
  split; [exists fresh; by apply RC_event|]. split; [|done].
  apply quiet_same; [done..| |done]. cbn. by destruct (is_close e).
Qed.

Lemma q_set_ref h F r fr :
  (forall s, F s -> shape r fr s) -> keeps h F (set_ref r fr : M _).
Proof.
  intros Hf s Hs [fresh HR]. destruct (Hf s Hs) as (fr0 & Hr & Hp & Hn & Hc). split; [|split; [|done]].
  - exists fresh. eapply RC_set_ref; [exact HR|exact Hr|done|done|lia|done|by left].
  - split; [done| |by eauto|done]. cbn. intros r' fr' Hr'. destruct (decide (r = r')) as [<-|Hne].
    + rewrite lookup_insert_eq. exists fr. split; [done|]. split_and!; congruence.
    + rewrite lookup_insert_ne by done. by eauto 6.
Qed.

Lemma q_set_node h F n nd :
  (forall s, F s -> node_refs n nd s) -> keeps h F (set_node n nd : M _).
Proof.
  intros Hf s Hs [fresh HR]. split; [|split; [|done]].
  2: apply quiet_same; [done..|]. 2: intros n'; apply insert_dom.
  exists fresh. apply (RC_set_node _ _ _ _ _ _ HR). by apply Hf.
Qed.

Lemma q_new_node h F : keeps h F (new_node newPathNode : M _).
Proof.
  intros s _ [fresh HR]. split; [|split; [|done]].
  - exists fresh. eapply (RC_with_nodes _ _ _ _ _ _ HR).
    + apply map_Forall_insert_2; [apply node_ok_new|apply HR].
    + intros n. apply insert_dom.
  - apply quiet_same; [done..|]. intros n'. apply insert_dom.
Qed.

Lemma q_set_conn h F c cs :
  (forall s, F s -> same_fids c cs s) -> keeps h F (set_conn c cs : M _).
Proof.
  intros Hf s Hs [fresh HR]. destruct (Hf s Hs) as (cs0 & Hc & Hfid). split; [|split; [|done]].
  - exists fresh. assert (ok (set_conn c cs h s) (fun _ s' => RC own fresh ∅ s') (fun _ => False))
      as Hok; [|exact Hok]. eapply set_conn_ok; [exact HR|exact Hc|].
    unfold conn_tokens. by rewrite Hfid.
  - split; [done|by eauto 6| |done]. cbn. intros c' cs' Hc'. destruct (decide (c = c')) as [<-|Hne].
    + rewrite lookup_insert_eq. exists cs. split; [done|]. congruence.
    + rewrite lookup_insert_ne by done. by eauto.
Qed.

End quiet.

#[export] Hint Extern 1 (keeps _ _ (call (Some _) _)) =>
  apply q_call; [reflexivity|first [left; assumption|right; solve_fact]] : keeps.
#[export] Hint Extern 1 (keeps _ _ (call None _)) => apply q_call_none : keeps.
#[export] Hint Resolve q_new_node : keeps.
#[export] Existing Instance stable_unclosed.
#[export] Existing Instance stable_shape.
#[export] Existing Instance stable_node_refs.
#[export] Existing Instance stable_same_fids.

(** One step through quiet code. *)
Ltac quiet_step :=
  intros; lazymatch goal with
  | |- keeps _ _ (mbind _ (get_ref _)) => rule q_get_ref
  | |- keeps _ _ (mbind _ (get_node _)) => rule q_get_node
  | |- keeps _ _ (mbind _ (get_conn _)) => rule q_get_conn
  | |- keeps _ _ (mbind _ (parent_of _)) => rule q_parent_of; [assumption|]
  | |- keeps _ _ (mbind _ (with_lock _ _ (get_node _))) => rule q_locked_node
  | |- keeps _ _ (set_ref _ _) => apply q_set_ref; solve_fact
  | |- keeps _ _ (set_node _ _) => apply q_set_node; solve_fact
  | |- keeps _ _ (set_conn _ _) => apply q_set_conn; solve_fact
  | |- keeps _ _ (safelyRead _ _) => unfold safelyRead
  | |- keeps _ _ (safelyWrite _ _) => unfold safelyWrite
  | |- keeps _ _ (safelyGlobal _ _) => unfold safelyGlobal
  | |- _ => keeps_step
  end.
Ltac quiet_code := repeat (first [solve [eauto 3 with keeps] | quiet_step]).
