(* ===== verification/RefClean.v ===== *)
(** * Reference counting: code that moves holders and gives them back

    [clean own h F m]: from counts that are right with [own], in states where [F]
    holds, [m] ends with counts that are right with [own], also when it panics. *)
From stdpp Require Import gmultiset.
From S2P Require Import Prelude Errno Buffer Types Messages Message Transport Version.
From S2P Require Import File State PathTree FidRef Handlers Server.
From S2P Require Import ProgramLogic RefCount RefSteps RefOps RefTree RefQuiet.

(** ** Quiet operations *)

Section quiet_ops.
Context {W File : Type} {B : Backend W File} {RB : Returning B}.
Local Notation St := (St W File).
Local Notation M := (M W File).
Context (own : gmultiset rid).
#[local] Existing Instance RCq | 0.
Implicit Types (h : held) (F : St -> Prop).
Notation keeps := (keeps (inv := RCq own)).

Lemma q_isDeleted h F `{!Stable (inv := RCq own) F} r : keeps h F (isDeleted r : M _).
Proof. unfold isDeleted. quiet_code. Qed.
Lemma q_hasParent h F `{!Stable (inv := RCq own) F} r : keeps h F (hasParent r : M _).
Proof. unfold hasParent. quiet_code. Qed.
Lemma q_maybeParent h F `{!Stable (inv := RCq own) F} r : keeps h F (maybeParent r : M _).
Proof. unfold maybeParent. quiet_code. Qed.
Lemma q_nameFor h F `{!Stable (inv := RCq own) F} p r : keeps h F (nameFor p r : M _).
Proof. unfold nameFor. quiet_code. Qed.

(** The nodes that exist. *)
Definition has_node (n : nid) : St -> Prop := fun s => is_Some (nodes s !! n).
#[export] Instance stable_has_node n : Stable (inv := RCq own) (has_node n).
Proof. intros s s' He. apply (q_nodes _ _ He). Qed.

Lemma q_add_childNode h F n nd name pn :
  (forall s, F s -> node_refs n nd s) -> (forall s, F s -> has_node pn s) ->
  keeps h F (set_node n (set_childNodes (<[name := pn]>) nd) : M _).
Proof.
  intros Hn Hp. apply q_set_node. intros s Hs. eapply node_ok_same_refs; [by apply Hn|done..|].
  cbn. intros name' pn'. rewrite lookup_insert_Some.
  intros [[_ <-]|[_ H]]; [by apply Hp|]. by eapply Hn.
Qed.

Lemma q_new_node_fact {A} h F `{!Stable (inv := RCq own) F} (k : nid -> M A) :
  (forall n, keeps h (fun s => F s /\ has_node n s) (k n)) ->
  keeps h F (new_node newPathNode ≫= k).
Proof.
  apply keeps_bind_fact; [apply _|]. intros s Hs HI.
  pose proof (q_new_node own h F s Hs HI) as Hn. cbn in Hn |- *.
  split; [apply Hn|]. split; [apply Hn|]. unfold has_node. cbn. rewrite lookup_insert_eq.
  by eexists.
Qed.

Lemma q_pathNodeFor h F `{!Stable (inv := RCq own) F} p name :
  keeps h F (pathNodeFor p name : M _).
Proof.
  unfold pathNodeFor. quiet_step. intros nd. case_match; [quiet_code|]. do 2 quiet_step. intros nd2.
  case_match; [quiet_code|]. rule q_new_node_fact. intros pn.
  rule keeps_bind; [|quiet_code]. apply q_add_childNode; solve_fact.
Qed.

Lemma q_addPathNodeFor h F `{!Stable (inv := RCq own) F} p name pn :
  (forall s, F s -> has_node pn s) -> keeps h F (addPathNodeFor p name pn : M _).
Proof.
  intros Hp. unfold addPathNodeFor. apply keeps_with_lock. rule q_get_node. intros nd.
  case_match; [quiet_code|]. apply q_add_childNode; [solve_fact|]. intros s [Hs _]. by apply Hp.
Qed.

Lemma q_forEachChildNode h F `{!Stable (inv := RCq own) F} p (fn : nid -> M unit) :
  (forall h n, keeps h F (fn n)) -> keeps h F (forEachChildNode p fn : M _).
Proof.
  intros Hfn. unfold forEachChildNode. apply keeps_with_lock. quiet_step. intros.
  rule keeps_bind; [quiet_code|]. intros l. rule keeps_for_each. intros [x pn] _.
  eapply keeps_mono; [|apply Hfn]. solve_fact.
Qed.

Lemma q_notifyDelete h F `{!Stable (inv := RCq own) F} pn : keeps h F (notifyDelete pn : M _).
Proof.
  apply keeps_True. unfold notifyDelete. rule keeps_bind; [quiet_code|]. intros n.
  generalize (S n) as fuel. intros fuel. revert h pn.
  induction fuel as [|fuel IH]; intros h pn; cbn [notifyDelete_fuel]; [quiet_code|].
  quiet_step. intros nd. rule keeps_bind; [quiet_code|]. intros _.
  apply keeps_True. rule q_forEachChildNode. intros h' pn'. apply IH.
Qed.

(** The references at a node are open. *)
Lemma q_forEachChildRef {B' : Backend W File} h F `{!Stable (inv := RCq own) F} p
    (fn : rid -> string -> M unit) :
  (forall h r name, keeps h (fun s => F s /\ unclosed r s) (fn r name)) ->
  keeps h F (forEachChildRef (B := B') p fn : M _).
Proof.
  intros Hfn. unfold forEachChildRef. apply keeps_with_lock. quiet_step. intros nd.
  rule (keeps_bind_spec _ _ _ (fun l => l ≡ₚ map_to_list (childRefs nd))).
  { intros s _ HI. split; [done|]. split; [reflexivity|apply range_perm]. }
  intros l Hl. rule keeps_for_each. intros [name m] Hx.
  rewrite Hl, elem_of_map_to_list in Hx.
  rule (keeps_bind_spec _ _ _ (fun l => l ≡ₚ elements m)).
  { intros s _ HI. split; [done|]. split; [reflexivity|apply range_perm]. }
  intros rs Hrs. rule keeps_for_each. intros r Hr. rewrite Hrs, elem_of_elements in Hr.
  eapply keeps_mono; [|apply Hfn]. intros s [Hs Hok]. split; [done|].
  assert (Hname : childRefNames nd !! r = Some name) by (apply Hok; eauto).
  by apply Hok in Hname as [? _].
Qed.

Lemma q_notifyNameChange h F `{!Stable (inv := RCq own) F} pn :
  keeps h F (notifyNameChange pn : M _).
Proof.
  apply keeps_True. unfold notifyNameChange. rule keeps_bind; [quiet_code|]. intros n.
  generalize (S n) as fuel. intros fuel. revert h pn.
  induction fuel as [|fuel IH]; intros h pn; cbn [notifyNameChange_fuel]; [quiet_code|].
  rule keeps_bind.
  - rule q_forEachChildRef. intros h' r name. quiet_step. intros fr.
    rule keeps_bind; [unfold parent_of; quiet_code|]. intros p. quiet_code.
  - intros _. rule q_forEachChildNode. intros h' pn'. apply IH.
Qed.

Lemma q_call_err h F `{!Stable (inv := RCq own) F} r (e : FileE File (option error)) :
  keeps h F (call r e : M _) -> keeps h F (call_err r e : M _).
Proof. intros He. unfold call_err. rule keeps_bind; [exact He|]. quiet_code. Qed.
End quiet_ops.

#[export] Existing Instance stable_has_node.
#[export] Hint Resolve q_isDeleted q_hasParent q_maybeParent q_nameFor q_pathNodeFor
  q_notifyDelete q_notifyNameChange : keeps.

(** ** The logic of [clean] *)

Section clean.
Context {W File : Type} {B : Backend W File} {RB : Returning B}.
Local Notation St := (St W File).
Local Notation M := (M W File).
Implicit Types (s : St) (own loose : gmultiset rid) (fresh : gset rid) (h : held) (F : St -> Prop).

Definition clean own {A} h F (m : M A) : Prop := forall s,
  rc own s -> F s -> ok (m h s) (fun _ s' => rc own s') (rc own).

Lemma clean_quiet own {A} h F (m : M A) : keeps (inv := RCq own) h F m -> clean own h F m.
Proof.
  intros Hm s HR HF. specialize (Hm s HF HR). destruct (m h s); cbn in *; naive_solver.
Qed.

Lemma clean_mono own {A} h F F' (m : M A) :
  (forall s, F s -> F' s) -> clean own h F' m -> clean own h F m.
Proof. intros HF Hm s HR Hs. apply Hm; auto. Qed.
Lemma clean_True own {A} h F (m : M A) : clean own h (fun _ => True) m -> clean own h F m.
Proof. by apply clean_mono. Qed.

Lemma clean_ret own {A} h F (a : A) : clean own h F (mret a : M A).
Proof. by intros s HR _. Qed.
Lemma clean_panic own {A} h F : clean own h F (panic : M A).
Proof. by intros s HR _. Qed.
Lemma clean_stuck own {A} h F : clean own h F (stuck : M A).
Proof. done. Qed.

(** After quiet code the assertion lasts. *)
Lemma clean_bind_quiet own {A C} h F `{!Stable (inv := RCq own) F} (m : M A) (k : A -> M C) :
  keeps (inv := RCq own) h F m -> (forall a, clean own h F (k a)) -> clean own h F (m ≫= k).
Proof.
  intros Hm Hk s HR HF. apply ok_bind. specialize (Hm s HF HR).
  destruct (m h s) as [a s'|s'|]; cbn in Hm |- *; [|by destruct Hm|done].
  destruct Hm as (HR' & He & _). apply Hk; [done|]. by eapply (Stable0 _ _ He).
Qed.

Lemma clean_bind own {A C} h F (m : M A) (k : A -> M C) :
  clean own h F m -> (forall a, clean own h (fun _ => True) (k a)) -> clean own h F (m ≫= k).
Proof.
  intros Hm Hk s HR HF. eapply ok_seq; [by apply Hm| |done]. intros a s' HR'. by apply Hk.
Qed.

Lemma clean_bind_err own {A C} h F (m : M (A + error)) (k : A -> M (C + error)) :
  clean own h F m -> (forall a, clean own h (fun _ => True) (k a)) ->
  clean own h F (bind_err m k).
Proof. intros Hm Hk. apply clean_bind; [done|]. intros [a|e]; [apply Hk|apply clean_ret]. Qed.

Lemma clean_reply own {A} h F (m : M (A + error)) (k : A -> M message) :
  clean own h F m -> (forall a, clean own h (fun _ => True) (k a)) ->
  clean own h F (reply m k).
Proof. intros Hm Hk. apply clean_bind; [done|]. intros [a|e]; [apply Hk|apply clean_ret]. Qed.

Lemma clean_bind_err_quiet own {A C} h F `{!Stable (inv := RCq own) F} (m : M (A + error))
    (k : A -> M (C + error)) :
  keeps (inv := RCq own) h F m -> (forall a, clean own h F (k a)) ->
  clean own h F (bind_err m k).
Proof. intros Hm Hk. rule clean_bind_quiet; [done|]. intros [a|e]; [apply Hk|apply clean_ret]. Qed.

Lemma clean_reject_if own {A} h F (b : bool) e (k : M (A + error)) :
  clean own h F k -> clean own h F (reject_if b e k).
Proof. intros Hk. destruct b; [apply clean_ret|done]. Qed.

Lemma clean_with_lock own {A} h F l w (m : M A) :
  clean own ((l, w) :: h) F m -> clean own h F (with_lock l w m).
Proof. intros Hm s HR HF. by apply ok_with_lock, Hm. Qed.

Lemma clean_parent_of own {A} h F `{!Stable (inv := RCq own) F} r (k : rid -> M A) :
  r ∈ own -> (forall p, clean own h (fun s => F s /\ unclosed p s) (k p)) ->
  clean own h F (parent_of r ≫= k).
Proof.
  intros Hr Hk s HR HF. apply ok_bind.
  pose proof (wp_q_parent_of own h s r Hr) as Hw.
  specialize (Hw HR). destruct (parent_of r h s) as [p s'|s'|]; cbn in Hw |- *; [|by destruct Hw|done].
  destruct Hw as (HR' & He & Hu). apply Hk; [done|]. split; [by eapply (Stable0 _ _ He)|done].
Qed.

(** *** Holding a reference for a while *)

Lemma clean_defer_DecRef own {A} h F r (m : M A) :
  clean ({[+ r +]} ⊎ own) h F m ->
  forall s, rc ({[+ r +]} ⊎ own) s -> F s ->
  ok (defer (DecRef r) m h s) (fun _ s' => rc own s') (rc own).
Proof.
  intros Hm s HR HF.
  assert (Hd : forall s', rc ({[+ r +]} ⊎ own) s' ->
    ok (DecRef r h s') (fun _ s'' => rc own s'') (rc own)).
  { intros s' [fresh HR']. eapply ok_conseq; [by apply DecRef_ok| |done].
    intros err s'' [? _]. by exists fresh. }
  eapply ok_defer; [by apply Hm|intros a s'; apply Hd|apply Hd].
Qed.

(** The connection is known. *)
Definition has_conn (c : cid) : St -> Prop := fun s => is_Some (conns s !! c).
#[export] Instance stable_has_conn own c : Stable (inv := RCq own) (has_conn c).
Proof.
  intros s s' He [cs Hc]. destruct (q_conns _ _ He _ _ Hc) as (cs' & ? & _). by eexists.
Qed.

Lemma clean_with_fid own {A} h F c fid (bad : A) (k : rid -> M A) :
  (forall ref, clean ({[+ ref +]} ⊎ own) h (has_conn c) (k ref)) ->
  clean own h F (with_fid c fid bad k).
Proof.
  intros Hk s [fresh HR] HF. eapply ok_seq; [by apply LookupFID_ok| |].
  - intros [ref|] s' (HR' & He & Hc); cbn [tok] in HR'.
    + eapply clean_defer_DecRef; [apply Hk|by exists fresh|exact Hc].
    + rewrite (left_id_L ∅ disj_union) in HR'. by exists fresh.
  - intros s' ->. by exists fresh.
Qed.

Lemma clean_DeleteFID own h F c fid : clean own h F (DeleteFID c fid : M _).
Proof.
  intros s [fresh HR] _. eapply ok_conseq; [by apply DeleteFID_ok| |].
  - intros e s' HR'. by exists fresh.
  - intros s' ->. by exists fresh.
Qed.

Lemma clean_InsertFID own h F c fid r : r ∈ own -> clean own h F (InsertFID c fid r : M _).
Proof.
  intros Hr s [fresh HR] _. eapply ok_conseq; [by apply InsertFID_ok| |].
  - intros e s' HR'. by exists fresh.
  - intros s' [-> _]. by exists fresh.
Qed.

(** *** Unlinking and renaming *)

Lemma clean_removeWithName own h F p name :
  clean own h F (removeWithName p name None : M _).
Proof.
  intros s HR _. eapply ok_conseq; [by apply (removeWithName_ok own (fun _ => True))| |done].
  by intros o s' [? _].
Qed.

Lemma clean_markChildDeleted own h F f name : clean own h F (markChildDeleted f name : M _).
Proof.
  apply clean_True. unfold markChildDeleted. rule clean_bind_quiet; [quiet_code|]. intros fr.
  apply clean_bind; [apply clean_removeWithName|]. intros o. apply clean_quiet.
  destruct o; quiet_code.
Qed.

Lemma clean_renameChildTo own h F f oldName target newName :
  target ∈ own -> clean own h F (renameChildTo f oldName target newName : M _).
Proof.
  intros Ht. apply clean_True. unfold renameChildTo.
  apply clean_bind; [apply clean_markChildDeleted|]. intros _.
  rule clean_bind_quiet; [quiet_code|]. intros fr s HR _.
  destruct HR as [fresh HR].
  destruct (RC_tokens _ _ _ _ HR target (own_token _ _ _ _ _ Ht)) as [tr Htr].
  eapply ok_get_ref; [exact Htr|].
  eapply ok_seq; [|intros o s'|by intros ? ?].
  - eapply (removeWithName_ok own (at_node target (fr_pathNode tr))
      (fun s s' => at_node_dec _ _ s s') (fr_pathNode fr) oldName
      (Some (rename_callback target (fr_pathNode fr) (fr_pathNode tr) newName
        (fun rr => FRenamed (file rr) (file tr) newName)))).
    + by apply rename_callback_ok.
    + by exists fresh.
    + by exists tr.
  - intros (HR' & _ & Hpn). destruct o as [pn|]; [|done].
    assert (Hq : keeps (inv := RCq own) h (has_node pn)
      (addPathNodeFor (fr_pathNode tr) newName pn;; notifyNameChange pn)).
    { rule keeps_bind; [rule q_addPathNodeFor; done|]. intros _. rule q_notifyNameChange. }
    apply (clean_quiet own _ _ _ Hq); [done|]. by apply Hpn.
Qed.
End clean.
