(* ===== verification/RefWalk.v ===== *)
(** * Reference counting: new references

    Walking, cloning, creating and attaching make references; each gets its parent's
    count and its first holder together. *)
From stdpp Require Import gmultiset.
From S2P Require Import Prelude Errno Buffer Types Messages Message Transport Version.
From S2P Require Import File State PathTree FidRef Handlers Server.
From S2P Require Import ProgramLogic RefCount RefSteps RefOps RefTree RefQuiet RefClean.

Section walk.
Context {W File : Type} {B : Backend W File} {RB : Returning B}.
Local Notation St := (St W File).
Local Notation M := (M W File).
Implicit Types (s : St) (own loose : gmultiset rid) (fresh : gset rid) (h : held) (F : St -> Prop).

(** ** Code that cannot panic *)

Definition total {A} (m : M A) : Prop :=
  forall h s, match m h s with Panic _ => False | _ => True end.

Lemma total_ret {A} (a : A) : total (mret a : M A).
Proof. by intros h s. Qed.
Lemma total_call {A} r (e : FileE File A) : total (call r e : M A).
Proof. intros h s. rewrite call_returning. by destruct (exec e (world s)). Qed.
Lemma total_bind {A C} (m : M A) (k : A -> M C) :
  total m -> (forall a, total (k a)) -> total (m ≫= k).
Proof.
  intros Hm Hk h s. specialize (Hm h s). unfold mbind, M_bind.
  destruct (m h s) as [a s'|s'|]; [apply Hk|done..].
Qed.
Lemma total_bind_err {A C} (m : M (A + error)) (k : A -> M (C + error)) :
  total m -> (forall a, total (k a)) -> total (bind_err m k).
Proof. intros Hm Hk. apply total_bind; [done|]. intros [a|e]; [apply Hk|apply total_ret]. Qed.

(** Quiet code that cannot panic. *)
Lemma ok_quiet own {A} h F (m : M A) s :
  keeps (inv := RCq own) h F m -> total m -> rc own s -> F s ->
  ok (m h s) (fun _ s' => rc own s' /\ quiet s s') (fun _ => False).
Proof.
  intros Hm Ht HR HF. specialize (Hm s HF HR). specialize (Ht h s).
  destruct (m h s); cbn in *; naive_solver.
Qed.

Lemma total_walkOne qids r from names getattr : total (walkOne qids r from names getattr : M _).
Proof.
  unfold walkOne, reject_if.
  repeat first
    [ apply total_ret | apply total_call
    | apply total_bind; [|intros] | apply total_bind_err; [|intros] | case_match ].
Qed.

Lemma q_walkOne own h F `{!Stable (inv := RCq own) F} qids r from names getattr :
  r ∈ own -> keeps (inv := RCq own) h F (walkOne qids r from names getattr : M _).
Proof. intros Hr. unfold walkOne. quiet_code. Qed.

Lemma total_pathNodeFor own p name h s :
  rc own s -> has_node p s ->
  ok (pathNodeFor p name h s) (fun pn s' => rc own s' /\ quiet s s' /\ has_node pn s')
    (fun _ => False).
Proof.
  intros HR [nd Hn]. unfold pathNodeFor.
  assert (Hin : forall pn, childNodes nd !! name = Some pn -> has_node pn s).
  { intros pn Hpn. destruct HR as [fresh HR]. by eapply (RC_node _ _ _ _ HR _ _ Hn). }
  pose proof (q_new_node_fact own ((childMu p, true) :: h) (fun s' => node_refs p nd s')
    (fun pn => set_node p (set_childNodes <[name:=pn]> nd);; mret pn)) as Hq.
  eapply (ok_seq _ _ _ _ _ _ (fun nd' s' => nd' = nd /\ s' = s) (fun _ => False)); [| |done].
  { apply ok_with_lock. unfold get_node. by rewrite Hn. }
  intros ? ? [-> ->]. destruct (childNodes nd !! name) as [pn|] eqn:E.
  { split; [done|]. split; [reflexivity|by apply Hin]. }
  apply ok_with_lock. eapply ok_get_node; [exact Hn|]. rewrite E.
  assert (Hk : keeps (inv := RCq own) ((childMu p, true) :: h) (fun s' => node_refs p nd s')
    (new_node newPathNode ≫= fun pn => set_node p (set_childNodes <[name:=pn]> nd);; mret pn)).
  { apply Hq. intros pn. rule keeps_bind; [apply q_add_childNode; solve_fact|].
    quiet_code. }
  assert (Hok : node_refs p nd s).
  { destruct HR as [fresh HR]. by apply (RC_node _ _ _ _ HR). }
  specialize (Hk s Hok HR). cbn in Hk |- *. split; [apply Hk|]. split; [apply Hk|].
  unfold has_node. cbn. apply insert_dom. rewrite lookup_insert_eq. by eexists.
Qed.

(** ** A reference without holders *)

Definition unheld own (r : rid) (fr : fidRef File) s : Prop :=
  exists fresh, RC own ({[r]} ∪ fresh) ∅ s /\ r ∉ fresh /\ refHeap s !! r = Some fr.

Lemma unheld_rc own r fr s : unheld own r fr s -> rc own s.
Proof. intros (fresh & HR & _). by eexists. Qed.

Lemma new_ref_ok own h s fr :
  rc own s -> refs fr = 0 -> has_node (fr_pathNode fr) s ->
  (forall p, parent fr = Some p -> is_Some (refHeap s !! p)) ->
  ok (new_ref fr h s) (fun r s' => unheld own r fr s' /\ s' = with_new_ref s fr /\
    r = next_ref s /\ refHeap s !! r = None) (fun _ => False).
Proof.
  intros [fresh HR] H0 Hn Hp. destruct (RC_new_ref _ _ _ _ _ HR H0 Hn Hp) as [HR' Hf].
  cbn. split; [|split; [done|split; [done|by eapply RC_next_ref]]].
  exists fresh. split; [done|]. split; [done|]. apply lookup_insert_eq.
Qed.

(** What a new reference becomes part of. *)
Lemma lookup_new_ref s fr r fr' :
  refHeap s !! next_ref s = None -> refHeap s !! r = Some fr' ->
  refHeap (with_new_ref s fr) !! r = Some fr'.
Proof. intros Hn Hr. cbn. rewrite lookup_insert_ne; [done|congruence]. Qed.

Lemma addChild_new_ok own h s fr p pr name :
  rc own s -> refHeap s !! next_ref s = None -> refHeap s !! p = Some pr ->
  let r := next_ref s in let s' := with_new_ref s fr in
  unheld own r fr s' -> parent fr = Some p ->
  ok (addChild (fr_pathNode pr) r name h s')
    (fun _ s'' => unheld own r fr s'' /\ refHeap s'' = refHeap s' /\ conns s'' = conns s')
    (fun _ => False).
Proof.
  intros HR Hnone Hpr r s' (fresh & HR' & Hf & Hr) Hp. apply ok_with_lock.
  pose proof (lookup_new_ref s fr _ _ Hnone Hpr) as Hpr'.
  destruct (RC_ref _ _ _ _ HR' _ _ Hpr') as (_ & _ & _ & [nd Hn] & _).
  eapply ok_conseq; [eapply addChildLocked_ok; [exact HR'|exact Hn| | |]| |done].
  - intros n nd' Hn'. destruct (childRefNames nd' !! r) as [name'|] eqn:E; [|done].
    destruct HR as [fresh0 HR]. destruct (RC_node _ _ _ _ HR _ _ Hn') as (_ & H2 & _).
    destruct (H2 _ _ E) as (_ & fr0 & _ & _ & Hfr0 & _). unfold r in *. congruence.
  - destruct (RC_fresh _ _ _ _ HR' r) as [? _]; [set_solver|done].
  - by exists fr, p, pr.
  - intros [] s'' (HR'' & Hh & _ & Hc). split; [|done]. exists fresh. rewrite Hh. done.
Qed.

(** The first holder of a new reference. *)
Lemma IncRef_unheld own own' h s r fr :
  unheld own' r fr s -> own' = tok (parent fr) ⊎ own ->
  ok (IncRef r h s) (fun _ s' => rc ({[+ r +]} ⊎ own) s' /\ conns s' = conns s) (fun _ => False).
Proof.
  intros (fresh & HR & Hf & Hr) ->. eapply ok_conseq; [by eapply IncRef_new| |done].
  intros [] s' (HR' & He & _). split; [by exists fresh|apply (de_conns _ _ He)].
Qed.

(** The count of its parent, which has a holder already. *)
Lemma IncRef_parent own h s r fr p :
  unheld own r fr s -> parent fr = Some p ->
  (forall fresh, RC own fresh ∅ s -> p ∈ tokens own fresh ∅ s) ->
  ok (IncRef p h s) (fun _ s' => exists fr', unheld (tok (parent fr') ⊎ own) r fr' s' /\
    conns s' = conns s) (fun _ => False).
Proof.
  intros (fresh & HR & Hf & Hr) Hp Ht. eapply ok_conseq; [eapply IncRef_ok; [exact HR|by apply Ht]| |done].
  intros [] s' (HR' & He & _). destruct (de_heap _ _ He _ _ Hr) as (fr' & Hr' & Hp' & _).
  exists fr'. split; [|apply (de_conns _ _ He)]. exists fresh. rewrite Hp', Hp. done.
Qed.

(** ** Walking *)

Definition walk_result own {A C D} (r : A * rid * C * D + error) s : Prop :=
  match r with inl (_, newRef, _, _) => rc ({[+ newRef +]} ⊎ own) s | inr _ => rc own s end.

Lemma rc_own_ref own s r : rc own s -> r ∈ own -> exists fr, refHeap s !! r = Some fr /\
  has_node (fr_pathNode fr) s.
Proof.
  intros [fresh HR] Hr. destruct (RC_tokens _ _ _ _ HR r) as [fr Hfr]; [by apply own_token|].
  exists fr. split; [done|]. by destruct (RC_ref _ _ _ _ HR _ _ Hfr) as (_ & _ & _ & ? & _).
Qed.

(** One element of a walk: the holding of the directory goes to the entry's
    reference, which holds the directory. *)
Lemma walk_entry_ok own h s walkRef wr sf mode name qids valid attr :
  rc ({[+ walkRef +]} ⊎ own) s -> shape walkRef wr s -> has_node (fr_pathNode wr) s ->
  ok ((pn ← pathNodeFor (fr_pathNode wr) name;
       newRef ← new_ref (mk_fidRef _ sf pendingXattr_zero 0 false mode 0 pn (Some walkRef));
       addChild (fr_pathNode wr) newRef name;;
       IncRef newRef;;
       mret (inl (qids, newRef, valid, attr))) h s)
    (fun (r : list QID * rid * AttrMask * Attr + error) s' =>
       match r with inl (_, newRef, _, _) => rc ({[+ newRef +]} ⊎ own) s'
       | inr _ => rc ({[+ walkRef +]} ⊎ own) s' end) (fun _ => False).
Proof.
  intros HR Hsh Hn. eapply ok_seq; [by eapply total_pathNodeFor| |done].
  intros pn s1 (HR1 & He1 & Hpn). pose proof (stable_shape own _ _ _ _ He1 Hsh) as (wr1 & Hw1 & _ & Hwn & _).
  eapply ok_seq; [eapply new_ref_ok; [exact HR1|done|done|]| |done].
  { intros p [= <-]. by exists wr1. }
  intros r ? (Hun & -> & -> & Hnone). rewrite <- Hwn.
  eapply ok_seq; [by eapply (addChild_new_ok _ _ _ _ walkRef wr1); first exact HR1| |done].
  intros [] s2 (Hun2 & _).
  eapply ok_seq; [by eapply (IncRef_unheld own)| |done]. intros [] s3 [HR3 _].
  exact HR3.
Qed.

Lemma drop_walk_ok own h s walkRef (err : error) {A} :
  rc ({[+ walkRef +]} ⊎ own) s ->
  ok ((_ ← DecRef walkRef; mret (inr err)) h s)
    (fun (r : A + error) s' => rc own s' /\ exists e, r = inr e) (fun _ => False).
Proof.
  intros [fresh HR]. eapply ok_seq; [by eapply DecRef_ok| |done]. intros e s' [HR' _].
  split; [by exists fresh|by exists err].
Qed.

Lemma ok_isDeleted own {A} h s r (k : bool -> M A) Q X :
  rc own s -> r ∈ own -> (forall d, ok (k d h s) Q X) -> ok ((isDeleted r ≫= k) h s) Q X.
Proof.
  intros HR Hr Hk. destruct (rc_own_ref _ _ _ HR Hr) as (fr & Hfr & nd & Hn).
  apply ok_bind. unfold isDeleted. eapply ok_get_ref; [exact Hfr|]. eapply ok_get_node; [exact Hn|].
  apply Hk.
Qed.

Lemma ok_safelyRead own {A} h s r (fn : M A) Q X :
  rc own s -> r ∈ own -> (forall h, ok (fn h s) Q X) -> ok (safelyRead r fn h s) Q X.
Proof.
  intros HR Hr Hk. destruct (rc_own_ref _ _ _ HR Hr) as (fr & Hfr & _). apply ok_with_lock.
  eapply ok_get_ref; [exact Hfr|]. apply ok_with_lock, Hk.
Qed.

Lemma ok_safelyWrite own {A} h s r (fn : M A) Q X :
  rc own s -> r ∈ own -> (forall h, ok (fn h s) Q X) -> ok (safelyWrite r fn h s) Q X.
Proof.
  intros HR Hr Hk. destruct (rc_own_ref _ _ _ HR Hr) as (fr & Hfr & _). apply ok_with_lock.
  eapply ok_get_ref; [exact Hfr|]. apply ok_with_lock, Hk.
Qed.

(** A walk never panics, and leaves a holder of the reference it ends at. *)
Lemma doWalk_loop_ok own h s qids walkRef valid attr names :
  rc ({[+ walkRef +]} ⊎ own) s ->
  ok (doWalk_loop qids walkRef valid attr names h s) (fun r s' => walk_result own r s')
    (fun _ => False).
Proof.
  revert s qids walkRef valid attr. induction names as [|name names IH];
    intros s qids walkRef valid attr HR; cbn [doWalk_loop]; [exact HR|].
  assert (Hin : walkRef ∈ {[+ walkRef +]} ⊎ own) by multiset_solver.
  destruct (rc_own_ref _ _ _ HR Hin) as (wr & Hwr & Hn). eapply ok_get_ref; [exact Hwr|].
  destruct (negb _).
  { eapply ok_conseq; [by apply drop_walk_ok| |done]. by intros r s' [HR' [e ->]]. }
  eapply (ok_seq _ _ _ _ _ _ (fun (r : list QID * rid * AttrMask * Attr + error) s' =>
    match r with inl (_, newRef, _, _) => rc ({[+ newRef +]} ⊎ own) s'
    | inr _ => rc ({[+ walkRef +]} ⊎ own) s' end) (fun _ => False)); [| |done].
  - eapply ok_safelyRead; [exact HR|done|]. intros h'. eapply ok_isDeleted; [exact HR|done|].
    intros d. destruct d; [exact HR|]. cbn [reject_if].
    eapply ok_seq; [eapply (ok_quiet _ _ (shape walkRef wr));
      [rule q_walkOne; done|apply total_walkOne|exact HR|by exists wr]| |done].
    intros [[[[qids' sf] valid'] attr']|err] s1 [HR1 He1]; [|exact HR1].
    eapply walk_entry_ok; [exact HR1| |by eapply (q_nodes _ _ He1)].
    eapply (stable_shape own _ _ _ _ He1). by exists wr.
  - intros [[[[qids' r'] valid'] attr']|err] s1 HR1; [by apply IH|].
    eapply ok_conseq; [by apply drop_walk_ok| |done]. by intros r s' [HR' [e ->]].
Qed.

(** The table and the parent's count for a copy. *)
Lemma clone_parent_ok own h s ref fr p sf m {A} (g : rid -> A) :
  rc own s -> ref ∈ own -> shape ref fr s -> parent fr = Some p -> has_node (fr_pathNode fr) s ->
  ok ((newRef ← new_ref (mk_fidRef _ sf pendingXattr_zero 0 false m 0 (fr_pathNode fr) (parent fr));
       (d ← isDeleted newRef;
        pr ← get_ref p;
        (if (d : bool) then mret tt
         else name ← nameFor (fr_pathNode pr) ref; addChild (fr_pathNode pr) newRef name);;
        IncRef p);;
       IncRef newRef;;
       mret (g newRef)) h s)
    (fun a s' => exists newRef, a = g newRef /\ rc ({[+ newRef +]} ⊎ own) s') (rc own).
Proof.
  intros HR Href (fr0 & Hfr0 & Hp0 & _) Hp Hn.
  assert (Htok : forall s', (forall r fr, refHeap s !! r = Some fr -> refHeap s' !! r = Some fr) ->
    forall fresh, RC own fresh ∅ s' -> p ∈ tokens own fresh ∅ s').
  { intros s' Hh fresh HR'. assert (Ht : ref ∈ tokens own fresh ∅ s') by by apply own_token.
    eapply parent_token; [by apply Hh|congruence|].
    intros [H|[H|H]]; [by eapply RC_open|by eapply RC_not_fresh|multiset_solver]. }
  destruct HR as [fresh HR0]. pose proof (Htok s ltac:(done) _ HR0) as Hpt.
  destruct (RC_tokens _ _ _ _ HR0 _ Hpt) as [pr Hpr].
  assert (HR : rc own s) by by exists fresh.
  eapply ok_seq; [eapply (new_ref_ok own); [exact HR|done|done|]| |done].
  { intros p'. cbn. rewrite Hp. intros [= <-]. by exists pr. }
  intros r ? (Hun & -> & -> & Hnone). rewrite Hp in Hun |- *. set (fr' := mk_fidRef _ _ _ _ _ _ _ _ _) in *.
  set (s1 := with_new_ref s fr') in *. pose proof (unheld_rc _ _ _ _ Hun) as HR1.
  assert (Hh1 : forall r fr, refHeap s !! r = Some fr -> refHeap s1 !! r = Some fr)
    by (intros; by apply lookup_new_ref).
  eapply (ok_seq _ _ _ _ _ _ (fun _ s' => exists fr2,
    unheld (tok (parent fr2) ⊎ own) (next_ref s) fr2 s') (rc own)); [| |done].
  - unfold isDeleted. apply ok_bind. eapply ok_get_ref; [apply lookup_insert_eq|].
    destruct Hn as [nd Hn]. eapply ok_get_node; [exact Hn|]. cbn [ok mret M_ret].
    eapply ok_get_ref; [by apply Hh1|].
    eapply (ok_seq _ _ _ _ _ _ (fun _ s' => unheld own (next_ref s) fr' s' /\
      refHeap s' = refHeap s1) (rc own)); [| |done].
    + destruct (deleted nd); [done|]. unfold nameFor, with_lock at 1.
      unfold mbind at 1, M_bind at 1. unfold mbind at 1, M_bind at 1.
      destruct (conflicts h _ _); [done|]. unfold get_node.
      destruct (nodes s1 !! fr_pathNode pr) as [pn|]; [|exact HR1].
      destruct (childRefNames pn !! ref) as [name|]; [|exact HR1].
      eapply ok_conseq; [by eapply (addChild_new_ok own _ s fr' p pr)| |done].
      by intros [] s2 (Hun2 & Hh2 & _).
    + intros [] s2 [Hun2 Hh2]. eapply ok_conseq;
        [eapply IncRef_parent; [exact Hun2|done|]| |done].
      * apply Htok. intros. rewrite Hh2. by apply Hh1.
      * intros [] s3 (fr3 & Hun3 & _). by exists fr3.
  - intros [] s2 [fr2 Hun2]. eapply ok_seq; [by eapply (IncRef_unheld own)| |done].
    intros [] s3 [HR3 _]. by exists (next_ref s).
Qed.

Lemma clone_root_ok own h s (fr : fidRef File) sf m {A} (g : rid -> A) :
  rc own s -> parent fr = None -> has_node (fr_pathNode fr) s ->
  ok ((newRef ← new_ref (mk_fidRef _ sf pendingXattr_zero 0 false m 0 (fr_pathNode fr) (parent fr));
       mret tt;;
       IncRef newRef;;
       mret (g newRef)) h s)
    (fun a s' => exists newRef, a = g newRef /\ rc ({[+ newRef +]} ⊎ own) s') (rc own).
Proof.
  intros HR Hp Hn. rewrite Hp.
  eapply ok_seq; [by eapply (new_ref_ok own)| |done]. intros r s1 (Hun & _). apply ok_bind.
  eapply ok_seq; [eapply (IncRef_unheld own); [exact Hun|]| |done].
  - cbn [parent tok]. by rewrite (left_id_L ∅ disj_union).
  - intros [] s2 [HR2 _]. by exists r.
Qed.

Lemma doWalk_ok own h s ref names getattr :
  rc own s -> ref ∈ own ->
  ok (doWalk ref names getattr h s) (fun r s' => walk_result own r s') (rc own).
Proof.
  intros HR Href. unfold doWalk. destruct (checkSafeNames names); [exact HR|].
  destruct names as [|name names].
  - eapply (ok_seq _ _ _ _ _ _ (fun _ s' => s' = s) (fun s' => s' = s)); [|intros mp ? ->|by intros ? ->].
    { unfold maybeParent, mbind, M_bind, get_ref. by destruct (refHeap s !! ref). }
    unfold bind_err at 1. eapply (ok_seq _ _ _ _ _ _ (fun (r : rid * AttrMask * Attr + error) s' =>
      match r with inl (newRef, _, _) => rc ({[+ newRef +]} ⊎ own) s' | inr _ => rc own s' end)
      (rc own)); [| |done].
    + unfold safelyRead. apply ok_with_lock, ok_bind. unfold get_ref at 1.
      destruct (refHeap s !! mp) as [mr|]; [|exact HR]. apply ok_with_lock.
      destruct (rc_own_ref _ _ _ HR Href) as (fr & Hfr & Hn). eapply ok_get_ref; [exact Hfr|].
      unfold bind_err at 1. eapply ok_seq; [eapply (ok_quiet own _ (fun _ => True));
        [rule q_walkOne; done|apply total_walkOne|exact HR|done]| |done].
      intros [[[[qids sf] valid] attr]|err] s1 [HR1 He1]; [|exact HR1].
      pose proof (q_nodes _ _ He1 _ Hn) as Hn1.
      assert (Hsh : shape ref fr s1)
        by (eapply (stable_shape own _ _ _ _ He1); by exists fr).
      destruct (parent fr) as [p|] eqn:Hp; rewrite <- Hp.
      * eapply ok_conseq; [by apply (clone_parent_ok own _ _ ref fr p sf _
          (fun r => inl (r, valid, attr)))| |done]. by intros a s2 (r & -> & HR2).
      * eapply ok_conseq; [by apply (clone_root_ok own _ _ fr sf _
          (fun r => inl (r, valid, attr)))| |done]. by intros a s2 (r & -> & HR2).
    + by intros [[[newRef valid] attr]|err] s1 HR1.
  - destruct HR as [fresh HR]. eapply ok_seq; [by eapply IncRef_ok, own_token| |done].
    intros [] s1 (HR1 & _). eapply ok_conseq; [apply doWalk_loop_ok; by exists fresh|done|done].
Qed.
End walk.
