(* ===== verification/RefHandlers.v ===== *)
(** * Reference counting: the handlers

    Every handler keeps the counts right, and so do the loop over the requests and
    the end of a connection; from it, the theorems on every state that a server
    reaches. *)
From stdpp Require Import gmultiset.
From S2P Require Import Prelude Errno Buffer Types Messages Message Transport Version.
From S2P Require Import File State PathTree FidRef Handlers Server Reach.
From S2P Require Import ProgramLogic RefCount RefSteps RefOps RefTree RefQuiet RefClean RefWalk.

(** One step through code that is clean. *)
Ltac clean_step :=
  intros; lazymatch goal with
  | |- clean _ _ _ (with_fid _ _ _ _) => apply clean_with_fid
  | |- clean _ _ _ (reply _ _) => apply clean_reply
  | |- clean _ _ _ (match ?x with _ => _ end) => destruct x
  | |- clean _ _ _ (mbind _ (parent_of _)) => rule clean_parent_of; [multiset_solver|]
  | |- clean _ _ _ (mbind _ (DeleteFID _ _)) => apply clean_bind; [apply clean_DeleteFID|]
  | |- clean _ _ _ (mbind _ (InsertFID _ _ _)) =>
      apply clean_bind; [apply clean_InsertFID; multiset_solver|]
  | |- clean _ _ _ (mbind _ (markChildDeleted _ _)) =>
      apply clean_bind; [apply clean_markChildDeleted|]
  | |- clean _ _ _ (mbind _ (renameChildTo _ _ _ _)) =>
      apply clean_bind; [apply clean_renameChildTo; multiset_solver|]
  | |- clean _ _ _ (reject_if _ _ _) => apply clean_reject_if
  | |- clean _ _ _ (with_lock _ _ _) => apply clean_with_lock
  | |- clean _ _ _ (safelyRead _ _) => unfold safelyRead
  | |- clean _ _ _ (safelyWrite _ _) => unfold safelyWrite
  | |- clean _ _ _ (safelyGlobal _ _) => unfold safelyGlobal
  | |- clean _ _ _ (check_dir _ _) => unfold check_dir
  | |- clean _ _ _ (mret _) => apply clean_ret
  | |- clean _ _ _ panic => apply clean_panic
  end.

Section handlers.
Context {W File : Type} {B : Backend W File} {RB : Returning B}.
Local Notation St := (St W File).
Local Notation M := (M W File).
Implicit Types (s : St) (own : gmultiset rid) (h : held) (F : St -> Prop).

(** ** Quiet pieces *)

Lemma q_check_dir own h F `{!Stable (inv := RCq own) F} r (k : M (unit + error)) :
  keeps (inv := RCq own) h F k -> keeps (inv := RCq own) h F (check_dir r k).
Proof.
  intros Hk. unfold check_dir. rule keeps_bind; [rule q_isDeleted|]. intros d.
  rule q_get_ref. intros fr. do 2 quiet_step. intros _.
  eapply keeps_mono; [|exact Hk]. solve_fact.
Qed.

Lemma q_reply own {A} h F `{!Stable (inv := RCq own) F} (e : M (A + error)) (k : A -> M message) :
  keeps (inv := RCq own) h F e -> (forall x, keeps (inv := RCq own) h F (k x)) ->
  keeps (inv := RCq own) h F (reply e k).
Proof.
  intros He Hk. rule keeps_bind; [done|]. intros [x|err]; [apply Hk|apply keeps_ret].
Qed.

Lemma q_slice_to own {A} h F (b : list A) n : keeps (inv := RCq own) h F (slice_to b n : M _).
Proof. unfold slice_to. quiet_code. Qed.
Lemma q_slice_from own {A} h F (b : list A) n : keeps (inv := RCq own) h F (slice_from b n : M _).
Proof. unfold slice_from. quiet_code. Qed.
Lemma q_WaitTag own h F `{!Stable (inv := RCq own) F} c t :
  keeps (inv := RCq own) h F (WaitTag c t : M _).
Proof. unfold WaitTag. quiet_code. Qed.
End handlers.

#[export] Hint Resolve q_slice_to q_slice_from q_WaitTag : keeps.

(** Quiet handler bodies; the references owned are found by [multiset_solver]. *)
Ltac quiet_handler_step :=
  intros; lazymatch goal with
  | |- keeps _ _ (call (Some _) _) =>
      apply q_call; [reflexivity|first [left; multiset_solver|right; solve_fact]]
  | |- keeps _ _ (call_err _ _) => rule q_call_err
  | |- keeps _ _ (check_dir _ _) => rule q_check_dir
  | |- keeps _ _ (reply _ _) => rule q_reply
  | |- _ => quiet_step
  end.
Ltac quiet_handler := repeat (first [solve [eauto 3 with keeps] | quiet_handler_step]).
Ltac clean_handler :=
  repeat first [intros; apply clean_quiet; solve [quiet_handler] | clean_step].

Section handlers.
Context {W File : Type} {B : Backend W File} {RB : Returning B}.
Local Notation St := (St W File).
Local Notation M := (M W File).
Implicit Types (s : St) (own : gmultiset rid) (h : held) (F : St -> Prop).

(** ** The handlers that move holders *)

Lemma clean_handle_tclunk own h t c : clean own h (fun _ => True) (handle_tclunk t c : M _).
Proof.
  unfold handle_tclunk. apply clean_bind; [|clean_handler].
  unfold clunkHandleXattr. clean_step. intros. apply clean_quiet. quiet_handler.
Qed.

Lemma clean_handle_tremove own h t c : clean own h (fun _ => True) (handle_tremove t c : M _).
Proof.
  unfold handle_tremove. clean_step. intros ref. apply clean_bind; [|clean_handler].
  do 2 clean_step. rule clean_bind_quiet; [rule q_hasParent|]. intros root. clean_step.
  rule clean_bind_quiet; [rule q_isDeleted|]. intros d. do 2 clean_step. intros p.
  rule clean_bind_quiet; [quiet_handler|]. intros pr.
  rule clean_bind_quiet; [quiet_handler|]. intros name.
  rule clean_bind_err_quiet; [quiet_handler|]. intros []. eapply clean_True. clean_handler.
Qed.

Lemma clean_handle_tunlinkat own h t c : clean own h (fun _ => True) (handle_tunlinkat t c : M _).
Proof.
  unfold handle_tunlinkat. destruct (checkSafeName _); [clean_handler|]. clean_step. intros ref.
  clean_step; [|clean_handler]. clean_step. clean_step.
  rule clean_bind_quiet; [quiet_handler|]. intros fr0. clean_step. clean_step.
  rule clean_bind_quiet; [quiet_handler|]. intros d.
  rule clean_bind_quiet; [quiet_handler|]. intros fr. do 2 clean_step.
  rule clean_bind_quiet; [quiet_handler|]. intros fr'.
  rule clean_bind_quiet; [quiet_handler|]. intros pn. clean_step.
  rule clean_bind_err_quiet; [quiet_handler|]. intros []. eapply clean_True. clean_handler.
Qed.

Lemma clean_handle_trenameat own h t c : clean own h (fun _ => True) (handle_trenameat t c : M _).
Proof.
  unfold handle_trenameat. do 2 (destruct (checkSafeName _); [clean_handler|]).
  do 2 (clean_step; intros ?). clean_step; [|clean_handler]. do 2 clean_step.
  rule clean_bind_quiet; [quiet_handler|]. intros d.
  rule clean_bind_quiet; [quiet_handler|]. intros fr.
  rule clean_bind_quiet; [quiet_handler|]. intros td.
  rule clean_bind_quiet; [quiet_handler|]. intros tr. do 2 clean_step.
  case_match; [clean_handler|].
  rule clean_bind_err_quiet; [quiet_handler|]. intros []. eapply clean_True. clean_handler.
Qed.

Lemma clean_handle_trename own h t c : clean own h (fun _ => True) (handle_trename t c : M _).
Proof.
  unfold handle_trename. destruct (checkSafeName _); [clean_handler|].
  do 2 (clean_step; intros ?). clean_step; [|clean_handler]. do 2 clean_step.
  rule clean_bind_quiet; [quiet_handler|]. intros root. clean_step.
  rule clean_bind_quiet; [quiet_handler|]. intros d.
  rule clean_bind_quiet; [quiet_handler|]. intros td.
  rule clean_bind_quiet; [quiet_handler|]. intros tr. do 2 clean_step. intros p.
  rule clean_bind_quiet; [quiet_handler|]. intros pd. case_match; [clean_handler|].
  rule clean_bind_quiet; [quiet_handler|]. intros pr.
  rule clean_bind_quiet; [quiet_handler|]. intros oldName. case_match; [clean_handler|].
  rule clean_bind_err_quiet; [quiet_handler|]. intros []. eapply clean_True. clean_handler.
Qed.

(** A walk and the FID that it is installed under. *)
Lemma clean_install own h F c fid ref names getattr (resp : list QID -> AttrMask -> Attr -> message) :
  ref ∈ own ->
  clean own h F (reply (doWalk ref names getattr) (fun '(qids, newRef, valid, attr) =>
    defer (DecRef newRef) (InsertFID c fid newRef;; mret (resp qids valid attr))) : M _).
Proof.
  intros Href s HR _. eapply ok_seq; [by apply doWalk_ok| |done].
  intros [[[[qids newRef] valid] attr]|err] s1 HR1; [|exact HR1].
  eapply (clean_defer_DecRef own _ (fun _ => True)); [|exact HR1|done]. clean_handler.
Qed.

Lemma clean_handle_twalk own h t c : clean own h (fun _ => True) (handle_twalk t c : M _).
Proof.
  unfold handle_twalk. clean_step. intros ref. clean_step.
  - apply clean_quiet. unfold check_walk_busy. quiet_handler.
  - intros _. apply (clean_install _ _ _ _ _ _ _ _ (fun qids _ _ => Mrwalk (mk_rwalk qids))).
    multiset_solver.
Qed.

Lemma clean_handle_twalkgetattr own h t c :
  clean own h (fun _ => True) (handle_twalkgetattr t c : M _).
Proof.
  unfold handle_twalkgetattr. clean_step. intros ref. clean_step.
  - apply clean_quiet. unfold check_walk_busy. quiet_handler.
  - intros _. apply (clean_install _ _ _ _ _ _ _ _
      (fun qids valid attr => Mrwalkgetattr (mk_rwalkgetattr valid attr qids))). multiset_solver.
Qed.

(** Making an entry: the reference is in the table of its parent, and its parent has a
    count for it, before the FID holds it. *)
Lemma create_entry_ok own h s c ref fr pr name {A} (g : rid -> A) :
  rc own s -> ref ∈ own -> refs fr = 0 -> has_node (fr_pathNode fr) s -> parent fr = Some ref ->
  shape ref pr s -> has_conn c s ->
  ok ((newRef ← new_ref fr; addChild (fr_pathNode pr) newRef name;; IncRef ref;;
       mret (g newRef)) h s)
    (fun a s' => exists newRef fr', a = g newRef /\ has_conn c s' /\
       unheld (tok (parent fr') ⊎ own) newRef fr' s') (fun _ => False).
Proof.
  intros HR Href H0 Hn Hp (pr' & Hpr & _ & Hpn & _) Hc.
  eapply ok_seq; [eapply (new_ref_ok own); [exact HR|done|done|]| |done].
  { rewrite Hp. intros p [= <-]. by eexists. }
  intros r s1 (Hun & -> & -> & Hnone). rewrite <- Hpn.
  eapply ok_seq; [by eapply (addChild_new_ok own _ _ _ ref pr')| |done].
  intros [] s2 (Hun2 & _ & Hc2). eapply ok_seq; [eapply IncRef_parent; [exact Hun2|done|]| |done].
  { intros fresh _. by apply own_token. }
  intros [] s3 (fr' & Hun3 & Hc3). exists (next_ref s), fr'. split; [done|]. split; [|done].
  unfold has_conn. by rewrite Hc3, Hc2.
Qed.

Lemma clean_tlcreate_do own h t c uid : clean own h (fun _ => True) (tlcreate_do t c uid : M _).
Proof.
  unfold tlcreate_do. destruct (checkSafeName _); [clean_handler|]. clean_step.
  intros ref s HR Hc. set (own' := {[+ ref +]} ⊎ own) in *.
  assert (Href : ref ∈ own') by (unfold own'; multiset_solver).
  unfold bind_err at 1. eapply (ok_seq _ _ _ _ _ _ (fun (r : rid * QID * Z + error) s' =>
    match r with inl (newRef, _, _) => has_conn c s' /\ exists fr',
      unheld (tok (parent fr') ⊎ own') newRef fr' s' | inr _ => rc own' s' end) (rc own')); [| |done].
  - eapply ok_safelyWrite; [exact HR|done|]. intros h'. eapply ok_isDeleted; [exact HR|done|].
    intros d. destruct (rc_own_ref _ _ _ HR Href) as (fr & Hfr & Hn).
    eapply ok_get_ref; [exact Hfr|]. unfold reject_if. destruct (d || _); [done|].
    destruct (opened fr); [done|]. unfold bind_err.
    eapply ok_seq; [eapply (ok_quiet own' _ (fun _ => True));
      [apply q_call; [done|by left]|apply total_call|exact HR|done]| |done].
    intros [[[nsf qid] ioUnit]|err] s1 [HR1 He1]; [|exact HR1].
    eapply ok_seq; [eapply total_pathNodeFor; [exact HR1|by eapply (q_nodes _ _ He1)]| |done].
    intros pn s2 (HR2 & He2 & Hpn). assert (He : quiet s s2) by by etrans.
    eapply ok_conseq; [eapply (create_entry_ok own' _ _ c ref _ fr _ (fun r => inl (r, qid, ioUnit)));
      [exact HR2|done|done|done|done| |]| |done].
    + eapply (stable_shape own' _ _ _ _ He). by exists fr.
    + by eapply (stable_has_conn own' c _ _ He).
    + intros a s3 (newRef & fr' & -> & Hc3 & Hun). split; [done|by exists fr'].
  - intros [[[newRef qid] ioUnit]|err] s1; [|done]. intros (Hc1 & fr' & fresh & HR1 & Hf & Hr).
    eapply ok_seq; [by eapply InsertFID_new| |].
    + intros [] s2 HR2. by exists fresh.
    + intros s2 [-> Hnone]. unfold has_conn in Hc1. rewrite Hnone in Hc1. by destruct Hc1.
Qed.

Lemma clean_handle_txattrwalk own h t c : clean own h (fun _ => True) (handle_txattrwalk t c : M _).
Proof.
  unfold handle_txattrwalk. clean_step. intros ref. clean_step; [|clean_handler].
  clean_step. clean_step. rule clean_bind_quiet; [quiet_handler|]. intros fr0. clean_step.
  rule clean_bind_quiet; [quiet_handler|]. intros d. clean_step.
  set (own' := {[+ ref +]} ⊎ own). intros s HR Hc.
  assert (Href : ref ∈ own') by (unfold own'; multiset_solver).
  destruct (rc_own_ref _ _ _ HR Href) as (fr & Hfr & Hn). eapply ok_get_ref; [exact Hfr|].
  unfold bind_err at 1. eapply (ok_seq _ _ _ _ _ _ (fun _ s' => rc own' s' /\
    has_node (fr_pathNode fr) s') (rc own')); [| |done].
  - eapply ok_conseq; [eapply (ok_quiet own' _ (fun _ => True)); [| |exact HR|done]| |done].
    + subst own'. quiet_handler.
    + case_match; [apply total_call|]. apply total_bind_err; [apply total_call|].
      intros xs. apply total_ret.
    + intros a s' [HR' He]. split; [done|]. by apply (q_nodes _ _ He).
  - intros [buf|err] s1 [HR1 Hn1]; [|done]. unfold reject_if. destruct (_ <? _); [done|].
    eapply ok_seq; [by eapply (new_ref_ok own')| |done].
    intros r s2 ((fresh & HR2 & Hf & Hr) & _).
    eapply ok_seq; [eapply (InsertFID_new own'); [|exact Hr|exact Hf]| |].
    + cbn [parent tok]. rewrite (left_id_L ∅ disj_union). exact HR2.
    + intros [] s3 HR3. by exists fresh.
    + intros s3 [-> _]. by eexists.
Qed.

(** The reference of an attach starts with a holder. *)
Lemma new_root_ok own h s fr :
  rc own s -> parent fr = None -> fr_pathNode fr = pathTree -> refs fr = 1 ->
  ok (new_ref fr h s) (fun r s' => rc ({[+ r +]} ⊎ own) s') (fun _ => False).
Proof.
  intros [fresh HR] Hp Hn H1. set (fr0 := set_refs 0 fr).
  destruct (RC_new_ref _ _ _ _ fr0 HR eq_refl) as [HR' Hf].
  { cbn. rewrite Hn. apply (RC_root _ _ _ _ HR). }
  { cbn. by rewrite Hp. }
  exists fresh. pose proof (RC_promote own fresh ∅ (with_new_ref s fr0) (next_ref s) fr0 fr) as HP.
  unfold with_heap, with_new_ref in HP. cbn in HP. rewrite insert_insert_eq in HP. apply HP; try done.
  - rewrite Hp. cbn [tok]. rewrite (left_id_L ∅ disj_union). exact HR'.
  - by rewrite lookup_insert_eq.
Qed.

Lemma clean_handle_tattach own h t c : clean own h (fun _ => True) (handle_tattach t c : M _).
Proof.
  unfold handle_tattach. destruct (negb _); [clean_handler|]. cbv zeta.
  set (name := if IsAbs _ then _ else _). clearbody name. clean_step; [clean_handler|].
  intros sf. rule clean_bind_quiet; [quiet_handler|]. intros [[[qid valid] attr]|err]; [|clean_handler].
  destruct (negb _); [clean_handler|]. intros s HR _.
  eapply ok_seq; [by eapply new_root_ok| |done]. intros r s1 HR1.
  eapply (clean_defer_DecRef own _ (fun _ => True)); [|exact HR1|done].
  assert (Hr : r ∈ {[+ r +]} ⊎ own) by multiset_solver.
  destruct name; [clean_handler|].
  by apply (clean_install _ _ _ _ _ _ _ _ (fun _ _ _ => Mrattach (mk_rattach qid))).
Qed.

(** ** Every request *)

Lemma clean_handler_of own m f c : handler m = Some f -> clean own [] (fun _ => True) (f c : M _).
Proof.
  destruct m; try discriminate; intros [= <-];
    first [ apply clean_handle_tclunk | apply clean_handle_tremove | apply clean_handle_tunlinkat
          | apply clean_handle_trenameat | apply clean_handle_trename | apply clean_handle_twalk
          | apply clean_handle_twalkgetattr | apply clean_handle_tattach
          | apply clean_handle_txattrwalk
          | unfold handle_tlcreate, handle_tucreate; clean_step;
              [apply clean_tlcreate_do|clean_handler]
          | unfold handle_tversion, handle_tflush, handle_tauth, handle_tlopen,
              handle_tsymlink, handle_tlink, handle_treadlink, handle_twrite, handle_tmknod,
              handle_tmkdir, handle_tgetattr, handle_tsetattr, handle_txattrcreate,
              handle_treaddir, handle_tfsync, handle_tstatfs, handle_tlock, handle_tumkdir,
              handle_tusymlink, handle_tumknod, handle_tread, readBufPool_Get, tread_fn,
              tsymlink_do, tmknod_do, tmkdir_do;
            clean_handler ].
Qed.

(** A panic is recovered from with the counts right. *)
Lemma clean_handle own c m : clean own [] (fun _ => True) (handle c m : M _).
Proof.
  intros s HR _. unfold handle, recover. destruct (handler m) as [f|] eqn:E; [|exact HR].
  pose proof (clean_handler_of own m f c E s HR ltac:(done)) as Hf.
  by destruct (f c [] s).
Qed.

Lemma clean_respond own c tag m : clean own [] (fun _ => True) (respond c tag m : M _).
Proof.
  unfold respond. rule clean_bind_quiet; [unfold StartTag; quiet_handler|]. intros o.
  clean_step; [clean_handler|]. apply clean_bind; [apply clean_handle|]. intros r.
  apply clean_quiet. unfold ClearTag, PayloadCleanup. quiet_handler.
Qed.

(** ** The end of a connection *)

(** Code that does not look at the connections. *)
Definition map_state {A} (f : St -> St) (o : outcome W File A) : outcome W File A :=
  match o with Ret a s => Ret a (f s) | Panic s => Panic (f s) | Stuck => Stuck end.

Definition conn_blind {A} (m : M A) : Prop := forall h s cs,
  m h (with_conns s cs) = map_state (fun s' => with_conns s' cs) (m h s).

Lemma blind_ret {A} (a : A) : conn_blind (mret a).
Proof. done. Qed.
Lemma blind_bind {A C} (m : M A) (k : A -> M C) :
  conn_blind m -> (forall a, conn_blind (k a)) -> conn_blind (m ≫= k).
Proof.
  intros Hm Hk h s cs. unfold mbind, M_bind. rewrite Hm. destruct (m h s); cbn; [apply Hk|done..].
Qed.
Lemma blind_with_lock {A} l w (m : M A) : conn_blind m -> conn_blind (with_lock l w m).
Proof. intros Hm h s cs. unfold with_lock. by destruct (conflicts h l w). Qed.
Lemma blind_get_ref r : conn_blind (get_ref r).
Proof. intros h s cs. unfold get_ref. cbn. by destruct (refHeap s !! r). Qed.
Lemma blind_get_node n : conn_blind (get_node n).
Proof. intros h s cs. unfold get_node. cbn. by destruct (nodes s !! n). Qed.
Lemma blind_call {A} r (e : FileE File A) : conn_blind (call r e).
Proof. intros h s cs. rewrite !call_returning. cbn. by destruct (exec e (world s)). Qed.

Lemma blind_DecRef r : conn_blind (DecRef r : M _).
Proof.
  unfold DecRef. apply blind_bind; [done|]. intros n. generalize (S n) as fuel. intros fuel.
  revert r. induction fuel as [|fuel IH]; intros r; cbn [DecRef_fuel]; [done|].
  unfold removeChild.
  repeat first [apply blind_ret | apply blind_get_ref | apply blind_get_node | apply blind_call
    | apply IH | apply blind_with_lock | apply blind_bind; [|intros] | case_match | done].
Qed.

Definition list_own (l : list (Z * rid)) : gmultiset rid :=
  foldr (fun '(_, r) own => {[+ r +]} ⊎ own) ∅ l.

Lemma list_own_perm l l' : l ≡ₚ l' -> list_own l = list_own l'.
Proof.
  unfold list_own. induction 1 as [|[k r] l l' _ IH|[k r] [k' r'] l|]; cbn [foldr];
    [done|by rewrite IH| |congruence].
  generalize (foldr (fun '(_, r) own => {[+ r +]} ⊎ own) ∅ l). intros own. multiset_solver.
Qed.

Lemma conn_tokens_list cs : conn_tokens cs = list_own (map_to_list (fids cs)).
Proof.
  unfold conn_tokens, msum. rewrite map_fold_foldr. unfold list_own.
  induction (map_to_list (fids cs)) as [|[k r] l IH]; [done|]. cbn [foldr uncurry].
  by f_equal.
Qed.

(** The references of the list are dropped, whatever the table says by then. *)
Lemma drop_all_ok l h s cs fresh :
  RC (list_own l) fresh ∅ s ->
  ok (for_each (fun '(_, fidRef) => _ ← DecRef fidRef; mret tt) l h (with_conns s cs))
    (fun _ s' => exists s0, s' = with_conns s0 cs /\ RC ∅ fresh ∅ s0 /\ conns s0 = conns s)
    (fun _ => False).
Proof.
  revert s. induction l as [|[k r] l IH]; intros s HR; cbn [for_each]; [by exists s|].
  eapply (ok_seq _ _ _ _ _ _ (fun _ s' => exists s0, s' = with_conns s0 cs /\
    RC (list_own l) fresh ∅ s0 /\ conns s0 = conns s) (fun _ => False)); [| |done].
  - apply ok_bind. rewrite blind_DecRef. pose proof (DecRef_ok _ _ _ h _ _ HR) as Hd.
    destruct (DecRef r h s) as [e s'|s'|]; [|done..]. destruct Hd as [HR' He].
    exists s'. split; [done|]. split; [done|]. apply (de_conns _ _ He).
  - intros [] ? (s0 & -> & HR0 & Hc0). eapply ok_conseq; [by apply IH| |done].
    intros [] ? (s1 & -> & HR1 & Hc1). exists s1. split; [done|]. split; [done|congruence].
Qed.

Lemma stop_ok c s :
  rc ∅ s -> ok ((stop c;; set_conn c new_connState) [] s) (fun _ s' => rc ∅ s') (rc ∅).
Proof.
  intros [fresh HR]. unfold stop. apply ok_bind, ok_bind. unfold get_conn.
  destruct (conns s !! c) as [cs|] eqn:Hc; [|by exists fresh]. cbn [ok]. apply ok_bind.
  unfold map_range. cbn [ok]. pose proof (range_perm _ (world s) (map_to_list (fids cs))) as Hl.
  set (l := range _ _) in *. set (m := <[c := new_connState]> (conns s)).
  assert (HR0 : RC (list_own l) fresh ∅ (with_conns s m)).
  { apply (RC_with_conns ∅); [done|]. rewrite (list_own_perm _ _ Hl), <- conn_tokens_list.
    pose proof (fid_tokens_insert _ _ _ new_connState Hc) as Ht. fold m in Ht.
    assert (conn_tokens new_connState = ∅) as Hnew by done. rewrite Hnew in Ht. multiset_solver. }
  pose proof (drop_all_ok l [] (with_conns s m) (conns s) fresh HR0) as Hd.
  assert (with_conns (with_conns s m) (conns s) = s) as Hs by by destruct s. rewrite Hs in Hd.
  destruct (for_each _ l [] s) as [u s'|s'|]; [|done..].
  destruct Hd as (s0 & -> & HRs & Hcs). cbn [ok set_conn]. exists fresh. cbn [conns with_conns].
  fold m. replace (mk_St _ _ _ _ _ _ _) with s0; [done|]. destruct s0. cbn in *. by rewrite Hcs.
Qed.

(** ** Reachable states *)

Lemma rc_new_server w : rc ∅ (NewServer w : St).
Proof.
  exists ∅. split; try done.
  - intros r Hr. exfalso. unfold tokens in Hr. cbn in Hr. multiset_solver.
  - intros r Hr. by apply elem_of_nil in Hr.
  - intros n nd Hn.
    change (nodes (NewServer w)) with ({[ pathTree := newPathNode ]} : gmap nid pathNode) in Hn.
    apply lookup_singleton_Some in Hn as [<- <-]. apply (node_ok_new (NewServer w)).
Qed.

Lemma ok_final {A} (o : outcome W File A) (P : St -> Prop) s :
  ok o (fun _ => P) P -> final o = Some s -> P s.
Proof. destruct o; cbn; naive_solver. Qed.

Lemma reachable_rc s : reachable s -> rc ∅ s.
Proof.
  apply reachable_ind'; [apply rc_new_server|]. clear s. intros s1 s2 HR Hst. revert HR.
  destruct Hst as [s s' c Hc Hs|s s' c tag m Hs|s s' c Hs|s w _]; intros HR.
  - cbn in Hs. injection Hs as <-. destruct HR as [fresh HR]. exists fresh.
    apply (RC_with_conns ∅ ∅ _ _ _ (<[c := new_connState]> (conns s)) HR). unfold fid_tokens.
    rewrite msum_insert_new by done. cbn [fids new_connState]. rewrite msum_empty. multiset_solver.
  - eapply ok_final; [|exact Hs]. by apply clean_respond.
  - eapply ok_final; [|exact Hs]. by apply stop_ok.
  - destruct HR as [fresh HR]. exists fresh. eapply RC_same; [exact HR|done..|]. apply HR.
Qed.
End handlers.
