(* ===== verification/Lifetimes.v ===== *)
(** * The lifetimes of references and of their files

    What the reference count invariant says of every state that a server reaches:
    the counts are the numbers of holders, nothing is called on a closed reference,
    and the FIDs of the connections are open. *)
From stdpp Require Import gmultiset.
From S2P Require Import Prelude Errno Buffer Types Messages Message Transport Version.
From S2P Require Import File State PathTree FidRef Handlers Server Reach.
From S2P Require Import ProgramLogic RefCount RefSteps RefOps RefTree RefHandlers.

(** ** Counting holders *)

Section count.
Context {K V : Type} `{Countable K}.
Implicit Types m : gmap K V.

Lemma multiplicity_msum (f : K -> V -> gmultiset rid) m r :
  multiplicity r (msum f m) = map_fold (fun k v n => (multiplicity r (f k v) + n)%nat) 0%nat m.
Proof.
  unfold msum. induction m as [|k v m Hk IH] using map_ind; [done|].
  rewrite !map_fold_insert_L by (done || (intros; multiset_solver) || (intros; lia)).
  by rewrite multiplicity_disj_union, IH.
Qed.

(** A sum of zeros and ones is the size of a filter. *)
Lemma map_fold_filter (P : K * V -> Prop) `{!forall x, Decision (P x)} (g : K -> V -> nat) m :
  (forall k v, m !! k = Some v -> g k v = if decide (P (k, v)) then 1%nat else 0%nat) ->
  map_fold (fun k v n => (g k v + n)%nat) 0%nat m = size (filter P m).
Proof.
  induction m as [|k v m Hk IH] using map_ind; intros Hg.
  - by rewrite map_filter_empty, map_size_empty.
  - rewrite map_fold_insert_L by (done || (intros; lia)).
    rewrite Hg by apply lookup_insert_eq. rewrite IH.
    + case_decide as HP.
      * rewrite map_filter_insert_True by done. rewrite map_size_insert_None; [done|].
        apply map_lookup_filter_None. by left.
      * rewrite map_filter_insert_False by done. by rewrite delete_id.
    + intros k' v' Hk'. apply Hg. rewrite lookup_insert_ne; [done|congruence].
Qed.
End count.

Section lifetimes.
Context {W File : Type} {B : Backend W File} {RB : Returning B}.
Local Notation St := (St W File).
Implicit Types s : St.

(** The FIDs, of all connections, that name a reference, and the references in use
    whose parent it is. *)
Definition fid_holders s (r : rid) : nat :=
  map_fold (fun _ cs n => (size (filter (fun '(_, r') => r' = r) (fids cs)) + n)%nat) 0%nat (conns s).
Definition child_holders s (r : rid) : nat :=
  size (filter (fun '(_, fr) => parent fr = Some r /\ 0 < refs fr) (refHeap s)).

Lemma multiplicity_fids s r : multiplicity r (fid_tokens (conns s)) = fid_holders s r.
Proof.
  unfold fid_tokens, fid_holders. rewrite multiplicity_msum.
  induction (conns s) as [|c cs m Hc IH] using map_ind; [done|].
  rewrite !map_fold_insert_L by (done || (intros; lia)). rewrite IH. f_equal.
  rewrite multiplicity_msum.
  rewrite (map_fold_filter (fun '(_, r') => r' = r) (fun _ r' => multiplicity r {[+ r' +]})); [done|].
  intros k v _. rewrite multiplicity_singleton. repeat case_decide; congruence.
Qed.

Lemma uncounted_iff s fresh r fr :
  RC ∅ fresh ∅ s -> refHeap s !! r = Some fr ->
  uncounted (closes (trace s)) fresh ∅ r <-> refs fr = 0.
Proof.
  intros HR Hr. destruct (RC_ref _ _ _ _ HR _ _ Hr) as (Hc & Hz & _). split.
  - assert (Hn : r ∉ tokens ∅ fresh ∅ s -> refs fr = 0)
      by (rewrite elem_of_multiplicity; lia).
    intros [Hcl|[Hf|Hl]]; [..|multiset_solver]; apply Hn.
    + by destruct (RC_closed _ _ _ _ HR r Hcl).
    + by destruct (RC_fresh _ _ _ _ HR r Hf) as (_ & ? & _).
  - intros H0. destruct (Hz H0); [by left|right; by left].
Qed.

Lemma refs_nonneg s fresh r fr : RC ∅ fresh ∅ s -> refHeap s !! r = Some fr -> 0 <= refs fr.
Proof. intros HR Hr. destruct (RC_ref _ _ _ _ HR _ _ Hr) as (-> & _). lia. Qed.

Lemma multiplicity_parents s fresh r :
  RC ∅ fresh ∅ s ->
  multiplicity r (parent_tokens (closes (trace s)) fresh ∅ (refHeap s)) = child_holders s r.
Proof.
  intros HR. unfold parent_tokens, child_holders. rewrite multiplicity_msum.
  apply map_fold_filter. intros r' fr' Hr'. pose proof (refs_nonneg _ _ _ _ HR Hr') as Hnn.
  pose proof (uncounted_iff _ _ _ _ HR Hr') as Hu.
  destruct (decide (uncounted _ _ _ r')) as [H|H].
  - rewrite multiplicity_empty, decide_False; [done|]. intros [_ ?]. apply Hu in H. lia.
  - assert (0 < refs fr') by (destruct (decide (refs fr' = 0)); [tauto|lia]).
    destruct (decide _) as [Hd|Hd]; cbn in Hd; destruct (parent fr') as [p|] eqn:Hp; cbn [tok];
      rewrite ?multiplicity_singleton, ?multiplicity_empty; try case_decide; naive_solver.
Qed.

Lemma closes_In (t : list (event File)) r :
  r ∈ closes t <-> exists ev, ev ∈ t /\ ev_ref ev = Some r /\ is_close (ev_call ev) = true.
Proof.
  unfold closes. rewrite list_elem_of_omap. split; intros (ev & Hev & H); exists ev.
  - destruct (is_close (ev_call ev)); naive_solver.
  - destruct H as [-> ->]. done.
Qed.

Lemma trace_ok_app (t1 t2 : list (event File)) : trace_ok (t1 ++ t2) -> trace_ok t2.
Proof. induction t1 as [|ev t1 IH]; [done|]. intros [_ H]. by apply IH. Qed.

(** C4: the reference counts are right as long as the methods of the backend return
  ([Returning]: they may fail, but not panic): in every state that the server
  reaches, whatever the clients sent and the backend answered, and although
  handlers themselves may panic (on a nil pointer or a slice out of range), the
  count of every reference is the number of FIDs that name it plus the number of
  references in use whose parent it is; none is leaked and none is dropped early.
  Where a method of the backend panics, a walk leaks a reference
  ([walk_panic_leaks] below). *)
Theorem reference_counts s r fr :
reachable s -> refHeap s !! r = Some fr ->
refs fr = Z.of_nat (fid_holders s r + child_holders s r).
Proof.
intros Hs Hr. apply reachable_rc in Hs as [fresh HR].
destruct (RC_ref _ _ _ _ HR _ _ Hr) as (-> & _). unfold tokens.
rewrite !multiplicity_disj_union, !multiplicity_empty, multiplicity_fids.
rewrite multiplicity_parents by done. f_equal. lia.
Qed.

(** C5: no use after close: once the file of a reference was closed, no method is
  called through that reference again; so it is closed at most once. *)
Theorem no_use_after_close s later ev earlier ev' r :
reachable s -> trace s = later ++ ev :: earlier -> ev' ∈ earlier ->
ev_ref ev = Some r -> ev_ref ev' = Some r -> is_close (ev_call ev') = false.
Proof.
intros Hs Ht Hev' Hr Hr'. apply reachable_rc in Hs as [fresh HR].
pose proof (RC_trace _ _ _ _ HR) as Hok. rewrite Ht in Hok.
apply trace_ok_app in Hok as [Hok _]. specialize (Hok r Hr).
destruct (is_close (ev_call ev')) eqn:E; [|done]. exfalso. apply Hok, closes_In. eauto.
Qed.

(** A FID names a reference that exists, is counted and whose file was not
  closed. *)
Theorem fid_open s c cs fid r :
reachable s -> conns s !! c = Some cs -> fids cs !! fid = Some r ->
(exists fr, refHeap s !! r = Some fr /\ 0 < refs fr) /\
forall ev, ev ∈ trace s -> ev_ref ev = Some r -> is_close (ev_call ev) = false.
Proof.
intros Hs Hc Hf. apply reachable_rc in Hs as [fresh HR].
pose proof (fid_token ∅ fresh ∅ s c cs fid r Hc Hf) as Ht. split.
- destruct (RC_tokens _ _ _ _ HR r Ht) as [fr Hr]. exists fr. split; [done|].
  by eapply RC_positive.
- intros ev Hev Her. destruct (is_close (ev_call ev)) eqn:E; [|done].
  destruct (RC_open _ _ _ _ _ HR Ht). apply closes_In. eauto.
Qed.
End lifetimes.

(** ** The last holder *)

Section last_holder.
Context {W File : Type} {B : Backend W File} {RB : Returning B}.
Local Notation St := (St W File).
Local Notation M := (M W File).
Implicit Types s : St.

(** The calls made since [s]. *)
Definition extends s s' : Prop := exists later, trace s' = later ++ trace s.

#[export] Instance extends_preorder : PreOrder extends.
Proof.
  split; [by intros s; exists []|]. intros s1 s2 s3 [l1 H1] [l2 H2]. exists (l2 ++ l1).
  by rewrite H2, H1, app_assoc.
Qed.

Definition only_extends {A} (m : M A) : Prop := forall h s, ok (m h s) (fun _ => extends s) (extends s).

Lemma extends_bind {A C} (m : M A) (k : A -> M C) :
  only_extends m -> (forall a, only_extends (k a)) -> only_extends (m ≫= k).
Proof.
  intros Hm Hk h s. eapply ok_seq; [apply Hm| |done]. intros a s' He.
  eapply ok_conseq; [apply Hk|intros c s'' He'|intros s'' He'];
    (etrans; [exact He|exact He']).
Qed.
Lemma extends_with_lock {A} l w (m : M A) : only_extends m -> only_extends (with_lock l w m).
Proof. intros Hm h s. apply ok_with_lock, Hm. Qed.
Lemma extends_same {A} (m : M A) :
  (forall h s, ok (m h s) (fun _ s' => trace s' = trace s) (fun s' => trace s' = trace s)) ->
  only_extends m.
Proof.
  intros Hm h s. eapply ok_conseq; [apply Hm|intros a s' E|intros s' E]; exists []; exact E.
Qed.
Lemma extends_ret {A} (a : A) : only_extends (mret a : M A).
Proof. intros h s. by exists []. Qed.
Lemma extends_get_ref r : only_extends (get_ref r).
Proof. apply extends_same. intros h s. unfold get_ref. by destruct (refHeap s !! r). Qed.
Lemma extends_get_node n : only_extends (get_node n).
Proof. apply extends_same. intros h s. unfold get_node. by destruct (nodes s !! n). Qed.
Lemma extends_call {A} r (e : FileE File A) : only_extends (call r e).
Proof.
  intros h s. unfold call. destruct (exec e (world s)) as [a w].
  destruct (panics e (world s)); by eexists [_].
Qed.

Lemma extends_DecRef_fuel fuel r : only_extends (DecRef_fuel fuel r : M _).
Proof.
  revert r. induction fuel as [|fuel IH]; intros r; cbn [DecRef_fuel]; [done|].
  unfold removeChild.
  repeat first [apply extends_get_ref | apply extends_get_node | apply extends_call
    | apply IH | apply extends_with_lock | apply extends_bind; [|intros] | case_match
    | apply extends_same; done].
Qed.

Lemma DecRef_last h s r fr :
  refHeap s !! r = Some fr -> refs fr = 1 ->
  ok (DecRef r h s) (fun _ s' => exists later h' n a, trace s' =
       later ++ mk_event _ (FClose (file fr)) (Some r) n a h' :: trace s) (fun _ => True).
Proof.
  intros Hr H1. unfold DecRef. apply ok_bind. cbn [count_refs ok DecRef_fuel].
  eapply ok_get_ref; [exact Hr|]. apply ok_bind. cbn [set_ref ok]. rewrite H1. cbn [Z.sub Z.eqb].
  change (1 - 1 =? 0) with true. cbn iota. apply ok_bind. rewrite call_returning.
  destruct (exec _ _) as [err w]. cbn [ok]. set (s1 := mk_St w _ _ _ _ _ _).
  assert (He : forall (m : M (option error)), only_extends m ->
    ok (m h s1) (fun _ s' => exists later h' n a, trace s' =
       later ++ mk_event _ (FClose (file fr)) (Some r) n a h' :: trace s) (fun _ => True)).
  { intros m Hm. eapply ok_conseq; [apply Hm| |done]. intros a s' [later Hl].
    exists later. eexists _, _, _. exact Hl. }
  apply He. destruct (parent fr) as [p|]; [|apply extends_ret].
  apply extends_bind; [apply extends_get_ref|]. intros pr. unfold removeChild.
  apply extends_bind; [|intros; apply extends_bind;
    [apply extends_DecRef_fuel|intros; apply extends_ret]].
  repeat first [apply extends_get_node | apply extends_with_lock
    | apply extends_bind; [|intros] | case_match | apply extends_same; done].
Qed.

(** The last holder closes the file: dropping a reference whose count is one
  calls [Close] on its file before anything else; dropping any other only counts
  down, and calls nothing. *)
Theorem DecRef_closes_last h s r fr :
refHeap s !! r = Some fr ->
match DecRef r h s with
| Ret err s' =>
    (refs fr = 1 -> exists later h' n a, trace s' =
       later ++ mk_event _ (FClose (file fr)) (Some r) n a h' :: trace s) /\
    (refs fr <> 1 -> err = None /\ trace s' = trace s /\
       refHeap s' = <[r := set_refs (refs fr - 1) fr]> (refHeap s))
| Panic _ => refs fr = 1
| Stuck => refs fr = 1
end.
Proof.
intros Hr. destruct (decide (refs fr = 1)) as [H1|H1].
- pose proof (DecRef_last h s r fr Hr H1) as Hd. by destruct (DecRef r h s).
- unfold DecRef, mbind, M_bind, count_refs. cbn [DecRef_fuel].
  unfold mbind, M_bind, get_ref. rewrite Hr. cbn [set_ref].
  destruct (Z.eqb_spec (refs fr - 1) 0); [lia|]. by cbn.
Qed.
End last_holder.

(** ** Examples *)

(** Reference 3 of the example is a copy of the root: FID 3 names it, and the directory
    of FID 4 was walked to from it. *)
Lemma reference_counts_witness :
  exists fr, (refHeap demo_state !! 3%nat = Some fr /\ refs fr = 2) /\
  refs fr = Z.of_nat (fid_holders demo_state 3%nat + child_holders demo_state 3%nat).
Proof.
  assert (H : exists fr, refHeap demo_state !! 3%nat = Some fr /\ refs fr = 2).
  { eexists. split; vm_compute; reflexivity. }
  destruct H as (fr & Hr & H3). exists fr. split; [exact (conj Hr H3)|].
  exact (reference_counts demo_state 3%nat fr demo_reachable Hr).
Defined.

(** Reference 1, the directory on the way of the first walk, is closed when the file
    below it moves away. *)
Lemma no_use_after_close_witness :
  exists ev ev', (trace demo_state !! 3%nat = Some ev /\ is_close (ev_call ev) = true /\
    trace demo_state !! 4%nat = Some ev' /\ ev_ref ev' = ev_ref ev) /\
  is_close (ev_call ev') = false.
Proof.
  assert (H : exists ev ev', trace demo_state !! 3%nat = Some ev /\
    is_close (ev_call ev) = true /\ trace demo_state !! 4%nat = Some ev' /\
    ev_ref ev = Some 1%nat /\ ev_ref ev' = Some 1%nat).
  { eexists _, _. split_and!; vm_compute; reflexivity. }
  destruct H as (ev & ev' & H1 & H2 & H3 & H4 & H5). exists ev, ev'.
  split; [exact (conj H1 (conj H2 (conj H3 (eq_trans H5 (eq_sym H4)))))|].
  refine (no_use_after_close demo_state (take 3 (trace demo_state)) ev
    (drop 4 (trace demo_state)) ev' 1%nat demo_reachable _ _ H4 H5).
  - exact (eq_sym (take_drop_middle _ _ _ H1)).
  - apply list_elem_of_lookup_2 with 0%nat. rewrite lookup_drop. exact H3.
Defined.

Lemma fid_open_witness :
  exists c cs r, (conns demo_state !! c = Some cs /\ fids cs !! 4 = Some r) /\
  (exists fr, refHeap demo_state !! r = Some fr /\ 0 < refs fr) /\
  forall ev, ev ∈ trace demo_state -> ev_ref ev = Some r -> is_close (ev_call ev) = false.
Proof.
  assert (H : exists cs r, conns demo_state !! 0%nat = Some cs /\ fids cs !! 4 = Some r).
  { eexists _, _. split; vm_compute; reflexivity. }
  destruct H as (cs & r & Hc & Hf). exists 0%nat, cs, r. split; [exact (conj Hc Hf)|].
  exact (fid_open demo_state 0%nat cs 4 r demo_reachable Hc Hf).
Defined.

(** The copy of the root is clunked while its child lives: it stays open. *)
Lemma DecRef_closes_last_witness :
  exists fr, refHeap demo_state !! 2%nat = Some fr /\ refs fr = 1 /\
  match DecRef 2%nat [] demo_state with
  | Ret _ s' => exists later h' n a, trace s' =
      later ++ mk_event _ (FClose (file fr)) (Some 2%nat) n a h' :: trace demo_state
  | Panic _ | Stuck => False
  end.
Proof.
  assert (H : exists fr, refHeap demo_state !! 2%nat = Some fr /\ refs fr = 1).
  { eexists. split; vm_compute; reflexivity. }
  destruct H as (fr & Hr & H1). exists fr. split; [exact Hr|]. split; [exact H1|].
  pose proof (DecRef_closes_last [] demo_state 2%nat fr Hr) as Hd.
  assert (Hret : exists e s', DecRef 2%nat [] demo_state = Ret e s').
  { eexists _, _. vm_compute. reflexivity. }
  destruct Hret as (e & s' & He). rewrite He in Hd |- *. exact (proj1 Hd H1).
Defined.

(** ** A method of the backend that panics

    [handle] recovers from it, but the reference that [doWalk] took for the walk is
    not dropped, as that is not deferred.  Here the walk to [p] panics: the request
    fails, one FID names the root, and nothing else holds it; but its count is two, so
    it is never closed. *)
Definition walks_to_p {A} (e : FileE toy_file A) : bool :=
  match e with FWalk _ ["p"%string] => true | _ => false end.

Program Definition panicking_backend : Backend nat toy_file := {|
  exec A e w := toy_exec e w;
  panics A e w := walks_to_p e;
  range A w l := l;
|}.
Next Obligation. done. Qed.

Definition panicking_requests : list message :=
  [toy_version; toy_attach 1; Mtwalk (mk_twalk 1 2 ["p"%string])].

Example walk_panic_leaks :
  exists s fr, run (B := panicking_backend) 0%nat panicking_requests = Some s /\
  reachable (B := panicking_backend) s /\
  refHeap s !! 0%nat = Some fr /\ refs fr = 2 /\
  fid_holders s 0%nat = 1%nat /\ child_holders s 0%nat = 0%nat.
Proof.
  destruct (run (B := panicking_backend) 0%nat panicking_requests) as [s|] eqn:E;
    [|vm_compute in E; discriminate].
  exists s. pose proof (run_reachable (B := panicking_backend) _ _ _ E) as Hs.
  vm_compute in E. injection E as <-. eexists. split; [reflexivity|]. split; [exact Hs|].
  split_and!; vm_compute; reflexivity.
Qed.

(** ** The file that an extended attribute shares

    [txattrwalk] makes a reference to the file of the reference that it was asked
    about, and both close it: the file is used after it was closed, and closed twice.
    References are closed once; files are not. *)
Definition shared_file_requests : list message :=
  [toy_version; toy_attach 1; Mtxattrwalk (mk_txattrwalk 1 2 "user.a");
   Mtclunk (mk_tclunk 2); Mtgetattr (mk_tgetattr 1 AttrMaskAll); Mtclunk (mk_tclunk 1)].

Definition closed_file {A} (e : FileE toy_file A) : option toy_file :=
  match e with FClose f => Some f | _ => None end.

Example xattrwalk_closes_shared_file :
  exists s, run 0%nat shared_file_requests = Some s /\
  take 3 (map (fun ev => (closed_file (ev_call ev), ev_ref ev)) (trace s))
  = [(Some (0%nat, ModeDirectory), Some 0%nat); (None, Some 0%nat);
     (Some (0%nat, ModeDirectory), Some 1%nat)].
Proof.
  destruct (run 0%nat shared_file_requests) as [s|] eqn:E; [|vm_compute in E; discriminate].
  exists s. split; [reflexivity|]. vm_compute in E. injection E as <-. vm_compute. reflexivity.
Qed.
