(* ===== verification/Session.v ===== *)
(** * A session: the answers to a stream of requests

    Every request whose tag is not in use is answered, once and with its tag, and
    leaves the active tags as they were; so the loop over the bytes of a connection
    refines the handling of a sequence of messages. *)
From S2P Require Import Prelude Errno Buffer Types Messages Message Transport Version.
From S2P Require Import File State PathTree FidRef Handlers Server Reach ProgramLogic TreeLogic.

(** ** Handlers keep the active tags *)

Section tags.
Context {W File : Type} {B : Backend W File}.
Local Notation St := (St W File).
Local Notation M := (M W File).
Implicit Types (s : St) (h : held) (F : St -> Prop).

(** Connections stay, with their tags. *)
Definition same_tags s s' : Prop := forall c cs,
  conns s !! c = Some cs -> exists cs', conns s' !! c = Some cs' /\ tags cs' = tags cs.

#[export] Instance same_tags_preorder : PreOrder same_tags.
Proof.
  split; [by intros s c cs; eauto|]. intros s1 s2 s3 H1 H2 c cs Hc.
  destruct (H1 _ _ Hc) as (cs1 & Hc1 & <-). by apply H2.
Qed.

#[local] Instance tags_inv : Inv W File := {| I _ := True; ext := same_tags |}.

(** The tags of a connection that was looked up. *)
Definition has_tags (c : cid) (ts : gset Z) : St -> Prop := fun s =>
  exists cs, conns s !! c = Some cs /\ tags cs = ts.
#[local] Instance stable_has_tags c ts : Stable (has_tags c ts).
Proof. intros s s' He (cs & Hc & <-). by apply He. Qed.

Lemma keeps_same {A} h F (m : M A) :
  (forall h s, match m h s with Ret _ s' | Panic s' => conns s' = conns s | Stuck => True end) ->
  keeps h F m.
Proof.
  intros Hm s _ _. specialize (Hm h s).
  assert (He : forall s', conns s' = conns s -> same_tags s s')
    by (intros s' E c cs; rewrite E; eauto).
  destruct (m h s); cbn; auto.
Qed.

Lemma tags_call {A} h F r (e : FileE File A) : keeps h F (call r e : M _).
Proof. apply keeps_same. intros h' s. unfold call. destruct (exec e (world s)). by destruct (panics e (world s)). Qed.
Lemma tags_set_ref h F r fr : keeps h F (set_ref r fr : M _).
Proof. by apply keeps_same. Qed.
Lemma tags_new_ref h F fr : keeps h F (new_ref fr : M _).
Proof. by apply keeps_same. Qed.
Lemma tags_set_node h F n nd : keeps h F (set_node n nd : M _).
Proof. by apply keeps_same. Qed.
Lemma tags_new_node h F nd : keeps h F (new_node nd : M _).
Proof. by apply keeps_same. Qed.

Lemma tags_get_conn {A} h F {HF : Stable F} c (k : connState -> M A) :
  (forall cs, keeps h (fun s => F s /\ has_tags c (tags cs) s) (k cs)) ->
  keeps h F (get_conn c ≫= k).
Proof.
  apply keeps_bind_fact; [apply _|]. intros s _ _. unfold get_conn.
  destruct (conns s !! c) as [cs|] eqn:E; [|by split]. split; [done|]. split; [reflexivity|].
  by exists cs.
Qed.

Lemma tags_set_conn h F c cs :
  (forall s, F s -> has_tags c (tags cs) s) -> keeps h F (set_conn c cs : M _).
Proof.
  intros HF s Hs _. destruct (HF s Hs) as (cs0 & Hc & Ht). split; [done|]. split; [|done].
  intros c' cs' Hc'. cbn. destruct (decide (c = c')) as [<-|Hne].
  - rewrite lookup_insert_eq. exists cs. split; [done|]. congruence.
  - rewrite lookup_insert_ne by done. eauto.
Qed.
End tags.

#[export] Hint Resolve tags_call tags_set_ref tags_new_ref tags_set_node tags_new_node : keeps.
#[export] Existing Instance stable_has_tags.

(** One step through code for the tags. *)
Ltac tags_step :=
  intros; lazymatch goal with
  | |- keeps _ _ (mbind _ (get_conn _)) => rule tags_get_conn
  | |- keeps _ _ (set_conn _ _) => apply tags_set_conn; solve_fact
  | |- keeps _ _ (reply _ _) => unfold reply
  | |- keeps _ _ (with_fid _ _ _ _) => unfold with_fid
  | |- keeps _ _ (check_dir _ _) => unfold check_dir
  | |- keeps _ _ (call_err _ _) => unfold call_err
  | |- keeps _ _ (safelyRead _ _) => unfold safelyRead
  | |- keeps _ _ (safelyWrite _ _) => unfold safelyWrite
  | |- keeps _ _ (safelyGlobal _ _) => unfold safelyGlobal
  | |- _ => keeps_step
  end.
Ltac tags_code := repeat (first [solve [eauto 3 with keeps] | tags_step]).

Section tags_ops.
Context {W File : Type} {B : Backend W File}.
Local Notation St := (St W File).
Local Notation M := (M W File).
#[local] Existing Instance tags_inv.
Implicit Types (s : St) (h : held) (F : St -> Prop).

#[local] Instance tags_rules : TreeRules W File.
Proof.
  split; [intros; apply tags_call|intros; by apply (tags_set_ref h (fun _ => True))|auto with keeps..].
Qed.

Lemma tags_LookupFID h F `{!Stable F} c fid : keeps h F (LookupFID c fid : M _).
Proof. unfold LookupFID. tags_code. Qed.
Lemma tags_InsertFID h F `{!Stable F} c fid r : keeps h F (InsertFID c fid r : M _).
Proof. unfold InsertFID. tags_code. Qed.
Lemma tags_DeleteFID h F `{!Stable F} c fid : keeps h F (DeleteFID c fid : M _).
Proof. unfold DeleteFID. tags_code. Qed.
Lemma tags_WaitTag h F `{!Stable F} c t : keeps h F (WaitTag c t : M _).
Proof. unfold WaitTag. tags_code. Qed.
#[local] Hint Resolve tags_LookupFID tags_InsertFID tags_DeleteFID tags_WaitTag : keeps.

Lemma tags_handler m f c : handler m = Some f -> keeps [] (fun _ => True) (f c : M _).
Proof.
  destruct m; try discriminate; intros [= <-];
    unfold handle_tversion, handle_tflush, handle_tauth, handle_tattach, handle_tclunk,
      handle_trenameat, handle_trename, handle_tread,
              handle_tremove, handle_tlopen, handle_tlcreate, handle_tsymlink,
              handle_tlink, handle_tunlinkat, handle_treadlink, handle_twrite,
              handle_tmknod, handle_tmkdir, handle_tgetattr, handle_tsetattr,
              handle_txattrwalk, handle_txattrcreate, handle_treaddir, handle_tfsync,
              handle_tstatfs, handle_tlock, handle_twalk, handle_twalkgetattr,
              handle_tucreate, handle_tumkdir, handle_tusymlink, handle_tumknod,
              clunkHandleXattr, tlcreate_do, tsymlink_do, tmknod_do, tmkdir_do,
              check_walk_busy, readBufPool_Get, tread_fn, slice_to, slice_from, hasParent;
    tags_code.
Qed.

Lemma tags_handle c m : keeps [] (fun _ => True) (handle c m : M _).
Proof.
  intros s _ _. unfold handle, recover. destruct (handler m) as [f|] eqn:E; [|done].
  pose proof (tags_handler m f c E s ltac:(done) ltac:(done)) as Hf.
  destruct (f c [] s); cbn in Hf |- *; naive_solver.
Qed.
End tags_ops.

(** ** One request *)

(** The state in which a request with this tag is active. *)
Definition tag_started {W File} (c : cid) (cs : connState) (tag : Z) (s : St W File) : St W File :=
  mk_St (world s) (nodes s) (refHeap s) (<[c := set_tags (fun ts => {[tag]} ∪ ts) cs]> (conns s))
    (next_node s) (next_ref s) (trace s).

Section respond.
Context {W File : Type} {B : Backend W File}.
Local Notation St := (St W File).
Local Notation M := (M W File).
Implicit Types s : St.

Lemma ClearTag_started c tag cs ts s :
  conns s !! c = Some cs -> tags cs = {[tag]} ∪ ts -> tag ∉ ts ->
  exists s', ClearTag c tag [] s = Ret tt s' /\
    exists cs', conns s' !! c = Some cs' /\ tags cs' = ts.
Proof.
  intros Hc Ht Hn. unfold ClearTag, with_lock, mbind, M_bind, get_conn. cbn [conflicts existsb].
  rewrite Hc, bool_decide_true by set_solver. eexists. split; [done|].
  cbn. rewrite lookup_insert_eq. eexists. split; [done|]. cbn. set_solver.
Qed.

Lemma PayloadCleanup_returns c r cs s :
  conns s !! c = Some cs ->
  exists s', PayloadCleanup c r [] s = Ret tt s' /\
    exists cs', conns s' !! c = Some cs' /\ tags cs' = tags cs.
Proof.
  intros Hc. unfold PayloadCleanup. destruct r; try (exists s; split; [done|by exists cs]).
  unfold mbind, M_bind, get_conn. rewrite Hc. destruct (readBufPool cs) as [[msize bs]|].
  - eexists. split; [done|]. cbn. rewrite lookup_insert_eq. by eexists.
  - exists s. split; [done|by exists cs].
Qed.

(** A request whose tag is not active, from its handler on. *)
Lemma respond_started c cs tag m s :
  conns s !! c = Some cs -> tag ∉ tags cs ->
  respond c tag m [] s = (r ← handle c m; ClearTag c tag;; PayloadCleanup c r;;
    mret (frame tag r)) [] (tag_started c cs tag s).
Proof.
  intros Hc Hn. unfold respond, StartTag, with_lock, mbind, M_bind, get_conn.
  cbn [conflicts existsb]. by rewrite Hc, bool_decide_false.
Qed.

(** A request whose tag is not active, up to what its handler does. *)
Lemma respond_inactive c cs tag m s :
  conns s !! c = Some cs -> tag ∉ tags cs ->
  match handle c m [] (tag_started c cs tag s) with
  | Ret r _ => exists s', respond c tag m [] s = Ret (frame tag r) s' /\
      exists cs', conns s' !! c = Some cs' /\ tags cs' = tags cs
  | Panic _ => False
  | Stuck => respond c tag m [] s = Stuck
  end.
Proof.
  intros Hc Hn. set (s1 := tag_started c cs tag s).
  rewrite (respond_started c cs) by done. fold s1. unfold mbind, M_bind.
  pose proof (tags_handle c m s1 Logic.I Logic.I) as Ht.
  destruct (handle c m [] s1) as [r s2|s2|] eqn:Eh; [| |done].
  - destruct Ht as (_ & He & _).
    destruct (He c (set_tags (fun ts => {[tag]} ∪ ts) cs)) as (cs2 & Hc2 & Ht2);
      [apply lookup_insert_eq|]. cbn in Ht2.
    destruct (ClearTag_started c tag cs2 (tags cs) s2 Hc2 Ht2 Hn) as (s3 & Hs3 & cs3 & Hc3 & Ht3).
    destruct (PayloadCleanup_returns c r cs3 s3 Hc3) as (s4 & Hs4 & cs4 & Hc4 & Ht4).
    exists s4. rewrite Hs3, Hs4. split; [done|]. exists cs4.
    split; [done|congruence].
  - unfold handle, recover in Eh. by destruct (match handler m with Some _ => _ | None => _ end).
Qed.

(** A request is answered exactly once, with its own tag: whatever the message,
  and whether its handler returns, fails or panics, if its tag is not active the
  connection sends one frame that carries the tag and the handler's response, does
  not panic itself, and leaves the active tags as they were; a request whose tag is
  active is dropped without a trace. *)
Theorem respond_answers c cs tag m s :
conns s !! c = Some cs ->
(tag ∉ tags cs ->
   match handle c m [] (tag_started c cs tag s) with
   | Ret r _ => exists s', respond c tag m [] s = Ret (frame tag r) s' /\
       exists cs', conns s' !! c = Some cs' /\ tags cs' = tags cs
   | Panic _ => False
   | Stuck => respond c tag m [] s = Stuck
   end) /\
(tag ∈ tags cs -> respond c tag m [] s = Ret [] s).
Proof.
intros Hc. split; [by apply respond_inactive|]. intros Ht.
unfold respond, StartTag, with_lock, mbind, M_bind, get_conn. cbn [conflicts existsb].
by rewrite Hc, bool_decide_true.
Qed.

(** ** A stream of requests *)

(** The specification of a connection: messages in, frames out, in order, until one
    does not fit. *)
Fixpoint serve (c : cid) (reqs : list (Z * message)) : M (list byte) :=
  cs ← get_conn c;
  match reqs with
  | [] => mret []
  | (tag, m) :: reqs =>
      let msize := if messageSize cs =? 0 then maximumLength else messageSize cs in
      if Z.min maximumLength msize <? frame_length m then mret []
      else out ← respond c tag (received m); out' ← serve c reqs; mret (out ++ out')
  end.

Definition registry_full (reg : registry) : Prop :=
  registry_ok reg /\ dom (factories reg) = dom (factories msgDotLRegistry).

Lemma registered m : message_typ m ∈ dom (factories msgDotLRegistry).
Proof. apply elem_of_dom. destruct m; vm_compute; by eexists. Qed.

Lemma received_pooled m : pooled (message_typ m) (received m).
Proof. by destruct m. Qed.

Lemma registry_lookup_full tag m reg :
  registry_full reg ->
  exists old reg', registry_lookup tag (message_typ m) reg = (inl old, reg') /\
    receiver_of old m /\ registry_full reg' /\ registry_full (registry_put reg' (received m)).
Proof.
  intros [Hok Hdom]. unfold registry_lookup.
  assert (Hin : is_Some (factories reg !! message_typ m)).
  { apply elem_of_dom. rewrite Hdom. apply registered. }
  destruct (registry_get reg (message_typ m)) as [[old reg']|] eqn:E.
  2: { unfold registry_get in E. destruct Hin as [e He]. rewrite He in E. cbn in E.
       by destruct (cache e). }
  destruct (registry_ok_get _ _ _ _ Hok E) as [Hp Hok']. exists old, reg'.
  split; [done|]. split; [done|].
  split; [split; [done|by rewrite (registry_get_dom _ _ _ _ E)]|]. split.
  - apply registry_ok_put; [exact Hok'|]. exact (conj eq_refl (proj2 (received_pooled m))).
  - rewrite <- Hdom, <- (registry_get_dom _ _ _ _ E). unfold registry_put.
    set (m' := match message_Payload _ with Some _ => _ | None => _ end).
    destruct (factories reg' !! message_typ m') as [e|] eqn:E'; [|done].
    case_match; [|done]. cbn. apply dom_insert_lookup_L. by exists e.
Qed.

(** One frame off the input. *)
Lemma handleRequest_frame c tag m rest reg cs s :
  sendable (tag, m) -> registry_full reg -> conns s !! c = Some cs ->
  let msize := if messageSize cs =? 0 then maximumLength else messageSize cs in
  if Z.min maximumLength msize <? frame_length m
  then exists rest' reg', handleRequest c (frame tag m ++ rest) reg [] s
         = Ret (false, [], rest', reg') s
  else exists reg' : list byte -> registry, (forall out, registry_full (reg' out)) /\
         handleRequest c (frame tag m ++ rest) reg [] s
         = (out ← respond c tag (received m); mret (true, out, rest, reg' out)) [] s.
Proof.
  intros (Hw & Htag & Hlen) Hreg Hc msize. cbn [fst snd] in *.
  assert (Hu : wrap32 (frame_length m) = frame_length m).
  { unfold wrap32. apply Z.mod_small. unfold frame_length, headerLength in *. lia. }
  assert (Hge : headerLength <= frame_length m) by (unfold frame_length; lia).
  destruct (registry_lookup_full tag m reg Hreg) as (old & reg' & Hlk & Hold & Hreg1 & Hreg').
  assert (Hrecv := recv_header registry_lookup (frame_length m) (message_typ m) tag
    (fixed_bytes m ++ payload_bytes m ++ rest) msize reg).
  rewrite (proj2 (Z.ltb_ge _ headerLength)), Hlk in Hrecv by lia.
  replace (frame_length m - headerLength) with
    (Z.of_nat (length (fixed_bytes m)) + Z.of_nat (length (payload_bytes m))) in Hrecv
    by (unfold frame_length; lia).
  rewrite recv_body_frame in Hrecv by done.
  assert (Hh : forall x, handleRequest c x reg [] s =
    (let '(tag, res, rest, reg) := recv registry_lookup x msize reg in
     match res with
     | inr (ConnError _) => mret (false, [], rest, reg)
     | inr err => mret (true, frame tag (newErr err), rest, reg)
     | inl m =>
         out ← respond c tag m;
         mret (true, out, rest, match out with [] => reg | _ => registry_put reg m end)
     end) [] s).
  { intros x. unfold handleRequest, mbind at 1, M_bind at 1, get_conn. by rewrite Hc. }
  rewrite Hh, frame_eq, Hu, <- !app_assoc, Hrecv;
    [|unfold u32, frame_length, headerLength in *; lia|apply message_typ_u8|exact Htag].
  destruct (Z.ltb_spec (Z.min maximumLength msize) (frame_length m)) as [Hlt|Hle].
  - assert ((maximumLength <? frame_length m) || (msize <? frame_length m) = true) as ->.
    { apply orb_true_iff. rewrite !Z.ltb_lt. lia. }
    eexists _, _. reflexivity.
  - assert ((maximumLength <? frame_length m) || (msize <? frame_length m) = false) as ->.
    { apply orb_false_iff. rewrite !Z.ltb_ge. lia. }
    exists (fun out => match out with [] => reg' | _ => registry_put reg' (received m) end).
    split; [by intros []|]. reflexivity.
Qed.

Lemma bind_get_conn {A} c cs (k : connState -> M A) h s :
  conns s !! c = Some cs -> (get_conn c ≫= k) h s = k cs h s.
Proof. intros Hc. unfold mbind, M_bind, get_conn. by rewrite Hc. Qed.

Definition request_bytes (reqs : list (Z * message)) : list byte :=
  concat (map (fun '(tag, m) => frame tag m) reqs).

Lemma frame_nonempty tag m : (0 < length (frame tag m))%nat.
Proof. rewrite frame_eq, length_app, length_frame_header. lia. Qed.

(** C12: the loop of a connection refines its specification: on the bytes of any
  sequence of requests (recycled message objects, fragmentary sizes and all) it
  sends the same bytes, calls the backend alike and ends in the same state as
  [serve], which handles the messages in order and stops at the first one that
  exceeds the negotiated size; and it needs no more rounds than there are bytes. *)
Theorem handleRequests_refines c reqs reg s fuel :
Forall sendable reqs -> registry_full reg -> (length (request_bytes reqs) < fuel)%nat ->
handleRequests fuel c (request_bytes reqs) reg [] s = serve c reqs [] s.
Proof.
intros Hs. revert reg s fuel. induction Hs as [|[tag m] reqs Hm Hs IH]; intros reg s fuel Hreg Hf;
  (destruct fuel as [|fuel]; [lia|]); cbn [handleRequests serve].
- unfold handleRequest, mbind, M_bind, get_conn. by destruct (conns s !! c).
- unfold request_bytes in *. cbn [map concat] in *. rewrite length_app in Hf.
  pose proof (frame_nonempty tag m) as Hne.
  destruct (conns s !! c) as [cs|] eqn:Hc.
  2: { unfold handleRequest, mbind, M_bind, get_conn. by rewrite Hc. }
  pose proof (handleRequest_frame c tag m (concat (map (fun '(tag, m) => frame tag m) reqs))
    reg cs s Hm Hreg Hc) as Hone. cbv zeta in Hone.
  rewrite (bind_get_conn c cs _ [] s Hc).
  destruct (_ <? frame_length m).
  + destruct Hone as (rest' & reg' & Hone). unfold mbind, M_bind. by rewrite Hone.
  + destruct Hone as (reg' & Hreg' & Hone). unfold mbind, M_bind in Hone |- *. rewrite Hone.
    destruct (respond c tag (received m) [] s) as [out s'|s'|]; [|done..].
    cbn [mret M_ret]. rewrite (IH (reg' out) s' fuel (Hreg' out)) by lia. done.
Qed.
End respond.

(** ** Examples *)

Definition demo_session : list (Z * message) :=
  [(noTag, toy_version); (1, toy_attach 1); (2, Mtgetattr (mk_tgetattr 1 AttrMaskAll));
   (3, Mtclunk (mk_tclunk 1))].

Lemma demo_session_sendable : Forall sendable demo_session.
Proof.
  repeat (apply Forall_cons; split); [..|by apply Forall_nil];
    (split; [vm_compute; intuition discriminate|]);
    (split; [split; vm_compute; congruence|vm_compute; reflexivity]).
Qed.

(** Too small a message size (64) for the response of [Tgetattr] binds the requests
    only: all four are served. *)
Lemma handleRequests_refines_witness :
  (Forall sendable demo_session /\ length (request_bytes demo_session) = 74%nat) /\
  handleRequests 100 0%nat (request_bytes demo_session) msgDotLRegistry [] (connected 0%nat)
  = serve 0%nat demo_session [] (connected 0%nat).
Proof.
  assert (Hl : length (request_bytes demo_session) = 74%nat) by (vm_compute; reflexivity).
  split; [exact (conj demo_session_sendable Hl)|].
  apply (handleRequests_refines 0%nat demo_session msgDotLRegistry (connected 0%nat) 100).
  - exact demo_session_sendable.
  - split; [exact (proj2 registry_init_ok)|reflexivity].
  - rewrite Hl. lia.
Defined.

Definition start_state : St nat toy_file := connected 0%nat.

Lemma respond_answers_witness :
  exists cs, (conns start_state !! 0%nat = Some cs /\ 5 ∉ tags cs) /\
  exists r s', handle 0%nat (toy_attach 1) [] (tag_started 0%nat cs 5 start_state) = Ret r s' /\
  exists s'', respond 0%nat 5 (toy_attach 1) [] start_state = Ret (frame 5 r) s''.
Proof.
  exists new_connState.
  assert (Hc : conns start_state !! 0%nat = Some new_connState) by (vm_compute; reflexivity).
  assert (Hn : 5 ∉ tags new_connState) by (apply not_elem_of_empty).
  split; [exact (conj Hc Hn)|].
  pose proof (proj1 (respond_answers 0%nat new_connState 5 (toy_attach 1) start_state Hc) Hn)
    as H.
  assert (Hr : exists r s', handle 0%nat (toy_attach 1) []
    (tag_started 0%nat new_connState 5 start_state) = Ret r s').
  { eexists _, _. vm_compute. reflexivity. }
  destruct Hr as (r & s' & Hr). exists r, s'. split; [exact Hr|]. rewrite Hr in H.
  destruct H as (s'' & H & _). exists s''. exact H.
Defined.
