(* ===== verification/Runs.v ===== *)
(** * Runs of the server's code

    A logic for code that returns: [runs o Q] says that it does, with a result and a state
    that satisfy [Q]. Its rules execute the code step by step on a state of which some facts
    are known. *)
From S2P Require Import Prelude Errno Buffer Types Messages File State PathTree FidRef Handlers Server.

Section runs.
Context {W File : Type}.
Local Notation St := (St W File).
Local Notation M := (M W File).
Local Notation outcome := (outcome W File).
Implicit Types (s : St) (h : held).

Definition runs {A} (o : outcome A) (Q : A -> St -> Prop) : Prop :=
  match o with Ret a s => Q a s | _ => False end.

Lemma runs_conseq {A} (o : outcome A) (Q Q' : A -> St -> Prop) :
  runs o Q -> (forall a s, Q a s -> Q' a s) -> runs o Q'.
Proof. destruct o; cbn; auto. Qed.

Lemma runs_ret {A} (o : outcome A) Q : runs o Q -> exists a s, o = Ret a s /\ Q a s.
Proof. destruct o; [|done..]. cbn. eauto. Qed.

Lemma runs_bind {A C} (m : M A) (k : A -> M C) h s Q :
  runs (m h s) (fun a s' => runs (k a h s') Q) -> runs ((m ≫= k) h s) Q.
Proof. unfold mbind, M_bind. by destruct (m h s). Qed.

(** Run [m] by its specification, then the rest. *)
Lemma runs_seq {A C} (m : M A) (k : A -> M C) h s Q (Q' : A -> St -> Prop) :
  runs (m h s) Q' -> (forall a s', Q' a s' -> runs (k a h s') Q) -> runs ((m ≫= k) h s) Q.
Proof. intros Hm Hk. apply runs_bind. by eapply runs_conseq. Qed.

(** What [m] returns is known. *)
Lemma runs_then {A C} (m : M A) (k : A -> M C) h s a s' Q :
  m h s = Ret a s' -> runs (k a h s') Q -> runs ((m ≫= k) h s) Q.
Proof. intros Hm Hk. apply runs_bind. by rewrite Hm. Qed.

Lemma runs_defer {A C} (d : M C) (m : M A) h s Q :
  runs (m h s) (fun a s' => runs (d h s') (fun _ => Q a)) -> runs (defer d m h s) Q.
Proof. unfold defer. destruct (m h s) as [a s'|s'|]; [|done..]. cbn. by destruct (d h s'). Qed.

Lemma runs_lock {A} l w (m : M A) h s Q :
  conflicts h l w = false -> runs (m ((l, w) :: h) s) Q -> runs (with_lock l w m h s) Q.
Proof. unfold with_lock. by intros ->. Qed.

Lemma runs_get_ref {C} r fr (k : fidRef File -> M C) h s Q :
  refHeap s !! r = Some fr -> runs (k fr h s) Q -> runs ((get_ref r ≫= k) h s) Q.
Proof. intros Hr. apply runs_then. unfold get_ref. by rewrite Hr. Qed.

Lemma runs_get_node {C} n nd (k : pathNode -> M C) h s Q :
  nodes s !! n = Some nd -> runs (k nd h s) Q -> runs ((get_node n ≫= k) h s) Q.
Proof. intros Hn. apply runs_then. unfold get_node. by rewrite Hn. Qed.

Lemma runs_get_conn {C} c cs (k : connState -> M C) h s Q :
  conns s !! c = Some cs -> runs (k cs h s) Q -> runs ((get_conn c ≫= k) h s) Q.
Proof. intros Hc. apply runs_then. unfold get_conn. by rewrite Hc. Qed.
End runs.

Section calls.
Context {W File : Type} {B : Backend W File} {RB : Returning B}.
Local Notation St := (St W File).
Local Notation M := (M W File).
Implicit Types (s : St) (h : held).

(** The state after a call that left the world as [w]. *)
Definition after {A} (r : option rid) (e : FileE File A) h s (w : W) : St :=
  mk_St w (nodes s) (refHeap s) (conns s) (next_node s) (next_ref s)
    (event_of s r e h :: trace s).

Lemma runs_call {A C} r (e : FileE File A) a w (k : A -> M C) h s Q :
  exec e (world s) = (a, w) -> runs (k a h (after r e h s w)) Q -> runs ((call r e ≫= k) h s) Q.
Proof. intros He. apply runs_then. rewrite call_returning. by rewrite He. Qed.

(** ** References *)

Definition with_refs s (r : rid) (fr : fidRef File) (k : Z) : St :=
  mk_St (world s) (nodes s) (<[r := set_refs k fr]> (refHeap s)) (conns s) (next_node s)
    (next_ref s) (trace s).

Lemma run_IncRef r fr h s :
  refHeap s !! r = Some fr -> IncRef r h s = Ret tt (with_refs s r fr (refs fr + 1)).
Proof. intros Hr. unfold IncRef, mbind, M_bind, get_ref. by rewrite Hr. Qed.

(** A holder goes, and others stay. *)
Lemma run_DecRef r fr h s :
  refHeap s !! r = Some fr -> 2 <= refs fr ->
  DecRef r h s = Ret None (with_refs s r fr (refs fr - 1)).
Proof.
  intros Hr Hk. unfold DecRef, count_refs, mbind at 1, M_bind at 1. cbn [DecRef_fuel].
  unfold mbind, M_bind, get_ref. rewrite Hr. cbn [set_ref].
  destruct (Z.eqb_spec (refs fr - 1) 0); [lia|done].
Qed.

Lemma set_refs_back k (fr : fidRef File) : set_refs (refs fr) (set_refs k fr) = fr.
Proof. by destruct fr. Qed.

Lemma run_LookupFID c cs fid r fr s :
  conns s !! c = Some cs -> fids cs !! fid = Some r -> refHeap s !! r = Some fr ->
  LookupFID c fid [] s = Ret (Some r) (with_refs s r fr (refs fr + 1)).
Proof.
  intros Hc Hf Hr. unfold LookupFID, with_lock. cbn [conflicts existsb].
  unfold mbind at 1, M_bind at 1, get_conn. rewrite Hc, Hf.
  unfold mbind, M_bind. by rewrite (run_IncRef _ _ _ _ Hr).
Qed.

(** The handler has the reference of a FID while it runs. *)
Lemma runs_with_fid {A} c cs fid r fr (bad : A) (k : rid -> M A) s (Q : A -> St -> Prop) :
  conns s !! c = Some cs -> fids cs !! fid = Some r -> refHeap s !! r = Some fr ->
  runs (k r [] (with_refs s r fr (refs fr + 1))) (fun a s' => exists fr',
    refHeap s' !! r = Some fr' /\ 2 <= refs fr' /\ Q a (with_refs s' r fr' (refs fr' - 1))) ->
  runs (with_fid c fid bad k [] s) Q.
Proof.
  intros Hc Hf Hr Hk. unfold with_fid. eapply runs_then; [by eapply run_LookupFID|]. apply runs_defer.
  eapply runs_conseq; [exact Hk|]. intros a s' (fr' & Hr' & H2 & HQ).
  by rewrite (run_DecRef _ _ _ _ Hr' H2).
Qed.

(** A new FID. *)
Lemma run_InsertFID c cs fid r fr h s :
  conflicts h (fidMu c) true = false ->
  conns s !! c = Some cs -> fids cs !! fid = None -> refHeap s !! r = Some fr ->
  InsertFID c fid r h s = Ret tt
    (mk_St (world s) (nodes s) (<[r := set_refs (refs fr + 1) fr]> (refHeap s))
       (<[c := set_fids (<[fid := r]>) cs]> (conns s)) (next_node s) (next_ref s) (trace s)).
Proof.
  intros Hl Hc Hf Hr. unfold InsertFID, with_lock. rewrite Hl.
  unfold mbind at 1, M_bind at 1, get_conn. rewrite Hc, Hf.
  unfold mbind, M_bind. by rewrite (run_IncRef _ _ _ _ Hr).
Qed.

Lemma runs_isDeleted {C} r fr nd (k : bool -> M C) h s Q :
  refHeap s !! r = Some fr -> nodes s !! fr_pathNode fr = Some nd ->
  runs (k (deleted nd) h s) Q -> runs ((isDeleted r ≫= k) h s) Q.
Proof.
  intros Hr Hn. apply runs_then. unfold isDeleted, mbind, M_bind, get_ref, get_node. by rewrite Hr, Hn.
Qed.

Lemma runs_safelyRead {A} r fr (m : M A) s Q :
  refHeap s !! r = Some fr -> runs (m [(opMu (fr_pathNode fr), false); (renameMu, false)] s) Q ->
  runs (safelyRead r m [] s) Q.
Proof.
  intros Hr Hm. apply runs_lock; [done|]. eapply runs_get_ref; [exact Hr|]. by apply runs_lock.
Qed.
(** ** A request *)

Lemma handle_returns c m k s Q :
  handler m = Some k -> runs (k c [] s) Q -> runs (handle c m [] s) Q.
Proof. intros Hk Hr. unfold handle, recover. rewrite Hk. by destruct (k c [] s). Qed.

(** The tag is cleared, and nothing else changes. *)
Lemma run_ClearTag c cs t s :
  conns s !! c = Some cs -> t ∈ tags cs ->
  ClearTag c t [] s = Ret tt (mk_St (world s) (nodes s) (refHeap s)
    (<[c := set_tags (fun ts => ts ∖ {[t]}) cs]> (conns s)) (next_node s) (next_ref s) (trace s)).
Proof.
  intros Hc Ht. unfold ClearTag, with_lock. cbn [conflicts existsb]. unfold mbind, M_bind, get_conn.
  rewrite Hc, bool_decide_true by done. done.
Qed.
End calls.
