(* ===== verification/ServerRuns.v ===== *)
(** * Attaching, walking and opening on a server

    Runs of the three handlers that lead a client to an open file, on a backend of which
    it is known what it answers: the root, one step of a walk, the file opened. *)
From S2P Require Import Prelude Errno Buffer Types Messages Message Transport Version.
From S2P Require Import File State PathTree FidRef Handlers Runs.

Section setup.
Context {W File : Type} {B : Backend W File} {RB : Returning B}.
Local Notation St := (St W File).
Local Notation M := (M W File).
Implicit Types (s : St) (h : held).

(** ** Attach *)

(** The reference of the root that a FID holds. *)
Definition root_ref (sf : File) (attr : Attr) : fidRef File :=
  mk_fidRef _ sf pendingXattr_zero 1 false (FileMode_FileType (Attr_Mode attr)) 0 pathTree None.

Lemma attach_runs c cs fid s sf qid valid attr w1 w2 :
  conns s !! c = Some cs -> fids cs !! fid = None ->
  exec FAttach (world s) = (inl sf, w1) ->
  exec (FGetAttr sf AttrMaskAll) w1 = (inl (qid, valid, attr), w2) -> AM_Mode valid = true ->
  runs (handle_tattach (mk_tattach fid (mk_tauth noFID EmptyString EmptyString NoUID)) c [] s)
    (fun m s' => m = Mrattach (mk_rattach qid) /\ exists tr,
      s' = mk_St w2 (nodes s) (<[next_ref s := root_ref sf attr]> (refHeap s))
             (<[c := set_fids (<[fid := next_ref s]>) cs]> (conns s)) (next_node s)
             (S (next_ref s)) tr).
Proof.
  intros Hc Hf Ha Hg Hv. unfold handle_tattach. cbn [tattach_Auth tauth_Authenticationfid tauth_AttachName tattach_fid].
  rewrite Z.eqb_refl. cbn [negb IsAbs]. unfold reply. eapply runs_call; [exact Ha|].
  eapply runs_call; [exact Hg|]. cbv beta iota. rewrite Hv. cbn [negb].
  eapply runs_then; [reflexivity|]. cbn [after]. cbn.
  apply runs_defer. eapply runs_then.
  { eapply run_InsertFID; [done|exact Hc|exact Hf|cbn; apply lookup_insert_eq]. }
  cbn. rewrite (run_DecRef _ (set_refs 2 (root_ref sf attr))); [|cbn; apply lookup_insert_eq|cbn; lia].
  cbn. split; [done|]. eexists. unfold with_refs. cbn. by rewrite !insert_insert_eq.
Qed.

(** ** Walk *)

(** What a backend without [WalkGetAttr] says of a name in a directory. *)
Record finds (f : File) (name : string) (w w' : W) (qid : QID) (sf : File) (attr : Attr) : Prop := {
  fi_safe : safe_name name = true;
  fi_steps : exists err w1 w2 valid qid',
    exec (FWalkGetAttr f [name]) w = (inr err, w1) /\ Is err (TErrno ENOSYS) = true /\
    exec (FWalk f [name]) w1 = (inl ([qid], sf), w2) /\
    exec (FGetAttr sf AttrMaskAll) w2 = (inl (qid', valid, attr), w');
}.

(** What a call leaves alone. *)
Definition only_world (w : W) s s' : Prop := exists tr,
  s' = mk_St w (nodes s) (refHeap s) (conns s) (next_node s) (next_ref s) tr.

Lemma walkOne_runs qids r f name w' qid sf attr h s :
  finds f name (world s) w' qid sf attr ->
  runs (walkOne qids r f [name] true h s) (fun o s' => only_world w' s s' /\
    exists valid, o = inl (qids ++ [qid], sf, valid, attr)).
Proof.
  intros [_ (err & w1 & w2 & valid & qid' & Hwg & Herr & Hw & Hg)].
  unfold walkOne, reject_if, bind_err. cbn [length Nat.ltb Nat.leb].
  apply runs_bind. eapply runs_call; [exact Hwg|]. cbv beta iota. rewrite Herr.
  eapply runs_call; [exact Hw|]. cbv beta iota. eapply runs_call; [exact Hg|].
  cbn. split; [by eexists|by eexists].
Qed.

(** The reference of what was walked to. *)
Definition walked_ref (sf : File) (attr : Attr) (pn : nid) (p : rid) : fidRef File :=
  mk_fidRef _ sf pendingXattr_zero 1 false (FileMode_FileType (Attr_Mode attr)) 0 pn (Some p).

(** The FID is a directory whose node does not know the name yet. *)
Record walk_from (c : cid) (fid : Z) (name : string) s cs (r : rid) (fr : fidRef File) (nd : pathNode) : Prop := {
  wk_conn : conns s !! c = Some cs;
  wk_fid : fids cs !! fid = Some r;
  wk_ref : refHeap s !! r = Some fr;
  wk_count : 1 <= refs fr;
  wk_dir : FileMode_IsDir (mode fr) = true;
  wk_closed : opened fr = false;
  wk_node : nodes s !! fr_pathNode fr = Some nd;
  wk_live : deleted nd = false;
  wk_name : childNodes nd !! name = None;
  wk_fresh_ref : refHeap s !! next_ref s = None /\ childRefNames nd !! next_ref s = None;
  wk_fresh_node : nodes s !! next_node s = None;
}.

Lemma pathNodeFor_runs n name nd h s :
  conflicts h (childMu n) true = false -> nodes s !! n = Some nd -> childNodes nd !! name = None ->
  pathNodeFor n name h s = Ret (next_node s)
    (mk_St (world s) (<[n := set_childNodes (<[name := next_node s]>) nd]> (<[next_node s := newPathNode]> (nodes s)))
       (refHeap s) (conns s) (S (next_node s)) (next_ref s) (trace s)).
Proof.
  intros Hl Hn Hname. unfold pathNodeFor, with_lock.
  assert (Hl' : conflicts h (childMu n) false = false).
  { unfold conflicts in *. apply not_true_iff_false. intros H. apply existsb_exists in H as ([l w] & Hin & H).
    apply not_true_iff_false in Hl. apply Hl, existsb_exists. exists (l, w). split; [done|].
    by destruct (bool_decide _). }
  unfold mbind, M_bind. rewrite Hl'. unfold get_node. rewrite Hn, Hname, Hl, Hn, Hname. done.
Qed.

Lemma addChild_runs n r name nd h s :
  conflicts h (childMu n) true = false -> nodes s !! n = Some nd -> childRefNames nd !! r = None ->
  addChild n r name h s = Ret tt
    (mk_St (world s) (<[n := set_childRefs (<[name := {[r]} ∪ default ∅ (childRefs nd !! name)]>) (<[r := name]>) nd]>
       (nodes s)) (refHeap s) (conns s) (next_node s) (next_ref s) (trace s)).
Proof.
  intros Hl Hn Hr. unfold addChild, with_lock. rewrite Hl. unfold addChildLocked, mbind, M_bind, get_node.
  by rewrite Hn, Hr.
Qed.

Lemma safe_names name : safe_name name = true -> checkSafeNames [name] = None.
Proof. intros H. unfold checkSafeNames, checkSafeName. cbn. by rewrite H. Qed.

(** The state in which the walk has its reference. *)
Definition walked (s s' : St) (cs : connState) (c : cid) (r : rid) (fr : fidRef File) (w' : W) (sf : File) (attr : Attr) : Prop :=
  world s' = w' /\ conns s' !! c = Some cs /\
  refHeap s' !! next_ref s = Some (walked_ref sf attr (next_node s) r) /\
  refHeap s' !! r = Some (set_refs (refs fr + 1) fr) /\
  nodes s' !! next_node s = Some newPathNode.

Lemma doWalk_runs c fid name s cs r fr nd w' qid sf attr :
  walk_from c fid name s cs r fr nd -> finds (file fr) name (world s) w' qid sf attr ->
  runs (doWalk r [name] false [] s) (fun o s' => walked s s' cs c r fr w' sf attr /\
    exists valid, o = inl ([qid], next_ref s, valid, attr)).
Proof.
  intros [Hc Hf Hr Hk Hdir Hcl Hn Hlive Hname [Hfr Hnm] Hfn] Hfi. unfold doWalk.
  rewrite (safe_names _ (fi_safe _ _ _ _ _ _ _ Hfi)). cbv iota.
  eapply runs_then; [by apply run_IncRef|]. cbn [doWalk_loop].
  set (fr1 := set_refs (refs fr + 1) fr).
  assert (Hr1 : refHeap (with_refs s r fr (refs fr + 1)) !! r = Some fr1) by apply lookup_insert_eq.
  assert (Hne : r <> next_ref s) by congruence.
  assert (Hnn : fr_pathNode fr <> next_node s) by congruence.
  eapply runs_get_ref; [exact Hr1|]. replace (mode fr1) with (mode fr) by done. rewrite Hdir. cbn [negb].
  eapply (runs_seq _ _ _ _ _ (fun o s' => walked s s' cs c r fr w' sf attr /\
    exists valid, o = inl ([qid], next_ref s, valid, attr))).
  - eapply runs_safelyRead; [exact Hr1|].
    eapply runs_isDeleted; [exact Hr1|exact Hn|]. rewrite Hlive. unfold reject_if at 1, bind_err at 1.
    eapply runs_seq; [by eapply walkOne_runs|]. intros o s2 [[tr ->] (valid & ->)]. cbv beta iota.
    eapply runs_then; [by apply (pathNodeFor_runs _ _ nd)|]. cbn [with_refs world nodes refHeap conns next_node next_ref trace].
    eapply runs_then; [reflexivity|]. cbn [with_refs world nodes refHeap conns next_node next_ref trace].
    eapply runs_then; [eapply addChild_runs; [done|cbn; apply lookup_insert_eq|exact Hnm]|].
    cbn [with_refs world nodes refHeap conns next_node next_ref trace].
    eapply runs_then; [eapply run_IncRef; cbn; apply lookup_insert_eq|].
    cbn. split; [|by eexists]. split; [done|]. split; [done|]. cbn.
    split; [apply lookup_insert_eq|]. rewrite !lookup_insert_ne by done.
    split; [apply lookup_insert_eq|]. rewrite !lookup_insert_ne by done. apply lookup_insert_eq.
  - intros o s3 [Hw (valid & ->)]. cbn. split; [done|by eexists].
Qed.

Lemma twalk_runs c fid name newFID s cs r fr nd w' qid sf attr :
  walk_from c fid name s cs r fr nd -> fids cs !! newFID = None ->
  finds (file fr) name (world s) w' qid sf attr ->
  runs (handle_twalk (mk_twalk fid newFID [name]) c [] s) (fun m s' =>
    m = Mrwalk (mk_rwalk [qid]) /\ world s' = w' /\
    conns s' !! c = Some (set_fids (<[newFID := next_ref s]>) cs) /\
    refHeap s' !! next_ref s = Some (walked_ref sf attr (next_node s) r) /\
    nodes s' !! next_node s = Some newPathNode).
Proof.
  intros Hwk Hnew Hfi. pose proof Hwk as [Hc Hf Hr Hk Hdir Hcl Hn Hlive Hname [Hfr Hnm] Hfn].
  unfold handle_twalk. cbn [twalk_fid twalk_newFID twalk_Names].
  eapply runs_with_fid; [exact Hc|exact Hf|exact Hr|].
  set (fr1 := set_refs (refs fr + 1) fr). set (s1 := with_refs s r fr (refs fr + 1)).
  assert (Hr1 : refHeap s1 !! r = Some fr1) by apply lookup_insert_eq.
  assert (Hne : r <> next_ref s) by congruence.
  unfold reply. eapply (runs_seq _ _ _ _ _ (fun o s' => o = inl tt /\ s' = s1)).
  { unfold check_walk_busy. eapply runs_safelyRead; [exact Hr1|]. eapply runs_get_ref; [exact Hr1|].
    replace (opened fr1) with (opened fr) by done. by rewrite Hcl. }
  intros o s2 [-> ->]. cbv beta iota. eapply runs_seq.
  { eapply (doWalk_runs c fid name s1 cs r fr1 nd); [|exact Hfi].
    split; try done; cbn; [lia|]. by rewrite lookup_insert_ne. }
  intros o s3 [(Hw3 & Hc3 & Hnr & Hr3 & Hn3) (valid & ->)]. cbv beta iota.
  apply runs_defer. eapply runs_then; [by eapply run_InsertFID|]. cbn.
  rewrite (run_DecRef _ (set_refs 2 (walked_ref sf attr (next_node s1) r))); [|cbn; apply lookup_insert_eq|cbn; lia].
  cbn. exists (set_refs (refs fr1 + 1) fr1). rewrite insert_insert_eq, !lookup_insert_ne by done.
  split; [exact Hr3|]. split; [cbn; lia|]. split; [done|]. split; [done|]. split; [apply lookup_insert_eq|].
  rewrite lookup_insert_ne, lookup_insert_eq by done. by split.
Qed.

(** ** Open *)

(** The FID is a file that can be opened, and is not open yet. *)
Record open_from (c : cid) (fid : Z) s cs (r : rid) (fr : fidRef File) (nd : pathNode) : Prop := {
  op_conn : conns s !! c = Some cs;
  op_fid : fids cs !! fid = Some r;
  op_ref : refHeap s !! r = Some fr;
  op_count : 1 <= refs fr;
  op_mode : CanOpen (mode fr) = true /\ FileMode_IsDir (mode fr) = false;
  op_closed : opened fr = false;
  op_node : nodes s !! fr_pathNode fr = Some nd;
  op_live : deleted nd = false;
}.

Lemma tlopen_runs c fid flags s cs r fr nd qid unit w' :
  open_from c fid s cs r fr nd ->
  exec (FOpen (file fr) flags) (world s) = (inl (qid, unit), w') ->
  runs (handle_tlopen (mk_tlopen fid flags) c [] s) (fun m s' =>
    m = Mrlopen (mk_rlopen qid unit) /\ world s' = w' /\ conns s' = conns s /\
    refHeap s' !! r = Some (set_opened flags fr)).
Proof.
  intros [Hc Hf Hr Hk [Hcan Hdir] Hcl Hn Hlive] Ho. unfold handle_tlopen. cbn [tlopen_fid tlopen_Flags].
  eapply runs_with_fid; [exact Hc|exact Hf|exact Hr|].
  set (fr1 := set_refs (refs fr + 1) fr). set (s1 := with_refs s r fr (refs fr + 1)).
  assert (Hr1 : refHeap s1 !! r = Some fr1) by apply lookup_insert_eq.
  unfold reply. eapply (runs_seq _ _ _ _ _ (fun o s' => o = inl (qid, unit) /\ only_world w' s1 s')).
  { eapply runs_safelyRead; [exact Hr1|]. eapply runs_isDeleted; [exact Hr1|exact Hn|].
    rewrite Hlive. unfold reject_if. eapply runs_get_ref; [exact Hr1|].
    cbn [fr1 set_refs opened mode file]. rewrite Hcl, Hcan, Hdir. cbn [negb orb andb].
    rewrite call_returning. cbn [world s1 with_refs]. rewrite Ho. split; [done|by eexists]. }
  intros o s2 [-> [tr ->]]. cbv beta iota. eapply runs_get_ref; [exact Hr1|]. cbn.
  exists (set_opened flags fr1). split; [apply lookup_insert_eq|]. split; [cbn; lia|].
  split; [done|]. split; [done|]. split; [done|]. rewrite lookup_insert_eq. f_equal. destruct fr. cbn.
  unfold set_refs, set_opened. cbn. f_equal. lia.
Qed.
End setup.
