(* ===== verification/Behaviour.v ===== *)
(** * What the server answers

    Every request is answered with a response of its own type or an error, and what the
    response says of the request; a request on a FID that is not in the table is refused
    before anything is done. *)
From S2P Require Import Prelude Errno Buffer Types Messages Message Transport Version.
From S2P Require Import File State PathTree FidRef Handlers Server Reach Promises.

(** ** Responses to requests *)

(** Version negotiation: no size, or a version that cannot be parsed or is not of the
    Linux dialect, is answered with an unknown version; else the lower of the versions
    and the smaller of the sizes are agreed on. *)
Definition version_answer (t : tversion) (v : rversion) : Prop :=
  v = mk_rversion 0 "unknown" \/
  exists base req, parseVersion (tversion_Version t) = Some (base, req) /\
    base <> version9P2000 /\ base <> version9P2000U /\
    v = mk_rversion (Z.min (tversion_MSize t) maximumLength)
          (versionString base (Z.min req highestSupportedVersion)).

(** A response of the type that belongs to the request; a walk has a QID for every name,
    a listing the limit that was asked for. *)
Definition right_response (m r : message) : Prop :=
  match m with
  | Mtversion t => match r with Mrversion v => version_answer t v | _ => False end
  | Mtflush _ => match r with Mrflush _ => True | _ => False end
  | Mtclunk _ => match r with Mrclunk _ => True | _ => False end
  | Mtremove _ => match r with Mrremove _ => True | _ => False end
  | Mtattach _ => match r with Mrattach _ => True | _ => False end
  | Mtlopen _ => match r with Mrlopen _ => True | _ => False end
  | Mtlcreate _ => match r with Mrlcreate _ => True | _ => False end
  | Mtsymlink _ => match r with Mrsymlink _ => True | _ => False end
  | Mtlink _ => match r with Mrlink _ => True | _ => False end
  | Mtrenameat _ => match r with Mrrenameat _ => True | _ => False end
  | Mtunlinkat _ => match r with Mrunlinkat _ => True | _ => False end
  | Mtrename _ => match r with Mrrename _ => True | _ => False end
  | Mtreadlink _ => match r with Mrreadlink _ => True | _ => False end
  | Mtread _ => match r with MrreadServerPayloader _ => True | _ => False end
  | Mtwrite _ => match r with Mrwrite _ => True | _ => False end
  | Mtmknod _ => match r with Mrmknod _ => True | _ => False end
  | Mtmkdir _ => match r with Mrmkdir _ => True | _ => False end
  | Mtgetattr _ => match r with Mrgetattr _ => True | _ => False end
  | Mtsetattr _ => match r with Mrsetattr _ => True | _ => False end
  | Mtxattrwalk _ => match r with Mrxattrwalk _ => True | _ => False end
  | Mtxattrcreate _ => match r with Mrxattrcreate _ => True | _ => False end
  | Mtreaddir t => match r with Mrreaddir d => rreaddir_Count d = treaddir_Count t | _ => False end
  | Mtfsync _ => match r with Mrfsync _ => True | _ => False end
  | Mtstatfs _ => match r with Mrstatfs _ => True | _ => False end
  | Mtlock _ => match r with Mrlock _ => True | _ => False end
  | Mtwalk t => match r with
                | Mrwalk w => length (rwalk_QIDs w) = length (twalk_Names t)
                | _ => False
                end
  | Mtwalkgetattr t => match r with
                       | Mrwalkgetattr w =>
                           length (rwalkgetattr_QIDs w) = length (twalkgetattr_Names t)
                       | _ => False
                       end
  | Mtucreate _ => match r with Mrucreate _ => True | _ => False end
  | Mtumkdir _ => match r with Mrumkdir _ => True | _ => False end
  | Mtusymlink _ => match r with Mrusymlink _ => True | _ => False end
  | Mtumknod _ => match r with Mrumknod _ => True | _ => False end
  | _ => False
  end.

Definition response_to (m r : message) : Prop :=
  (exists e, r = Mrlerror e) \/ right_response m r.

Lemma response_newErr m err : response_to m (newErr err).
Proof. left. by eexists. Qed.
#[local] Hint Resolve response_newErr : core.

(** The number of a response is the one after the request's. *)
Lemma right_response_typ m r : right_response m r -> message_typ r = message_typ m + 1.
Proof. destruct m; try done; destruct r; done. Qed.

(** ** What a computation returns *)

Section answers.
Context {W File : Type} {B : Backend W File}.
Local Notation M := (M W File).

(** What [m] returns satisfies [Q]. *)
Definition answers {A} (Q : A -> Prop) (m : M A) : Prop := forall h s,
  match m h s with Ret a _ => Q a | _ => True end.

Lemma answers_ret {A} (Q : A -> Prop) a : Q a -> answers Q (mret a).
Proof. by intros H h s. Qed.

Lemma answers_bind {A C} (P : A -> Prop) (Q : C -> Prop) (m : M A) k :
  answers P m -> (forall a, P a -> answers Q (k a)) -> answers Q (m ≫= k).
Proof.
  intros Hm Hk h s. unfold mbind, M_bind. specialize (Hm h s).
  destruct (m h s); [by apply Hk|done..].
Qed.

Lemma answers_any {A} (m : M A) : answers (fun _ => True) m.
Proof. intros h s. by destruct (m h s). Qed.

Lemma answers_then {A C} (Q : C -> Prop) (m : M A) k :
  (forall a, answers Q (k a)) -> answers Q (m ≫= k).
Proof. intros Hk. eapply answers_bind; [apply answers_any|]. intros a _. apply Hk. Qed.

Lemma answers_panic {A} (Q : A -> Prop) : answers Q (panic : M A).
Proof. done. Qed.

Lemma answers_defer {A D} (Q : A -> Prop) (d : M D) (m : M A) : answers Q m -> answers Q (defer d m).
Proof.
  intros Hm h s. unfold defer. specialize (Hm h s). destruct (m h s); [|by destruct (d _ _)|done].
  by destruct (d _ _).
Qed.

Lemma answers_with_lock {A} (Q : A -> Prop) l w (m : M A) : answers Q m -> answers Q (with_lock l w m).
Proof. intros Hm h s. unfold with_lock. destruct (conflicts _ _ _); [done|apply Hm]. Qed.

Lemma answers_safelyRead {A} (Q : A -> Prop) r (m : M A) : answers Q m -> answers Q (safelyRead r m).
Proof.
  intros Hm. apply answers_with_lock, answers_then. intros fr. by apply answers_with_lock.
Qed.

Lemma answers_with_fid {A} (Q : A -> Prop) c fid bad (k : rid -> M A) :
  Q bad -> (forall r, answers Q (k r)) -> answers Q (with_fid c fid bad k).
Proof.
  intros Hb Hk. apply answers_then. intros [r|]; [by apply answers_defer|by apply answers_ret].
Qed.

(** A result of the Go kind: its value satisfies [P], if there is one. *)
Definition valued {A} (P : A -> Prop) (r : A + error) : Prop :=
  match r with inl a => P a | inr _ => True end.

Lemma answers_any' {A} (m : M (A + error)) : answers (valued (fun _ => True)) m.
Proof. intros h s. by destruct (m h s) as [[]| |]. Qed.

Lemma answers_bind_err {A C} (P : A -> Prop) (Q : C -> Prop) (m : M (A + error)) k :
  answers (valued P) m -> (forall a, P a -> answers (valued Q) (k a)) ->
  answers (valued Q) (bind_err m k).
Proof.
  intros Hm Hk. eapply answers_bind; [exact Hm|]. intros [a|err] H; [by apply Hk|by apply answers_ret].
Qed.

Lemma answers_reject_if {A} (Q : A -> Prop) b err (k : M (A + error)) :
  answers (valued Q) k -> answers (valued Q) (reject_if b err k).
Proof. intros Hk. unfold reject_if. destruct b; [by apply answers_ret|done]. Qed.

Lemma answers_reply {A} m (P : A -> Prop) (e : M (A + error)) k :
  answers (valued P) e -> (forall a, P a -> answers (response_to m) (k a)) ->
  answers (response_to m) (reply e k).
Proof.
  intros He Hk. eapply answers_bind; [exact He|].
  intros [a|err] H; [by apply Hk|by apply answers_ret].
Qed.

Lemma answers_reply_any {A} m (e : M (A + error)) k :
  (forall a, answers (response_to m) (k a)) -> answers (response_to m) (reply e k).
Proof.
  intros Hk. apply answers_then. intros [a|err]; [by apply Hk|by apply answers_ret].
Qed.
End answers.

#[local] Hint Unfold handle_tflush handle_tauth handle_tremove handle_tattach handle_tlopen
  handle_tlcreate handle_tsymlink handle_tlink handle_trenameat handle_tunlinkat
  handle_trename handle_treadlink handle_tread handle_twrite handle_tmknod
  handle_tmkdir handle_tgetattr handle_tsetattr handle_txattrwalk
  handle_txattrcreate handle_treaddir handle_tfsync handle_tstatfs handle_tlock
  handle_tucreate handle_tumkdir handle_tusymlink handle_tumknod : handler.

(** One step of a handler. *)
Ltac answer :=
  lazymatch goal with
  | |- answers _ (mret _) => apply answers_ret; first [apply response_newErr|by right|idtac]
  | |- answers _ (with_fid _ _ _ _) => apply answers_with_fid; [apply response_newErr|intros ?]
  | |- answers _ (reply _ _) => apply answers_reply_any; intros ?
  | |- answers _ (defer _ _) => apply answers_defer
  | |- answers _ (match ?b with _ => _ end) => destruct b
  | |- answers _ (_ ≫= _) => apply answers_then; intros ?
  end.

Section handlers.
Context {W File : Type} {B : Backend W File}.
Local Notation M := (M W File).

Lemma tversion_answers t c : answers (response_to (Mtversion t)) (handle_tversion t c : M _).
Proof.
  assert (Hu : response_to (Mtversion t) unknown_version) by by right; left.
  unfold handle_tversion. destruct (_ =? 0); [by apply answers_ret|].
  destruct (parseVersion _) as [[base req]|] eqn:Ep; [|by apply answers_ret].
  destruct (_ || _) eqn:Eb; [by apply answers_ret|].
  apply orb_false_iff in Eb as [E1 E2]. apply String.eqb_neq in E1, E2.
  apply answers_then. intros cs. apply answers_then. intros _. apply answers_ret. right. right.
  exists base, req. split; [done|]. split; [done|]. split; [done|]. f_equal.
  - destruct (Z.ltb_spec maximumLength (tversion_MSize t)); lia.
  - f_equal. destruct (Z.ltb_spec highestSupportedVersion req); lia.
Qed.

(** A step of a walk adds a QID. *)
Lemma walkOne_qids qids r from name getattr :
  answers (valued (fun '(qs, _, _, _) => length qs = S (length qids)))
    (walkOne qids r from [name] getattr : M _).
Proof.
  unfold walkOne. apply answers_reject_if. eapply answers_bind_err; [apply answers_any'|].
  intros [[[qs sf] valid] attr] _. cbn [length Nat.eqb andb].
  destruct (Nat.eqb_spec (length qs) 1) as [E|E]; cbn [negb].
  - apply answers_ret. cbn. rewrite length_app. lia.
  - apply answers_then. intros ?. by apply answers_ret.
Qed.

Lemma doWalk_loop_qids qids r valid attr names :
  answers (valued (fun '(qs, _, _, _) => length qs = (length qids + length names)%nat))
    (doWalk_loop qids r valid attr names : M _).
Proof.
  revert qids r valid attr. induction names as [|name names IH]; intros qids r valid attr; cbn [doWalk_loop].
  - apply answers_ret. cbn. lia.
  - apply answers_then. intros wr. destruct (negb _).
    { apply answers_then. intros ?. by apply answers_ret. }
    eapply (answers_bind (valued (fun '(qs, _, _, _) => length qs = S (length qids)))).
    + apply answers_safelyRead, answers_then. intros d. apply answers_reject_if.
      eapply answers_bind_err; [apply walkOne_qids|]. intros [[[qs sf] v] a] Hq.
      do 4 (apply answers_then; intros ?). by apply answers_ret.
    + intros [[[[qs r1] v1] a1]|err] Hq.
      * specialize (IH qs r1 v1 a1). intros h s. specialize (IH h s).
        destruct (doWalk_loop _ _ _ _ _ _ _) as [[[[[qs' ?] ?] ?]|?] ?| |]; cbn in *; try done. lia.
      * apply answers_then. intros ?. by apply answers_ret.
Qed.

Lemma doWalk_qids r names getattr :
  answers (valued (fun '(qs, _, _, _) => length qs = length names)) (doWalk r names getattr : M _).
Proof.
  unfold doWalk. destruct (checkSafeNames names); [by apply answers_ret|].
  destruct names as [|name names].
  - apply answers_then. intros mp. eapply answers_bind_err; [apply answers_any'|].
    intros [[? ?] ?] _. by apply answers_ret.
  - apply answers_then. intros ?. apply (doWalk_loop_qids []).
Qed.

Lemma twalk_answers t c : answers (response_to (Mtwalk t)) (handle_twalk t c : M _).
Proof.
  unfold handle_twalk. answer. answer. eapply answers_reply; [apply doWalk_qids|].
  intros [[[qs nr] valid] attr] Hq. apply answers_defer, answers_then. intros _. apply answers_ret. by right.
Qed.

Lemma twalkgetattr_answers t c :
  answers (response_to (Mtwalkgetattr t)) (handle_twalkgetattr t c : M _).
Proof.
  unfold handle_twalkgetattr. answer. answer. eapply answers_reply; [apply doWalk_qids|].
  intros [[[qs nr] valid] attr] Hq. apply answers_defer, answers_then. intros _. apply answers_ret. by right.
Qed.

(** Whether clunking a pending attribute failed. *)
Lemma clunkHandleXattr_answers m t c :
  answers (fun o => match o with Some r => response_to m r | None => True end)
    (clunkHandleXattr t c : M _).
Proof.
  unfold clunkHandleXattr. apply answers_with_fid; [apply response_newErr|]. intros r.
  apply answers_then. intros [[]|err]; apply answers_ret; [done|apply response_newErr].
Qed.

Lemma tclunk_answers t c : answers (response_to (Mtclunk t)) (handle_tclunk t c : M _).
Proof.
  unfold handle_tclunk. eapply answers_bind; [apply (clunkHandleXattr_answers (Mtclunk t))|].
  intros o Ho. apply answers_then. intros [err|]; [by answer|]. destruct o; [by apply answers_ret|].
  by answer.
Qed.

Lemma handler_answers m c k : handler m = Some k -> answers (response_to m) (k c : M _).
Proof.
  destruct m; cbn [handler]; intros [= <-].
  all: lazymatch goal with
    | |- answers _ (handle_tversion _ _) => apply tversion_answers
    | |- answers _ (handle_twalk _ _) => apply twalk_answers
    | |- answers _ (handle_twalkgetattr _ _) => apply twalkgetattr_answers
    | |- answers _ (handle_tclunk _ _) => apply tclunk_answers
    | _ => autounfold with handler; repeat answer
    end.
Qed.
End handlers.

(** ** The type of an answer *)

Section behaviour.
Context {W File : Type} {B : Backend W File}.
Local Notation St := (St W File).

Lemma handle_responds c m (s : St) :
  match handle c m [] s with
  | Ret r _ => response_to m r
  | Panic _ => False
  | Stuck => True
  end.
Proof.
  unfold handle, recover. destruct (handler m) as [k|] eqn:Ek; [|apply response_newErr].
  pose proof (handler_answers m c k Ek [] s) as H.
  destruct (k c [] s); [exact H|apply response_newErr|exact H].
Qed.

(** C14: the answer to a request is an error or a response of the type that belongs to the
  request: the client that waits for it can take it. Version negotiation agrees on the
  lower version and the smaller size, a walk is answered with a QID for every name. A
  panic in a handler is an error too. *)
Theorem handle_response c m (s : St) :
match handle c m [] s with
| Ret r _ => response_to m r
| Panic _ => False
| Stuck => True
end.
Proof. apply handle_responds. Qed.

(** ** Requests that are refused *)

(** The FID that a handler looks up first, and the names that it checks before. *)
Definition first_fid (m : message) : option Z :=
  match m with
  | Mtclunk t => Some (tclunk_fid t)
  | Mtremove t => Some (tremove_fid t)
  | Mtlopen t => Some (tlopen_fid t)
  | Mtlcreate t => Some (tlcreate_fid t)
  | Mtsymlink t => Some (tsymlink_Directory t)
  | Mtlink t => Some (tlink_Directory t)
  | Mtrenameat t => Some (trenameat_OldDirectory t)
  | Mtunlinkat t => Some (tunlinkat_Directory t)
  | Mtrename t => Some (trename_fid t)
  | Mtreadlink t => Some (treadlink_fid t)
  | Mtread t => Some (tread_fid t)
  | Mtwrite t => Some (twrite_fid t)
  | Mtmknod t => Some (tmknod_Directory t)
  | Mtmkdir t => Some (tmkdir_Directory t)
  | Mtgetattr t => Some (tgetattr_fid t)
  | Mtsetattr t => Some (tsetattr_fid t)
  | Mtxattrwalk t => Some (txattrwalk_fid t)
  | Mtxattrcreate t => Some (txattrcreate_fid t)
  | Mtreaddir t => Some (treaddir_Directory t)
  | Mtfsync t => Some (tfsync_fid t)
  | Mtstatfs t => Some (tstatfs_fid t)
  | Mtlock t => Some (tlock_fid t)
  | Mtwalk t => Some (twalk_fid t)
  | Mtwalkgetattr t => Some (twalkgetattr_fid t)
  | Mtucreate t => Some (tlcreate_fid (tucreate_tlcreate t))
  | Mtumkdir t => Some (tmkdir_Directory (tumkdir_tmkdir t))
  | Mtusymlink t => Some (tsymlink_Directory (tusymlink_tsymlink t))
  | Mtumknod t => Some (tmknod_Directory (tumknod_tmknod t))
  | _ => None
  end.

Definition checked_names (m : message) : list string :=
  match m with
  | Mtlcreate t => [tlcreate_Name t]
  | Mtsymlink t => [tsymlink_Name t]
  | Mtlink t => [tlink_Name t]
  | Mtrenameat t => [trenameat_OldName t; trenameat_NewName t]
  | Mtunlinkat t => [tunlinkat_Name t]
  | Mtrename t => [trename_Name t]
  | Mtmknod t => [tmknod_Name t]
  | Mtmkdir t => [tmkdir_Name t]
  | Mtucreate t => [tlcreate_Name (tucreate_tlcreate t)]
  | Mtumkdir t => [tmkdir_Name (tumkdir_tmkdir t)]
  | Mtusymlink t => [tsymlink_Name (tusymlink_tsymlink t)]
  | Mtumknod t => [tmknod_Name (tumknod_tmknod t)]
  | _ => []
  end.

Lemma with_unknown_fid {A} c cs fid (bad : A) k (s : St) :
  conns s !! c = Some cs -> fids cs !! fid = None -> with_fid c fid bad k [] s = Ret bad s.
Proof.
  intros Hc Hf. unfold with_fid, LookupFID, with_lock, mbind, M_bind, get_conn. cbn.
  by rewrite Hc, Hf.
Qed.

Lemma delete_unknown_fid c cs fid (s : St) :
  conns s !! c = Some cs -> fids cs !! fid = None ->
  DeleteFID c fid [] s = Ret (Some (Errno EBADF)) s.
Proof.
  intros Hc Hf. unfold DeleteFID, with_lock, mbind, M_bind, get_conn. cbn. by rewrite Hc, Hf.
Qed.

(** C19: a request on a FID that is not in the table of its connection is refused with
  EBADF, or with EINVAL if a name of it is not safe, and changes nothing: no call into
  the backend is made and no state is touched. *)
Theorem unknown_fid_refused c cs m fid (s : St) :
conns s !! c = Some cs -> fids cs !! fid = None -> first_fid m = Some fid ->
handle c m [] s =
  Ret (newErr (Errno (if forallb safe_name (checked_names m) then EBADF else EINVAL))) s.
Proof.
intros Hc Hf Hm. pose proof (fun A bad k => with_unknown_fid (A := A) c cs fid bad k s Hc Hf) as Hw.
unfold handle, recover. destruct m; cbn [first_fid] in Hm; try discriminate Hm;
  injection Hm as <-; cbn [handler checked_names forallb].
all: autounfold with handler.
all: unfold handle_tclunk, clunkHandleXattr, handle_twalk, handle_twalkgetattr, reply, tlcreate_do,
  tsymlink_do, tmknod_do, tmkdir_do, checkSafeName, mbind, M_bind.
all: repeat (destruct (safe_name _); [|reflexivity]); rewrite Hw; try reflexivity.
cbv beta iota. by rewrite (delete_unknown_fid c cs).
Qed.
End behaviour.

(** ** Concrete requests *)

Definition start_state : St nat toy_file := connected 0%nat.

Lemma unknown_fid_refused_witness :
  (conns start_state !! 0%nat = Some new_connState /\ fids new_connState !! 7 = None) /\
  handle 0%nat (Mtmkdir (mk_tmkdir 7 "dir" 0 0)) [] start_state =
    Ret (newErr (Errno EBADF)) start_state.
Proof.
  assert (Hc : conns start_state !! 0%nat = Some new_connState) by (vm_compute; reflexivity).
  split; [split; [exact Hc|reflexivity]|].
  exact (unknown_fid_refused 0%nat new_connState (Mtmkdir (mk_tmkdir 7 "dir" 0 0)) 7
    start_state Hc eq_refl eq_refl).
Defined.
