(* ===== verification/Client.v ===== *)
(** * The client's connection ([p9/client.go])

    A client matches responses to requests by their tags: [pending] maps the tags of
    the calls that wait to their [response], where [handleOne] puts what it received
    and wakes the call through the channel [done].  Pointers to responses are numbers;
    every call gets a new one, as the pool that recycles response objects only recycles
    memory as long as no write fails (a call whose write failed stays in [pending]).  The
    locks of the client make its steps atomic; what several goroutines
    do at once is the step relation of Multiplex, a call of one goroutine is
    [sendRecv]. *)
From S2P Require Import Prelude Errno Buffer Types Messages Message Transport Version Pool.

Definition DefaultMessageSize : Z := Z.shiftl 64 10.

(** ** Responses *)

(** [done] is a channel of capacity one: [None] when it is empty. *)
Record response := mk_response { resp_r : message; resp_done : option (option error) }.

Record Client := mk_Client {
  tagPool : pool;
  fidPool : pool;
  pending : gmap Z nat;
  (* the response objects, and the next one *)
  responses : gmap nat response;
  next_response : nat;
  cl_messageSize : Z;
  payloadSize : Z;
  cl_version : Z;
}.

Definition set_tagPool (p : pool) (c : Client) : Client :=
  mk_Client p (fidPool c) (pending c) (responses c) (next_response c) (cl_messageSize c)
    (payloadSize c) (cl_version c).
Definition set_fidPool (p : pool) (c : Client) : Client :=
  mk_Client (tagPool c) p (pending c) (responses c) (next_response c) (cl_messageSize c)
    (payloadSize c) (cl_version c).
Definition set_pending (p : gmap Z nat) (c : Client) : Client :=
  mk_Client (tagPool c) (fidPool c) p (responses c) (next_response c) (cl_messageSize c)
    (payloadSize c) (cl_version c).
Definition set_responses (r : gmap nat response) (c : Client) : Client :=
  mk_Client (tagPool c) (fidPool c) (pending c) r (next_response c) (cl_messageSize c)
    (payloadSize c) (cl_version c).
Definition set_cl_version (v : Z) (c : Client) : Client :=
  mk_Client (tagPool c) (fidPool c) (pending c) (responses c) (next_response c)
    (cl_messageSize c) (payloadSize c) v.

(** A new response object for the receiver [rm]. *)
Definition new_response (rm : message) (c : Client) : nat * Client :=
  (next_response c,
   mk_Client (tagPool c) (fidPool c) (pending c)
     (<[next_response c := mk_response rm None]> (responses c)) (S (next_response c))
     (cl_messageSize c) (payloadSize c) (cl_version c)).

(** ** Receiving one message *)

(** The lookup function that [handleOne] gives to [recv]. *)
Definition client_lookup (c : Client) (t mt : Z) (s : unit) : (message + error) * unit :=
  match (i ← pending c !! t; responses c !! i) with
  (* Not expecting this message? *)
  | None => (inr ErrUnexpectedTag, s)
  | Some resp =>
      (* Is it an error? *)
      if mt =? msgRlerror then (inl (Mrlerror rlerror_zero), s)
      (* Does it match expectations? *)
      else if negb (mt =? message_typ (resp_r resp))
      then (inr (ErrBadResponse mt (message_typ (resp_r resp))), s)
      else (inl (resp_r resp), s)
  end.

(** How a step of a goroutine ends: a send on a full channel blocks. *)
Inductive stepped (A : Type) := Done (a : A) | Panics | Blocks.
Arguments Done {A}. Arguments Panics {A}. Arguments Blocks {A}.

(** [resp.done <- err], for each of the pending responses. *)
Fixpoint notify (ids : list nat) (err : option error) (rs : gmap nat response)
    : stepped (gmap nat response) :=
  match ids with
  | [] => Done rs
  | i :: ids =>
      match rs !! i with
      | None => Panics
      | Some resp =>
          match resp_done resp with
          | Some _ => Blocks
          | None => notify ids err (<[i := mk_response (resp_r resp) (Some err)]> rs)
          end
      end
  end.

Definition handleOne (c : Client) (input : list byte) : stepped (Client * list byte) :=
  let '(t, res, rest, _) := recv (client_lookup c) input (cl_messageSize c) tt in
  match res with
  | inr err =>
      (* Notify all waiters and clear pending. *)
      match notify (snd <$> map_to_list (pending c)) (Some err) (responses c) with
      | Done rs => Done (set_pending ∅ (set_responses rs c), rest)
      | Panics => Panics
      | Blocks => Blocks
      end
  | inl r =>
      (* Process the tag. *)
      match pending c !! t with
      | None => Panics
      | Some i =>
          let c := set_pending (delete t (pending c)) c in
          match responses c !! i with
          | None => Panics
          | Some resp =>
              match resp_done resp with
              | Some _ => Blocks
              | None => Done (set_responses (<[i := mk_response r (Some None)]> (responses c)) c, rest)
              end
          end
      end
  end.

(** ** One goroutine and its peer *)

(** A [clientFile], the pointer to its client left out; the flag is set atomically. *)
Record clientFile := mk_clientFile { cf_fid : Z; cf_closed : bool }.

Section client.
(** The other end of [conn]: what a write does there, and the bytes that it sends
    back before the next write. *)
Context {Peer : Type} (conn_write : list byte -> Peer -> (option error * list byte) * Peer).

(** The files of the client, in the order of their creation: [c.newFile] allocates the
    next one. *)
Record CSt := mk_CSt {
  client : Client;
  input : list byte;
  peer : Peer;
  cfiles : list clientFile;
}.

Inductive coutcome (A : Type) :=
| CRet (a : A) (s : CSt)
| CPanic (s : CSt)
| CBlock.
#[global] Arguments CRet {A}. #[global] Arguments CPanic {A}. #[global] Arguments CBlock {A}.

Definition CM (A : Type) : Type := CSt -> coutcome A.

#[export] Instance CM_ret : MRet CM := fun A a s => CRet a s.
#[export] Instance CM_bind : MBind CM := fun A B k m s =>
  match m s with CRet a s => k a s | CPanic s => CPanic s | CBlock => CBlock end.

Definition cpanic {A} : CM A := fun s => CPanic s.
Definition get_client : CM Client := fun s => CRet (client s) s.
Definition modify (f : Client -> Client) : CM unit := fun s =>
  CRet tt (mk_CSt (f (client s)) (input s) (peer s) (cfiles s)).

(** A deferred call that cannot fail. *)
Definition cdefer {A} (d : CM unit) (m : CM A) : CM A := fun s =>
  match m s with
  | CRet a s => match d s with CRet _ s => CRet a s | CPanic s => CPanic s | CBlock => CBlock end
  | CPanic s => match d s with CRet _ s => CPanic s | CPanic s => CPanic s | CBlock => CBlock end
  | CBlock => CBlock
  end.

Definition GetTag : CM (option Z) := fun s =>
  let '(o, p) := Get (tagPool (client s)) in
  CRet o (mk_CSt (set_tagPool p (client s)) (input s) (peer s) (cfiles s)).
Definition PutTag (t : Z) : CM unit := modify (fun c => set_tagPool (Put t (tagPool c)) c).
Definition GetFID : CM (option Z) := fun s =>
  let '(o, p) := Get (fidPool (client s)) in
  CRet o (mk_CSt (set_fidPool p (client s)) (input s) (peer s) (cfiles s)).
Definition PutFID (f : Z) : CM unit := modify (fun c => set_fidPool (Put f (fidPool c)) c).

(** [send]: the bytes go out, the answer is there to be received. *)
Definition client_send (t : Z) (tm : message) : CM (option error) := fun s =>
  let '((err, bytes), p) := conn_write (frame t tm) (peer s) in
  CRet (match err with Some err => Some (ConnError err) | None => None end)
    (mk_CSt (client s) (input s ++ bytes) p (cfiles s)).

(** [waitAndRecv] for the response [i]: this goroutine receives until its response is
    there. Each round takes a frame off the input, or fails and wakes every call. *)
Fixpoint waitAndRecv (fuel : nat) (i : nat) : CM (option error) := fun s =>
  match responses (client s) !! i with
  | None => CPanic s
  | Some resp =>
      match resp_done resp with
      | Some err =>
          CRet err (mk_CSt (set_responses (<[i := mk_response (resp_r resp) None]>
            (responses (client s))) (client s)) (input s) (peer s) (cfiles s))
      | None =>
          match fuel with
          | O => CBlock
          | S fuel =>
              match handleOne (client s) (input s) with
              | Done (c, rest) => waitAndRecv fuel i (mk_CSt c rest (peer s) (cfiles s))
              | Panics => CPanic s
              | Blocks => CBlock
              end
          end
      end
  end.

(** A new response for the receiver [rm], pending under the tag [t]. *)
Definition expect (t : Z) (rm : message) : CM nat := fun s =>
  let '(i, c) := new_response rm (client s) in
  CRet i (mk_CSt (set_pending (<[t := i]> (pending c)) c) (input s) (peer s) (cfiles s)).

(** [sendRecv] once it has its tag. *)
Definition sendRecv_tagged (t : Z) (tm rm : message) : CM (message + error) :=
  (* Indicate we're expecting a response. *)
  i ← expect t rm;
  (* Send the request over the wire. *)
  err ← client_send t tm;
  match err with
  | Some err => mret (inr (Wrap err))
  | None =>
      err ← (fun s => waitAndRecv (S (length (input s))) i s);
      match err with
      | Some err => mret (inr (Wrap err))
      | None =>
          c ← get_client;
          match responses c !! i with
          | None => cpanic
          (* Is it an error message? *)
          | Some (mk_response (Mrlerror e) _) => mret (inr (Errno (rlerror_Error e)))
          | Some resp => mret (inl (resp_r resp))
          end
      end
  end.

(** [sendRecv]: the receiver [rm] as it was filled, or an error. *)
Definition sendRecv (tm rm : message) : CM (message + error) :=
  o ← GetTag;
  match o with
  | None => mret (inr ErrOutOfTags)
  | Some t => cdefer (PutTag t) (sendRecv_tagged t tm rm)
  end.

(** ** A new client *)

Definition roundDown (p align : Z) : Z :=
  if (align <? p) && negb (p mod align =? 0) then p - p mod align else p.

(** [WithMessageSize(m)]: the option's error or the new message size. *)
Definition WithMessageSize (m : Z) : Z + error :=
  let fixed := largestFixedSize msgDotLRegistry in
  if m <=? fixed then inr (ErrMessageTooLarge m fixed) else inl m.

Definition new_Client (messageSize : Z) : Client :=
  mk_Client (mk_pool [] 1 noTag) (mk_pool [] 1 noFID) ∅ ∅ 0%nat messageSize
    (roundDown (wrap32 (messageSize - largestFixedSize msgDotLRegistry)) 512)
    highestSupportedVersion.

(** The loop of [NewClient] that agrees on a version: [requested] counts down. *)
Fixpoint negotiate (fuel : nat) (requested : Z) : CM (unit + error) :=
  match fuel with
  | O => fun _ => CBlock
  | S fuel =>
      c ← get_client;
      r ← sendRecv (Mtversion (mk_tversion (cl_messageSize c)
                                 (versionString version9P2000L requested)))
            (Mrversion rversion_zero);
      match r with
      | inr err =>
          (* The server told us to try again with a lower version. *)
          if Is err (TErrno EAGAIN) then
            if requested =? lowestSupportedVersion then mret (inr ErrVersionsExhausted)
            else negotiate fuel (wrap32 (requested - 1))
          else mret (inr err)
      | inl (Mrversion rv) =>
          match parseVersion (rversion_Version rv) with
          | None => mret (inr ErrBadVersionString)
          | Some (baseVersion, v) =>
              if negb (String.eqb baseVersion version9P2000L)
              then mret (inr ErrBadVersionString)
              else modify (set_cl_version v);; mret (inl tt)
          end
      | inl _ => cpanic
      end
  end.

(** [NewClient(conn, o...)], [size] being the option [WithMessageSize] if it is given. *)
Definition NewClient (size : option Z) : CM (unit + error) :=
  match (match size with None => inl DefaultMessageSize | Some m => WithMessageSize m end) with
  | inr err => mret (inr err)
  | inl messageSize =>
      modify (fun _ => new_Client messageSize);;
      negotiate (S (Z.to_nat highestSupportedVersion)) highestSupportedVersion
  end.

Definition Version : CM Z := c ← get_client; mret (cl_version c).
End client.
