(* ===== verification/Received.v ===== *)
(** * What was received can be sent ([p9/fuzz.go])

    The laws of Buffer go from a value to its bytes and back.  Here is the other
    direction: whatever bytes a decoder reads without an overrun, its result is well
    formed, and encoding it writes as many bytes as the decoder took ([faithful]).  It
    does not write the same ones: flags that a mask does not know are dropped, as are
    bytes after the last field.  The law of a message follows from its fields'
    ([solve_faithful]), and gives that what [recv] returns is [sendable], which [Fuzz]
    is there to try. *)
From S2P Require Import Prelude Errno Buffer Types Messages Message Transport Client.

(** ** The program of [fuzz.go] *)

(** [Fuzz]: what it returns, and what is then in [buf], to which a write succeeds.  The
    result of [send] is dropped, and [err] is the one of [recv], which is nil there; a
    message besides an error is not a value of this [recv].  [msgDotLRegistry] is [reg]. *)
Definition Fuzz (reg : registry) (bytes : list byte) : Z * list byte :=
  let '((tag, res), buf, _) := recv registry_lookup bytes DefaultMessageSize reg in
  match res with
  | inr _ => (0, buf)
  | inl msg =>
      let '(vecs, _) := send_vecs tag msg in
      (1, concat vecs)
  end.

(** ** Computations that write a number of bytes *)

Definition costs (e : BufM unit) (n : nat) : Prop := exists bs, writes e bs /\ length bs = n.

Lemma costs_append bs n : length bs = n -> costs (append bs) n.
Proof. intros <-. by exists bs. Qed.

Lemma costs_ret : costs (mret tt) 0.
Proof. exists []. split; [|done]. intros [? ?]. cbn. by rewrite app_nil_r. Qed.

Lemma costs_bind e1 e2 n1 n2 : costs e1 n1 -> costs e2 n2 -> costs (e1;; e2) (n1 + n2).
Proof.
  intros (b1 & H1 & <-) (b2 & H2 & <-). exists (b1 ++ b2).
  split; [by apply writes_bind|apply length_app].
Qed.

Lemma costs_String s : costs (WriteString s) (2 + String.length s).
Proof.
  eexists. split; [apply WriteString_bytes|].
  by rewrite length_app, length_le_bytes, length_bytes_of_string.
Qed.

(** ** Decoders and the bytes they take *)

(** Without an overrun, [d] takes some number of bytes and yields a value that are
    related by [Q]. *)
Definition takes {A} (d : BufM A) (Q : nat -> A -> Prop) : Prop :=
  forall b, overflow (d b).2 = false ->
    exists n, length (data b) = (n + length (data (d b).2))%nat /\ Q n (d b).1.

Lemma takes_ret {A} (a : A) (Q : nat -> A -> Prop) : Q 0%nat a -> takes (mret a) Q.
Proof. intros H b _. by exists 0%nat. Qed.

Lemma takes_bind {A B} (m : BufM A) (k : A -> BufM B) (Q : nat -> B -> Prop) :
  (forall a, sticky (k a)) ->
  takes m (fun n a => takes (k a) (fun n' c => Q (n + n')%nat c)) -> takes (m ≫= k) Q.
Proof.
  intros Hs Hm b Hov. unfold mbind, BufM_bind in *. specialize (Hm b).
  destruct (m b) as [a b']. cbn [fst snd] in *. destruct (overflow b') eqn:E.
  - by rewrite (Hs a b' E) in Hov.
  - destruct (Hm eq_refl) as (n & Hn & Hk). destruct (Hk b' Hov) as (n' & Hn' & Hq).
    exists (n + n')%nat. split; [lia|done].
Qed.

Lemma takes_mono {A} (d : BufM A) (Q Q' : nat -> A -> Prop) :
  takes d Q -> (forall n a, Q n a -> Q' n a) -> takes d Q'.
Proof. intros H HQ b Hb. destruct (H b Hb) as (n & Hn & Hq). eauto. Qed.

Lemma takes_fmap {A B} (f : A -> B) (d : BufM A) (Q : nat -> B -> Prop) :
  takes d (fun n a => Q n (f a)) -> takes (f <$> d) Q.
Proof.
  intros H b Hb. specialize (H b). unfold fmap, BufM_fmap in *.
  destruct (d b) as [a b']. exact (H Hb).
Qed.

Lemma takes_consume n (Q : nat -> option (list byte) -> Prop) :
  (forall bs, length bs = n -> Q n (Some bs)) -> takes (consume n) Q.
Proof.
  intros H b. unfold consume, has. destruct (Nat.leb_spec n (length (data b))); [|done].
  intros _. exists n. cbn [negb fst snd data]. rewrite length_drop. split; [lia|].
  apply H. rewrite length_take. lia.
Qed.

(** The law: the value is well formed, and encoding it takes the same room. *)
Definition faithful {A} (e : A -> BufM unit) (d : BufM A) (wf : A -> Prop) : Prop :=
  takes d (fun n a => wf a /\ costs (e a) n).

Create HintDb faithful.

Lemma faithful_use {A} e (d : BufM A) wf (Q : nat -> A -> Prop) :
  faithful e d wf -> (forall n a, wf a -> costs (e a) n -> Q n a) -> takes d Q.
Proof. intros H HQ. eapply takes_mono; [exact H|]. intros n a [? ?]. by apply HQ. Qed.

(** *** Primitives *)

(** All the widths at once. *)
Lemma faithful_le n :
  faithful (fun v => append (le_bytes n v))
    (x ← consume n; mret (match x with Some x => le_Z x | None => 0 end))
    (fun v => 0 <= v < 256 ^ Z.of_nat n).
Proof.
  apply takes_bind; [eauto with sticky|]. apply takes_consume. intros bs Hbs.
  apply takes_ret. rewrite Nat.add_0_r. split.
  - rewrite <- Hbs. apply le_Z_range.
  - apply costs_append, length_le_bytes.
Qed.

Lemma faithful_8 : faithful Write8 Read8 u8. Proof. exact (faithful_le 1). Qed.
Lemma faithful_16 : faithful Write16 Read16 u16. Proof. exact (faithful_le 2). Qed.
Lemma faithful_32 : faithful Write32 Read32 u32. Proof. exact (faithful_le 4). Qed.
Lemma faithful_64 : faithful Write64 Read64 u64. Proof. exact (faithful_le 8). Qed.

(** A value that is read as another one and written with as many bytes. *)
Lemma faithful_map {A B} (e : A -> BufM unit) (e' : B -> BufM unit) (d : BufM A) (f : A -> B)
    (wf : A -> Prop) (wf' : B -> Prop) :
  faithful e d wf ->
  (forall a n, wf a -> costs (e a) n -> wf' (f a) /\ costs (e' (f a)) n) ->
  faithful e' (x ← d; mret (f x)) wf'.
Proof.
  intros Hd Hf. apply takes_bind; [eauto with sticky|].
  eapply faithful_use; [exact Hd|]. intros n a Hw Hc. apply takes_ret.
  rewrite Nat.add_0_r. by apply Hf.
Qed.

(** The fixed widths cost the same whatever is written. *)
Lemma costs_le_bytes k v w n : costs (append (le_bytes k v)) n -> costs (append (le_bytes k w)) n.
Proof.
  intros (bs & Hw & <-). specialize (Hw (Buffer [] false)). injection Hw as <-.
  apply costs_append. by rewrite !length_le_bytes.
Qed.

Lemma faithful_FID : faithful WriteFID ReadFID u32.
Proof.
  eapply takes_mono; [exact faithful_32|]. intros n v [Hv Hc]. split; [done|].
  exact (costs_le_bytes 4 _ _ n Hc).
Qed.

Lemma faithful_Permissions : faithful WritePermissions ReadPermissions perm12.
Proof.
  eapply faithful_map; [exact faithful_32|]. intros v n _ Hc. split.
  - rewrite land_permissionsMask. unfold perm12. by apply Z.mod_pos_bound.
  - exact (costs_le_bytes 4 _ _ n Hc).
Qed.

Lemma faithful_PID : faithful WritePID ReadPID i32.
Proof.
  eapply faithful_map; [exact faithful_32|]. intros v n Hv Hc. split.
  - unfold i32, sint32, u32 in *. pose proof (Z.mod_pos_bound (v + 2 ^ 31) (2 ^ 32) eq_refl). lia.
  - exact (costs_le_bytes 4 _ _ n Hc).
Qed.

Lemma faithful_AttrMask old : faithful AttrMask_encode (AttrMask_decode old) (fun _ => True).
Proof.
  destruct old.
  eapply faithful_map; [exact faithful_64|]. intros v n _ Hc. split; [done|].
  exact (costs_le_bytes 8 _ _ n Hc).
Qed.

Lemma faithful_SetAttrMask old : faithful SetAttrMask_encode (SetAttrMask_decode old) (fun _ => True).
Proof.
  destruct old.
  eapply faithful_map; [exact faithful_32|]. intros v n _ Hc. split; [done|].
  exact (costs_le_bytes 4 _ _ n Hc).
Qed.

Lemma length_string_of_bytes bs : String.length (string_of_bytes bs) = length bs.
Proof. by rewrite <- length_bytes_of_string, bytes_of_string_of_bytes. Qed.

(** A string has the bytes that its length prefix says, or is an overrun. *)
Lemma faithful_String : faithful WriteString ReadString str16.
Proof.
  apply takes_bind; [auto with sticky|]. eapply faithful_use; [exact faithful_16|].
  intros n l Hl (hb & Hh & <-) [bs ov]. unfold ReadStringBody, has. cbn [data].
  set (k := Z.to_nat l). destruct (Nat.leb_spec k (length bs)) as [Hle|]; [|done]. cbn [negb].
  assert (Ht : length (take k bs) = k) by (rewrite length_take; lia).
  pose proof (read_bytes_app (take k bs) (drop k bs) ov) as Hr.
  rewrite take_drop, Ht in Hr. rewrite Hr. cbn [fst snd data overflow]. intros _.
  exists k. rewrite length_drop. split; [lia|].
  unfold u16 in Hl. split; [unfold str16; rewrite length_string_of_bytes, Ht; lia|].
  assert (length hb = 2%nat) as ->.
  { assert (data (Write16 l (Buffer [] false)).2 = hb) as <- by by rewrite Hh. done. }
  pose proof (costs_String (string_of_bytes (take k bs))) as Hc.
  by rewrite length_string_of_bytes, Ht in Hc.
Qed.

(** Loops: as many elements as were asked for, of the room that they take. *)
Lemma takes_append_n {A} (e : A -> BufM unit) (d : BufM A) wf k pre :
  faithful e d wf -> sticky d ->
  takes (append_n d k pre) (fun n xs => exists ys, xs = pre ++ ys /\
    length ys = k /\ Forall wf ys /\ costs (write_all e ys) n).
Proof.
  intros Hd Hs. revert pre. induction k as [|k IH]; intros pre; cbn [append_n].
  - apply takes_ret. exists []. rewrite app_nil_r. split; [done|]. split; [done|].
    split; [constructor|apply costs_ret].
  - apply takes_bind; [auto with sticky|]. eapply faithful_use; [exact Hd|].
    intros n a Hw Hc. eapply takes_mono; [apply IH|]. cbn.
    intros n' xs (ys & -> & Hl & Hws & Hcs). exists (a :: ys).
    split; [by rewrite <- app_assoc|]. split; [cbn; lia|]. split; [by constructor|].
    by apply costs_bind.
Qed.

Lemma faithful_names old : faithful names_encode (names_decode old) names_wf.
Proof.
  apply takes_bind; [auto with sticky|]. eapply faithful_use; [exact faithful_16|].
  intros n l Hl Hc. eapply takes_mono;
    [apply (takes_append_n WriteString); [apply faithful_String|apply sticky_ReadString]|].
  intros n' xs (ys & -> & Hxs & Hw & Hcs). rewrite take_0. cbn [app].
  unfold names_wf, names_encode, wrap16, u16 in *.
  rewrite Hxs, Z2Nat.id, Z.mod_small by lia. split; [done|]. by apply costs_bind.
Qed.

Lemma faithful_UID : faithful WriteUID ReadUID u32. Proof. exact faithful_32. Qed.
Lemma faithful_GID : faithful WriteGID ReadGID u32. Proof. exact faithful_32. Qed.
Lemma faithful_FileMode : faithful WriteFileMode ReadFileMode u32. Proof. exact faithful_32. Qed.
Lemma faithful_OpenFlags : faithful WriteOpenFlags ReadOpenFlags u32. Proof. exact faithful_32. Qed.
Lemma faithful_Tag : faithful WriteTag ReadTag u16. Proof. exact faithful_16. Qed.
Lemma faithful_QIDType : faithful WriteQIDType ReadQIDType u8. Proof. exact faithful_8. Qed.

(** By the name of the decoder, as many of them are one function. *)
#[export] Hint Extern 0 (faithful _ Read8 _) => exact faithful_8 : faithful.
#[export] Hint Extern 0 (faithful _ Read16 _) => exact faithful_16 : faithful.
#[export] Hint Extern 0 (faithful _ Read32 _) => exact faithful_32 : faithful.
#[export] Hint Extern 0 (faithful _ Read64 _) => exact faithful_64 : faithful.
#[export] Hint Extern 0 (faithful _ ReadFID _) => exact faithful_FID : faithful.
#[export] Hint Extern 0 (faithful _ ReadUID _) => exact faithful_UID : faithful.
#[export] Hint Extern 0 (faithful _ ReadGID _) => exact faithful_GID : faithful.
#[export] Hint Extern 0 (faithful _ ReadFileMode _) => exact faithful_FileMode : faithful.
#[export] Hint Extern 0 (faithful _ ReadOpenFlags _) => exact faithful_OpenFlags : faithful.
#[export] Hint Extern 0 (faithful _ ReadTag _) => exact faithful_Tag : faithful.
#[export] Hint Extern 0 (faithful _ ReadQIDType _) => exact faithful_QIDType : faithful.
#[export] Hint Resolve faithful_Permissions faithful_PID faithful_AttrMask
  faithful_SetAttrMask faithful_String faithful_names : faithful.

(** *** Records *)

(** What is left when all fields have been read: that each is well formed and has its
    room. *)
Ltac costs_fields :=
  repeat (apply costs_bind; [eassumption|]); first
    [eassumption | rewrite Nat.add_0_r; eassumption | apply costs_ret].

Ltac takes_field :=
  eapply faithful_use; [solve [eauto with faithful]|];
  let n := fresh "n" in let a := fresh "a" in intros n a ? ?.

Ltac takes_fields :=
  cbv beta zeta;
  lazymatch goal with
  | |- takes (mbind _ _) _ =>
      apply takes_bind; [intros; solve_sticky|]; takes_field; takes_fields
  | |- takes (mret _) _ => cbv beta iota delta [assign]; apply takes_ret
  end.

Ltac wf_fields :=
  cbn; first
    [assumption | exact I
    |lazymatch goal with |- ?wf _ => unfold wf end; cbn; split_and?; assumption].

(** The law of a record whose codec is the sequence of its fields. *)
Ltac solve_faithful :=
  lazymatch goal with
  | |- faithful ?e (?d ?old) ?wf =>
      destruct old; unfold faithful, d; takes_fields; split; [wf_fields|unfold e; costs_fields]
  end.

Lemma faithful_QID old : faithful QID_encode (QID_decode old) QID_wf.
Proof. solve_faithful. Qed.
Lemma faithful_FSStat old : faithful FSStat_encode (FSStat_decode old) FSStat_wf.
Proof. solve_faithful. Qed.
Lemma faithful_Attr old : faithful Attr_encode (Attr_decode old) Attr_wf.
Proof. solve_faithful. Qed.
Lemma faithful_SetAttr old : faithful SetAttr_encode (SetAttr_decode old) SetAttr_wf.
Proof. solve_faithful. Qed.
#[export] Hint Resolve faithful_QID faithful_FSStat faithful_Attr faithful_SetAttr : faithful.

Lemma faithful_Dirent old : faithful Dirent_encode (Dirent_decode old) Dirent_wf.
Proof. solve_faithful. Qed.

Lemma faithful_qids old : faithful qids_encode (qids_decode old) qids_wf.
Proof.
  apply takes_bind; [auto with sticky|]. eapply faithful_use; [exact faithful_16|].
  intros n l Hl Hc. eapply takes_mono;
    [apply (takes_append_n QID_encode); [apply faithful_QID|apply sticky_QID]|].
  intros n' xs (ys & -> & Hxs & Hw & Hcs). rewrite take_0. cbn [app].
  unfold qids_wf, qids_encode, wrap16, u16 in *.
  rewrite Hxs, Z2Nat.id, Z.mod_small by lia. split; [done|]. by apply costs_bind.
Qed.
#[export] Hint Resolve faithful_Dirent faithful_qids : faithful.

(** *** Messages *)

Lemma faithful_tauth old : faithful tauth_encode (tauth_decode old) tauth_wf.
Proof. solve_faithful. Qed.
#[export] Hint Resolve faithful_tauth : faithful.
Lemma faithful_rlopen old : faithful rlopen_encode (rlopen_decode old) rlopen_wf.
Proof. solve_faithful. Qed.
#[export] Hint Resolve faithful_rlopen : faithful.
Lemma faithful_tlcreate old : faithful tlcreate_encode (tlcreate_decode old) tlcreate_wf.
Proof. solve_faithful. Qed.
#[export] Hint Resolve faithful_tlcreate : faithful.
Lemma faithful_tsymlink old : faithful tsymlink_encode (tsymlink_decode old) tsymlink_wf.
Proof. solve_faithful. Qed.
#[export] Hint Resolve faithful_tsymlink : faithful.
Lemma faithful_rsymlink old : faithful rsymlink_encode (rsymlink_decode old) rsymlink_wf.
Proof. solve_faithful. Qed.
#[export] Hint Resolve faithful_rsymlink : faithful.
Lemma faithful_tmknod old : faithful tmknod_encode (tmknod_decode old) tmknod_wf.
Proof. solve_faithful. Qed.
#[export] Hint Resolve faithful_tmknod : faithful.
Lemma faithful_rmknod old : faithful rmknod_encode (rmknod_decode old) rmknod_wf.
Proof. solve_faithful. Qed.
#[export] Hint Resolve faithful_rmknod : faithful.
Lemma faithful_tmkdir old : faithful tmkdir_encode (tmkdir_decode old) tmkdir_wf.
Proof. solve_faithful. Qed.
#[export] Hint Resolve faithful_tmkdir : faithful.
Lemma faithful_rmkdir old : faithful rmkdir_encode (rmkdir_decode old) rmkdir_wf.
Proof. solve_faithful. Qed.
#[export] Hint Resolve faithful_rmkdir : faithful.
Lemma faithful_rlcreate old : faithful rlcreate_encode (rlcreate_decode old) rlcreate_wf.
Proof. solve_faithful. Qed.
#[export] Hint Resolve faithful_rlcreate : faithful.

(** What [decode] makes of a message is well formed, and as long as what it read. *)
Definition sound_message (n : nat) (m : message) : Prop :=
  message_wf m /\ costs (message_write m) n.

Lemma takes_message {A} (mk : A -> message) (e : A -> BufM unit) (d : BufM A) (wf : A -> Prop) :
  (forall m b, message_encode (mk m) b = (mk <$> keep e m) b) ->
  (forall m, message_wf (mk m) = wf m) ->
  faithful e d wf -> takes (mk <$> d) sound_message.
Proof.
  intros He Hw Hd. apply takes_fmap. eapply faithful_use; [exact Hd|].
  intros n a Ha (bs & Hc & Hl). split; [by rewrite Hw|]. exists bs. split; [|done].
  intros b. unfold message_write, fmap, BufM_fmap. rewrite He.
  unfold keep, fmap, BufM_fmap, mbind, BufM_bind. by rewrite Hc.
Qed.

Lemma takes_no_payload old :
  message_Payload old = None -> takes (message_decode old) sound_message.
Proof.
  intros Hp. destruct old; try discriminate Hp;
    (eapply takes_message; [intros m' b; reflexivity|intros m'; reflexivity|cbn; solve_faithful]).
Qed.

(** ** Messages with a payload *)

Lemma writes_length e bs n : writes e bs -> costs e n -> length bs = n.
Proof.
  intros Hw (bs' & Hw' & <-). specialize (Hw (Buffer [] false)).
  rewrite Hw' in Hw. cbn in Hw. congruence.
Qed.

(** The entries of a listing are taken off its payload one after the other. *)
Lemma rreaddir_entries_sound fuel b Entries :
  exists es, rreaddir_entries fuel b Entries = Entries ++ es /\
    Forall Dirent_wf es /\ (length (Dirents_bytes es) <= length (data b))%nat.
Proof.
  revert b Entries. induction fuel as [|fuel IH]; intros b Entries.
  { exists []. rewrite app_nil_r. split_and!; [done|constructor|cbn; lia]. }
  cbn [rreaddir_entries]. pose proof (faithful_Dirent Dirent_zero b) as Hd.
  destruct (Dirent_decode _ b) as [d b']. unfold isOverrun. cbn [fst snd] in Hd.
  destruct (overflow b').
  { exists []. rewrite app_nil_r. split_and!; [done|constructor|cbn; lia]. }
  destruct (Hd eq_refl) as (n & Hn & Hw & Hc), (IH b' (Entries ++ [d])) as (es & -> & Hws & Hl).
  exists (d :: es). rewrite <- app_assoc. split; [done|]. split; [by constructor|].
  rewrite Dirents_bytes_cons, length_app.
  pose proof (writes_length _ _ _ (writes_Dirent d) Hc). lia.
Qed.

Lemma Dirents_bytes_prefix es es' :
  es `prefix_of` es' -> (length (Dirents_bytes es) <= length (Dirents_bytes es'))%nat.
Proof.
  intros [k ->]. unfold Dirents_bytes. rewrite map_app, concat_app, length_app. lia.
Qed.

(** The check of a count against the payload, as a step of a decoder. *)
Lemma takes_mark (c : bool) {A} (a : A) (Q : nat -> A -> Prop) :
  (c = false -> Q 0%nat a) -> takes ((if c then markOverrun else mret tt);; mret a) Q.
Proof. intros H b. destruct c; [done|]. intros _. exists 0%nat. eauto. Qed.

Lemma sticky_mark (c : bool) {A} (a : A) :
  sticky ((if c then markOverrun else mret tt);; mret a).
Proof. intros b Hb. by destruct c. Qed.
#[export] Hint Resolve sticky_mark : sticky.

(** A decoded payloader has the room of its fixed part and, at most, of the payload
    that it was given. *)
Definition sound_payloader (fixedSize : Z) (p : list byte) (_ : nat) (m : message) : Prop :=
  message_wf m /\ Z.of_nat (length (fixed_bytes m)) = fixedSize /\
  (length (payload_bytes m) <= length p)%nat.

Lemma takes_rread p :
  u32 (Z.of_nat (length p)) ->
  takes (Mrread <$> rread_decode (mk_rread p)) (sound_payloader 4 p).
Proof.
  intros Hp. apply takes_fmap, takes_bind; [auto with sticky|]. takes_field.
  apply takes_mark. intros _. done.
Qed.

Lemma takes_twrite f o p :
  u32 (Z.of_nat (length p)) ->
  takes (Mtwrite <$> twrite_decode (mk_twrite f o p)) (sound_payloader 16 p).
Proof.
  intros Hp. apply takes_fmap. unfold twrite_decode. cbv beta iota zeta delta [assign].
  cbn [twrite_Data].
  do 3 (apply takes_bind; [intros; eauto with sticky|]; takes_field).
  apply takes_mark. done.
Qed.

Lemma takes_rreaddir c es p :
  u32 (Z.of_nat (length p)) ->
  takes (Mrreaddir <$> rreaddir_decode (mk_rreaddir c es p)) (sound_payloader 4 p).
Proof.
  intros Hp. apply takes_fmap. unfold rreaddir_decode. cbv beta iota zeta delta [assign].
  apply takes_bind; [auto with sticky|]. takes_field. apply takes_ret.
  cbn [rreaddir_payload rreaddir_Entries]. rewrite take_0.
  destruct (rreaddir_entries_sound (S (length p)) (Buffer p false) []) as (ents & -> & Hes & Hl).
  cbn [app]. set (r := mk_rreaddir a _ p). assert (Hw : rreaddir_wf r) by done.
  split; [exact Hw|]. unfold fixed_bytes, payload_bytes.
  cbn [message_encode encode Message_encoder rreaddir_Message]. unfold fmap, BufM_fmap.
  rewrite rreaddir_encode_spec by done. cbn [fst snd data message_Payload Payload
    rreaddir_payloader rreaddir_marshalled rreaddir_payload default].
  rewrite length_app, length_le_bytes. split; [done|].
  pose proof (Dirents_bytes_prefix (rreaddir_fit r) (rreaddir_Entries r)
    (entries_that_fit_prefix _ _ _)) as Hpre. unfold Dirents_bytes in *. cbn in *. lia.
Qed.

Lemma takes_payloader t old p fixedSize :
  pooled t old -> message_FixedSize old = Some fixedSize -> u32 (Z.of_nat (length p)) ->
  takes (message_decode (message_SetPayload old p)) (sound_payloader fixedSize p).
Proof.
  intros [_ Hold] Hf Hp. destruct old; try discriminate Hf; try done; injection Hf as <-.
  - by apply takes_rread.
  - by apply takes_twrite.
  - by apply takes_rreaddir.
Qed.

(** ** What [recv] returns *)

Lemma message_Payload_decode old b :
  message_Payload old = None -> message_Payload (message_decode old b).1 = None.
Proof. destruct old; try done; intros _; cbn; unfold fmap, BufM_fmap; by case_match. Qed.

Lemma message_typ_decoded old b : message_typ (message_decode old b).1 = message_typ old.
Proof. destruct old; cbn; unfold fmap, BufM_fmap; by case_match. Qed.

Lemma message_typ_SetPayload old p : message_typ (message_SetPayload old p) = message_typ old.
Proof. by destruct old. Qed.

Lemma pooled_decoded t old b : pooled t old -> pooled t (message_decode old b).1.
Proof.
  intros [<- Hold]. split; [apply message_typ_decoded|].
  destruct old; try done; cbn; unfold fmap, BufM_fmap;
    match goal with |- context [let '(_, _) := ?d in _] => by destruct d end.
Qed.

(** A message that fits a frame of [size] bytes, of number [t]. *)
Definition fits (t size : Z) (m : message) : Prop :=
  message_wf m /\ pooled t m /\ frame_length m <= size.

Lemma fixed_bytes_costs m n : costs (message_write m) n -> length (fixed_bytes m) = n.
Proof.
  intros (bs & Hw & <-). specialize (Hw (Buffer [] false)).
  unfold message_write, fmap, BufM_fmap in Hw. unfold fixed_bytes.
  destruct (message_encode m _) as [m' b']. cbn in *. by injection Hw as ->.
Qed.

Lemma recv_decode_no_payload t tag old bs tag' m :
  pooled t old -> message_Payload old = None ->
  recv_decode tag old bs = (tag', inl m) ->
  tag' = tag /\ fits t (headerLength + Z.of_nat (length bs)) m.
Proof.
  intros Ho Hp. unfold recv_decode, isOverrun.
  pose proof (takes_no_payload old Hp (Buffer bs false)) as Ht.
  pose proof (message_Payload_decode old (Buffer bs false) Hp) as Hp'.
  pose proof (pooled_decoded t old (Buffer bs false) Ho) as Ho'.
  destruct (message_decode old _) as [m' b']. cbn [fst snd data] in *.
  destruct (overflow b'); [done|]. intros [= <- <-].
  destruct (Ht eq_refl) as (n & Hn & Hw & Hc). split; [done|]. split; [done|]. split; [done|].
  apply fixed_bytes_costs in Hc. unfold frame_length, payload_bytes.
  rewrite message_encode_keep, Hp' by done. cbn. lia.
Qed.

Lemma recv_decode_payload t tag old p bs fixedSize tag' m :
  pooled t old -> message_FixedSize old = Some fixedSize -> u32 (Z.of_nat (length p)) ->
  recv_decode tag (message_SetPayload old p) bs = (tag', inl m) ->
  tag' = tag /\ fits t (headerLength + fixedSize + Z.of_nat (length p)) m.
Proof.
  intros Ho Hf Hp. unfold recv_decode, isOverrun.
  pose proof (takes_payloader t old p fixedSize Ho Hf Hp (Buffer bs false)) as Ht.
  pose proof (pooled_decoded t _ (Buffer bs false) (pooled_SetPayload t old p Ho)) as Ho'.
  destruct (message_decode _ _) as [m' b']. cbn [fst snd data] in *.
  destruct (overflow b'); [done|]. intros [= <- <-].
  destruct (Ht eq_refl) as (n & _ & Hw & Hfix & Hpay).
  split; [done|]. split; [done|]. split; [done|]. unfold frame_length. lia.
Qed.

Lemma recv_body_fits t tag old remaining r tag' m r' :
  pooled t old -> u32 remaining ->
  recv_body tag old remaining r = ((tag', inl m), r') ->
  tag' = tag /\ fits t (headerLength + remaining) m.
Proof.
  unfold u32. intros Ho Hrem. unfold recv_body, ReadFrom.
  destruct (message_FixedSize old) as [fixedSize|] eqn:Hf.
  - destruct (Z.ltb_spec remaining fixedSize) as [|Hle]; [done|].
    destruct (Nat.leb_spec (Z.to_nat remaining) (length r)) as [Hr|]; [|done].
    assert (0 <= fixedSize) by (destruct old; try discriminate Hf; by injection Hf as <-).
    set (p := drop _ (take _ r)).
    assert (Hp : Z.of_nat (length p) = remaining - fixedSize).
    { unfold p. rewrite length_drop, length_take. lia. }
    intros Hd. apply (f_equal fst) in Hd. cbn [fst] in Hd.
    apply (recv_decode_payload t _ _ p _ fixedSize) in Hd; [|done|done|unfold u32; lia].
    by replace (headerLength + fixedSize + Z.of_nat (length p))
      with (headerLength + remaining) in Hd by lia.
  - destruct (Nat.leb_spec (Z.to_nat remaining) (length r)) as [Hr|]; [|done].
    intros Hd. apply (f_equal fst) in Hd. cbn [fst] in Hd.
    apply (recv_decode_no_payload t) in Hd; [|done|by destruct old].
    by rewrite length_take, Nat.min_l, Z2Nat.id in Hd by lia.
Qed.

(** Seven bytes are a header. *)
Lemma header_bytes hdr :
  length hdr = 7%nat ->
  exists size t tag, (u32 size /\ u8 t /\ u16 tag) /\ hdr = frame_header size t tag.
Proof.
  intros H. exists (le_Z (take 4 hdr)), (le_Z (take 1 (drop 4 hdr))), (le_Z (drop 5 hdr)).
  pose proof (le_Z_range (take 4 hdr)) as R1.
  pose proof (le_Z_range (take 1 (drop 4 hdr))) as R2.
  pose proof (le_Z_range (drop 5 hdr)) as R3.
  pose proof (le_bytes_le_Z (take 4 hdr)) as E1.
  pose proof (le_bytes_le_Z (take 1 (drop 4 hdr))) as E2.
  pose proof (le_bytes_le_Z (drop 5 hdr)) as E3.
  rewrite !length_take, !length_drop, !H in *. split; [done|].
  rewrite frame_header_bytes. change (4 `min` 7)%nat with 4%nat in *.
  change (1 `min` (7 - 4))%nat with 1%nat in *. change (7 - 5)%nat with 2%nat in *.
  rewrite E1, E2, E3. do 8 (destruct hdr as [|? hdr]; try discriminate H). done.
Qed.

(** With a table of messages that has each under its number, as the registry and the
    table of calls in progress do. *)
Lemma recv_fits {St} (lookup : Z -> Z -> St -> (message + error) * St) r msize s tag m r' s' :
  (forall tag t old s', lookup tag t s = (inl old, s') -> pooled t old) ->
  recv lookup r msize s = ((tag, inl m), r', s') ->
  u16 tag /\ exists t, fits t (Z.min maximumLength msize) m.
Proof.
  intros Hlk Hr. destruct (Nat.ltb_spec (length r) 7) as [Hs|Hs].
  { unfold recv in Hr. change (Z.to_nat headerLength) with 7%nat in Hr.
    by rewrite (proj2 (Nat.ltb_lt _ _)) in Hr by done. }
  destruct (header_bytes (take 7 r)) as (size & t & tg & (H1 & H2 & H3) & Hh).
  { rewrite length_take. lia. }
  rewrite <- (take_drop 7 r), Hh, recv_header in Hr by done.
  destruct (Z.ltb_spec size headerLength); [done|].
  destruct (Z.ltb_spec maximumLength size); [done|].
  destruct (Z.ltb_spec msize size); [done|]. cbn [orb] in Hr.
  destruct (lookup tg t s) as [[old|err] s1] eqn:El; [|done].
  destruct (recv_body _ _ _ _) as [[tg' res] r1] eqn:Eb. injection Hr as -> -> <- <-.
  apply (recv_body_fits t) in Eb as (-> & Hw & Ho & Hl); [|by eapply Hlk|
    unfold u32, headerLength in *; lia].
  split; [done|]. exists t. split; [done|]. split; [done|]. unfold headerLength in *. lia.
Qed.

(** ** Sending it again *)

Lemma entries_that_fit_all Count used es :
  Z.of_nat (used + length (Dirents_bytes es)) <= Count -> entries_that_fit Count used es = es.
Proof.
  revert used. induction es as [|d es IH]; intros used; [done|].
  rewrite Dirents_bytes_cons, length_app. cbn [entries_that_fit]. intros H.
  rewrite (proj2 (Z.ltb_ge _ _)) by lia. by rewrite IH by lia.
Qed.

Lemma entries_that_fit_idem Count es :
  let es' := entries_that_fit Count 0 es in
  entries_that_fit (Z.of_nat (length (Dirents_bytes es'))) 0 es' = es'.
Proof. cbn zeta. by apply entries_that_fit_all. Qed.

(** A receiver's message goes on the wire as it is, a listing once it has been cut. *)
Lemma received_idem m : received (received m) = received m.
Proof.
  destruct m; try done. unfold received, rreaddir_fit. cbn [rreaddir_Count rreaddir_Entries].
  by rewrite entries_that_fit_idem.
Qed.

Definition is_listing (m : message) : Prop :=
  match m with Mrreaddir _ => True | _ => False end.

Lemma received_pooled_eq t m : pooled t m -> received m = m \/ is_listing m.
Proof. intros [_ H]. destruct m; auto; done. Qed.

(** C34: whatever bytes come in, a message that [recv] returns can be sent again: its
    fields are in range and its frame is not longer than the limits, and whoever gets the
    frame, with the same limit, reads the same message and tag off it.  A directory
    listing is cut to the length that it announces the first time, and not again. *)
Theorem received_resendable {St St'} (lookup : Z -> Z -> St -> (message + error) * St)
    (lookup' : Z -> Z -> St' -> (message + error) * St') bytes msize s tag m rest s' :
  (forall tag t old s', lookup tag t s = (inl old, s') -> pooled t old) ->
  recv lookup bytes msize s = ((tag, inl m), rest, s') ->
  sendable (tag, m) /\ (received m = m \/ is_listing m) /\
  received (received m) = received m /\
  forall rest' s1 old s2,
    lookup' tag (message_typ m) s1 = (inl old, s2) -> receiver_of old m ->
    recv lookup' (frame tag m ++ rest') msize s1 = ((tag, inl (received m)), rest', s2).
Proof.
  intros Hlk Hr. destruct (recv_fits _ _ _ _ _ _ _ _ Hlk Hr) as (Htag & t & Hw & Ho & Hl).
  split; [split; [done|]; cbn [fst snd]; split; [done|]; unfold maximumLength in Hl; lia|].
  split; [by eapply received_pooled_eq|]. split; [apply received_idem|].
  intros rest' s1 old s2 Hlk' Hold. by apply recv_of_frame with (old := old).
Qed.

(** A clunk whose frame has two bytes too many, which nobody reads. *)
Definition example_long_clunk : list byte :=
  frame_header 13 msgTclunk 5 ++ [x01; x00; x00; x00; x07; x07].

Lemma clunk_lookup_pooled tag t old s' :
  clunk_lookup tag t tt = (inl old, s') -> pooled t old.
Proof.
  unfold clunk_lookup. destruct (Z.eqb_spec t msgTclunk) as [->|]; [|done].
  by intros [= <- _].
Qed.

Lemma received_resendable_witness :
  recv clunk_lookup example_long_clunk 4096 tt = ((5, inl (Mtclunk (mk_tclunk 1))), [], tt) /\
  recv clunk_lookup (frame 5 (Mtclunk (mk_tclunk 1)) ++ [x09]) 4096 tt
    = ((5, inl (Mtclunk (mk_tclunk 1))), [x09], tt).
Proof.
  assert (Hr : recv clunk_lookup example_long_clunk 4096 tt
    = ((5, inl (Mtclunk (mk_tclunk 1))), [], tt)) by (vm_compute; reflexivity).
  split; [exact Hr|].
  destruct (received_resendable clunk_lookup clunk_lookup example_long_clunk 4096 tt 5
    (Mtclunk (mk_tclunk 1)) [] tt clunk_lookup_pooled Hr) as (_ & _ & _ & H).
  apply (H [x09] tt (Mtclunk tclunk_zero) tt); [reflexivity|split; [reflexivity|exact I]].
Defined.

(** ** What fuzzing finds *)

Lemma registry_lookup_pooled reg tag t old reg' :
  registry_ok reg -> registry_lookup tag t reg = (inl old, reg') -> pooled t old.
Proof.
  unfold registry_lookup. intros Hok. destruct (registry_get reg t) as [[m r]|] eqn:E; [|done].
  intros [= <- _]. by apply (registry_ok_get _ _ _ _ Hok E).
Qed.

(** [Fuzz] finds nothing: it drops the input, or leaves a whole frame in its buffer. *)
Theorem Fuzz_sound reg bytes :
  registry_ok reg ->
  let '(n, buf) := Fuzz reg bytes in
  n = 0 \/
  n = 1 /\ exists tag m rest reg',
    recv registry_lookup bytes DefaultMessageSize reg = ((tag, inl m), rest, reg') /\
    buf = frame tag m /\ sendable (tag, m).
Proof.
  intros Hok. unfold Fuzz.
  destruct (recv registry_lookup bytes DefaultMessageSize reg) as [[[tag [m|err]] rest] reg'] eqn:E;
    [|by left].
  destruct (send_vecs tag m) as [vecs m'] eqn:Ev. right. split; [done|].
  exists tag, m, rest, reg'. split; [done|]. split; [unfold frame; by rewrite Ev|].
  destruct (recv_fits _ _ _ _ _ _ _ _
    (fun tg t old r H => registry_lookup_pooled reg tg t old r Hok H) E) as (Htag & t & Hw & _ & Hl).
  split; [done|]. split; [done|]. cbn [snd]. unfold maximumLength in Hl. lia.
Qed.
