(* ===== verification/Calls.v ===== *)
(** * A call of the client

    What [recv] hands to a client, and that a call always returns, whatever bytes the
    peer sends: with a response of the receiver's dynamic type or with an error. *)
From S2P Require Import Prelude Errno Buffer Types Messages Message Transport Version Pool Client.

(** ** Dynamic types *)

(** The same dynamic type: [typ] tells the types of messages apart, but for the
    server's read response. *)
Definition server_read (m : message) : bool :=
  match m with MrreadServerPayloader _ => true | _ => false end.
Definition same_type (m m' : message) : Prop :=
  message_typ m = message_typ m' /\ server_read m = server_read m'.

Lemma same_type_refl m : same_type m m.
Proof. done. Qed.
Lemma same_type_trans m1 m2 m3 : same_type m1 m2 -> same_type m2 m3 -> same_type m1 m3.
Proof. intros [H1 H2] [H3 H4]. split; congruence. Qed.

Lemma decode_same_type m b : same_type (message_decode m b).1 m.
Proof. destruct m; cbn; unfold fmap, BufM_fmap; by case_match. Qed.

Lemma SetPayload_same_type m p : same_type (message_SetPayload m p) m.
Proof. by destruct m. Qed.

(** A response that [recv] accepts for a receiver. *)
Lemma recv_body_inl tag old remaining r t m rest :
  recv_body tag old remaining r = ((t, inl m), rest) ->
  t = tag /\ same_type m old /\ (length rest <= length r)%nat.
Proof.
  assert (Hd : forall tag m bs t m', recv_decode tag m bs = (t, inl m') ->
    t = tag /\ same_type m' m).
  { intros tag' m' bs t' m''. unfold recv_decode. pose proof (decode_same_type m' (Buffer bs false)) as Hs.
    destruct (message_decode m' _) as [m3 b]. destruct (isOverrun b); [discriminate|].
    by intros [= <- <-]. }
  unfold recv_body, ReadFrom. intros H.
  destruct (message_FixedSize old) as [n|].
  - destruct (remaining <? n); [discriminate|]. destruct (_ <=? _)%nat; [|discriminate].
    injection H as Hr <-. apply Hd in Hr as [-> Hs]. split; [done|].
    split; [eapply same_type_trans; [exact Hs|apply SetPayload_same_type]|].
    rewrite length_drop. lia.
  - destruct (_ <=? _)%nat; [|discriminate]. injection H as Hr <-. apply Hd in Hr as [-> Hs].
    split; [done|]. split; [done|]. rewrite length_drop. lia.
Qed.

Lemma recv_inl {S} (lookup : Z -> Z -> S -> (message + error) * S) r msize s t m rest s' :
  recv lookup r msize s = ((t, inl m), rest, s') ->
  exists mt old, lookup t mt s = (inl old, s') /\ same_type m old /\
    (length rest + 7 <= length r)%nat.
Proof.
  unfold recv. change (Z.to_nat headerLength) with 7%nat.
  destruct (Nat.ltb_spec (length r) 7) as [|Hl]; [discriminate|].
  destruct ((size ← Read32; _) _) as [[[size mt] tag] b].
  destruct (size <? headerLength); [discriminate|].
  destruct (_ || _); [discriminate|]. destruct (lookup tag mt s) as [[old|e] s1] eqn:El; [|discriminate].
  destruct (recv_body tag old _ _) as [res rest'] eqn:Eb. intros [= -> -> ->].
  apply recv_body_inl in Eb as (-> & Hs & Hlen). rewrite length_drop in Hlen.
  exists mt, old. split; [done|]. split; [done|]. lia.
Qed.

(** What [handleOne] does with the response: an error message, or the receiver. *)
Lemma client_lookup_inl c t mt old :
  client_lookup c t mt tt = (inl old, tt) ->
  exists i resp, pending c !! t = Some i /\ responses c !! i = Some resp /\
    (old = Mrlerror rlerror_zero \/ old = resp_r resp).
Proof.
  unfold client_lookup. destruct (pending c !! t) as [i|]; [|discriminate]. cbn.
  destruct (responses c !! i) as [resp|] eqn:Er; [|discriminate]. intros H.
  exists i, resp. split; [done|]. split; [done|].
  destruct (mt =? msgRlerror); [by left; injection H|].
  destruct (negb _); [discriminate|]. right. by injection H.
Qed.

(** ** The invariant of the pending calls *)

(** Every pending call has a response of its own whose channel is empty. *)
Record pending_ok (c : Client) : Prop := {
  po_empty : forall t i, pending c !! t = Some i ->
    exists rm, responses c !! i = Some (mk_response rm None);
  po_inj : forall t t' i, pending c !! t = Some i -> pending c !! t' = Some i -> t = t';
}.

(** What a call finds in its response: its receiver as it was filled, or an error
    message; or the error that ended the connection. *)
Definition answered (rm : message) (resp : response) : Prop :=
  match resp_done resp with
  | Some (Some _) => resp_r resp = rm
  | Some None => same_type (resp_r resp) rm \/ exists e, resp_r resp = Mrlerror e
  | None => False
  end.

(** Waking every call of a list. *)
Lemma notify_all ids err rs :
  NoDup ids -> (forall i, i ∈ ids -> exists rm, rs !! i = Some (mk_response rm None)) ->
  exists rs', notify ids err rs = Done rs' /\
    (forall i, i ∉ ids -> rs' !! i = rs !! i) /\
    (forall i rm, i ∈ ids -> rs !! i = Some (mk_response rm None) ->
       rs' !! i = Some (mk_response rm (Some err))).
Proof.
  intros Hnd. revert rs. induction Hnd as [|i ids Hi Hnd IH]; intros rs Hall; cbn [notify].
  - exists rs. split; [done|]. split; [done|]. intros i rm H. by apply elem_of_nil in H.
  - destruct (Hall i) as [rm Hrm]; [by left|]. rewrite Hrm. cbn [resp_done].
    destruct (IH (<[i := mk_response rm (Some err)]> rs)) as (rs' & Hn & Hout & Hin).
    { intros j Hj. rewrite lookup_insert_ne by (intros ->; done). apply Hall. by right. }
    exists rs'. split; [exact Hn|]. split.
    + intros j Hj. apply not_elem_of_cons in Hj as [Hji Hj].
      by rewrite Hout, lookup_insert_ne by done.
    + intros j rm' Hj Hrm'. apply elem_of_cons in Hj as [->|Hj].
      * rewrite Hout, lookup_insert_eq by done. congruence.
      * apply Hin; [done|]. rewrite lookup_insert_ne; [done|]. intros ->. done.
Qed.

Lemma pending_ids c i : i ∈ snd <$> map_to_list (pending c) <-> exists t, pending c !! t = Some i.
Proof.
  rewrite list_elem_of_fmap. split.
  - intros ([t j] & -> & H). exists t. by apply elem_of_map_to_list.
  - intros [t H]. exists (t, i). split; [done|]. by apply elem_of_map_to_list.
Qed.

Lemma pending_ids_NoDup c : pending_ok c -> NoDup (snd <$> map_to_list (pending c)).
Proof.
  intros Hok. apply NoDup_fmap_2_strong; [|apply NoDup_map_to_list].
  intros [t i] [t' i'] H1 H2 Hii. cbn in Hii. subst i'. apply elem_of_map_to_list in H1, H2.
  f_equal. by eapply po_inj.
Qed.

(** One message: a call gets its response, or all are woken; it never blocks. *)
Lemma handleOne_ok c input :
  pending_ok c ->
  exists c' rest, handleOne c input = Done (c', rest) /\
  pending_ok c' /\ pending c' ⊆ pending c /\
  (forall t i rm, pending c !! t = Some i -> responses c !! i = Some (mk_response rm None) ->
     pending c' !! t = Some i /\ responses c' !! i = Some (mk_response rm None) \/
     exists resp, responses c' !! i = Some resp /\ answered rm resp) /\
  (forall i, (forall t, pending c !! t <> Some i) -> responses c' !! i = responses c !! i) /\
  (pending c' <> ∅ -> (length rest + 7 <= length input)%nat) /\
  c' = set_pending (pending c') (set_responses (responses c') c).
Proof.
  intros Hok. unfold handleOne.
  destruct (recv _ _ _ _) as [[[t [r|err]] rest] []] eqn:Er.
  - destruct (recv_inl _ _ _ _ _ _ _ _ Er) as (mt & old & Hlk & Hst & Hlen).
    destruct (client_lookup_inl _ _ _ _ Hlk) as (i & resp & Hi & Hresp & Hold).
    rewrite Hi. cbn [set_pending responses]. rewrite Hresp.
    destruct (po_empty _ Hok _ _ Hi) as [rm Hrm]. assert (resp = mk_response rm None) as -> by congruence.
    cbn [resp_done resp_r] in *. eexists _, rest. split; [done|]. cbn. split_and!.
    + split; cbn.
      * intros t' j Hj. apply lookup_delete_Some in Hj as [Hne Hj].
        rewrite lookup_insert_ne; [by eapply po_empty|]. intros <-. apply Hne. by eapply po_inj.
      * intros t1 t2 j H1 H2. apply lookup_delete_Some in H1 as [_ H1], H2 as [_ H2].
        by eapply po_inj.
    + apply delete_subseteq.
    + intros t' j rm' Hj Hrm'. destruct (decide (t = t')) as [<-|Hne].
      * right. assert (j = i) as -> by congruence. assert (rm' = rm) as -> by congruence.
        eexists. split; [apply lookup_insert_eq|]. unfold answered. cbn.
        destruct Hold as [->| ->]; [right|by left]. destruct r; try (by destruct Hst). eauto.
      * left. rewrite lookup_delete_ne by done. split; [done|].
        rewrite lookup_insert_ne; [done|]. intros <-. apply Hne. by eapply po_inj.
    + intros j Hj. rewrite lookup_insert_ne; [done|]. intros <-. by eapply Hj.
    + intros _. exact Hlen.
    + done.
  - destruct (notify_all (snd <$> map_to_list (pending c)) (Some err) (responses c))
      as (rs & Hn & Hout & Hin).
    { by apply pending_ids_NoDup. }
    { intros i Hi. apply pending_ids in Hi as [t' Hi]. by eapply po_empty. }
    rewrite Hn. eexists _, rest. split; [done|]. cbn. split_and!.
    + split; cbn; intros ? ?; by rewrite lookup_empty.
    + apply map_empty_subseteq.
    + intros t' i rm Hi Hrm. right. eexists. split; [eapply Hin; [|exact Hrm]|done].
      apply pending_ids. eauto.
    + intros i Hi. apply Hout. rewrite pending_ids. intros [t' Ht']. by eapply Hi.
    + done.
    + done.
Qed.

(** ** A call returns *)

Record client_ok (c : Client) : Prop := {
  co_pending : pending_ok c;
  co_next : forall i, is_Some (responses c !! i) -> (i < next_response c)%nat;
}.

(** What calls leave alone. *)
Definition same_session (c c' : Client) : Prop :=
  fidPool c' = fidPool c /\ cl_messageSize c' = cl_messageSize c /\
  payloadSize c' = payloadSize c /\ cl_version c' = cl_version c.

Lemma handleOne_client_ok c input c' rest :
  client_ok c -> handleOne c input = Done (c', rest) -> client_ok c' /\ same_session c c' /\
  tagPool c' = tagPool c.
Proof.
  intros [Hok Hnext] H. destruct (handleOne_ok c input Hok)
    as (c2 & rest2 & H2 & Hok2 & _ & _ & Hout & _ & Hc2).
  assert (c2 = c' /\ rest2 = rest) as [-> ->] by (split; congruence).
  split; [split; [done|]|split; [rewrite Hc2; done|by rewrite Hc2]].
  intros i Hi. assert (next_response c' = next_response c) as -> by by rewrite Hc2.
  destruct (decide (i ∈ snd <$> map_to_list (pending c))) as [Hin|Hn];
    rewrite pending_ids in *.
  - destruct Hin as [t Ht]. destruct (po_empty _ Hok _ _ Ht) as [rm Hrm]. apply Hnext. by eexists.
  - rewrite Hout in Hi; [by apply Hnext|]. intros t Ht. apply Hn. by exists t.
Qed.

Section call.
Context {Peer : Type} (conn_write : list byte -> Peer -> (option error * list byte) * Peer).
Local Notation CSt := (CSt (Peer := Peer)).
Implicit Types s : CSt.

(** The response of a call that waits, or that was woken. *)
Definition waiting (t : Z) (i : nat) (rm : message) (c : Client) : Prop :=
  (pending c !! t = Some i /\ responses c !! i = Some (mk_response rm None)) \/
  (exists resp, responses c !! i = Some resp /\ answered rm resp).

(** What a call gets. *)
Definition call_result (i : nat) (rm : message) s (o : coutcome (option error)) : Prop :=
  exists err s' resp, o = CRet err s' /\ client_ok (client s') /\
    same_session (client s) (client s') /\ tagPool (client s') = tagPool (client s) /\
    cfiles s' = cfiles s /\ responses (client s') !! i = Some resp /\
    (err = None -> same_type (resp_r resp) rm \/ exists e, resp_r resp = Mrlerror e).

Lemma answered_returns fuel i rm s resp :
  client_ok (client s) -> responses (client s) !! i = Some resp -> answered rm resp ->
  call_result i rm s (waitAndRecv fuel i s).
Proof.
  intros [Hp Hn] Hr Ha. destruct resp as [r [err|]]; [|done].
  destruct fuel as [|fuel]; cbn [waitAndRecv]; rewrite Hr; cbn [resp_done].
  all: eexists _, _, _; split; [done|]; cbn; split_and!;
    [|done..|apply lookup_insert_eq|intros ->; exact Ha].
  all: split; [split; [|apply Hp]|].
  all: cbn; try (intros t' j Hj; rewrite lookup_insert_ne; [by eapply po_empty|];
      intros <-; destruct (po_empty _ Hp _ _ Hj) as [rm' Hrm']; congruence).
  all: intros j [r' Hr']; apply lookup_insert_Some in Hr' as [[<- _]|[_ Hr']]; apply Hn;
    by eexists.
Qed.

Lemma waitAndRecv_ok fuel t i rm s :
  client_ok (client s) -> waiting t i rm (client s) -> (length (input s) < fuel)%nat ->
  call_result i rm s (waitAndRecv fuel i s).
Proof.
  revert s. induction fuel as [|fuel IH]; intros s Hok Hw Hf; [lia|].
  destruct Hw as [[Hp Hr]|(resp & Hr & Ha)]; [|by eapply answered_returns].
  cbn [waitAndRecv]. rewrite Hr. cbn [resp_done].
  destruct (handleOne_ok (client s) (input s) (co_pending _ Hok))
    as (c' & rest & Hone & Hok' & _ & Hkeep & _ & Hlen & _).
  destruct (handleOne_client_ok _ _ _ _ Hok Hone) as (Hok2 & Hsame & Htag). rewrite Hone.
  set (s1 := mk_CSt c' rest (peer s) (cfiles s)).
  assert (Hres : call_result i rm s1 (waitAndRecv fuel i s1)).
  { destruct (Hkeep _ _ _ Hp Hr) as [[Hp' Hr']|(resp & Hr' & Ha)]; [|by eapply answered_returns].
    apply IH; [done|by left|]. cbn. assert (pending c' <> ∅) as Hne
      by (intros E; by rewrite E, lookup_empty in Hp'). specialize (Hlen Hne). lia. }
  destruct Hres as (err & s' & resp & -> & Hok3 & Hs3 & Ht3 & Hf3 & Hr3 & He).
  exists err, s', resp. split_and!; try done; unfold same_session in *; cbn in *;
    destruct_and?; split_and?; congruence.
Qed.

(** The outcome of a call: what it returns has the type of its receiver, and the client
    is fit for the next call. *)
Definition returns (rm : message) (tags : pool) s (o : coutcome (message + error)) : Prop :=
  exists res s', o = CRet res s' /\ client_ok (client s') /\
    same_session (client s) (client s') /\ tagPool (client s') = tags /\ cfiles s' = cfiles s /\
    forall m, res = inl m -> same_type m rm.

Lemma expect_ok t rm s :
  client_ok (client s) ->
  exists s', expect t rm s = CRet (next_response (client s)) s' /\ client_ok (client s') /\
    same_session (client s) (client s') /\ tagPool (client s') = tagPool (client s) /\
    input s' = input s /\ peer s' = peer s /\ cfiles s' = cfiles s /\
    waiting t (next_response (client s)) rm (client s').
Proof.
  intros [[Hp Hi] Hn]. set (i := next_response (client s)). eexists. split; [done|].
  assert (Hnew : forall t', pending (client s) !! t' <> Some i).
  { intros t' H. destruct (Hp _ _ H) as [rm' Hrm']. assert (i < i)%nat; [|lia].
    apply Hn. by eexists. }
  split; [|split; [done|split; [done|split; [done|split; [done|split; [done|]]]]]].
  - split; [split|]; cbn.
    + intros t' j Hj. apply lookup_insert_Some in Hj as [[<- <-]|[Hne Hj]].
      * fold i. rewrite lookup_insert_eq. by eexists.
      * fold i. rewrite lookup_insert_ne; [by eapply Hp|]. intros <-. by eapply Hnew.
    + intros t1 t2 j H1 H2. apply lookup_insert_Some in H1 as [[<- <-]|[Hne1 H1]],
        H2 as [[<- E]|[Hne2 H2]]; [done|by apply Hnew in H2| |by eapply Hi].
      subst j. by apply Hnew in H1.
    + intros j [r Hr]. apply lookup_insert_Some in Hr as [[<- _]|[_ Hr]]; [lia|].
      assert (j < i)%nat; [apply Hn; by eexists|]. unfold i in *. lia.
  - left. cbn. fold i. by rewrite !lookup_insert_eq.
Qed.

Lemma sendRecv_tagged_returns t tm rm s :
  client_ok (client s) ->
  returns rm (tagPool (client s)) s (sendRecv_tagged conn_write t tm rm s).
Proof.
  intros Hok. destruct (expect_ok t rm s Hok) as (s1 & Hs1 & Hok1 & Hsame1 & Ht1 & _ & _ & Hcf1 & Hw).
  unfold sendRecv_tagged, mbind, CM_bind. rewrite Hs1. unfold client_send.
  destruct (conn_write (frame t tm) (peer s1)) as [[[werr|] bytes] p'].
  { by eexists _, _. }
  set (s2 := mk_CSt _ _ _ _).
  destruct (waitAndRecv_ok (S (length (input s2))) t (next_response (client s)) rm s2)
    as (err & s3 & resp & -> & Hok3 & Hsame3 & Ht3 & Hcf3 & Hr3 & He); [done|done|lia|].
  assert (Hsame : same_session (client s) (client s3)).
  { unfold same_session in *. cbn in *. destruct_and?. split_and?; congruence. }
  assert (Ht : tagPool (client s3) = tagPool (client s)) by (cbn in Ht3; congruence).
  assert (Hcf : cfiles s3 = cfiles s) by (cbn in Hcf3; congruence).
  destruct err as [err|]; [by eexists _, _|]. unfold get_client. rewrite Hr3.
  destruct resp as [r d]. destruct (He eq_refl) as [Hst|[e Hre]]; cbn [resp_r] in *.
  - exists (match r with Mrlerror e => inr (Errno (rlerror_Error e)) | r => inl r end), s3.
    split; [by destruct r|]. split_and!; try done. intros m Hm.
    assert (m = r) as ->; [|done]. destruct r; congruence.
  - subst r. by eexists _, _.
Qed.

Lemma sendRecv_returns tm rm s :
  client_ok (client s) ->
  match Get (tagPool (client s)) with
  | (Some t, tags) => returns rm (Put t tags) s (sendRecv conn_write tm rm s)
  | (None, _) => sendRecv conn_write tm rm s = CRet (inr ErrOutOfTags) s
  end.
Proof.
  intros Hok. unfold sendRecv, mbind, CM_bind, GetTag.
  destruct (Get (tagPool (client s))) as [[t|] p] eqn:Hg.
  - set (s1 := mk_CSt (set_tagPool p (client s)) (input s) (peer s) (cfiles s)).
    destruct (sendRecv_tagged_returns t tm rm s1) as (res & s' & Hr & Hok' & Hsame & Ht & Hcf & Htyp).
    { destruct Hok as [[] ?]. by repeat split. }
    unfold cdefer. rewrite Hr. eexists _, _. split; [done|]. cbn.
    split; [destruct Hok' as [[] ?]; by repeat split|]. split; [done|]. split; [by rewrite Ht|done].
  - assert (p = tagPool (client s)) as ->.
    { unfold Get in Hg. destruct (Pool.cache _); [|discriminate].
      destruct (_ =? _); [|discriminate]. congruence. }
    by destruct s as [[] ? ? ?].
Qed.

(** C13: a call always returns: whatever the peer does, refusing the write, answering
  with any bytes, closing, [sendRecv] neither panics nor blocks, each round of
  [waitAndRecv] taking a frame off the input or failing; what it returns is an error
  or a message of its receiver's dynamic type; the client is fit for the next call
  and the tag is back in its pool. *)
Theorem sendRecv_total tm rm s :
client_ok (client s) ->
match Get (tagPool (client s)) with
| (Some t, tags) => returns rm (Put t tags) s (sendRecv conn_write tm rm s)
| (None, _) => sendRecv conn_write tm rm s = CRet (inr ErrOutOfTags) s
end.
Proof. apply sendRecv_returns. Qed.

(** ** An answered call *)

(** A response that fits the receiver: an error message, or one of its type. *)
Definition fits_receiver (rm r : message) : Prop :=
  (exists e, r = Mrlerror e) \/ (message_typ r <> msgRlerror /\ receiver_of rm r).

Lemma handleOne_frame c t i rm r rest :
  pending c !! t = Some i -> responses c !! i = Some (mk_response rm None) ->
  sendable (t, r) -> frame_length r <= Z.min maximumLength (cl_messageSize c) ->
  fits_receiver rm r ->
  handleOne c (frame t r ++ rest) =
    Done (set_responses (<[i := mk_response (received r) (Some None)]> (responses c))
            (set_pending (delete t (pending c)) c), rest).
Proof.
  intros Hp Hr (Hw & Ht & _) Hlen Hfit. cbn [fst snd] in *.
  assert (Hlk : exists old, client_lookup c t (message_typ r) tt = (inl old, tt) /\ receiver_of old r).
  { unfold client_lookup. rewrite Hp. cbn. rewrite Hr. cbn [resp_r].
    destruct Hfit as [[e ->]|[Hne Hof]]; [by eexists|].
    rewrite (proj2 (Z.eqb_neq _ _) Hne). destruct Hof as [Hof Hsp]. rewrite <- Hof, Z.eqb_refl.
    by exists rm. }
  destruct Hlk as (old & Hlk & Hold). unfold handleOne.
  rewrite (recv_of_frame _ _ _ old rest _ tt tt) by done. rewrite Hp. cbn [responses set_pending].
  by rewrite Hr.
Qed.

(** What the caller makes of the response. *)
Definition call_value (r : message) : message + error :=
  match r with Mrlerror e => inr (Errno (rlerror_Error e)) | r => inl r end.

Lemma caller_takes r s :
  (match r with
   | Mrlerror e => mret (inr (Errno (rlerror_Error e)))
   | _ => mret (inl (resp_r (mk_response r None)))
   end : CM _) s = CRet (call_value r) s.
Proof. by destruct r. Qed.

Lemma sendRecv_answer tm rm r t tags more p s :
  pending (client s) = ∅ -> input s = [] ->
  Get (tagPool (client s)) = (Some t, tags) ->
  conn_write (frame t tm) (peer s) = ((None, frame t r ++ more), p) ->
  sendable (t, r) -> frame_length r <= Z.min maximumLength (cl_messageSize (client s)) ->
  fits_receiver rm r ->
  exists s', sendRecv conn_write tm rm s = CRet (call_value (received r)) s' /\
    tagPool (client s') = Put t tags /\ pending (client s') = ∅ /\
    same_session (client s) (client s') /\ input s' = more /\ peer s' = p /\
    cfiles s' = cfiles s.
Proof.
  intros Hpend Hin Hg Hconn Hsend Hlen Hfit.
  unfold sendRecv, mbind, CM_bind, GetTag. rewrite Hg. unfold cdefer, sendRecv_tagged.
  unfold mbind, CM_bind, expect, client_send. cbn [client new_response peer input].
  rewrite Hconn, Hin. cbn [app waitAndRecv client responses set_pending].
  rewrite lookup_insert_eq. cbn [resp_done input].
  rewrite (handleOne_frame _ t (next_response (client s)) rm r more); [|cbn; apply lookup_insert_eq..
    |done|done|done].
  assert (Hw : forall fuel i c, responses c !! i = Some (mk_response (received r) (Some None)) ->
    waitAndRecv fuel i (mk_CSt c more p (cfiles s)) = CRet None (mk_CSt (set_responses
      (<[i := mk_response (received r) None]> (responses c)) c) more p (cfiles s))).
  { intros fuel i c Hc. destruct fuel; cbn; by rewrite Hc. }
  rewrite Hw by apply lookup_insert_eq. cbn. rewrite lookup_insert_eq.
  rewrite caller_takes. eexists. split; [done|]. split; [done|]. split; [|done].
  cbn. rewrite Hpend. apply delete_insert_id, lookup_empty.
Qed.

(** A call whose request is answered gets the answer: if the peer takes the frame of
  the request and the next bytes from it are the frame of a response, with the tag of
  the request and of the receiver's type or an error message, then [sendRecv] returns
  the response's fields, or its errno, leaves the bytes after the frame and has no
  call pending. *)
Theorem sendRecv_answered tm rm r t tags more p s :
pending (client s) = ∅ -> input s = [] ->
Get (tagPool (client s)) = (Some t, tags) ->
conn_write (frame t tm) (peer s) = ((None, frame t r ++ more), p) ->
sendable (t, r) -> frame_length r <= Z.min maximumLength (cl_messageSize (client s)) ->
fits_receiver rm r ->
exists s', sendRecv conn_write tm rm s = CRet (call_value (received r)) s' /\
  tagPool (client s') = Put t tags /\ pending (client s') = ∅ /\
  same_session (client s) (client s') /\ input s' = more /\ peer s' = p /\
  cfiles s' = cfiles s.
Proof. apply sendRecv_answer. Qed.
End call.

(** ** Concrete calls *)

(** A client of 64 KiB messages. *)
Definition example_Client : Client :=
  mk_Client (mk_pool [] 1 noTag) (mk_pool [] 1 noFID) ∅ ∅ 0%nat 65536 65024 7.

(** A peer that answers any write with the same bytes. *)
Definition parrot (bs : list byte) (_ : list byte) (p : unit) : (option error * list byte) * unit :=
  ((None, bs), p).

Lemma example_Client_ok : client_ok example_Client.
Proof. split; [split|]; cbn; [done..|]. by intros ? [? ?]. Qed.

(** Four bytes are no frame: the call returns an error. *)
Lemma sendRecv_total_witness :
  client_ok example_Client /\
  returns (Mrclunk mk_rclunk) (mk_pool [1] 2 noTag) (mk_CSt example_Client [] tt [])
    (sendRecv (parrot [x00; x00; x00; x00]) (Mtclunk (mk_tclunk 5)) (Mrclunk mk_rclunk)
      (mk_CSt example_Client [] tt [])).
Proof.
  split; [exact example_Client_ok|].
  exact (sendRecv_total (parrot [x00; x00; x00; x00]) (Mtclunk (mk_tclunk 5)) (Mrclunk mk_rclunk)
    (mk_CSt example_Client [] tt []) example_Client_ok).
Defined.

Lemma sendRecv_answered_witness :
  exists s', sendRecv (parrot (frame 1 (Mrclunk mk_rclunk) ++ [x2a])) (Mtclunk (mk_tclunk 5))
      (Mrclunk mk_rclunk) (mk_CSt example_Client [] tt []) = CRet (inl (Mrclunk mk_rclunk)) s' /\
  tagPool (client s') = mk_pool [1] 2 noTag /\ pending (client s') = ∅ /\
  same_session example_Client (client s') /\ input s' = [x2a] /\ peer s' = tt /\
  cfiles s' = [].
Proof.
  refine (sendRecv_answered (parrot (frame 1 (Mrclunk mk_rclunk) ++ [x2a])) (Mtclunk (mk_tclunk 5))
    (Mrclunk mk_rclunk) (Mrclunk mk_rclunk) 1 (mk_pool [] 2 noTag) [x2a] tt
    (mk_CSt example_Client [] tt []) _ _ _ _ _ _ _); try reflexivity.
  - split; [split; done|]. split; [unfold u16; cbn; lia|]. vm_compute. reflexivity.
  - vm_compute. discriminate.
  - right. split; [discriminate|]. split; [reflexivity|exact Logic.I].
Defined.
