(* ===== verification/Chunk.v ===== *)
(** * Reads and writes in chunks ([chunk] of [p9/client_file.go])

    [ReadAt] and [WriteAt] of a client split a buffer into requests of at most the
    client's payload size.  A byte slice is its content: a function that is given one
    returns its content afterwards. *)
From S2P Require Import Prelude Errno Buffer Types Messages Message Transport Version Pool Client.

Section chunk.
Context {Peer : Type}.
Local Notation CSt := (CSt (Peer := Peer)).
Local Notation CM := (CM (Peer := Peer)).
Implicit Types (s : CSt) (p q : list byte).

(** What [chunk] applies: the slice and the offset to the number of bytes, the error
    and the slice's content. *)
Definition chunk_fn : Type := list byte -> Z -> CM (Z * option error * list byte).

Local Notation len p := (Z.of_nat (length p)).

(** The part of [p] from [total] on, and its first [chunkSize] bytes if there are more. *)
Definition next_chunk (chunkSize total : Z) p : list byte :=
  if len p <? total + chunkSize then drop (Z.to_nat total) p
  else take (Z.to_nat chunkSize) (drop (Z.to_nat total) p).

(** [p] after the part [q] of it, from [total] on, was assigned to. *)
Definition overwrite (total : Z) q p : list byte :=
  take (Z.to_nat total) p ++ q ++ drop (Z.to_nat total + length q) p.

Fixpoint chunk_loop (fuel : nat) (chunkSize : Z) (fn : chunk_fn) p (total offset : Z)
    : CM (Z * option error * list byte) :=
  (* We're done, don't bother trying to do anything more. *)
  if total =? len p then mret (total, None, p)
  else
    match fuel with
    | O => fun _ => CBlock
    | S fuel =>
        (* Apply fn to a chunkSize-sized (or less) chunk of p. *)
        '(n, err, q) ← fn (next_chunk chunkSize total p) offset;
        let p := overwrite total q p in
        let total := total + n in
        let offset := sint64 (offset + n) in
        match err with
        (* Return whatever we have processed if we encounter an error. *)
        | Some err => mret (total, Some err, p)
        | None =>
            (* Did we get a partial result? If so, return it immediately. *)
            if n <? chunkSize then mret (total, None, p)
            (* If we received more bytes than we ever requested, this is a problem. *)
            else if len p <? total then cpanic
            else chunk_loop fuel chunkSize fn p total offset
        end
    end.

(** [chunk(chunkSize, fn, p, offset)]: a round that is not the last takes at least one
    byte, so there are at most as many rounds as bytes. *)
Definition chunk (chunkSize : Z) (fn : chunk_fn) p (offset : Z)
    : CM (Z * option error * list byte) :=
  match p with
  | [] => fn p offset
  | _ => chunk_loop (length p) chunkSize fn p 0 offset
  end.

(** ** Parts of a buffer *)

Lemma length_next_chunk chunkSize total p :
  0 <= total <= len p -> 0 <= chunkSize ->
  len (next_chunk chunkSize total p) = Z.min chunkSize (len p - total).
Proof.
  intros Ht Hc. unfold next_chunk. destruct (Z.ltb_spec (len p) (total + chunkSize)).
  - rewrite length_drop. lia.
  - rewrite length_take, length_drop. lia.
Qed.

Lemma length_overwrite total q p :
  0 <= total -> total + len q <= len p -> length (overwrite total q p) = length p.
Proof.
  intros Ht Hq. unfold overwrite. rewrite !length_app, length_take, length_drop. lia.
Qed.

(** ** The rule of the loop *)

(** [Inv total p s] holds before every round, [End total err p s] after the last one,
    which had an error or a partial result; a round is given a part that is not empty
    and reports no more than its size. *)
Definition round (chunkSize off0 : Z) (Inv : Z -> list byte -> CSt -> Prop)
    (End : Z -> option error -> list byte -> CSt -> Prop) (fn : chunk_fn) : Prop :=
  forall total p s, Inv total p s -> 0 <= total < len p ->
    let q := next_chunk chunkSize total p in
    exists n err q' s', fn q (sint64 (off0 + total)) s = CRet (n, err, q') s' /\
      0 <= n <= len q /\ length q' = length q /\
      if decide (err = None /\ chunkSize <= n)
      then Inv (total + n) (overwrite total q' p) s'
      else End (total + n) err (overwrite total q' p) s'.

Lemma sint64_add a b : sint64 (sint64 a + b) = sint64 (a + b).
Proof.
  unfold sint64. f_equal. replace ((a + 2 ^ 63) mod 2 ^ 64 - 2 ^ 63 + b + 2 ^ 63)
    with ((a + 2 ^ 63) mod 2 ^ 64 + b) by lia.
  rewrite Zplus_mod_idemp_l. f_equal. lia.
Qed.

Lemma chunk_loop_rule chunkSize off0 Inv End fn fuel p total s :
  1 <= chunkSize -> round chunkSize off0 Inv End fn ->
  Inv total p s -> 0 <= total <= len p -> len p - total <= Z.of_nat fuel ->
  exists total' err p' s',
    chunk_loop fuel chunkSize fn p total (sint64 (off0 + total)) s = CRet (total', err, p') s' /\
    total <= total' <= len p /\ length p' = length p /\
    (err = None /\ total' = len p /\ Inv total' p' s' \/ End total' err p' s').
Proof.
  intros Hc Hround. revert p total s.
  induction fuel as [|fuel IH]; intros p total s HI Ht Hf; cbn [chunk_loop];
    destruct (Z.eqb_spec total (len p)) as [->|Hne];
    [by eexists _, _, _, _; split_and!; [..|by left]|lia|
     by eexists _, _, _, _; split_and!; [..|by left]|].
  destruct (Hround total p s HI) as (n & err & q & s1 & Hfn & Hn & Hq & Hnext); [lia|].
  unfold mbind, CM_bind. rewrite Hfn.
  pose proof (length_next_chunk chunkSize total p ltac:(lia) ltac:(lia)) as Hl.
  assert (Hp : length (overwrite total q p) = length p) by (apply length_overwrite; lia).
  destruct err as [err|].
  { rewrite decide_False in Hnext by (by intros [? _]).
    eexists _, _, _, _. split_and!; [done|lia|lia|done|by right]. }
  destruct (Z.ltb_spec n chunkSize).
  { rewrite decide_False in Hnext by lia.
    eexists _, _, _, _. split_and!; [done|lia|lia|done|by right]. }
  rewrite decide_True in Hnext by done.
  rewrite Hp, (proj2 (Z.ltb_ge _ _)) by lia. rewrite sint64_add, <- Z.add_assoc.
  destruct (IH (overwrite total q p) (total + n) s1) as (t' & err & p' & s' & Hr & Ht2 & Hp2 & He);
    [done|lia|lia|]. rewrite Hp in *. rewrite Hr.
  eexists _, _, _, _. split_and!; [done|lia|lia|done|done].
Qed.

(** [chunk] of a buffer that is not empty. *)
Lemma chunk_rule chunkSize off0 Inv End fn p s :
  1 <= chunkSize -> sint64 off0 = off0 -> round chunkSize off0 Inv End fn -> p <> [] -> Inv 0 p s ->
  exists total err p' s', chunk chunkSize fn p off0 s = CRet (total, err, p') s' /\
    0 <= total <= len p /\ length p' = length p /\
    (err = None /\ total = len p /\ Inv total p' s' \/ End total err p' s').
Proof.
  intros Hc Ho Hround Hp HI. destruct p as [|b p]; [done|]. unfold chunk.
  rewrite <- Ho, <- (Z.add_0_r off0). apply (chunk_loop_rule chunkSize off0 Inv End); try done; lia.
Qed.

(** ** Reading a file of bytes *)

Lemma take_length_take {A} k (x : list A) : take (length (take k x)) x = take k x.
Proof.
  rewrite length_take. destruct (Nat.le_ge_cases k (length x)).
  - by rewrite Nat.min_l by done.
  - by rewrite Nat.min_r, firstn_all, take_ge by done.
Qed.

Lemma next_chunk_eq chunkSize total p :
  next_chunk chunkSize total p =
    take (length (next_chunk chunkSize total p)) (drop (Z.to_nat total) p).
Proof.
  unfold next_chunk. destruct (_ <? _); [by rewrite firstn_all|by rewrite take_length_take].
Qed.

Lemma drop_take_drop {A} m k (x : list A) : (m <= k)%nat -> drop m (take k x) ++ drop k x = drop m x.
Proof.
  intros H. replace k with (m + (k - m))%nat by lia.
  by rewrite <- take_drop_commute, <- drop_drop, take_drop.
Qed.

(** A round puts what it read, the bytes [dd] of [D], after those of the rounds before. *)
Lemma overwrite_read (D p : list byte) t k :
  (t <= length D)%nat -> (t + k <= length p)%nat ->
  let p' := take t D ++ drop t p in
  let dd := take k (drop t D) in
  overwrite (Z.of_nat t) (dd ++ drop (length dd) (take k (drop t p'))) p' =
    take (t + length dd) D ++ drop (t + length dd) p.
Proof.
  intros Ht Hk p' dd. unfold overwrite. rewrite Nat2Z.id.
  assert (Hl : length (take t D) = t) by (rewrite length_take; lia).
  assert (Hd : forall j, drop (t + j) p' = drop (t + j) p).
  { intros j. unfold p'. rewrite <- drop_drop, <- (drop_drop p). f_equal. by rewrite drop_app_length'. }
  assert (E : take t p' = take t D) by (unfold p'; by rewrite take_app_length'). rewrite E. clear E.
  pose proof (Hd 0%nat) as H0. rewrite Nat.add_0_r in H0. rewrite H0. clear H0.
  assert (Hdd : length dd = Nat.min k (length D - t)) by (unfold dd; rewrite length_take, length_drop; lia).
  rewrite length_app, length_drop, length_take, length_drop.
  replace (t + (length dd + (k `min` (length p - t) - length dd)))%nat with (t + k)%nat by lia.
  rewrite Hd, <- (drop_drop p k t), <- app_assoc, drop_take_drop, drop_drop by lia.
  rewrite app_assoc. f_equal. rewrite <- take_take_drop. f_equal. unfold dd. by rewrite take_length_take.
Qed.

(** A function that reads the bytes [data] in full, given at most [chunkSize] to read,
    and tells the end of them by [io.EOF]. *)
Definition reads (chunkSize : Z) (data : list byte) (P : CSt -> Prop) (fn : chunk_fn) : Prop :=
  forall q off s, P s -> q <> [] -> len q <= chunkSize -> 0 <= off < 2 ^ 63 ->
    let d := take (length q) (drop (Z.to_nat off) data) in
    exists s', fn q off s = CRet (len d, if decide (d = []) then Some io_EOF else None,
                                  d ++ drop (length d) q) s' /\ P s'.

(** In chunks as at once: the bytes there are, at most as many as asked for. The end of
    the file is reported when a chunk of its own was spent on finding it. *)
Lemma chunk_read chunkSize data P fn p off s :
  1 <= chunkSize -> 0 <= off -> off + len p < 2 ^ 63 -> p <> [] ->
  reads chunkSize data P fn -> P s ->
  let d := take (length p) (drop (Z.to_nat off) data) in
  exists s', chunk chunkSize fn p off s =
    CRet (len d, if (len d <? len p) && (len d mod chunkSize =? 0) then Some io_EOF else None,
          d ++ drop (length d) p) s' /\ P s'.
Proof.
  intros Hc Ho Hov Hp Hreads HP. set (D := drop (Z.to_nat off) data). intros d.
  assert (Hd : length d = Nat.min (length p) (length D)) by (unfold d; apply length_take).
  pose (I t (p' : list byte) (s : CSt) := P s /\ 0 <= t <= len D /\ t mod chunkSize = 0 /\
    p' = take (Z.to_nat t) D ++ drop (Z.to_nat t) p).
  pose (F t (err : option error) (p' : list byte) (s : CSt) := P s /\ t = len d /\
    p' = d ++ drop (length d) p /\
    err = if (len d <? len p) && (len d mod chunkSize =? 0) then Some io_EOF else None).
  destruct (chunk_rule chunkSize off I F fn p s) as (t & err & p' & s' & Hr & Ht & _ & He); try done.
  - unfold sint64. rewrite Z.mod_small; lia.
  - intros t p' s0 (HP0 & HtD & Hmod & Hp') Htp q.
    assert (Hlp : length p' = length p).
    { pose proof (f_equal length Hp') as E. rewrite length_app, length_take, length_drop in E. lia. }
    pose proof (length_next_chunk chunkSize t p' ltac:(lia) ltac:(lia)) as Hq. fold q in Hq.
    pose proof (next_chunk_eq chunkSize t p') as Hqe. fold q in Hqe.
    assert (Hoff : sint64 (off + t) = off + t) by (unfold sint64; rewrite Z.mod_small; lia).
    rewrite Hoff. destruct (Hreads q (off + t) s0 HP0) as (s1 & Hfn & HP1); [|lia..|].
    { intros E. rewrite E in Hq. cbn in Hq. lia. }
    rewrite Z2Nat.inj_add, <- drop_drop in Hfn by lia. fold D in Hfn.
    set (dd := take (length q) (drop (Z.to_nat t) D)) in *.
    assert (Hdd : len dd = Z.min (len q) (len D - t))
      by (unfold dd; rewrite length_take, length_drop; lia).
    pose proof (overwrite_read D p (Z.to_nat t) (length q) ltac:(lia) ltac:(lia)) as Hov'.
    cbn zeta in Hov'. rewrite <- Hp', <- Hqe in Hov'. fold dd in Hov'. rewrite Z2Nat.id in Hov' by lia.
    eexists _, _, _, _. split; [exact Hfn|]. split; [lia|].
    split; [rewrite length_app, length_drop; lia|]. rewrite Hov'.
    destruct (decide (dd = [])) as [E|E]; [rewrite decide_False by (by intros [? _])|].
    + rewrite E in *. cbn [length] in *. assert (Htd : t = len d) by lia.
      split; [done|]. split; [lia|]. rewrite Nat.add_0_r, Htd, Nat2Z.id. split.
      * f_equal. apply take_length_take.
      * rewrite <- Htd, Hmod, (proj2 (Z.ltb_lt t (len p))) by lia. done.
    + destruct (decide _) as [[_ Hge]|Hlt].
      * split; [done|]. split; [lia|]. split; [rewrite Z.add_mod, Hmod by lia|].
        { replace (len dd) with chunkSize by lia. by rewrite Z_mod_same_full. }
        rewrite Z2Nat.inj_add, Nat2Z.id by lia. done.
      * assert (len dd < chunkSize) by (destruct (Z.le_gt_cases chunkSize (len dd)); [by destruct Hlt|lia]).
        assert (0 < len dd) by (destruct dd; [done|cbn; lia]).
        split; [done|]. split; [lia|]. replace (Z.to_nat t + length dd)%nat with (length d) by lia.
        split; [f_equal; apply take_length_take|].
        replace (len d) with (len dd + t) by lia. apply Z.mod_divide in Hmod as [j ->]; [|lia].
        rewrite Z_mod_plus_full, Z.mod_small, (proj2 (Z.eqb_neq (len dd) 0)) by lia.
        by rewrite andb_false_r.
  - split; [done|]. split; [lia|]. split; [apply Zmod_0_l|done].
  - exists s'. destruct He as [(-> & -> & HPs & Htd & _ & ->)|(HPs & -> & -> & ->)].
    + split; [|done]. rewrite Hr. assert (Hdl : length d = length p) by lia.
      rewrite Hdl, Z.ltb_irrefl, Nat2Z.id. done.
    + done.
Qed.

(** ** Writing a file of bytes *)

(** The bytes [c] after [d] was written at [off]; a gap is filled with zeros. *)
Definition write_at (c : list byte) (off : Z) (d : list byte) : list byte :=
  match d with
  | [] => c
  | _ => take (Z.to_nat off) (c ++ replicate (Z.to_nat off - length c) x00) ++ d ++
         drop (Z.to_nat off + length d) c
  end.

Lemma write_at_ne c off d : d <> [] ->
  write_at c off d = take (Z.to_nat off) (c ++ replicate (Z.to_nat off - length c) x00) ++ d ++
    drop (Z.to_nat off + length d) c.
Proof. by destruct d. Qed.

Lemma write_at_app c off a b :
  0 <= off -> write_at (write_at c off a) (off + len a) b = write_at c off (a ++ b).
Proof.
  intros Ho. destruct (decide (b = [])) as [->|Hb]; [by rewrite app_nil_r|].
  destruct (decide (a = [])) as [->|Ha]; [cbn [length write_at app]; by rewrite Z.add_0_r|].
  assert (Hab : a ++ b <> []) by (destruct a; done).
  rewrite (write_at_ne _ _ b), (write_at_ne _ _ a), (write_at_ne _ _ (a ++ b)) by done.
  rewrite Z2Nat.inj_add, Nat2Z.id by lia. set (k := Z.to_nat off).
  set (X := take k (c ++ replicate (k - length c) x00)).
  assert (HX : length X = k)
    by (unfold X; rewrite length_take, length_app, length_replicate; lia).
  set (Y := drop (k + length a) c).
  assert (Hpad : (k + length a - length (X ++ a ++ Y) = 0)%nat) by (rewrite !length_app; lia).
  rewrite Hpad. cbn [replicate]. rewrite app_nil_r, (app_assoc X a Y), take_app_length'
    by (rewrite length_app; lia).
  rewrite <- (drop_drop ((X ++ a) ++ Y)), drop_app_length' by (rewrite length_app; lia).
  rewrite length_app, Nat.add_assoc, <- (drop_drop c). fold Y. by rewrite <- !app_assoc.
Qed.

(** A function that writes to the bytes [content], given at most [chunkSize]; without an
    error it writes all, and its errors satisfy [E]. *)
Definition writes (chunkSize : Z) (content : CSt -> list byte) (P : CSt -> Prop)
    (E : error -> Prop) (fn : chunk_fn) : Prop :=
  forall q off s, P s -> q <> [] -> len q <= chunkSize -> 0 <= off < 2 ^ 63 ->
    exists n err s', fn q off s = CRet (n, err, q) s' /\ P s' /\ 0 <= n <= len q /\
      content s' = write_at (content s) off (take (Z.to_nat n) q) /\
      match err with None => n = len q | Some err => E err end.

Lemma overwrite_same chunkSize total p :
  overwrite total (next_chunk chunkSize total p) p = p.
Proof.
  unfold overwrite. rewrite <- drop_drop. set (X := drop (Z.to_nat total) p).
  assert (E : next_chunk chunkSize total p ++ drop (length (next_chunk chunkSize total p)) X = X).
  { rewrite (next_chunk_eq chunkSize total p) at 1. fold X. apply take_drop. }
  rewrite E. apply take_drop.
Qed.

(** What was written is a prefix of the buffer, and all of it when there was no error. *)
Lemma chunk_write chunkSize content P E fn p off s :
  1 <= chunkSize -> 0 <= off -> off + len p < 2 ^ 63 -> p <> [] ->
  writes chunkSize content P E fn -> P s ->
  exists n err s', chunk chunkSize fn p off s = CRet (n, err, p) s' /\ P s' /\ 0 <= n <= len p /\
    content s' = write_at (content s) off (take (Z.to_nat n) p) /\
    match err with None => n = len p | Some err => E err end.
Proof.
  intros Hc Ho Hov Hp Hw HP.
  pose (I t (p' : list byte) s1 := P s1 /\ p' = p /\
    content s1 = write_at (content s) off (take (Z.to_nat t) p)).
  pose (F t (err : option error) (p' : list byte) s1 := I t p' s1 /\
    match err with None => t = len p | Some err => E err end).
  destruct (chunk_rule chunkSize off I F fn p s) as (t & err & p' & s' & Hr & Ht & _ & He); try done.
  - unfold sint64. rewrite Z.mod_small; lia.
  - intros t p' s0 (HP0 & -> & Hcont) Htp q.
    pose proof (length_next_chunk chunkSize t p ltac:(lia) ltac:(lia)) as Hq. fold q in Hq.
    pose proof (next_chunk_eq chunkSize t p) as Hqe. fold q in Hqe.
    assert (Hoff : sint64 (off + t) = off + t) by (unfold sint64; rewrite Z.mod_small; lia).
    rewrite Hoff. destruct (Hw q (off + t) s0 HP0) as (n & err & s1 & Hfn & HP1 & Hn & Hc1 & He);
      [by intros E0; rewrite E0 in Hq; cbn in Hq; lia|lia|lia|].
    assert (HI : I (t + n) p s1).
    { split; [done|]. split; [done|]. rewrite Hc1, Hcont.
      pose proof (write_at_app (content s) off (take (Z.to_nat t) p) (take (Z.to_nat n) q) Ho) as E0.
      replace (len (take (Z.to_nat t) p)) with t in E0 by (rewrite length_take; lia).
      rewrite E0. f_equal. rewrite Hqe, take_take, Nat.min_l by lia.
      rewrite take_take_drop. f_equal. lia. }
    eexists _, _, _, _. split; [exact Hfn|]. split; [done|]. split; [done|].
    unfold q. rewrite overwrite_same. destruct (decide _) as [|Hlast]; [done|].
    split; [done|]. destruct err as [err|]; [done|].
    assert (n < chunkSize) by (destruct (Z.le_gt_cases chunkSize n); [by destruct Hlast|done]). lia.
  - exists t, err, s'. destruct He as [(-> & -> & HPs & -> & Hc')|((HPs & -> & Hc') & He)]; done.
Qed.

(** ** It ends *)

(** A function that returns from every state of [P], to a state of [P], and keeps the
    length of its slice; the count that it reports may be anything. *)
Definition fn_total (P : CSt -> Prop) (fn : chunk_fn) : Prop := forall q off s, P s ->
  exists n err q' s', fn q off s = CRet (n, err, q') s' /\ P s' /\ 0 <= n /\
    length q' = length q.

Definition ends (P : CSt -> Prop) p (o : coutcome (Z * option error * list byte)) : Prop :=
  match o with
  | CRet (total, _, p') s' => P s' /\ 0 <= total /\ length p' = length p
  | CPanic s' => P s'
  | CBlock => False
  end.

Lemma chunk_loop_ends chunkSize fn P fuel p total offset s :
  1 <= chunkSize -> fn_total P fn -> P s ->
  0 <= total <= len p -> len p - total <= Z.of_nat fuel ->
  ends P p (chunk_loop fuel chunkSize fn p total offset s).
Proof.
  intros Hc Hfn. revert p total offset s.
  induction fuel as [|fuel IH]; intros p total offset s HP Ht Hf; cbn [chunk_loop];
    destruct (Z.eqb_spec total (len p)) as [->|Hne]; [cbn; split_and!; done || lia|lia|
      cbn; split_and!; done || lia|].
  destruct (Hfn (next_chunk chunkSize total p) offset s HP) as (n & err & q & s1 & Hr & HP1 & Hn & Hq).
  unfold mbind, CM_bind. rewrite Hr.
  pose proof (length_next_chunk chunkSize total p ltac:(lia) ltac:(lia)) as Hl.
  assert (Hp : length (overwrite total q p) = length p) by (apply length_overwrite; lia).
  destruct err as [err|]; [cbn; split_and!; done || lia|].
  destruct (Z.ltb_spec n chunkSize); [cbn; split_and!; done || lia|].
  rewrite Hp. destruct (Z.ltb_spec (len p) (total + n)); [done|].
  assert (He : forall o, ends P (overwrite total q p) o -> ends P p o)
    by (intros [[[? ?] ?] ?| |]; cbn; by rewrite ?Hp).
  apply He, IH; rewrite ?Hp; done || lia.
Qed.

Lemma chunk_ends_rule chunkSize fn P p off s :
  1 <= chunkSize -> fn_total P fn -> P s -> ends P p (chunk chunkSize fn p off s).
Proof.
  intros Hc Hfn HP. destruct p as [|b p].
  - destruct (Hfn [] off s HP) as (n & err & q & s' & Hr & HP' & Hn & Hq). cbn [chunk].
    by rewrite Hr.
  - apply chunk_loop_ends; done || cbn; lia.
Qed.

(** [chunk] ends for every buffer and every function that ends, however many bytes
  the function claims to have done: in a round for each byte of the buffer it has
  returned a count and a buffer of the same length, or panicked. *)
Theorem chunk_ends chunkSize fn P p off s :
1 <= chunkSize -> fn_total P fn -> P s ->
ends P p (chunk chunkSize fn p off s).
Proof. apply chunk_ends_rule. Qed.
End chunk.

(** ** Concrete calls *)

Definition idle : CSt (Peer := unit) :=
  mk_CSt (mk_Client (mk_pool [] 1 noTag) (mk_pool [] 1 noFID) ∅ ∅ 0%nat 65536 65024 7) [] tt [].

(** A function that claims [n] bytes for everything. *)
Definition claims (n : Z) : chunk_fn (Peer := unit) := fun q _ => mret (n, None, q).

(** The panic for too many bytes does not see a last chunk that is not full: one byte
    was asked for, three are reported. *)
Example chunk_reports_too_many :
  chunk 4 (claims 3) [x00] 0 idle = CRet (3, None, [x00]) idle /\
  chunk 4 (claims 4) [x00] 0 idle = CPanic idle.
Proof. split; reflexivity. Qed.

Lemma chunk_ends_witness :
  fn_total (fun _ => True) (claims 3) /\
  ends (fun _ => True) [x00; x01] (chunk 2 (claims 3) [x00; x01] 0 idle).
Proof.
  assert (H : fn_total (fun _ => True) (claims 3)).
  { intros q off s _. exists 3, None, q, s. split; [reflexivity|]. split; [exact Logic.I|].
    split; [lia|reflexivity]. }
  split; [exact H|]. apply (chunk_ends 2 (claims 3) (fun _ => True)); [lia|exact H|exact Logic.I].
Defined.
