(* ===== verification/ClientFile.v ===== *)
(** * The files of a client ([p9/client_file.go])

    A [clientFile] turns every method of [File] into a request for its FID. Files are
    pointers into [cfiles]: [Create] returns the file that it was called on, and a closed
    file stays closed for all who hold it. A method returns the values of the Go method,
    as a sum where it returns zero values with an error. The finalizer that closes a file
    nobody holds is the garbage collector's. *)
From S2P Require Import Prelude Errno Buffer Types Messages Message Transport Version Pool.
From S2P Require Import Client Chunk File.

(** [strings.Split] at NUL bytes: the part before the first one, and the others. *)
Fixpoint split_nul (bs : list byte) : list byte * list (list byte) :=
  match bs with
  | [] => ([], [])
  | b :: bs =>
      let '(part, parts) := split_nul bs in
      if Z_of_byte b =? 0 then ([], part :: parts) else (b :: part, parts)
  end.

(** The names of an attribute list. *)
Definition xattr_names (buf : list byte) : list string :=
  let '(part, parts) := split_nul buf in
  filter (fun name => name <> EmptyString) (string_of_bytes <$> part :: parts).


Section files.
Context {Peer : Type} (conn_write : list byte -> Peer -> (option error * list byte) * Peer).
Local Notation CM := (CM (Peer := Peer)).
Local Notation sendRecv := (sendRecv conn_write).

(** The new file is open. *)
Definition newFile (fid : Z) : CM nat := fun s =>
  CRet (length (cfiles s))
    (mk_CSt (client s) (input s) (peer s) (cfiles s ++ [mk_clientFile fid false])).

(** The check that every method starts with: [closed] is what it returns for a closed
    file, [k] goes on with the FID of an open one. *)
Definition check_open {A} (c : nat) (closed : A) (k : Z -> CM A) : CM A := fun s =>
  match cfiles s !! c with
  | None => CPanic s
  | Some f => if cf_closed f then CRet closed s else k (cf_fid f) s
  end.

(** [CompareAndSwapUint32(&c.closed, 0, 1)], and the FID. *)
Definition swap_closed {A} (c : nat) (closed : A) (k : Z -> CM A) : CM A := fun s =>
  match cfiles s !! c with
  | None => CPanic s
  | Some f =>
      if cf_closed f then CRet closed s
      else k (cf_fid f) (mk_CSt (client s) (input s) (peer s)
                           (<[c := mk_clientFile (cf_fid f) true]> (cfiles s)))
  end.

(** A result of which only the error is returned. *)
Definition only_error {A} (r : A + error) : option error :=
  match r with inl _ => None | inr err => Some err end.

Definition Attach (name : string) : CM (nat + error) :=
  o ← GetFID;
  match o with
  | None => mret (inr ErrOutOfFIDs)
  | Some id =>
      r ← sendRecv (Mtattach (mk_tattach id (mk_tauth noFID EmptyString name NoUID)))
            (Mrattach rattach_zero);
      match r with
      | inr err => PutFID id;; mret (inr err)
      | inl _ => f ← newFile id; mret (inl f)
      end
  end.

(** ** Closing *)

Definition clientFile_Close (c : nat) : CM (option error) :=
  (* Avoid double close. *)
  swap_closed c (Some (Errno EBADF)) (fun fid =>
    (* Send the close message. *)
    r ← sendRecv (Mtclunk (mk_tclunk fid)) (Mrclunk mk_rclunk);
    match r with
    (* If an error occurred, we toss away the fid. *)
    | inr err => mret (Some err)
    (* Return the fid to the pool. *)
    | inl _ => PutFID fid;; mret None
    end).

Definition clientFile_Remove (c : nat) : CM (option error) :=
  (* Avoid double close. *)
  swap_closed c (Some (Errno EBADF)) (fun fid =>
    (* Send the remove message. *)
    r ← sendRecv (Mtremove (mk_tremove fid)) (Mrremove mk_rremove);
    match r with
    | inr err => mret (Some err)
    | inl _ => PutFID fid;; mret None
    end).

(** ** Walking *)

Definition clientFile_Walk (c : nat) (names : list string) : CM (list QID * nat + error) :=
  check_open c (inr (Errno EBADF)) (fun fid =>
    o ← GetFID;
    match o with
    | None => mret (inr ErrOutOfFIDs)
    | Some id =>
        r ← sendRecv (Mtwalk (mk_twalk fid id names)) (Mrwalk rwalk_zero);
        match r with
        | inr err => PutFID id;; mret (inr err)
        | inl (Mrwalk rwalk) =>
            (* Return a new client file. *)
            f ← newFile id; mret (inl (rwalk_QIDs rwalk, f))
        | inl _ => cpanic
        end
    end).

Definition clientFile_StatFS (c : nat) : CM (FSStat + error) :=
  check_open c (inr (Errno EBADF)) (fun fid =>
    r ← sendRecv (Mtstatfs (mk_tstatfs fid)) (Mrstatfs rstatfs_zero);
    match r with
    | inr err => mret (inr err)
    | inl (Mrstatfs rstatfs) => mret (inl (rstatfs_FSStat rstatfs))
    | inl _ => cpanic
    end).

Definition clientFile_FSync (c : nat) : CM (option error) :=
  check_open c (Some (Errno EBADF)) (fun fid =>
    r ← sendRecv (Mtfsync (mk_tfsync fid)) (Mrfsync mk_rfsync); mret (only_error r)).

Definition clientFile_GetAttr (c : nat) (req : AttrMask) : CM (QID * AttrMask * Attr + error) :=
  check_open c (inr (Errno EBADF)) (fun fid =>
    r ← sendRecv (Mtgetattr (mk_tgetattr fid req)) (Mrgetattr rgetattr_zero);
    match r with
    | inr err => mret (inr err)
    | inl (Mrgetattr rgetattr) =>
        mret (inl (rgetattr_QID rgetattr, rgetattr_Valid rgetattr, rgetattr_Attr rgetattr))
    | inl _ => cpanic
    end).

Definition clientFile_WalkGetAttr (c : nat) (components : list string)
    : CM (list QID * nat * AttrMask * Attr + error) :=
  check_open c (inr (Errno EBADF)) (fun fid =>
    version ← Client.Version;
    if negb (versionSupportsTwalkgetattr version) then
      w ← clientFile_Walk c components;
      match w with
      | inr err => mret (inr err)
      | inl (qids, file) =>
          g ← clientFile_GetAttr file AttrMaskAll;
          match g with
          | inr err => clientFile_Close file;; mret (inr err)
          | inl (_, valid, attr) => mret (inl (qids, file, valid, attr))
          end
      end
    else
      o ← GetFID;
      match o with
      | None => mret (inr ErrOutOfFIDs)
      | Some id =>
          r ← sendRecv (Mtwalkgetattr (mk_twalkgetattr fid id components))
                (Mrwalkgetattr rwalkgetattr_zero);
          match r with
          | inr err => PutFID id;; mret (inr err)
          | inl (Mrwalkgetattr rwalkgetattr) =>
              (* Return a new client file. *)
              f ← newFile id;
              mret (inl (rwalkgetattr_QIDs rwalkgetattr, f, rwalkgetattr_Valid rwalkgetattr,
                         rwalkgetattr_Attr rwalkgetattr))
          | inl _ => cpanic
          end
      end).

Definition clientFile_SetAttr (c : nat) (valid : SetAttrMask) (attr : SetAttr)
    : CM (option error) :=
  check_open c (Some (Errno EBADF)) (fun fid =>
    r ← sendRecv (Mtsetattr (mk_tsetattr fid valid attr)) (Mrsetattr mk_rsetattr);
    mret (only_error r)).

(** The request is built without the FID: it has the FID zero. *)
Definition clientFile_Lock (c : nat) (pid : Z) (locktype flags start length : Z) (client : string)
    : CM (Z * option error) :=
  check_open c (LockStatusError, Some (Errno EBADF)) (fun _ =>
    r ← sendRecv (Mtlock (mk_tlock 0 locktype flags start length (sint32 pid) client))
          (Mrlock rlock_zero);
    match r with
    | inr err => mret (rlock_Status rlock_zero, Some err)
    | inl (Mrlock r) => mret (rlock_Status r, None)
    | inl _ => cpanic
    end).

Definition clientFile_Open (c : nat) (flags : Z) : CM (QID * Z + error) :=
  check_open c (inr (Errno EBADF)) (fun fid =>
    r ← sendRecv (Mtlopen (mk_tlopen fid flags)) (Mrlopen rlopen_zero);
    match r with
    | inr err => mret (inr err)
    | inl (Mrlopen rlopen) => mret (inl (rlopen_QID rlopen, rlopen_IoUnit rlopen))
    | inl _ => cpanic
    end).

(** ** Reading and writing *)

(** [copy(p, data)]. *)
Definition copy (p data : list byte) : list byte :=
  take (length p) data ++ drop (length data) p.

(** On an error the buffer is as it was: what [recv] may have read into it by then is left
    out. *)
Definition clientFile_readAt (c : nat) : chunk_fn (Peer := Peer) := fun p offset =>
  check_open c (0, Some (Errno EBADF), p) (fun fid =>
    r ← sendRecv (Mtread (mk_tread fid (wrap64 offset) (wrap32 (Z.of_nat (length p)))))
          (Mrread (mk_rread p));
    match r with
    | inr err => mret (0, Some err, p)
    | inl (Mrread rread) =>
        (* The payload is [p] itself, or it is copied. *)
        let p' := match p with [] => p | _ => copy p (rread_Data rread) end in
        (* io.EOF is not an error that a p9 server can return. *)
        if (length (rread_Data rread) =? 0)%nat && (0 <? length p)%nat
        then mret (0, Some io_EOF, p')
        else mret (Z.of_nat (length (rread_Data rread)), None, p')
    | inl _ => cpanic
    end).

Definition clientFile_ReadAt (c : nat) : chunk_fn (Peer := Peer) := fun p offset =>
  client ← get_client;
  chunk (payloadSize client) (clientFile_readAt c) p offset.

Definition clientFile_writeAt (c : nat) : chunk_fn (Peer := Peer) := fun p offset =>
  check_open c (0, Some (Errno EBADF), p) (fun fid =>
    r ← sendRecv (Mtwrite (mk_twrite fid (wrap64 offset) p)) (Mrwrite rwrite_zero);
    match r with
    | inr err => mret (0, Some err, p)
    (* int(rwrite.Count), of a uint32 *)
    | inl (Mrwrite rwrite) => mret (wrap32 (rwrite_Count rwrite), None, p)
    | inl _ => cpanic
    end).

Definition clientFile_WriteAt (c : nat) : chunk_fn (Peer := Peer) := fun p offset =>
  client ← get_client;
  chunk (payloadSize client) (clientFile_writeAt c) p offset.

(** ** Extended attributes *)

Definition clientFile_SetXattr (c : nat) (attr : string) (data : list byte) (flags : Z)
    : CM (option error) :=
  mret (Some (Errno ENOSYS)).
Definition clientFile_RemoveXattr (c : nat) (attr : string) : CM (option error) :=
  mret (Some (Errno ENOSYS)).

Definition clientFile_xattrWalkRead (c : nat) (attr : string) : CM (list byte + error) :=
  check_open c (inr (Errno EBADF)) (fun fid =>
    o ← GetFID;
    match o with
    | None => mret (inr ErrOutOfFIDs)
    | Some id =>
        r ← sendRecv (Mtxattrwalk (mk_txattrwalk fid id attr)) (Mrxattrwalk rxattrwalk_zero);
        match r with
        | inr err => PutFID id;; mret (inr err)
        | inl (Mrxattrwalk rxattrwalk) =>
            (* The walk bound a new fid to the attribute. *)
            xattrFile ← newFile id;
            cdefer (clientFile_Close xattrFile;; mret tt) (
              if rxattrwalk_Size rxattrwalk =? 0 then mret (inl [])
              (* make panics when the size is not an int *)
              else if 2 ^ 63 <=? rxattrwalk_Size rxattrwalk then cpanic
              else
                let buf := replicate (Z.to_nat (rxattrwalk_Size rxattrwalk)) x00 in
                '(n, err, buf) ← clientFile_ReadAt xattrFile buf 0;
                match (match err with
                       | Some err => if Is err TEOF then None else Some err
                       | None => None
                       end) with
                | Some err => mret (inr err)
                | None =>
                    if Z.of_nat (length buf) <? n then cpanic
                    else mret (inl (take (Z.to_nat n) buf))
                end)
        | inl _ => cpanic
        end
    end).

Definition clientFile_GetXattr (c : nat) (attr : string) : CM (list byte + error) :=
  clientFile_xattrWalkRead c attr.

Definition clientFile_ListXattrs (c : nat) : CM (list string + error) :=
  r ← clientFile_xattrWalkRead c EmptyString;
  match r with
  | inr err => mret (inr err)
  | inl buf => mret (inl (xattr_names buf))
  end.

(** ** Directories *)

(** The assertion that [dir] is a [clientFile]: [None] is a [File] of another type. *)
Definition as_clientFile {A} (dir : option nat) (other : A) (k : Z -> CM A) : CM A :=
  match dir with
  | None => mret other
  | Some d => fun s => match cfiles s !! d with None => CPanic s | Some f => k (cf_fid f) s end
  end.

Definition clientFile_Rename (c : nat) (dir : option nat) (name : string) : CM (option error) :=
  check_open c (Some (Errno EBADF)) (fun fid =>
    as_clientFile dir (Some (Errno EBADF)) (fun dirfid =>
      r ← sendRecv (Mtrename (mk_trename fid dirfid name)) (Mrrename mk_rrename);
      mret (only_error r))).

Definition clientFile_Create (c : nat) (name : string) (openFlags permissions uid gid : Z)
    : CM (nat * QID * Z + error) :=
  check_open c (inr (Errno EBADF)) (fun fid =>
    version ← Client.Version;
    if versionSupportsTucreation version then
      let msg := mk_tlcreate fid name openFlags permissions gid in
      r ← sendRecv (Mtucreate (mk_tucreate msg uid)) (Mrucreate rucreate_zero);
      match r with
      | inr err => mret (inr err)
      | inl (Mrucreate (mk_rucreate (mk_rlcreate rlopen))) =>
          mret (inl (c, rlopen_QID rlopen, rlopen_IoUnit rlopen))
      | inl _ => cpanic
      end
    else
      let msg := mk_tlcreate fid name openFlags permissions NoGID in
      r ← sendRecv (Mtlcreate msg) (Mrlcreate rlcreate_zero);
      match r with
      | inr err => mret (inr err)
      | inl (Mrlcreate (mk_rlcreate rlopen)) =>
          mret (inl (c, rlopen_QID rlopen, rlopen_IoUnit rlopen))
      | inl _ => cpanic
      end).

Definition clientFile_Mkdir (c : nat) (name : string) (permissions uid gid : Z)
    : CM (QID + error) :=
  check_open c (inr (Errno EBADF)) (fun fid =>
    version ← Client.Version;
    if versionSupportsTucreation version then
      let msg := mk_tmkdir fid name permissions gid in
      r ← sendRecv (Mtumkdir (mk_tumkdir msg uid)) (Mrumkdir rumkdir_zero);
      match r with
      | inr err => mret (inr err)
      | inl (Mrumkdir (mk_rumkdir rmkdir)) => mret (inl (rmkdir_QID rmkdir))
      | inl _ => cpanic
      end
    else
      let msg := mk_tmkdir fid name permissions NoGID in
      r ← sendRecv (Mtmkdir msg) (Mrmkdir rmkdir_zero);
      match r with
      | inr err => mret (inr err)
      | inl (Mrmkdir rmkdir) => mret (inl (rmkdir_QID rmkdir))
      | inl _ => cpanic
      end).

Definition clientFile_Symlink (c : nat) (oldname newname : string) (uid gid : Z)
    : CM (QID + error) :=
  check_open c (inr (Errno EBADF)) (fun fid =>
    version ← Client.Version;
    if versionSupportsTucreation version then
      let msg := mk_tsymlink fid newname oldname gid in
      r ← sendRecv (Mtusymlink (mk_tusymlink msg uid)) (Mrusymlink rusymlink_zero);
      match r with
      | inr err => mret (inr err)
      | inl (Mrusymlink (mk_rusymlink rsymlink)) => mret (inl (rsymlink_QID rsymlink))
      | inl _ => cpanic
      end
    else
      let msg := mk_tsymlink fid newname oldname NoGID in
      r ← sendRecv (Mtsymlink msg) (Mrsymlink rsymlink_zero);
      match r with
      | inr err => mret (inr err)
      | inl (Mrsymlink rsymlink) => mret (inl (rsymlink_QID rsymlink))
      | inl _ => cpanic
      end).

Definition clientFile_Link (c : nat) (target : option nat) (newname : string)
    : CM (option error) :=
  check_open c (Some (Errno EBADF)) (fun fid =>
    as_clientFile target (Some (Errno EBADF)) (fun targetfid =>
      r ← sendRecv (Mtlink (mk_tlink fid targetfid newname)) (Mrlink mk_rlink);
      mret (only_error r))).

Definition clientFile_Mknod (c : nat) (name : string) (mode major minor uid gid : Z)
    : CM (QID + error) :=
  check_open c (inr (Errno EBADF)) (fun fid =>
    version ← Client.Version;
    if versionSupportsTucreation version then
      let msg := mk_tmknod fid name mode major minor gid in
      r ← sendRecv (Mtumknod (mk_tumknod msg uid)) (Mrumknod rumknod_zero);
      match r with
      | inr err => mret (inr err)
      | inl (Mrumknod (mk_rumknod rmknod)) => mret (inl (rmknod_QID rmknod))
      | inl _ => cpanic
      end
    else
      let msg := mk_tmknod fid name mode major minor NoGID in
      r ← sendRecv (Mtmknod msg) (Mrmknod rmknod_zero);
      match r with
      | inr err => mret (inr err)
      | inl (Mrmknod rmknod) => mret (inl (rmknod_QID rmknod))
      | inl _ => cpanic
      end).

Definition clientFile_RenameAt (c : nat) (oldname : string) (newdir : option nat)
    (newname : string) : CM (option error) :=
  check_open c (Some (Errno EBADF)) (fun fid =>
    as_clientFile newdir (Some (Errno EBADF)) (fun dirfid =>
      r ← sendRecv (Mtrenameat (mk_trenameat fid oldname dirfid newname)) (Mrrenameat mk_rrenameat);
      mret (only_error r))).

Definition clientFile_UnlinkAt (c : nat) (name : string) (flags : Z) : CM (option error) :=
  check_open c (Some (Errno EBADF)) (fun fid =>
    r ← sendRecv (Mtunlinkat (mk_tunlinkat fid name flags)) (Mrunlinkat mk_runlinkat);
    mret (only_error r)).

Definition clientFile_Readdir (c : nat) (offset count : Z) : CM (list Dirent + error) :=
  check_open c (inr (Errno EBADF)) (fun fid =>
    r ← sendRecv (Mtreaddir (mk_treaddir fid offset count)) (Mrreaddir rreaddir_zero);
    match r with
    | inr err => mret (inr err)
    | inl (Mrreaddir rreaddir) => mret (inl (rreaddir_Entries rreaddir))
    | inl _ => cpanic
    end).

Definition clientFile_Readlink (c : nat) : CM (string + error) :=
  check_open c (inr (Errno EBADF)) (fun fid =>
    r ← sendRecv (Mtreadlink (mk_treadlink fid)) (Mrreadlink rreadlink_zero);
    match r with
    | inr err => mret (inr err)
    | inl (Mrreadlink rreadlink) => mret (inl (rreadlink_Target rreadlink))
    | inl _ => cpanic
    end).

Definition clientFile_Renamed (c : nat) (newDir : option nat) (newName : string) : CM unit :=
  mret tt.

(** ** The interface *)

(** [clientFile] implements [File]: what each method of the interface calls. An
    argument of type [File] is a file of this client. *)
Definition client_exec {A} (e : FileE nat A) : CM A :=
  match e in FileE _ A return CM A with
  | FAttach => Attach EmptyString
  | FWalk f names => clientFile_Walk f names
  | FWalkGetAttr f names => clientFile_WalkGetAttr f names
  | FStatFS f => clientFile_StatFS f
  | FGetAttr f req => clientFile_GetAttr f req
  | FSetAttr f valid attr => clientFile_SetAttr f valid attr
  | FClose f => clientFile_Close f
  | FOpen f mode => clientFile_Open f mode
  | FReadAt f p offset =>
      '(n, err, p) ← clientFile_ReadAt f p offset; mret (p, n, err)
  | FWriteAt f p offset =>
      '(n, err, _) ← clientFile_WriteAt f p offset;
      mret (match err with None => inl n | Some err => inr err end)
  | FSetXattr f attr data flags => clientFile_SetXattr f attr data flags
  | FGetXattr f attr => clientFile_GetXattr f attr
  | FListXattrs f => clientFile_ListXattrs f
  | FRemoveXattr f attr => clientFile_RemoveXattr f attr
  | FFSync f => clientFile_FSync f
  | FLock f pid locktype flags start length client =>
      '(status, err) ← clientFile_Lock f pid locktype flags start length client;
      mret (match err with None => inl status | Some err => inr err end)
  | FCreate f name flags permissions uid gid => clientFile_Create f name flags permissions uid gid
  | FMkdir f name permissions uid gid => clientFile_Mkdir f name permissions uid gid
  | FSymlink f oldName newName uid gid => clientFile_Symlink f oldName newName uid gid
  | FLink f target newName => clientFile_Link f (Some target) newName
  | FMknod f name mode major minor uid gid => clientFile_Mknod f name mode major minor uid gid
  | FRename f newDir newName => clientFile_Rename f (Some newDir) newName
  | FRenameAt f oldName newDir newName => clientFile_RenameAt f oldName (Some newDir) newName
  | FUnlinkAt f name flags => clientFile_UnlinkAt f name flags
  | FReaddir f offset count =>
      r ← clientFile_Readdir f offset count;
      mret (match r with inl entries => (entries, None) | inr err => ([], Some err) end)
  | FReadlink f => clientFile_Readlink f
  | FRenamed f newDir newName => clientFile_Renamed f (Some newDir) newName
  end.
End files.
