(* ===== verification/ClientFiles.v ===== *)
(** * What the files of a client keep

    The methods of a client's files return whatever the peer sends; open files have
    FIDs of their own, which are out of the client's pool. *)
From S2P Require Import Prelude Errno Buffer Types Messages Message Transport Version Pool.
From S2P Require Import Client Calls Chunk File ClientFile.

(** ** Triples

    [does P m Q R]: from a state of [P], [m] returns with [Q] or panics with [R]; it
    does not block. *)
Section does.
Context {Peer : Type}.
Local Notation CSt := (CSt (Peer := Peer)).
Local Notation CM := (CM (Peer := Peer)).

Definition does {A} (P : CSt -> Prop) (m : CM A) (Q : A -> CSt -> Prop) (R : CSt -> Prop) : Prop :=
  forall s, P s ->
    match m s with CRet a s' => Q a s' | CPanic s' => R s' | CBlock => False end.

Lemma does_ret {A} (P : CSt -> Prop) (a : A) (Q : A -> CSt -> Prop) R :
  (forall s, P s -> Q a s) -> does P (mret a) Q R.
Proof. intros H s HP. by apply H. Qed.

Lemma does_bind {A B} P (m : CM A) (k : A -> CM B) Q Q' R :
  does P m Q R -> (forall a, does (Q a) (k a) Q' R) -> does P (m ≫= k) Q' R.
Proof.
  intros Hm Hk s HP. specialize (Hm s HP). unfold mbind, CM_bind.
  destruct (m s) as [a s'| |]; [by apply Hk|done..].
Qed.

Lemma does_mono {A} (P P' : CSt -> Prop) (m : CM A) (Q Q' : A -> CSt -> Prop) (R R' : CSt -> Prop) :
  does P' m Q' R' -> (forall s, P s -> P' s) -> (forall a s, Q' a s -> Q a s) ->
  (forall s, R' s -> R s) -> does P m Q R.
Proof.
  intros H HP HQ HR s Hs. specialize (H s (HP s Hs)). destruct (m s); auto.
Qed.

Lemma does_pure {A} (F : Prop) (P : CSt -> Prop) (m : CM A) Q R :
  (F -> does P m Q R) -> does (fun s => P s /\ F) m Q R.
Proof. intros H s [HP HF]. by apply H. Qed.

Lemma does_get_client {A} P (k : Client -> CM A) Q R :
  (forall c, does P (k c) Q R) -> does P (get_client ≫= k) Q R.
Proof. intros Hk s HP. by apply Hk. Qed.

Lemma does_defer {A} P (d : CM unit) (m : CM A) Q Q' R R' :
  does P m Q R -> (forall a, does (Q a) d (fun _ => Q' a) R') -> does R d (fun _ => R') R' ->
  does P (cdefer d m) Q' R'.
Proof.
  intros Hm Hd Hd' s HP. specialize (Hm s HP). unfold cdefer. destruct (m s) as [a s'|s'|]; [|..].
  - specialize (Hd a s' Hm). by destruct (d s').
  - specialize (Hd' s' Hm). by destruct (d s').
  - done.
Qed.
End does.

(** ** The invariant *)

Section inv.
Context {Peer : Type} (conn_write : list byte -> Peer -> (option error * list byte) * Peer).
Local Notation CSt := (CSt (Peer := Peer)).
Local Notation CM := (CM (Peer := Peer)).
Local Notation sendRecv := (sendRecv conn_write).
Implicit Types (s : CSt) (out lost : list Z) (n : nat).

(** The FIDs of the open files. *)
Definition open_fids (fs : list clientFile) : list Z :=
  cf_fid <$> filter (fun f => cf_closed f = false) fs.

(** At least [n] files were made; [out] are the FIDs that a method in progress holds,
    [lost] those that a failed [Close] tossed away. *)
Record inv n out s : Prop := {
  ci_ok : client_ok (client s);
  ci_tags : pool_inv 1 noTag (tagPool (client s), []);
  ci_fids : exists lost, pool_inv 1 noFID (fidPool (client s), open_fids (cfiles s) ++ out ++ lost);
  ci_files : (n <= length (cfiles s))%nat;
  ci_payload : 1 <= payloadSize (client s);
}.

Lemma inv_le n n' out s : (n' <= n)%nat -> inv n out s -> inv n' out s.
Proof. intros Hn []. split; try done. lia. Qed.

Lemma inv_toss n id out s : inv n (id :: out) s -> inv n out s.
Proof.
  intros [H1 H2 [lost H3] H4 H5]. split; try done. exists (id :: lost).
  destruct H3 as (Ha & Hb & Hp). split; [done|]. split; [done|]. rewrite <- Hp.
  apply Permutation_app_head, Permutation_app_head. apply Permutation_sym, Permutation_middle.
Qed.

Lemma does_GetFID n out R :
  does (inv n out) GetFID
    (fun o s => match o with Some id => inv n (id :: out) s | None => inv n out s end) R.
Proof.
  intros s [H1 H2 [lost H3] H4 H5]. unfold GetFID.
  destruct (Get (fidPool (client s))) as [o p] eqn:Eg.
  assert (Hok : client_ok (set_fidPool p (client s))) by (destruct H1 as [[] ?]; by repeat split).
  destruct o as [id|]; split; try done; exists lost; cbn [client cfiles set_fidPool fidPool].
  - eapply pool_inv_perm; [|eapply (pool_inv_step 1 noFID); [done|done|exact H3|by apply step_Get]].
    cbn. apply Permutation_middle.
  - eapply (pool_inv_step 1 noFID); [done|done|exact H3|by apply step_Get_fail].
Qed.

Lemma does_PutFID n id out R : does (inv n (id :: out)) (PutFID id) (fun _ => inv n out) R.
Proof.
  intros s [H1 H2 [lost H3] H4 H5]. unfold PutFID, modify.
  assert (Hok : client_ok (set_fidPool (Put id (fidPool (client s))) (client s)))
    by (destruct H1 as [[] ?]; by repeat split).
  split; try done. exists lost. cbn [client cfiles set_fidPool fidPool].
  eapply (pool_inv_step 1 noFID); [done|done|exact H3|]. apply step_Put.
Qed.

Lemma open_fids_app fs gs : open_fids (fs ++ gs) = open_fids fs ++ open_fids gs.
Proof. unfold open_fids. by rewrite filter_app, fmap_app. Qed.

Lemma does_newFile n id out R :
  does (inv n (id :: out)) (newFile id) (fun f s => inv (S f) out s /\ (n <= f)%nat) R.
Proof.
  intros s [H1 H2 [lost H3] H4 H5]. unfold newFile. split; [|done].
  split; try done; [|cbn; rewrite length_app; cbn; lia]. exists lost.
  cbn [client cfiles]. rewrite open_fids_app, <- app_assoc. exact H3.
Qed.

Lemma does_sendRecv n out tm rm R :
  does (inv n out) (sendRecv tm rm)
    (fun r s => inv n out s /\ forall m, r = inl m -> same_type m rm) R.
Proof.
  intros s [H1 H2 [lost H3] H4 H5].
  pose proof (sendRecv_returns conn_write tm rm s H1) as Hc.
  destruct (Get (tagPool (client s))) as [[t|] tags] eqn:Eg;
    [|rewrite Hc; split; [split; try done; by exists lost|done]].
  destruct Hc as (res & s' & -> & Hok & (Hf & _ & Hp & _) & Ht & Hcf & Htyp).
  split; [|done]. split; [done| |exists lost; by rewrite Hf, Hcf|by rewrite Hcf|by rewrite Hp].
  rewrite Ht. assert (Hg : pool_inv 1 noTag (tags, [t]))
    by (eapply (pool_inv_step 1 noTag); [done|done|exact H2|by apply step_Get]).
  eapply (pool_inv_step 1 noTag); [done|done|exact Hg|]. apply (step_Put tags t [] []).
Qed.

Lemma does_check_open {A} n out c (closed : A) k (Q : A -> CSt -> Prop) R :
  (c < n)%nat -> (forall s, inv n out s -> Q closed s) ->
  (forall fid, does (inv n out) (k fid) Q R) -> does (inv n out) (check_open c closed k) Q R.
Proof.
  intros Hc Hcl Hk s Hs. unfold check_open.
  destruct (lookup_lt_is_Some_2 (cfiles s) c) as [f ->]; [pose proof (ci_files _ _ _ Hs); lia|].
  destruct (cf_closed f); [by apply Hcl|by apply Hk].
Qed.

Lemma open_fids_close fs c f :
  fs !! c = Some f -> cf_closed f = false ->
  open_fids fs ≡ₚ cf_fid f :: open_fids (<[c := mk_clientFile (cf_fid f) true]> fs).
Proof.
  intros Hc Hf. pose proof (take_drop_middle _ _ _ Hc) as E.
  assert (Hl : (c < length fs)%nat) by by apply lookup_lt_Some in Hc.
  rewrite insert_take_drop by done. rewrite <- E at 1.
  rewrite (cons_middle f), (cons_middle (mk_clientFile _ _)), !open_fids_app.
  unfold open_fids at 2 5. rewrite !filter_cons, decide_True, decide_False by done. cbn.
  apply Permutation_sym, Permutation_middle.
Qed.

Lemma does_swap_closed {A} n out c (closed : A) k (Q : A -> CSt -> Prop) R :
  (c < n)%nat -> (forall s, inv n out s -> Q closed s) ->
  (forall fid, does (inv n (fid :: out)) (k fid) Q R) -> does (inv n out) (swap_closed c closed k) Q R.
Proof.
  intros Hc Hcl Hk s Hs. unfold swap_closed.
  destruct (lookup_lt_is_Some_2 (cfiles s) c) as [f Hf]; [pose proof (ci_files _ _ _ Hs); lia|].
  rewrite Hf. destruct (cf_closed f) eqn:Ec; [by apply Hcl|]. apply Hk.
  destruct Hs as [H1 H2 [lost H3] H4 H5]. split; try done; [|cbn; by rewrite length_insert].
  exists lost. eapply pool_inv_perm; [|exact H3]. rewrite (open_fids_close _ _ _ Hf Ec). cbn.
  apply Permutation_middle.
Qed.

Lemma does_as_clientFile {A} n out d (other : A) k (Q : A -> CSt -> Prop) R :
  (d < n)%nat -> (forall fid, does (inv n out) (k fid) Q R) ->
  does (inv n out) (as_clientFile (Some d) other k) Q R.
Proof.
  intros Hd Hk s Hs. unfold as_clientFile.
  destruct (lookup_lt_is_Some_2 (cfiles s) d) as [f ->]; [pose proof (ci_files _ _ _ Hs); lia|].
  by apply Hk.
Qed.

Lemma does_call {A} n out tm rm (k : message + error -> CM A) (Q : A -> CSt -> Prop) R :
  (forall err, does (inv n out) (k (inr err)) Q R) ->
  (forall m, same_type m rm -> does (inv n out) (k (inl m)) Q R) ->
  does (inv n out) (sendRecv tm rm ≫= k) Q R.
Proof.
  intros He Hm. eapply does_bind; [apply does_sendRecv|]. intros r. apply does_pure. intros Ht.
  destruct r as [m|err]; [by apply Hm, Ht|apply He].
Qed.

Lemma does_with_FID {A} n out (k : option Z -> CM A) (Q : A -> CSt -> Prop) R :
  (forall id, does (inv n (id :: out)) (k (Some id)) Q R) -> does (inv n out) (k None) Q R ->
  does (inv n out) (GetFID ≫= k) Q R.
Proof.
  intros Hs Hn. eapply does_bind; [apply does_GetFID|]. intros [id|]; [apply Hs|apply Hn].
Qed.

Lemma does_then_PutFID {A} n id out (m : CM A) (Q : A -> CSt -> Prop) R :
  does (inv n out) m Q R -> does (inv n (id :: out)) (PutFID id;; m) Q R.
Proof. intros Hm. eapply does_bind; [apply does_PutFID|]. intros ?. exact Hm. Qed.

Lemma does_with_file {A} n id out (k : nat -> CM A) (Q : A -> CSt -> Prop) R :
  (forall f, (n <= f)%nat -> does (inv (S f) out) (k f) Q R) ->
  does (inv n (id :: out)) (newFile id ≫= k) Q R.
Proof.
  intros Hk. eapply does_bind; [apply does_newFile|]. intros f. apply does_pure, Hk.
Qed.

Lemma does_Version {A} n out (k : Z -> CM A) (Q : A -> CSt -> Prop) R :
  (forall v, does (inv n out) (k v) Q R) -> does (inv n out) (Client.Version ≫= k) Q R.
Proof. intros Hk s Hs. exact (Hk (cl_version (client s)) s Hs). Qed.

(** A method returns with the invariant; it does not panic. *)
Definition safe {A} n (m : CM A) : Prop := forall R, does (inv n []) m (fun _ => inv n []) R.
End inv.

(** The response of a call by its type. *)
Ltac response_of :=
  let m := fresh "m" in let Ht := fresh "Ht" in let Ht' := fresh "Ht" in
  intros m Ht; destruct m; destruct Ht as [Ht Ht'];
  try (first [discriminate Ht|discriminate Ht']); clear Ht Ht'; cbn beta iota.

(** One step of a method. *)
Ltac step :=
  lazymatch goal with
  | |- does _ (check_open _ _ _) _ _ => apply does_check_open; [lia|intros ? ?|intros ?]
  | |- does _ (swap_closed _ _ _) _ _ => apply does_swap_closed; [lia|intros ? ?|intros ?]
  | |- does _ (as_clientFile _ _ _) _ _ => apply does_as_clientFile; [lia|intros ?]
  | |- does _ (sendRecv _ _ _ ≫= _) _ _ => apply does_call; [intros ?|response_of]
  | |- does _ (GetFID ≫= _) _ _ => apply does_with_FID; [intros ?|]
  | |- does _ (Client.Version ≫= _) _ _ => apply does_Version; intros ?
  | |- does _ (PutFID _;; _) _ _ => apply does_then_PutFID
  | |- does _ (newFile _ ≫= _) _ _ => apply does_with_file; intros ? ?
  | |- does _ (mret _) _ _ => apply does_ret; intros ? ?
  | |- does _ (match ?b with _ => _ end) _ _ => destruct b
  end.
Ltac method := unfold safe; intros; repeat step; eauto using inv_le, inv_toss, Nat.le_trans, Nat.le_succ_diag_r.

Section methods.
Context {Peer : Type} (conn_write : list byte -> Peer -> (option error * list byte) * Peer).
Local Notation CSt := (CSt (Peer := Peer)).

Lemma Close_safe n c : (c < n)%nat -> safe n (clientFile_Close conn_write c).
Proof. intros Hc. unfold clientFile_Close. method. Qed.
Lemma Remove_safe n c : (c < n)%nat -> safe n (clientFile_Remove conn_write c).
Proof. intros Hc. unfold clientFile_Remove. method. Qed.
Lemma Attach_safe n name : safe n (Attach conn_write name).
Proof. unfold Attach. method. Qed.

(** The file that [Walk] returns is there. *)
Lemma Walk_file n c names R : (c < n)%nat ->
  does (inv n []) (clientFile_Walk conn_write c names) (fun r s =>
    match r with inl (_, f) => inv (S f) [] s /\ (n <= f)%nat | inr _ => inv n [] s end) R.
Proof. intros Hc. unfold clientFile_Walk. repeat step; eauto. Qed.

Lemma Walk_safe n c names : (c < n)%nat -> safe n (clientFile_Walk conn_write c names).
Proof.
  intros Hc R s Hs. pose proof (Walk_file n c names R Hc s Hs) as H.
  destruct (clientFile_Walk _ _ _ s) as [r s'|s'|]; [|done..].
  destruct r as [[qids f]|err]; [|done]. destruct H as [H Hf]. eapply inv_le; [|exact H]. lia.
Qed.

Lemma GetAttr_safe n c req : (c < n)%nat -> safe n (clientFile_GetAttr conn_write c req).
Proof. intros Hc. unfold clientFile_GetAttr. method. Qed.

Lemma WalkGetAttr_safe n c names : (c < n)%nat -> safe n (clientFile_WalkGetAttr conn_write c names).
Proof.
  intros Hc R. unfold clientFile_WalkGetAttr.
  step; [done|]. step. destruct (versionSupportsTwalkgetattr _); cbn [negb]; [method|].
  eapply does_bind; [by apply Walk_file|]. intros [[qids f]|err]; cbn beta iota; [|method].
  apply does_pure. intros Hf. eapply does_bind; [apply (GetAttr_safe (S f)); lia|].
  intros [[[qid valid] attr]|err]; cbn beta iota; [method|].
  eapply does_bind; [apply (Close_safe (S f)); lia|]. intros ?. method.
Qed.

Lemma StatFS_safe n c : (c < n)%nat -> safe n (clientFile_StatFS conn_write c).
Proof. intros Hc. unfold clientFile_StatFS. method. Qed.
Lemma FSync_safe n c : (c < n)%nat -> safe n (clientFile_FSync conn_write c).
Proof. intros Hc. unfold clientFile_FSync. method. Qed.
Lemma SetAttr_safe n c valid attr :
  (c < n)%nat -> safe n (clientFile_SetAttr conn_write c valid attr).
Proof. intros Hc. unfold clientFile_SetAttr. method. Qed.
Lemma Lock_safe n c pid locktype flags start length cl :
  (c < n)%nat -> safe n (clientFile_Lock conn_write c pid locktype flags start length cl).
Proof. intros Hc. unfold clientFile_Lock. method. Qed.
Lemma Open_safe n c flags : (c < n)%nat -> safe n (clientFile_Open conn_write c flags).
Proof. intros Hc. unfold clientFile_Open. method. Qed.
Lemma Rename_safe n c d name :
  (c < n)%nat -> (d < n)%nat -> safe n (clientFile_Rename conn_write c (Some d) name).
Proof. intros Hc Hd. unfold clientFile_Rename. method. Qed.
Lemma Create_safe n c name flags permissions uid gid :
  (c < n)%nat -> safe n (clientFile_Create conn_write c name flags permissions uid gid).
Proof. intros Hc. unfold clientFile_Create. method. Qed.
Lemma Mkdir_safe n c name permissions uid gid :
  (c < n)%nat -> safe n (clientFile_Mkdir conn_write c name permissions uid gid).
Proof. intros Hc. unfold clientFile_Mkdir. method. Qed.
Lemma Symlink_safe n c oldname newname uid gid :
  (c < n)%nat -> safe n (clientFile_Symlink conn_write c oldname newname uid gid).
Proof. intros Hc. unfold clientFile_Symlink. method. Qed.
Lemma Link_safe n c d name :
  (c < n)%nat -> (d < n)%nat -> safe n (clientFile_Link conn_write c (Some d) name).
Proof. intros Hc Hd. unfold clientFile_Link. method. Qed.
Lemma Mknod_safe n c name mode major minor uid gid :
  (c < n)%nat -> safe n (clientFile_Mknod conn_write c name mode major minor uid gid).
Proof. intros Hc. unfold clientFile_Mknod. method. Qed.
Lemma RenameAt_safe n c oldname d newname :
  (c < n)%nat -> (d < n)%nat ->
  safe n (clientFile_RenameAt conn_write c oldname (Some d) newname).
Proof. intros Hc Hd. unfold clientFile_RenameAt. method. Qed.
Lemma UnlinkAt_safe n c name flags :
  (c < n)%nat -> safe n (clientFile_UnlinkAt conn_write c name flags).
Proof. intros Hc. unfold clientFile_UnlinkAt. method. Qed.
Lemma Readdir_safe n c offset count :
  (c < n)%nat -> safe n (clientFile_Readdir conn_write c offset count).
Proof. intros Hc. unfold clientFile_Readdir. method. Qed.
Lemma Readlink_safe n c : (c < n)%nat -> safe n (clientFile_Readlink conn_write c).
Proof. intros Hc. unfold clientFile_Readlink. method. Qed.

(** ** Reads, writes and extended attributes *)

(** What a chunk of a read or a write returns. *)
Definition chunk_post n out (q : list byte) (r : Z * option error * list byte) (s : CSt) : Prop :=
  inv n out s /\ 0 <= r.1.1 /\ length r.2 = length q.

Lemma fn_total_does n out (fn : chunk_fn (Peer := Peer)) :
  (forall q off, does (inv n out) (fn q off) (chunk_post n out q) (fun _ => False)) ->
  fn_total (inv n out) fn.
Proof.
  intros H q off s Hs. specialize (H q off s Hs). destruct (fn q off s) as [[[k err] q'] s'| |]; try done.
  destruct H as (Hi & Hk & Hl). by exists k, err, q', s'.
Qed.

Lemma length_copy p data : length (copy p data) = length p.
Proof. unfold copy. rewrite length_app, length_take, length_drop. lia. Qed.

Lemma readAt_total n out c : (c < n)%nat -> fn_total (inv n out) (clientFile_readAt conn_write c).
Proof.
  intros Hc. apply fn_total_does. intros q off. unfold clientFile_readAt.
  repeat step; unfold chunk_post; cbn; split_and!; try done; try lia; destruct q; try done;
    apply length_copy.
Qed.

Lemma writeAt_total n out c : (c < n)%nat -> fn_total (inv n out) (clientFile_writeAt conn_write c).
Proof.
  intros Hc. apply fn_total_does. intros q off. unfold clientFile_writeAt.
  repeat step; unfold chunk_post; cbn; split_and!; try done; try lia.
  unfold wrap32. by apply Z.mod_pos_bound.
Qed.

Lemma chunked_does n out (fn : chunk_fn (Peer := Peer)) p off :
  fn_total (inv n out) fn ->
  does (inv n out) (c ← get_client; chunk (payloadSize c) fn p off)
    (fun r s => inv n out s /\ 0 <= r.1.1 /\ length r.2 = length p) (inv n out).
Proof.
  intros Hfn s Hs. unfold mbind, CM_bind, get_client.
  pose proof (chunk_ends_rule (payloadSize (client s)) fn (inv n out) p off s
    (ci_payload _ _ _ Hs) Hfn Hs) as He.
  by destruct (chunk _ _ _ _ s) as [[[k err] p'] s'|s'|].
Qed.

Lemma xattrWalkRead_does n c attr :
  (c < n)%nat ->
  does (inv n []) (clientFile_xattrWalkRead conn_write c attr) (fun _ => inv n []) (inv n []).
Proof.
  intros Hc. unfold clientFile_xattrWalkRead. repeat step; [done|done| |done].
  assert (Hclose : forall (Q : unit -> CSt -> Prop) R, (forall s, inv (S f) [] s -> Q tt s) ->
    does (inv (S f) []) (clientFile_Close conn_write f;; mret tt) Q R).
  { intros Q R HQ. eapply does_bind; [by apply (Close_safe (S f)); lia|]. intros ?.
    apply does_ret. exact HQ. }
  apply (does_defer _ _ _ (fun _ => inv (S f) []) _ (inv (S f) [])).
  - destruct (_ =? 0); [by apply does_ret|]. destruct (_ <=? _); [by intros s Hs|].
    eapply does_bind; [apply chunked_does, readAt_total; lia|].
    intros [[k err] buf]. apply does_pure. intros _.
    destruct (match err with Some _ => _ | None => _ end); [by apply does_ret|].
    destruct (_ <? _); [by intros s Hs|by apply does_ret].
  - intros r. apply Hclose. intros s Hs. eapply inv_le; [|exact Hs]. lia.
  - apply Hclose. intros s Hs. eapply inv_le; [|exact Hs]. lia.
Qed.
End methods.

(** ** A new client *)

Lemma largestFixedSize_153 : largestFixedSize msgDotLRegistry = 153.
Proof. vm_compute. reflexivity. Qed.

Lemma roundDown_pos p align : 1 <= p -> 1 <= align -> 1 <= roundDown p align.
Proof.
  intros Hp Ha. unfold roundDown. destruct (Z.ltb_spec align p); [|done].
  destruct (negb _); cbn [andb]; [|done]. pose proof (Z.mod_pos_bound p align). lia.
Qed.

Section session.
Context {Peer : Type} (conn_write : list byte -> Peer -> (option error * list byte) * Peer).
Local Notation CSt := (CSt (Peer := Peer)).
Implicit Types s : CSt.

Lemma new_Client_inv messageSize s :
  153 < messageSize < 2 ^ 32 -> cfiles s = [] ->
  inv 0 [] (mk_CSt (new_Client messageSize) (input s) (peer s) (cfiles s)).
Proof.
  intros Hm Hf. split; cbn [client cfiles input peer].
  - split; [split|]; cbn; [done..|]. by intros ? [? ?].
  - apply pool_inv_init. done.
  - exists []. rewrite Hf. apply pool_inv_init. done.
  - lia.
  - unfold new_Client. cbn [payloadSize]. rewrite largestFixedSize_153.
    apply roundDown_pos; [|lia]. unfold wrap32. rewrite Z.mod_small; lia.
Qed.

Lemma does_set_cl_version n v (Q : unit + error -> CSt -> Prop) R :
  (forall s, inv n [] s -> Q (inl tt) s) ->
  does (inv n []) (modify (set_cl_version v);; mret (inl tt)) Q R.
Proof.
  intros HQ s [H1 H2 H3 H4 H5]. apply HQ. split; try done. destruct H1 as [[] ?]. by repeat split.
Qed.

(** The loop asks for version [requested] first and for version zero last. *)
Lemma negotiate_does n fuel requested R :
  0 <= requested <= highestSupportedVersion -> requested < Z.of_nat fuel ->
  does (inv n []) (negotiate conn_write fuel requested) (fun _ => inv n []) R.
Proof.
  revert requested. induction fuel as [|fuel IH]; intros requested Hr Hf; [lia|].
  cbn [negotiate]. apply does_get_client. intros c.
  apply does_call.
  - intros err. destruct (Is err (TErrno EAGAIN)); [|by apply does_ret].
    destruct (Z.eqb_spec requested lowestSupportedVersion) as [|Hne]; [by apply does_ret|].
    unfold lowestSupportedVersion in Hne. unfold highestSupportedVersion in *.
    apply IH; unfold wrap32; rewrite Z.mod_small; lia.
  - response_of. destruct (parseVersion _) as [[baseVersion v]|]; [|by apply does_ret].
    destruct (negb _); [by apply does_ret|]. by apply does_set_cl_version.
Qed.

Definition NewClient_size (size : option Z) : Z + error :=
  match size with None => inl DefaultMessageSize | Some m => WithMessageSize m end.

Lemma NewClient_size_ok size m :
  match size with Some m => u32 m | None => True end ->
  NewClient_size size = inl m -> 153 < m < 2 ^ 32.
Proof.
  intros Hsize. unfold NewClient_size, WithMessageSize. rewrite largestFixedSize_153.
  destruct size as [z|]; [|by intros [= <-]]. unfold u32 in Hsize.
  destruct (Z.leb_spec z 153); [done|]. intros [= <-]. lia.
Qed.

Lemma NewClient_does size s :
  match size with Some m => u32 m | None => True end -> cfiles s = [] ->
  does (eq s) (NewClient conn_write size)
    (fun r s' => r = inl tt -> inv 0 [] s') (fun _ => False).
Proof.
  intros Hsize Hf _ <-. unfold NewClient. fold (NewClient_size size).
  destruct (NewClient_size size) as [m|err] eqn:Em; [|done].
  pose proof (NewClient_size_ok size m Hsize Em) as Hm.
  pose proof (negotiate_does 0 (S (Z.to_nat highestSupportedVersion)) highestSupportedVersion
    (fun _ => False) ltac:(done) ltac:(done) _ (new_Client_inv m s Hm Hf)) as Hn.
  unfold mbind, CM_bind, modify. destruct (negotiate _ _ _ _); [|done..]. intros _. exact Hn.
Qed.

(** Making a client ends: whatever the peer answers, after at most one round for
  each version [NewClient] has returned an error, or a client whose invariant holds. *)
Theorem NewClient_ends size s :
match size with Some m => u32 m | None => True end -> cfiles s = [] ->
does (eq s) (NewClient conn_write size)
  (fun r s' => r = inl tt -> inv 0 [] s') (fun _ => False).
Proof. apply NewClient_does. Qed.

(** ** Methods *)

(** The files that a method is called on and with. *)
Definition files_of {A} (e : FileE nat A) : list nat :=
  match receiver e with Some f => [f] | None => [] end ++
  match e with
  | FLink _ f _ | FRename _ f _ | FRenameAt _ _ f _ | FRenamed _ f _ => [f]
  | _ => []
  end.

(** The methods that go through [chunk], which panics when more was done than asked. *)
Definition chunked {A} (e : FileE nat A) : bool :=
  match e with
  | FReadAt _ _ _ | FWriteAt _ _ _ | FGetXattr _ _ | FListXattrs _ => true
  | _ => false
  end.

Lemma may_panic_does {A} n (m : CM (Peer := Peer) A) :
  does (inv n []) m (fun _ => inv n []) (inv n []) ->
  does (inv n []) m (fun _ => inv n []) (fun s => true = true /\ inv n [] s).
Proof. intros H. eapply does_mono; [exact H|auto..]. Qed.

Lemma client_exec_does {A} n (e : FileE nat A) :
  Forall (fun f => f < n)%nat (files_of e) ->
  does (inv n []) (client_exec conn_write e) (fun _ => inv n [])
    (fun s => chunked e = true /\ inv n [] s).
Proof.
  intros Hf. destruct e; cbn in Hf; rewrite ?Forall_cons in Hf; destruct_and?;
    cbn [client_exec chunked]; try apply may_panic_does.
  - apply Attach_safe.
  - by apply Walk_safe.
  - by apply WalkGetAttr_safe.
  - by apply StatFS_safe.
  - by apply GetAttr_safe.
  - by apply SetAttr_safe.
  - by apply Close_safe.
  - by apply Open_safe.
  - eapply does_bind; [apply chunked_does; by apply readAt_total|]. intros [[k err] p'].
    apply does_ret. by intros s [Hs _].
  - eapply does_bind; [apply chunked_does; by apply writeAt_total|]. intros [[k err] p'].
    apply does_ret. by intros s [Hs _].
  - by apply does_ret.
  - by apply xattrWalkRead_does.
  - eapply does_bind; [by apply xattrWalkRead_does|]. intros [buf|err]; by apply does_ret.
  - by apply does_ret.
  - by apply FSync_safe.
  - eapply does_bind; [by apply Lock_safe|]. intros [status err]. by apply does_ret.
  - by apply Create_safe.
  - by apply Mkdir_safe.
  - by apply Symlink_safe.
  - by apply Link_safe.
  - by apply Mknod_safe.
  - by apply Rename_safe.
  - by apply RenameAt_safe.
  - by apply UnlinkAt_safe.
  - eapply does_bind; [by apply Readdir_safe|]. intros [entries|err]; by apply does_ret.
  - by apply Readlink_safe.
  - by apply does_ret.
Qed.

(** ** A session of a client *)

(** What the user of a client can do: attach, remove and call the methods of the files
    that there are. A panic that the user recovers from leaves the state that it found. *)
Inductive client_step : CSt -> CSt -> Prop :=
| step_attach name s r s' :
    Attach conn_write name s = CRet r s' -> client_step s s'
| step_remove f s r s' :
    (f < length (cfiles s))%nat -> clientFile_Remove conn_write f s = CRet r s' -> client_step s s'
| step_method {A} (e : FileE nat A) s r s' :
    Forall (fun f => f < length (cfiles s))%nat (files_of e) ->
    client_exec conn_write e s = CRet r s' -> client_step s s'
| step_panic {A} (e : FileE nat A) s s' :
    Forall (fun f => f < length (cfiles s))%nat (files_of e) ->
    client_exec conn_write e s = CPanic s' -> client_step s s'.

(** The states of a client after [NewClient]. *)
Definition client_reachable s : Prop := exists size s0 s1,
  match size with Some m => u32 m | None => True end /\ cfiles s0 = [] /\
  NewClient conn_write size s0 = CRet (inl tt) s1 /\ rtc client_step s1 s.

Lemma NewClient_inv size s s' :
  match size with Some m => u32 m | None => True end -> cfiles s = [] ->
  NewClient conn_write size s = CRet (inl tt) s' -> inv 0 [] s'.
Proof.
  intros Hsize Hf Hr. pose proof (NewClient_does size s Hsize Hf s eq_refl) as H.
  rewrite Hr in H. by apply H.
Qed.

Lemma inv_files n out s : inv n out s -> inv (length (cfiles s)) out s.
Proof. intros []. by split. Qed.

Lemma client_step_inv s s' : inv 0 [] s -> client_step s s' -> inv 0 [] s'.
Proof.
  intros Hs Hstep. apply inv_files in Hs. destruct Hstep as [name s r s' Hr|f s r s' Hf Hr|
    A e s r s' Hf Hr|A e s s' Hf Hr].
  - pose proof (Attach_safe conn_write _ name (fun _ => True) s Hs) as H. rewrite Hr in H.
    eapply inv_le; [|exact H]. lia.
  - pose proof (Remove_safe conn_write _ f Hf (fun _ => True) s Hs) as H. rewrite Hr in H.
    eapply inv_le; [|exact H]. lia.
  - pose proof (client_exec_does _ e Hf s Hs) as H. rewrite Hr in H.
    eapply inv_le; [|exact H]. lia.
  - pose proof (client_exec_does _ e Hf s Hs) as H. rewrite Hr in H.
    eapply inv_le; [|exact (proj2 H)]. lia.
Qed.

Lemma client_reachable_inv s : client_reachable s -> inv 0 [] s.
Proof.
  intros (size & s0 & s1 & Hsize & Hf & Hn & Hsteps). apply NewClient_inv in Hn; [|done..].
  induction Hsteps; eauto using client_step_inv.
Qed.

(** C22: in every state of a client, whatever its peer answered, the open files have
  different FIDs, in the range that the protocol allows, and the next FID that the pool
  gives out is none of them; and every tag is back in its pool. *)
Theorem client_files_distinct s :
client_reachable s ->
NoDup (open_fids (cfiles s)) /\ Forall (fun fid => 1 <= fid < noFID) (open_fids (cfiles s)) /\
(forall id, (Get (fidPool (client s))).1 = Some id -> id ∉ open_fids (cfiles s)) /\
pool_inv 1 noTag (tagPool (client s), []).
Proof.
intros Hs. apply client_reachable_inv in Hs as [_ Ht [lost Hp] _ _].
destruct (pool_out_inv 1 noFID _ _ ltac:(done) ltac:(done) Hp) as (Hnd & Hr & Hnew).
apply NoDup_app in Hnd as (Hnd & _ & _). apply Forall_app in Hr as [Hr _].
split; [done|]. split; [done|]. split; [|done].
intros id Hid. apply Hnew in Hid. rewrite elem_of_app in Hid. tauto.
Qed.

(** C23: every method of a client's files returns, whatever the peer answers: none blocks,
  and none panics but the four that read or write in chunks, which may when the peer
  claims more than it was asked for. After a panic too the invariant of the client
  holds. *)
Theorem client_methods_return {A} (e : FileE nat A) s :
client_reachable s -> Forall (fun f => f < length (cfiles s))%nat (files_of e) ->
match client_exec conn_write e s with
| CRet _ s' => inv 0 [] s'
| CPanic s' => chunked e = true /\ inv 0 [] s'
| CBlock => False
end.
Proof.
intros Hs Hf. apply client_reachable_inv, inv_files in Hs.
pose proof (client_exec_does _ e Hf s Hs) as H. destruct (client_exec _ _ _); [..|done].
- eapply inv_le; [|exact H]. lia.
- destruct H as [H1 H2]. split; [done|]. eapply inv_le; [|exact H2]. lia.
Qed.
End session.

(** ** A concrete session *)

(** A peer that takes every request for a Tversion. *)
Definition version_parrot : list byte -> unit -> (option error * list byte) * unit :=
  parrot (frame 1 (Mrversion (mk_rversion 65536 "9P2000.L.Google.7"))).

Definition no_client : CSt (Peer := unit) := mk_CSt example_Client [] tt [].

Lemma NewClient_ends_witness :
  does (eq no_client) (NewClient version_parrot (Some 1024))
    (fun r s' => r = inl tt -> inv 0 [] s') (fun _ => False).
Proof.
  exact (NewClient_ends version_parrot (Some 1024) no_client ltac:(unfold u32; lia)
    ltac:(reflexivity)).
Defined.

(** The client that is made. *)
Definition made_client : CSt (Peer := unit) :=
  match NewClient version_parrot None no_client with CRet _ s => s | _ => no_client end.

Lemma made_client_reachable : client_reachable version_parrot made_client.
Proof.
  exists None, no_client, made_client. split; [exact Logic.I|]. split; [reflexivity|].
  split; [|apply rtc_refl].
  assert (H : match NewClient version_parrot None no_client with
              | CRet (inl tt) _ => true | _ => false end = true) by (vm_compute; reflexivity).
  unfold made_client. destruct (NewClient _ _ _) as [[[]|err] s|s|]; [reflexivity|discriminate H..].
Qed.

Lemma client_files_distinct_witness :
  client_reachable version_parrot made_client /\ NoDup (open_fids (cfiles made_client)).
Proof.
  split; [exact made_client_reachable|].
  exact (proj1 (client_files_distinct version_parrot made_client made_client_reachable)).
Defined.

Lemma client_methods_return_witness :
  client_reachable version_parrot made_client /\
  match client_exec version_parrot FAttach made_client with
  | CRet _ s' => inv 0 [] s'
  | CPanic s' => false = true /\ inv 0 [] s'
  | CBlock => False
  end.
Proof.
  split; [exact made_client_reachable|].
  exact (client_methods_return version_parrot FAttach made_client made_client_reachable
    (Forall_nil_2 _)).
Defined.

(** A peer that records what is written to it, and hangs up. *)
Definition recorder (bs : list byte) (p : list (list byte))
    : (option error * list byte) * list (list byte) :=
  ((Some io_EOF, []), p ++ [bs]).

(** [Lock] on a file whose FID is 7 locks the FID 0. *)
Example Lock_without_fid :
  match clientFile_Lock recorder 0 1 0 0 0 0 "host"
          (mk_CSt example_Client [] [] [mk_clientFile 7 false]) with
  | CRet _ s => peer s = [frame 1 (Mtlock (mk_tlock 0 0 0 0 0 1 "host"))]
  | _ => False
  end.
Proof. vm_compute. reflexivity. Qed.
