(* ===== verification/ClientIO.v ===== *)
(** * Reading and writing through a client

    [ReadAt] and [WriteAt] against a peer that serves the bytes of a file: whatever the
    client's payload size, the chunks come to what one request of any length would do.
    The peer is an interface, a class of what it answers to the two requests. *)
From S2P Require Import Prelude Errno Buffer Types Messages Message Transport Version Pool.
From S2P Require Import Client Calls Chunk File ClientFile ClientFiles.

Local Notation len p := (Z.of_nat (length p)).

(** The lengths of the frames of the four messages. *)
Lemma rread_frame_length d : frame_length (Mrread (mk_rread d)) = 11 + len d.
Proof. transitivity (7 + 4 + len d); [reflexivity|lia]. Qed.
Lemma rwrite_frame_length n : frame_length (Mrwrite (mk_rwrite n)) = 11.
Proof. done. Qed.
Lemma tread_frame_length fid off count : frame_length (Mtread (mk_tread fid off count)) = 23.
Proof. done. Qed.
Lemma twrite_frame_length fid off d : frame_length (Mtwrite (mk_twrite fid off d)) = 23 + len d.
Proof. transitivity (7 + 16 + len d); [reflexivity|lia]. Qed.

(** What [conn_write] promises for the FID [fid], as long as the peer is [up]: the bytes of a
    file, [content], are read and written in full by requests whose frames, and those of the
    answers, are at most [msize] long. *)
Class ByteReader {Peer : Type} (conn_write : list byte -> Peer -> (option error * list byte) * Peer)
    (fid msize : Z) (up : Peer -> Prop) (content : Peer -> list byte) : Prop :=
  serves_read : forall t off count p, up p ->
    1 <= t < noTag -> 0 <= off < 2 ^ 63 -> 0 <= count -> 11 + count <= msize -> exists p',
    conn_write (frame t (Mtread (mk_tread fid off count))) p =
      ((None, frame t (Mrread (mk_rread
                (take (Z.to_nat count) (drop (Z.to_nat off) (content p)))))), p') /\
    content p' = content p /\ up p'.

Class ByteWriter {Peer : Type} (conn_write : list byte -> Peer -> (option error * list byte) * Peer)
    (fid msize : Z) (up : Peer -> Prop) (content : Peer -> list byte) : Prop :=
  serves_write : forall t off d p, up p ->
    1 <= t < noTag -> 0 <= off < 2 ^ 63 ->
    frame_length (Mtwrite (mk_twrite fid off d)) <= msize -> exists p',
    conn_write (frame t (Mtwrite (mk_twrite fid off d))) p =
      ((None, frame t (Mrwrite (mk_rwrite (len d)))), p') /\
    content p' = write_at (content p) off d /\ up p'.

(** A tag is free between the calls. *)
Lemma tag_free p :
  pool_inv 1 noTag (p, []) -> exists t tags,
    Get p = (Some t, tags) /\ 1 <= t < noTag /\ pool_inv 1 noTag (Put t tags, []).
Proof.
  intros Hp. destruct (Get p) as [[t|] tags] eqn:Hg.
  - exists t, tags. split; [done|].
    assert (Hi : pool_inv 1 noTag (tags, [t]))
      by (eapply (pool_inv_step 1 noTag); [done|done|exact Hp|by apply step_Get]).
    destruct (pool_out_inv 1 noTag tags [t] ltac:(done) ltac:(done) Hi) as (_ & Hr & _).
    apply Forall_cons in Hr as [Hr _]. split; [exact Hr|].
    eapply (pool_inv_step 1 noTag); [done|done|exact Hi|]. apply (step_Put tags t [] []).
  - exfalso. unfold Get in Hg. destruct Hp as (Hl & Hs & Hperm). destruct (cache p); [|discriminate].
    destruct (Z.eqb_spec (start p) (limit p)) as [E|]; [|discriminate].
    rewrite Hl in E. rewrite E in Hperm. apply Permutation_length in Hperm.
    rewrite length_seqZ in Hperm. cbn in Hperm. unfold noTag in Hperm. lia.
Qed.

Section io.
Context {Peer : Type} (conn_write : list byte -> Peer -> (option error * list byte) * Peer).
Context (fid msize : Z) (up : Peer -> Prop) (content : Peer -> list byte).
Local Notation CSt := (CSt (Peer := Peer)).
Implicit Types s : CSt.

(** The client is between calls, its file [c] is open and names [fid]; the payload leaves
    room for the fixed part of a message. *)
Record ready (c : nat) s : Prop := {
  rd_pending : pending (client s) = ∅;
  rd_input : input s = [];
  rd_tags : pool_inv 1 noTag (tagPool (client s), []);
  rd_file : cfiles s !! c = Some (mk_clientFile fid false);
  rd_msize : cl_messageSize (client s) = msize /\ msize <= maximumLength;
  rd_payload : 1 <= payloadSize (client s) /\ payloadSize (client s) + 153 <= msize;
  rd_up : up (peer s);
}.

(** A call that the peer answers. *)
Lemma ready_call c s tm rm r :
  ready c s -> message_wf r -> frame_length r <= msize -> fits_receiver rm r ->
  (forall t, 1 <= t < noTag -> exists p',
     conn_write (frame t tm) (peer s) = ((None, frame t r), p') /\ up p') ->
  exists s' t, 1 <= t < noTag /\
    sendRecv conn_write tm rm s = CRet (call_value (received r)) s' /\ ready c s' /\
    payloadSize (client s') = payloadSize (client s) /\
    peer s' = (conn_write (frame t tm) (peer s)).2.
Proof.
  intros [Hp Hi Ht Hf [Hm Hmax] Hpay Hup] Hwf Hlen Hfit Hconn.
  destruct (tag_free _ Ht) as (t & tags & Hg & Htr & Htags).
  destruct (Hconn t Htr) as (p' & Hw & Hup').
  destruct (sendRecv_answer conn_write tm rm r t tags [] p' s)
    as (s' & Hr & Ht' & Hp' & (Hs1 & Hs2 & Hs3 & Hs4) & Hi' & Hpe & Hcf); try done.
  - by rewrite app_nil_r.
  - split; [done|]. unfold u16, noTag in *. cbn [snd fst]. unfold maximumLength in Hmax. lia.
  - rewrite Hm. lia.
  - exists s', t. split; [done|]. split; [done|]. split; [|by rewrite Hw].
    split; [done|done|by rewrite Ht'|by rewrite Hcf|by rewrite Hs2|by rewrite Hs3|by rewrite Hpe].
Qed.

(** Ready, with the bytes [data] at the peer. *)
Definition ready_data (c : nat) (size : Z) (data : list byte) s : Prop :=
  ready c s /\ payloadSize (client s) = size /\ content (peer s) = data.

Lemma wf_rread d : len d < 2 ^ 32 -> message_wf (Mrread (mk_rread d)).
Proof. intros H. split; cbn; lia. Qed.

Lemma copy_read (q d : list byte) :
  (length d <= length q)%nat -> copy q d = d ++ drop (length d) q.
Proof. intros H. unfold copy. by rewrite take_ge. Qed.

(** One request reads what there is. *)
Lemma readAt_call `{HR : !ByteReader conn_write fid msize up content} c size data q off s :
  ready_data c size data s -> len q <= size -> 0 <= off < 2 ^ 63 ->
  let d := take (length q) (drop (Z.to_nat off) data) in
  exists s', clientFile_readAt conn_write c q off s =
    CRet (len d, if decide (d = [] /\ q <> []) then Some io_EOF else None, d ++ drop (length d) q) s' /\
    ready_data c size data s'.
Proof.
  intros (Hr & Hs & Hd) Hq Ho d. pose proof (rd_payload _ _ Hr) as Hpay.
  pose proof (rd_msize _ _ Hr) as [Hm Hmax]. rewrite Hs in Hpay. unfold maximumLength in Hmax.
  assert (Hdq : (length d <= length q)%nat) by (unfold d; rewrite length_take; lia).
  assert (Hcount : wrap32 (len q) = len q) by (apply Z.mod_small; lia).
  assert (Hoff : wrap64 off = off) by (apply Z.mod_small; lia).
  assert (Hans : forall t, 1 <= t < noTag -> exists p', conn_write
    (frame t (Mtread (mk_tread fid off (len q)))) (peer s) = ((None, frame t (Mrread (mk_rread d))), p')
    /\ content p' = data /\ up p').
  { intros t Ht. destruct (serves_read t off (len q) (peer s)) as (p' & Hp & Hc & Hu);
      [apply (rd_up _ _ Hr)|done|done|lia|lia|].
    exists p'. rewrite Nat2Z.id, Hd in Hp. split; [exact Hp|]. split; [by rewrite Hc|done]. }
  destruct (ready_call c s (Mtread (mk_tread fid off (len q))) (Mrread (mk_rread q)) (Mrread (mk_rread d)))
    as (s' & t & Ht & Hcall & Hr' & Hsize & Hpeer); [done|apply wf_rread; lia|
    rewrite rread_frame_length; lia|right; done| |].
  { intros t Ht. destruct (Hans t Ht) as (p' & Hp & _ & Hu). by exists p'. }
  destruct (Hans t Ht) as (p' & Hp & Hc & _). rewrite Hp in Hpeer. cbn [snd] in Hpeer.
  unfold clientFile_readAt, check_open. rewrite (rd_file _ _ Hr). cbn [cf_closed cf_fid].
  rewrite Hcount, Hoff. unfold mbind, CM_bind. rewrite Hcall. cbn [call_value received rread_Data].
  exists s'. split; [|split; [done|split; [congruence|by rewrite Hpeer]]].
  destruct q as [|b q]; [by destruct d; cbn in *; [rewrite decide_False by naive_solver|lia]|].
  rewrite copy_read by done. destruct d as [|b' d']; cbn [length Nat.eqb andb Nat.ltb Nat.leb].
  - by rewrite decide_True by done.
  - by rewrite decide_False by naive_solver.
Qed.

(** One request writes all. *)
Lemma writeAt_call `{HW : !ByteWriter conn_write fid msize up content} c size q off s :
  ready_data c size (content (peer s)) s -> len q <= size -> 0 <= off < 2 ^ 63 ->
  exists s', clientFile_writeAt conn_write c q off s = CRet (len q, None, q) s' /\
    ready_data c size (write_at (content (peer s)) off q) s'.
Proof.
  intros (Hr & Hs & _) Hq Ho. pose proof (rd_payload _ _ Hr) as Hpay.
  pose proof (rd_msize _ _ Hr) as [Hm Hmax]. rewrite Hs in Hpay. unfold maximumLength in Hmax.
  assert (Hcount : wrap32 (len q) = len q) by (apply Z.mod_small; lia).
  assert (Hoff : wrap64 off = off) by (apply Z.mod_small; lia).
  assert (Hans : forall t, 1 <= t < noTag -> exists p', conn_write
    (frame t (Mtwrite (mk_twrite fid off q))) (peer s) = ((None, frame t (Mrwrite (mk_rwrite (len q)))), p')
    /\ content p' = write_at (content (peer s)) off q /\ up p').
  { intros t Ht. apply serves_write; [apply (rd_up _ _ Hr)|done..|]. rewrite twrite_frame_length. lia. }
  destruct (ready_call c s (Mtwrite (mk_twrite fid off q)) (Mrwrite rwrite_zero)
    (Mrwrite (mk_rwrite (len q)))) as (s' & t & Ht & Hcall & Hr' & Hsize & Hpeer);
    [done|split; cbn; lia|rewrite rwrite_frame_length; lia|right; done| |].
  { intros t Ht. destruct (Hans t Ht) as (p' & Hp & _ & Hu). by exists p'. }
  destruct (Hans t Ht) as (p' & Hp & Hc & _). rewrite Hp in Hpeer. cbn [snd] in Hpeer.
  unfold clientFile_writeAt, check_open. rewrite (rd_file _ _ Hr). cbn [cf_closed cf_fid].
  rewrite Hoff. unfold mbind, CM_bind. rewrite Hcall. cbn [call_value received rwrite_Count].
  exists s'. rewrite Hcount. split; [done|]. split; [done|]. split; [congruence|by rewrite Hpeer].
Qed.

Lemma readAt_reads `{HR : !ByteReader conn_write fid msize up content} c size data :
  reads size data (ready_data c size data) (clientFile_readAt conn_write c).
Proof.
  intros q off s Hs Hq Hlen Ho d.
  destruct (readAt_call c size data q off s Hs Hlen Ho) as (s' & Hr & Hs'). fold d in Hr.
  exists s'. split; [|done]. rewrite Hr. destruct (decide (d = [])) as [E|E].
  - by rewrite decide_True by done.
  - by rewrite decide_False by naive_solver.
Qed.

Lemma writeAt_writes `{HW : !ByteWriter conn_write fid msize up content} c size :
  writes size (fun s => content (peer s)) (fun s => ready_data c size (content (peer s)) s)
    (fun _ => False) (clientFile_writeAt conn_write c).
Proof.
  intros q off s Hs Hq Hlen Ho.
  destruct (writeAt_call c size q off s Hs Hlen Ho) as (s' & Hr & Hs').
  exists (len q), None, s'. split; [done|]. destruct Hs' as (H1 & H2 & H3).
  split; [by rewrite H3 in *|]. split; [lia|]. split; [|done].
  by rewrite H3, Nat2Z.id, firstn_all.
Qed.

Lemma ReadAt_runs `{HR : !ByteReader conn_write fid msize up content} c p off s :
ready c s -> 0 <= off -> off + len p < 2 ^ 63 ->
let d := take (length p) (drop (Z.to_nat off) (content (peer s))) in
exists s',
  clientFile_ReadAt conn_write c p off s =
    CRet (len d, if (len d <? len p) && (len d mod payloadSize (client s) =? 0)
                 then Some io_EOF else None,
          d ++ drop (length d) p) s' /\
  ready c s' /\ content (peer s') = content (peer s).
Proof.
intros Hr Ho Hov d. unfold clientFile_ReadAt, mbind, CM_bind, get_client.
set (size := payloadSize (client s)). set (data := content (peer s)).
assert (Hs : ready_data c size data s) by done.
destruct (decide (p = [])) as [->|Hp].
- destruct (readAt_call c size data [] off s Hs) as (s' & Hc & Hs' & _ & Hd);
    [pose proof (rd_payload _ _ Hr); cbn; lia|lia|].
  exists s'. split; [exact Hc|done].
- destruct (chunk_read size data (ready_data c size data) (clientFile_readAt conn_write c) p off s)
    as (s' & Hc & Hs' & _ & Hd); try done; [pose proof (rd_payload _ _ Hr); lia|
    apply readAt_reads|]. exists s'. by split.
Qed.

(** C20: [ReadAt] reads the file: against a peer that serves its bytes, a read of any
  length at any offset gets the bytes that are there, at most as many as asked for, and
  keeps the rest of the buffer; no payload size makes a difference, but for [io.EOF],
  which is reported when the bytes ended with a full chunk. *)
Theorem ReadAt_reads `{HR : !ByteReader conn_write fid msize up content} c p off s :
ready c s -> 0 <= off -> off + len p < 2 ^ 63 ->
let d := take (length p) (drop (Z.to_nat off) (content (peer s))) in
exists s',
  clientFile_ReadAt conn_write c p off s =
    CRet (len d, if (len d <? len p) && (len d mod payloadSize (client s) =? 0)
                 then Some io_EOF else None,
          d ++ drop (length d) p) s' /\
  ready c s' /\ content (peer s') = content (peer s).
Proof. apply ReadAt_runs. Qed.

(** C21: [WriteAt] writes the file: against a peer that serves its bytes, a write of any
  length at any offset returns the length without an error, and the peer's file has the
  bytes of the buffer there. *)
Theorem WriteAt_writes `{HW : !ByteWriter conn_write fid msize up content} c p off s :
ready c s -> 0 <= off -> off + len p < 2 ^ 63 ->
exists s',
  clientFile_WriteAt conn_write c p off s = CRet (len p, None, p) s' /\
  ready c s' /\ content (peer s') = write_at (content (peer s)) off p.
Proof.
intros Hr Ho Hov. unfold clientFile_WriteAt, mbind, CM_bind, get_client.
set (size := payloadSize (client s)).
assert (Hs : ready_data c size (content (peer s)) s) by done.
destruct (decide (p = [])) as [->|Hp].
- destruct (writeAt_call c size [] off s Hs) as (s' & Hc & Hs' & _ & Hd);
    [pose proof (rd_payload _ _ Hr); cbn; lia|lia|]. exists s'. split; [exact Hc|done].
- destruct (chunk_write size (fun s => content (peer s))
    (fun s => ready_data c size (content (peer s)) s) (fun _ => False)
    (clientFile_writeAt conn_write c) p off s)
    with (1 := proj1 (rd_payload _ _ Hr)) (5 := writeAt_writes c size)
    as (n & err & s' & Hc & (Hr' & _) & Hn & Hcont & He); try done.
  destruct err; [done|]. subst n. rewrite Nat2Z.id, firstn_all in Hcont. by exists s'.
Qed.
End io.

(** ** A server of one file *)

Definition file_lookup (_ mt : Z) (s : unit) : (message + error) * unit :=
  (if mt =? msgTread then inl (Mtread tread_zero)
   else if mt =? msgTwrite then inl (Mtwrite twrite_zero)
   else inr (ErrInvalidMsgType mt), s).

Definition file_answer (m : message) (data : list byte) : message * list byte :=
  match m with
  | Mtread (mk_tread _ off count) =>
      (Mrread (mk_rread (take (Z.to_nat count) (drop (Z.to_nat off) data))), data)
  | Mtwrite (mk_twrite _ off d) => (Mrwrite (mk_rwrite (len d)), write_at data off d)
  | _ => (Mrlerror (mk_rlerror EINVAL), data)
  end.

Definition file_server (bs : list byte) (data : list byte)
    : (option error * list byte) * list byte :=
  let '(t, res, _, _) := recv file_lookup bs maximumLength tt in
  match res with
  | inl m => let '(r, data) := file_answer m data in ((None, frame t r), data)
  | inr err => ((Some err, []), data)
  end.

#[export] Instance file_server_reads : ByteReader file_server 1 154 (fun _ => True) (fun data => data).
Proof.
  intros t off count p _ Ht Ho Hc Hm. exists p. split; [|done]. unfold file_server.
  rewrite <- (app_nil_r (frame t (Mtread _))).
  rewrite (recv_of_frame file_lookup t (Mtread (mk_tread 1 off count)) (Mtread tread_zero) []
    maximumLength tt tt); try done.
  - repeat split; cbn; unfold u64; lia.
  - unfold u16, noTag in *. lia.
Qed.

#[export] Instance file_server_writes : ByteWriter file_server 1 154 (fun _ => True) (fun data => data).
Proof.
  intros t off d p _ Ht Ho Hm. rewrite twrite_frame_length in Hm. exists (write_at p off d).
  split; [|done]. unfold file_server. rewrite <- (app_nil_r (frame t (Mtwrite _))).
  rewrite (recv_of_frame file_lookup t (Mtwrite (mk_twrite 1 off d)) (Mtwrite twrite_zero) []
    maximumLength tt tt); try done.
  - repeat split; cbn; unfold u64, u32; lia.
  - unfold u16, noTag in *. lia.
  - rewrite twrite_frame_length. unfold maximumLength. lia.
Qed.

(** The smallest client: the payload of a request is a single byte. *)
Definition small_client : CSt :=
  mk_CSt (mk_Client (mk_pool [] 1 noTag) (mk_pool [] 2 noFID) ∅ ∅ 0%nat 154 1 7) []
    [x0a; x0b; x0c] [mk_clientFile 1 false].

Lemma small_client_ready : ready 1 154 (fun _ => True) 0 small_client.
Proof.
  split; try reflexivity.
  - apply pool_inv_init. done.
  - split; [reflexivity|]. cbn. unfold maximumLength. lia.
  - cbn. lia.
Qed.

Lemma ReadAt_reads_witness :
  ready 1 154 (fun _ => True) 0 small_client /\ exists s',
  clientFile_ReadAt file_server 0 [x00; x00; x00; x00] 1 small_client =
    CRet (2, Some io_EOF, [x0b; x0c; x00; x00]) s' /\
  ready 1 154 (fun _ => True) 0 s' /\ peer s' = [x0a; x0b; x0c].
Proof.
  split; [exact small_client_ready|].
  exact (ReadAt_reads file_server 1 154 (fun _ => True) (fun data => data) 0 [x00; x00; x00; x00] 1 small_client
    small_client_ready ltac:(lia) ltac:(cbn; lia)).
Defined.

Lemma WriteAt_writes_witness :
  ready 1 154 (fun _ => True) 0 small_client /\ exists s',
  clientFile_WriteAt file_server 0 [x01; x02] 4 small_client = CRet (2, None, [x01; x02]) s' /\
  ready 1 154 (fun _ => True) 0 s' /\ peer s' = [x0a; x0b; x0c; x00; x01; x02].
Proof.
  split; [exact small_client_ready|].
  exact (WriteAt_writes file_server 1 154 (fun _ => True) (fun data => data) 0 [x01; x02] 4 small_client
    small_client_ready ltac:(lia) ltac:(cbn; lia)).
Defined.
