(* ===== verification/Remote.v ===== *)
(** * A client and its server

    The client's connection with the server at its other end: a call of the client is
    the handling of the message on the server. *)
From S2P Require Import Prelude Errno Buffer Types Messages Message Transport Version Pool.
From S2P Require Import File State PathTree FidRef Handlers Server Reach ProgramLogic Session.
From S2P Require Import Promises Behaviour Client Calls Chunk ClientFile ClientFiles.

Section remote.
Context {W File : Type} {B : Backend W File}.
Local Notation St := (St W File).

(** What a write does at the server of the connection [c]: the bytes are one frame, so
    the loop of the connection takes one round. *)
Definition server_write (c : cid) (bs : list byte) (p : St * registry)
    : (option error * list byte) * (St * registry) :=
  let '(srv, reg) := p in
  match handleRequest c bs reg [] srv with
  | Ret (_, out, _, reg) srv => ((None, out), (srv, reg))
  | Panic srv => ((None, []), (srv, reg))
  | Stuck => ((None, []), p)
  end.

(** The receiver that a call uses for a request. *)
Definition receiver_for (tm rm : message) : Prop :=
  message_typ rm = message_typ tm + 1 /\ server_read rm = false.

Lemma handler_received m k : handler (B := B) m = Some k -> received m = m.
Proof. by destruct m. Qed.

Lemma response_fits tm rm r :
  handler (B := B) tm <> None -> receiver_for tm rm -> response_to tm r -> fits_receiver rm r.
Proof.
  intros Hh [Ht Hs] [[e ->]|Hr]; [by left; eexists|]. right.
  pose proof (right_response_typ tm r Hr) as Hr'. rewrite Hr', <- Ht. split.
  - rewrite Ht. destruct tm; try done; by cbn in Hh.
  - split; [congruence|]. by destruct rm.
Qed.

(** What the two ends agree on between the calls. *)
Record linked (c : cid) (cs : connState) (s : CSt (Peer := St * registry)) : Prop := {
  lk_pending : pending (client s) = ∅;
  lk_input : input s = [];
  lk_registry : registry_full (peer s).2;
  lk_conn : conns (peer s).1 !! c = Some cs;
}.

(** The limit of the server on the frames of requests. *)
Definition request_limit (cs : connState) : Z :=
  Z.min maximumLength (if messageSize cs =? 0 then maximumLength else messageSize cs).

Lemma remote_call_returns c cs s tm rm r t pool srv' :
  linked c cs s -> Get (tagPool (client s)) = (Some t, pool) -> t ∉ tags cs ->
  handler (B := B) tm <> None -> receiver_for tm rm ->
  sendable (t, tm) -> frame_length tm <= request_limit cs ->
  handle c tm [] (tag_started c cs t (peer s).1) = Ret r srv' ->
  sendable (t, r) -> frame_length r <= Z.min maximumLength (cl_messageSize (client s)) ->
  exists s' cs', sendRecv (server_write c) tm rm s = CRet (call_value (received r)) s' /\
    respond c t tm [] (peer s).1 = Ret (frame t r) (peer s').1 /\
    linked c cs' s' /\ tags cs' = tags cs /\ tagPool (client s') = Put t pool /\
    same_session (client s) (client s') /\ cfiles s' = cfiles s.
Proof.
  intros [Hp Hi Hreg Hc] Hg Ht Hh Hrm Htm Hlim Hhandle Hr Hlen.
  destruct s as [cl inp [srv reg] fs]. cbn [client input peer cfiles fst snd] in *.
  destruct (handler tm) as [k|] eqn:Ek; [|done].
  assert (Hfit : fits_receiver rm r).
  { eapply response_fits; [by rewrite Ek|done|].
    pose proof (handle_responds c tm (tag_started c cs t srv)) as H. by rewrite Hhandle in H. }
  pose proof (respond_inactive c cs t tm srv Hc Ht) as Hresp. rewrite Hhandle in Hresp.
  destruct Hresp as (srv2 & Hresp & cs2 & Hc2 & Ht2).
  pose proof (handleRequest_frame c t tm [] reg cs srv Htm Hreg Hc) as Hone. cbv zeta in Hone.
  fold (request_limit cs) in Hone. rewrite (proj2 (Z.ltb_ge _ _) Hlim), app_nil_r in Hone.
  destruct Hone as (reg' & Hreg' & Hone). rewrite (handler_received tm k Ek) in Hone.
  unfold mbind, M_bind in Hone. rewrite Hresp in Hone.
  assert (Hw : server_write c (frame t tm) (srv, reg)
    = ((None, frame t r ++ []), (srv2, reg' (frame t r)))).
  { unfold server_write. rewrite Hone, app_nil_r. done. }
  destruct (sendRecv_answer (server_write c) tm rm r t pool [] (srv2, reg' (frame t r))
    (mk_CSt cl inp (srv, reg) fs) Hp Hi Hg Hw Hr Hlen Hfit)
    as (s' & Hcall & Htag & Hp' & Hsame & Hi' & Hpeer & Hfs).
  exists s', cs2. split; [done|]. rewrite Hpeer. split; [done|]. split; [|done].
  split; [done|done|rewrite Hpeer; apply Hreg'|by rewrite Hpeer].
Qed.

(** C17: a call is the handling of its message: the client's [sendRecv] over a connection
  to the server returns what the server's handler answers to the message, values and
  errors alike; the server went through [respond] and nothing else, and the two ends
  are linked as before, ready for the next call. *)
Theorem remote_call c cs s tm rm r t pool srv' :
linked c cs s -> Get (tagPool (client s)) = (Some t, pool) -> t ∉ tags cs ->
handler (B := B) tm <> None -> receiver_for tm rm ->
sendable (t, tm) -> frame_length tm <= request_limit cs ->
handle c tm [] (tag_started c cs t (peer s).1) = Ret r srv' ->
sendable (t, r) -> frame_length r <= Z.min maximumLength (cl_messageSize (client s)) ->
exists s' cs', sendRecv (server_write c) tm rm s = CRet (call_value (received r)) s' /\
  respond c t tm [] (peer s).1 = Ret (frame t r) (peer s').1 /\
  linked c cs' s' /\ tags cs' = tags cs /\ tagPool (client s') = Put t pool /\
  same_session (client s) (client s') /\ cfiles s' = cfiles s.
Proof. apply remote_call_returns. Qed.

(** ** Version negotiation between the two *)

Definition first_tversion (m : Z) : tversion :=
  mk_tversion m (versionString version9P2000L highestSupportedVersion).
Definition first_rversion (m : Z) : rversion :=
  mk_rversion (Z.min m maximumLength) (versionString version9P2000L highestSupportedVersion).

(** The connection after the version was negotiated. *)
Definition negotiated (m : Z) (cs : connState) : connState :=
  mk_connState (fids cs) (tags cs) (Z.min m maximumLength) (Some (Z.min m maximumLength, []))
    (Z.to_nat (Z.min m maximumLength)) version9P2000L highestSupportedVersion.

Lemma parse_first :
  parseVersion (versionString version9P2000L highestSupportedVersion)
    = Some (version9P2000L, highestSupportedVersion).
Proof. vm_compute. reflexivity. Qed.

Lemma tversion_handled c cs m (srv : St) :
  0 < m -> conns srv !! c = Some cs ->
  handle c (Mtversion (first_tversion m)) [] srv =
    (set_conn c (negotiated m cs);; mret (Mrversion (first_rversion m))) [] srv.
Proof.
  intros Hm Hc. unfold handle, recover. cbn [handler]. unfold handle_tversion.
  cbn [tversion_MSize first_tversion tversion_Version].
  rewrite (proj2 (Z.eqb_neq m 0)) by lia.
  rewrite parse_first. change (String.eqb version9P2000L version9P2000 || String.eqb version9P2000L version9P2000U)
    with false. cbv iota. rewrite Z.ltb_irrefl.
  assert (Hz : (if maximumLength <? m then maximumLength else m) = Z.min m maximumLength)
    by (destruct (Z.ltb_spec maximumLength m); lia).
  rewrite Hz. cbv zeta. by rewrite (bind_get_conn c cs).
Qed.

Lemma first_frames m :
  153 < m < 2 ^ 32 ->
  sendable (1, Mtversion (first_tversion m)) /\ sendable (1, Mrversion (first_rversion m)) /\
  frame_length (Mtversion (first_tversion m)) = 30 /\
  frame_length (Mrversion (first_rversion m)) = 30.
Proof.
  intros Hm.
  assert (Ht : frame_length (Mtversion (first_tversion m)) = 30) by reflexivity.
  assert (Hr : frame_length (Mrversion (first_rversion m)) = 30) by reflexivity.
  assert (H1 : u16 1) by done.
  assert (Hs : str16 (versionString version9P2000L highestSupportedVersion)) by done.
  unfold sendable. cbn [fst snd]. rewrite Ht, Hr. split_and!; try done.
  - split; [|exact Hs]. unfold u32, first_tversion. cbn [tversion_MSize]. lia.
  - split; [|exact Hs]. unfold u32, first_rversion, maximumLength. cbn [rversion_MSize]. lia.
Qed.

Lemma first_value m : call_value (received (Mrversion (first_rversion m))) = inl (Mrversion (first_rversion m)).
Proof. done. Qed.

End remote.

(** ** Concrete calls *)

(** A client of 64 KiB messages, and the toy server with nothing but the connection. *)
Definition remote_start : CSt (Peer := St nat toy_file * registry) :=
  mk_CSt example_Client [] (start_state, msgDotLRegistry) [].

Lemma remote_start_linked : linked 0%nat new_connState remote_start.
Proof.
  split; [reflexivity|reflexivity| |vm_compute; reflexivity].
  split; [exact (proj2 registry_init_ok)|reflexivity].
Qed.

Lemma remote_call_witness :
  linked 0%nat new_connState remote_start /\
  exists s' cs', sendRecv (server_write 0%nat) (toy_attach 1) (Mrattach rattach_zero) remote_start =
    CRet (inl (Mrattach (mk_rattach (mkQID 0 0 0)))) s' /\ linked 0%nat cs' s' /\
    tags cs' = tags new_connState.
Proof.
  split; [exact remote_start_linked|].
  assert (Hh : exists srv', handle 0%nat (toy_attach 1) [] (tag_started 0%nat new_connState 1 start_state)
    = Ret (Mrattach (mk_rattach (mkQID 0 0 0))) srv') by (eexists; vm_compute; reflexivity).
  destruct Hh as [srv' Hh].
  assert (Hst : sendable (1, toy_attach 1)).
  { split; [vm_compute; intuition discriminate|].
    split; [split; vm_compute; congruence|vm_compute; reflexivity]. }
  assert (Hsr : sendable (1, Mrattach (mk_rattach (mkQID 0 0 0)))).
  { split; [vm_compute; intuition discriminate|].
    split; [split; vm_compute; congruence|vm_compute; reflexivity]. }
  destruct (remote_call 0%nat new_connState remote_start (toy_attach 1) (Mrattach rattach_zero)
    (Mrattach (mk_rattach (mkQID 0 0 0))) 1 (mk_pool [] 2 noTag) srv' remote_start_linked
    eq_refl (not_elem_of_empty 1) ltac:(discriminate) (conj eq_refl eq_refl) Hst
    ltac:(vm_compute; discriminate) Hh Hsr ltac:(vm_compute; discriminate))
    as (s' & cs' & Hcall & _ & Hl & Ht & _).
  exists s', cs'. split; [exact Hcall|]. split; [exact Hl|exact Ht].
Defined.
