(* ===== verification/RemoteSession.v ===== *)
(** * A client's way to an open file

    The calls of a client that lead to a file it can read, over its connection to the
    server: negotiating the version, attaching, walking, opening. *)
From S2P Require Import Prelude Errno Buffer Types Messages Message Transport Version Pool.
From S2P Require Import File State PathTree FidRef Handlers Server Session Runs ServerRuns.
From S2P Require Import Reach Behaviour Promises Client Calls Chunk ClientFile ClientFiles ClientIO Remote.

Section session.
Context {W File : Type} {B : Backend W File} {RB : Returning B}.
Local Notation St := (St W File).
Local Notation CSt := (CSt (Peer := St * registry)).

(** The server's state with another one of a connection. *)
Definition on_conn (c : cid) (cs : connState) (s : St) : St :=
  mk_St (world s) (nodes s) (refHeap s) (<[c := cs]> (conns s)) (next_node s) (next_ref s) (trace s).

(** Only this request is active. *)
Definition only_tag (t : Z) (cs : connState) : connState := set_tags (fun _ => {[t]}) cs.

(** The two ends between the calls of a session: nothing is on its way. *)
Record idle (c : cid) (cs : connState) (s : CSt) : Prop := {
  id_linked : linked c cs s;
  id_active : tags cs = ∅;
  id_tags : pool_inv 1 noTag (tagPool (client s), []);
}.

(** An answer that reaches the client. *)
Definition answer_fits (s : CSt) (r : message) : Prop :=
  message_wf r /\ frame_length r <= Z.min maximumLength (cl_messageSize (client s)) /\
  server_read r = false.

(** A call, by what the server's handler does with the message. *)
Lemma server_call c cs s tm rm (Q : message -> St -> Prop) :
  idle c cs s -> handler (B := B) tm <> None -> receiver_for tm rm -> message_wf tm ->
  frame_length tm <= request_limit cs ->
  (forall t, runs (handle c tm [] (on_conn c (only_tag t cs) (peer s).1)) (fun r srv =>
     exists cs', conns srv !! c = Some (only_tag t cs') /\ tags cs' = ∅ /\ answer_fits s r /\
       Q r (on_conn c cs' srv))) ->
  exists s' r cs', sendRecv (server_write c) tm rm s = CRet (call_value (received r)) s' /\
    Q r (peer s').1 /\ idle c cs' s' /\ same_session (client s) (client s') /\ cfiles s' = cfiles s.
Proof.
  intros [Hl Ha Hp] Hh Hrm Hwf Hlim Hrun. destruct (tag_free _ Hp) as (t & pool & Hg & Ht & Hp').
  pose proof Hl as [Hpend Hin Hreg Hc].
  assert (Hstart : tag_started c cs t (peer s).1 = on_conn c (only_tag t cs) (peer s).1).
  { unfold tag_started, on_conn, only_tag, set_tags. by rewrite Ha, union_empty_r_L. }
  specialize (Hrun t). apply runs_ret in Hrun as (r & srv & Hret & cs1 & Hc1 & Ha1 & (Hrwf & Hrlen & Hrs) & HQ).
  rewrite <- Hstart in Hret.
  assert (Htm : sendable (t, tm)).
  { split; [exact Hwf|]. split; [unfold u16, noTag in *; cbn; lia|]. unfold request_limit, maximumLength in *. cbn. lia. }
  assert (Hsr : sendable (t, r)).
  { split; [exact Hrwf|]. split; [unfold u16, noTag in *; cbn; lia|]. unfold maximumLength in *. cbn. lia. }
  destruct (remote_call_returns c cs s tm rm r t pool srv) as (s' & cs' & Hcall & Hresp & Hl' & Ht' & Hpool & Hsame & Hfs);
    try done; [rewrite Ha; set_solver|].
  rewrite (respond_started c cs) in Hresp by (done || rewrite Ha; set_solver).
  unfold mbind at 1, M_bind at 1 in Hresp. rewrite Hret in Hresp.
  unfold mbind at 1, M_bind at 1 in Hresp. rewrite (run_ClearTag c (only_tag t cs1)) in Hresp by (done || cbn; set_solver).
  assert (Hpc : forall s0 : St, PayloadCleanup c r [] s0 = Ret tt s0) by (by destruct r).
  unfold mbind, M_bind in Hresp. rewrite Hpc in Hresp. injection Hresp as Hsrv.
  assert (Hback : set_tags (fun ts => ts ∖ {[t]}) (only_tag t cs1) = cs1).
  { destruct cs1. unfold only_tag, set_tags. cbn in *. f_equal. rewrite Ha1. set_solver. }
  rewrite Hback in Hsrv. change (on_conn c cs1 srv = (peer s').1) in Hsrv.
  exists s', r, cs1. split; [exact Hcall|]. rewrite <- Hsrv. split; [exact HQ|].
  assert (cs' = cs1) as ->.
  { pose proof (lk_conn _ _ _ Hl') as H. rewrite <- Hsrv in H. cbn in H. rewrite lookup_insert_eq in H. congruence. }
  split; [split; [done|done|by rewrite Hpool]|]. by split.
Qed.

Lemma idle_conn c cs cs' s : idle c cs s -> conns (peer s).1 !! c = Some cs' -> cs = cs'.
Proof. intros Hi H. pose proof (lk_conn _ _ _ (id_linked _ _ _ Hi)) as H'. congruence. Qed.

(** What a call needs is not changed by the files and the FIDs of the client. *)
Lemma idle_files c cs cl inp p fs cl' fs' :
  idle c cs (mk_CSt cl inp p fs) -> pending cl' = pending cl -> tagPool cl' = tagPool cl ->
  idle c cs (mk_CSt cl' inp p fs').
Proof.
  intros [[Hp Hi Hr Hc] Ha Ht] Hp' Ht'. cbn in *.
  split; [split|..]; cbn; try done; by rewrite ?Hp', ?Ht'.
Qed.

(** ** Negotiation *)

(** The client between two states of a session: all but the FIDs is as it was. *)
Definition keeps_client (s s' : CSt) : Prop :=
  cl_messageSize (client s') = cl_messageSize (client s) /\
  payloadSize (client s') = payloadSize (client s) /\ cl_version (client s') = cl_version (client s).

Lemma NewClient_runs c cs m s :
  153 < m < 2 ^ 32 -> input s = [] -> registry_full (peer s).2 ->
  conns (peer s).1 !! c = Some cs -> tags cs = ∅ -> messageSize cs = 0 ->
  exists s', NewClient (server_write c) (Some m) s = CRet (inl tt) s' /\
    (peer s').1 = on_conn c (negotiated m cs) (peer s).1 /\ idle c (negotiated m cs) s' /\
    same_session (set_cl_version highestSupportedVersion (new_Client m)) (client s') /\
    cfiles s' = cfiles s.
Proof.
  intros Hm Hi Hreg Hc Ha Hz. destruct (first_frames m Hm) as (Hst & Hsr & Hlt & Hlr).
  set (s0 := mk_CSt (new_Client m) (input s) (peer s) (cfiles s)).
  assert (Hidle : idle c cs s0).
  { split; [by split|done|]. apply pool_inv_init. done. }
  destruct (server_call c cs s0 (Mtversion (first_tversion m)) (Mrversion rversion_zero)
    (fun r srv => r = Mrversion (first_rversion m) /\ srv = on_conn c (negotiated m cs) (peer s).1))
    as (s1 & r & cs1 & Hcall & (-> & Hpeer) & Hidle1 & Hsame & Hfs); [done|done|done|apply Hst|
    unfold request_limit; rewrite Hz, Hlt; done| |].
  { intros t. rewrite (tversion_handled c (only_tag t cs)) by (lia || apply lookup_insert_eq).
    cbn. exists (negotiated m cs). split; [apply lookup_insert_eq|]. split; [done|]. split.
    - split; [apply Hsr|]. rewrite Hlr. cbn. split; [unfold maximumLength; lia|done].
    - split; [done|]. unfold on_conn. cbn. by rewrite !insert_insert_eq. }
  rewrite first_value in Hcall.
  unfold NewClient, WithMessageSize. rewrite largestFixedSize_153, (proj2 (Z.leb_gt m 153)) by lia.
  change (S (Z.to_nat highestSupportedVersion)) with 8%nat. cbn [negotiate].
  unfold mbind, CM_bind, modify at 1, get_client at 1. fold s0. cbv beta iota.
  change (cl_messageSize (client s0)) with m. fold (first_tversion m). rewrite Hcall.
  change (rversion_Version (first_rversion m)) with (versionString version9P2000L highestSupportedVersion).
  rewrite parse_first. eexists. split; [reflexivity|].
  assert (cs1 = negotiated m cs) as ->
    by (eapply idle_conn; [exact Hidle1|]; rewrite Hpeer; apply lookup_insert_eq).
  split; [exact Hpeer|]. destruct s1 as [cl1 inp1 p1 fs1]. split; [by eapply idle_files|].
  destruct Hsame as (H1 & H2 & H3 & H4). by repeat split.
Qed.

(** A new client and a new connection agree: [NewClient] succeeds in one round and both
  ends have the highest version. The server has the smaller of the client's message size
  and its own limit; the client keeps its own size, whatever the server said. *)
Theorem remote_negotiation c cs m s :
153 < m < 2 ^ 32 -> input s = [] -> registry_full (peer s).2 ->
conns (peer s).1 !! c = Some cs -> tags cs = ∅ -> messageSize cs = 0 ->
exists s' cs', NewClient (server_write c) (Some m) s = CRet (inl tt) s' /\
  linked c cs' s' /\ tags cs' = tags cs /\
  cl_version (client s') = highestSupportedVersion /\ version cs' = highestSupportedVersion /\
  cl_messageSize (client s') = m /\ messageSize cs' = Z.min m maximumLength.
Proof.
intros Hm Hi Hreg Hc Ht Hz.
destruct (NewClient_runs c cs m s Hm Hi Hreg Hc Ht Hz) as (s' & Hn & _ & [Hl _ _] & (_ & H2 & _ & H4) & _).
exists s', (negotiated m cs). by split_and!.
Qed.

(** ** Attach *)

Lemma wf_tattach fid : u32 fid -> message_wf (Mtattach (mk_tattach fid (mk_tauth noFID EmptyString EmptyString NoUID))).
Proof. intros H. repeat split; try done; unfold u32 in H; cbn; lia. Qed.

Lemma Attach_runs c cs s fid pool sf qid valid attr w1 w2 :
  let srv := (peer s).1 in
  idle c cs s -> Get (fidPool (client s)) = (Some fid, pool) -> u32 fid -> fids cs !! fid = None ->
  38 <= request_limit cs -> 20 <= cl_messageSize (client s) ->
  exec FAttach (world srv) = (inl sf, w1) ->
  exec (FGetAttr sf AttrMaskAll) w1 = (inl (qid, valid, attr), w2) -> AM_Mode valid = true ->
  message_wf (Mrattach (mk_rattach qid)) ->
  exists s' tr, Attach (server_write c) EmptyString s = CRet (inl (length (cfiles s))) s' /\
    let cs' := set_fids (<[fid := next_ref srv]>) cs in
    (peer s').1 = mk_St w2 (nodes srv) (<[next_ref srv := root_ref sf attr]> (refHeap srv))
      (<[c := cs']> (conns srv)) (next_node srv) (S (next_ref srv)) tr /\
    idle c cs' s' /\ fidPool (client s') = pool /\ keeps_client s s' /\
    cfiles s' = cfiles s ++ [mk_clientFile fid false].
Proof.
  intros srv Hidle Hg Hfid Hnew Hlim Hsize Hat Hga Hv Hqid.
  set (cs' := set_fids (<[fid := next_ref srv]>) cs).
  set (s1 := mk_CSt (set_fidPool pool (client s)) (input s) (peer s) (cfiles s)).
  assert (Hidle1 : idle c cs s1) by (destruct s; by eapply idle_files).
  destruct (server_call c cs s1 (Mtattach (mk_tattach fid (mk_tauth noFID EmptyString EmptyString NoUID)))
    (Mrattach rattach_zero) (fun r srv' => r = Mrattach (mk_rattach qid) /\ exists tr,
       srv' = mk_St w2 (nodes srv) (<[next_ref srv := root_ref sf attr]> (refHeap srv))
         (<[c := cs']> (conns srv)) (next_node srv) (S (next_ref srv)) tr))
    as (s2 & r & cs2 & Hcall & (-> & tr & Hpeer) & Hidle2 & (Hs1 & Hs2 & Hs3 & Hs4) & Hfs);
    [done|done|done|by apply wf_tattach|by transitivity 38| |].
  { intros t. eapply handle_returns; [done|]. eapply runs_conseq; [eapply attach_runs; [cbn; apply lookup_insert_eq|exact Hnew|exact Hat|exact Hga|exact Hv]|].
    intros r srv' [-> [tr ->]]. exists cs'. cbn. rewrite insert_insert_eq. split; [apply lookup_insert_eq|].
    split; [apply Hidle|]. split; [split; [exact Hqid|]; split; [change (20 <= Z.min maximumLength (cl_messageSize (client s))); unfold maximumLength; lia|done]|].
    split; [done|]. exists tr. unfold on_conn. cbn. by rewrite insert_insert_eq. }
  assert (cs2 = cs') as -> by (eapply idle_conn; [exact Hidle2|]; rewrite Hpeer; apply lookup_insert_eq).
  unfold Attach, mbind, CM_bind, GetFID. rewrite Hg. fold s1. rewrite Hcall. cbn [call_value received].
  unfold newFile. cbv beta iota. rewrite Hfs. eexists _, tr. split; [reflexivity|]. cbn [peer client cfiles].
  split; [exact Hpeer|]. split; [destruct s2; by eapply idle_files|].
  split; [exact Hs1|]. by split.
Qed.

(** ** Walk *)

Lemma wf_twalk fid newFID name :
  u32 fid -> u32 newFID -> str16 name -> message_wf (Mtwalk (mk_twalk fid newFID [name])).
Proof. intros H1 H2 H3. split; [done|]. split; [done|]. split; [done|]. by apply Forall_singleton. Qed.

Lemma twalk_frame_length fid newFID name :
  frame_length (Mtwalk (mk_twalk fid newFID [name])) = 19 + Z.of_nat (String.length name).
Proof.
  set (t := mk_twalk fid newFID [name]).
  set (bs := le_bytes 4 (wrap32 fid) ++ le_bytes 4 (wrap32 newFID) ++ le_bytes 2 (wrap16 1)
    ++ (le_bytes 2 (wrap16 (Z.of_nat (String.length name))) ++ bytes_of_string name) ++ []).
  assert (Hw : Buffer.writes (twalk_encode t) bs).
  { do 3 (apply Buffer.writes_bind; [intros b; reflexivity|]).
    apply Buffer.writes_bind; [apply WriteString_bytes|]. intros [d ov]. cbn. by rewrite app_nil_r. }
  assert (He : message_encode (Mtwalk t) (Buffer [] false) = (Mtwalk t, Buffer bs false)).
  { cbn [message_encode]. unfold fmap, BufM_fmap. cbn. unfold keep, mbind, BufM_bind. by rewrite Hw. }
  assert (Hf : fixed_bytes (Mtwalk t) = bs) by (unfold fixed_bytes; by rewrite He).
  assert (Hp : payload_bytes (Mtwalk t) = []) by (unfold payload_bytes; by rewrite He).
  unfold frame_length. rewrite Hf, Hp. unfold bs. rewrite !length_app, !length_le_bytes, length_bytes_of_string.
  unfold headerLength. cbn [length]. lia.
Qed.

Lemma Walk_runs c cs s n fid newFID name r fr nd w' qid sf attr pool :
  let srv := (peer s).1 in
  idle c cs s -> cfiles s !! n = Some (mk_clientFile fid false) ->
  Get (fidPool (client s)) = (Some newFID, pool) -> u32 fid -> u32 newFID -> str16 name ->
  fids cs !! newFID = None ->
  19 + Z.of_nat (String.length name) <= request_limit cs -> 22 <= cl_messageSize (client s) ->
  walk_from c fid name srv cs r fr nd -> finds (file fr) name (world srv) w' qid sf attr ->
  QID_wf qid ->
  exists s', clientFile_Walk (server_write c) n [name] s = CRet (inl ([qid], length (cfiles s))) s' /\
    let cs' := set_fids (<[newFID := next_ref srv]>) cs in
    idle c cs' s' /\ world (peer s').1 = w' /\
    refHeap (peer s').1 !! next_ref srv = Some (walked_ref sf attr (next_node srv) r) /\
    nodes (peer s').1 !! next_node srv = Some newPathNode /\
    fidPool (client s') = pool /\ keeps_client s s' /\
    cfiles s' = cfiles s ++ [mk_clientFile newFID false].
Proof.
  intros srv Hidle Hn Hg Hfid Hnfid Hname Hnew Hlim Hsize Hwk Hfi Hqid.
  set (cs' := set_fids (<[newFID := next_ref srv]>) cs).
  set (s1 := mk_CSt (set_fidPool pool (client s)) (input s) (peer s) (cfiles s)).
  assert (Hidle1 : idle c cs s1) by (destruct s; by eapply idle_files).
  destruct (server_call c cs s1 (Mtwalk (mk_twalk fid newFID [name])) (Mrwalk rwalk_zero)
    (fun m srv' => m = Mrwalk (mk_rwalk [qid]) /\ conns srv' !! c = Some cs' /\ world srv' = w' /\
       refHeap srv' !! next_ref srv = Some (walked_ref sf attr (next_node srv) r) /\
       nodes srv' !! next_node srv = Some newPathNode))
    as (s2 & m & cs2 & Hcall & (-> & Hc2 & Hw2 & Hr2 & Hn2) & Hidle2 & (Hs1 & Hs2 & Hs3 & Hs4) & Hfs);
    [done|done|done|by apply wf_twalk|by rewrite twalk_frame_length| |].
  { intros t. eapply handle_returns; [done|]. eapply runs_conseq.
    - eapply (twalk_runs c fid name newFID (on_conn c (only_tag t cs) srv) (only_tag t cs) r fr nd); [|exact Hnew|exact Hfi].
      destruct Hwk. split; try done. apply lookup_insert_eq.
    - intros m srv' (-> & Hw & Hc & Hr & Hnd). exists cs'. split; [exact Hc|]. split; [apply Hidle|].
      split; [split; [split; [done|by apply Forall_singleton]|]; split;
        [change (22 <= Z.min maximumLength (cl_messageSize (client s))); unfold maximumLength; lia|done]|].
      split; [done|]. split; [apply lookup_insert_eq|]. by split_and!. }
  assert (cs2 = cs') as -> by (by eapply idle_conn).
  unfold clientFile_Walk, check_open. rewrite Hn. cbn [cf_closed cf_fid].
  unfold mbind, CM_bind, GetFID. rewrite Hg. fold s1. rewrite Hcall. cbn [call_value received rwalk_QIDs].
  unfold newFile. rewrite Hfs. eexists. split; [reflexivity|]. cbn [peer client cfiles].
  split; [destruct s2; by eapply idle_files|]. by split_and!.
Qed.

(** ** Open *)

Lemma Open_runs c cs s n fid flags r fr nd w' qid unit :
  let srv := (peer s).1 in
  idle c cs s -> cfiles s !! n = Some (mk_clientFile fid false) -> u32 fid -> u32 flags ->
  15 <= request_limit cs -> 24 <= cl_messageSize (client s) ->
  open_from c fid srv cs r fr nd -> exec (FOpen (file fr) flags) (world srv) = (inl (qid, unit), w') ->
  QID_wf qid -> u32 unit ->
  exists s', clientFile_Open (server_write c) n flags s = CRet (inl (qid, unit)) s' /\
    idle c cs s' /\ world (peer s').1 = w' /\
    refHeap (peer s').1 !! r = Some (set_opened flags fr) /\
    same_session (client s) (client s') /\ cfiles s' = cfiles s.
Proof.
  intros srv Hidle Hn Hfid Hflags Hlim Hsize Hop Hex Hqid Hunit.
  destruct (server_call c cs s (Mtlopen (mk_tlopen fid flags)) (Mrlopen rlopen_zero)
    (fun m srv' => m = Mrlopen (mk_rlopen qid unit) /\ conns srv' !! c = Some cs /\ world srv' = w' /\
       refHeap srv' !! r = Some (set_opened flags fr)))
    as (s2 & m & cs2 & Hcall & (-> & Hc2 & Hw2 & Hr2) & Hidle2 & Hsame & Hfs);
    [done|done|done|by split|by transitivity 15| |].
  { intros t. eapply handle_returns; [done|]. eapply runs_conseq.
    - eapply (tlopen_runs c fid flags (on_conn c (only_tag t cs) srv) (only_tag t cs) r fr nd); [|exact Hex].
      destruct Hop. split; try done. apply lookup_insert_eq.
    - intros m srv' (-> & Hw & Hc & Hr). exists cs. split; [rewrite Hc; apply lookup_insert_eq|]. split; [apply Hidle|].
      split; [split; [by split|]; split;
        [change (24 <= Z.min maximumLength (cl_messageSize (client s))); unfold maximumLength; lia|done]|].
      split; [done|]. split; [apply lookup_insert_eq|]. by split_and!. }
  assert (cs2 = cs) as -> by (by eapply idle_conn).
  unfold clientFile_Open, check_open. rewrite Hn. cbn [cf_closed cf_fid].
  unfold mbind, CM_bind. rewrite Hcall. exists s2. by split_and!.
Qed.
End session.

(** ** A concrete negotiation *)

(** With eight mebibytes the two ends differ: the server has four. *)
Lemma remote_negotiation_witness :
  exists s' cs', NewClient (server_write 0%nat) (Some (8 * 1024 * 1024)) remote_start
    = CRet (inl tt) s' /\
  cl_messageSize (client s') = 8 * 1024 * 1024 /\ messageSize cs' = 4 * 1024 * 1024.
Proof.
  destruct (remote_negotiation 0%nat new_connState (8 * 1024 * 1024) remote_start
    ltac:(lia) eq_refl (lk_registry _ _ _ remote_start_linked) (lk_conn _ _ _ remote_start_linked)
    eq_refl eq_refl) as (s' & cs' & Hn & _ & _ & _ & _ & Hc & Hs).
  exists s', cs'. split; [exact Hn|]. split; [exact Hc|exact Hs].
Defined.
