(* ===== verification/ServeBytes.v ===== *)
(** * Reading through a server

    A connection of a server, with a FID that is open on a file whose backend has its bytes,
    is what a client reads from: an instance of [ByteReader]. *)
From S2P Require Import Prelude Errno Buffer Types Messages Message Transport Version Pool.
From S2P Require Import File State PathTree FidRef Handlers Server Session Runs Client Calls Chunk ClientFile ClientFiles ClientIO Remote.

Local Notation len p := (Z.of_nat (length p)).

(** A backend with files whose bytes are known: [ReadAt] reads them, and says that they end
    or not, as it likes. *)
Class ByteFiles (W File : Type) {B : Backend W File} (file_bytes : W -> File -> option (list byte)) : Prop :=
  bf_read : forall w f bs p off, file_bytes w f = Some bs -> 0 <= off < 2 ^ 63 ->
    let d := take (length p) (drop (Z.to_nat off) bs) in
    exists err w', exec (FReadAt f p off) w = ((d ++ drop (length d) p, len d, err), w') /\
      (forall e, err = Some e -> Is e TEOF = true) /\ forall g, file_bytes w' g = file_bytes w g.

Section serve.
Context {W File : Type} {B : Backend W File} {RB : Returning B} (file_bytes : W -> File -> option (list byte)).
Context {BF : ByteFiles W File file_bytes}.
Local Notation St := (St W File).
Local Notation M := (M W File).
Implicit Types s : St.

(** The FID is open for reading, and the buffers of the connection are as large as the
    messages that were agreed on. *)
Record file_open (c : cid) (fid msize : Z) s (r : rid) (cs : connState) (fr : fidRef File) : Prop := {
  fo_conn : conns s !! c = Some cs;
  fo_fid : fids cs !! fid = Some r;
  fo_ref : refHeap s !! r = Some fr;
  fo_count : 1 <= refs fr;
  fo_opened : opened fr = true;
  fo_flags : Z.land (openFlags fr) OpenFlagsModeMask <> WriteOnly;
  fo_px : px_op (fr_pendingXattr fr) = xattrNone;
  fo_pool : exists bufs, readBufPool cs = Some (msize, bufs) /\ Forall (fun b => len b = msize) bufs;
  fo_msize : messageSize cs = msize /\ 23 <= msize <= maximumLength;
  fo_width : u32 fid;
}.

Definition pooled_conn (msize : Z) (cs cs' : connState) : Prop := exists bufs,
  cs' = set_readBufPool (Some (msize, bufs)) cs /\ Forall (fun b => len b = msize) bufs.

Lemma run_readBufPool_Get c cs msize bufs h s :
  conns s !! c = Some cs -> readBufPool cs = Some (msize, bufs) -> 0 <= msize ->
  Forall (fun b => len b = msize) bufs ->
  runs (readBufPool_Get c h s) (fun b s' => len b = msize /\ world s' = world s /\
    refHeap s' = refHeap s /\ exists cs', conns s' !! c = Some cs' /\ pooled_conn msize cs cs').
Proof.
  intros Hc Hp Hm Hb. unfold readBufPool_Get. eapply runs_get_conn; [exact Hc|]. rewrite Hp.
  destruct bufs as [|b bufs]; cbn.
  - split; [rewrite length_replicate; lia|]. split; [done|]. split; [done|]. exists cs. split; [done|].
    exists []. split; [|done]. destruct cs. cbn in Hp. by subst.
  - apply Forall_cons in Hb as [Hb Hbs]. split; [done|]. split; [done|]. split; [done|].
    eexists. split; [apply lookup_insert_eq|]. by exists bufs.
Qed.

Lemma run_slice_to {A} (b : list A) n h s : 0 <= n <= len b ->
  (slice_to b n : M _) h s = Ret (take (Z.to_nat n) b) s.
Proof.
  intros Hn. unfold slice_to. rewrite (proj2 (Z.ltb_ge _ _)), (proj2 (Z.ltb_ge _ _)) by lia. done.
Qed.

(** The closure of the handler: what it reads is at the head of the buffer. *)
Lemma tread_fn_runs fid off count r fr bs buf h s :
  refHeap s !! r = Some fr -> opened fr = true -> Z.land (openFlags fr) OpenFlagsModeMask <> WriteOnly ->
  px_op (fr_pendingXattr fr) = xattrNone -> file_bytes (world s) (file fr) = Some bs ->
  0 <= off < 2 ^ 63 -> 0 <= count <= len buf ->
  let d := take (Z.to_nat count) (drop (Z.to_nat off) bs) in
  runs (tread_fn (mk_tread fid off count) r buf h s) (fun '(buf', n, err) s' =>
    n = len d /\ take (length d) buf' = d /\ length buf' = length buf /\
    (forall e, err = Some e -> Is e TEOF = true) /\
    refHeap s' = refHeap s /\ conns s' = conns s /\
    forall g, file_bytes (world s') g = file_bytes (world s) g).
Proof.
  intros Hr Ho Hfl Hpx Hbs Hoff Hcount d. unfold tread_fn. eapply runs_get_ref; [exact Hr|].
  rewrite Hpx, Ho. cbn [negb]. rewrite (proj2 (Z.eqb_neq _ _)) by done. cbn [tread_Count tread_Offset].
  eapply runs_then; [by apply run_slice_to|]. set (p := take (Z.to_nat count) buf).
  assert (Hp : length p = Z.to_nat count) by (unfold p; rewrite length_take; lia).
  assert (Hsint : sint64 off = off) by (unfold sint64; rewrite Z.mod_small; lia). rewrite Hsint.
  destruct (bf_read (world s) (file fr) bs p off Hbs Hoff) as (err & w' & He & Heof & Hw).
  rewrite Hp in He. fold d in He. eapply runs_call; [exact He|]. cbn [runs mret M_ret].
  assert (Hd : (length d <= Z.to_nat count)%nat) by (unfold d; rewrite length_take; lia).
  assert (Hl : length (d ++ drop (length d) p) = length p) by (rewrite length_app, length_drop; lia).
  assert (Hcopy : Handlers.copy p (d ++ drop (length d) p) = d ++ drop (length d) p).
  { unfold Handlers.copy. by rewrite take_ge, Hl, drop_all, app_nil_r by (by rewrite Hl). }
  rewrite Hcopy. split; [done|]. split; [by rewrite <- app_assoc, take_app_length|].
  split; [|by split_and!]. rewrite length_app, Hl, length_drop, Hp. lia.
Qed.

(** ** [handle_tread] *)

(** What the connection may serve after a request as well. *)
Definition same_service (c : cid) (msize : Z) s (r : rid) (cs : connState) (fr : fidRef File) s' : Prop :=
  (exists cs', conns s' !! c = Some cs' /\ pooled_conn msize cs cs') /\
  refHeap s' !! r = Some fr /\ forall g, file_bytes (world s') g = file_bytes (world s) g.

Lemma handle_tread_runs c fid msize off count s r cs fr bs :
  file_open c fid msize s r cs fr -> file_bytes (world s) (file fr) = Some bs ->
  0 <= off < 2 ^ 63 -> 0 <= count <= msize ->
  let d := take (Z.to_nat count) (drop (Z.to_nat off) bs) in
  runs (handle_tread (mk_tread fid off count) c [] s) (fun m s' =>
    (exists buf, m = MrreadServerPayloader (mk_rreadServerPayloader (mk_rread d) buf) /\ len buf = msize) /\
    same_service c msize s r cs fr s').
Proof.
  intros [Hc Hf Hr Hk Ho Hfl Hpx (bufs & Hpool & Hbufs) [_ Hm] _] Hbs Hoff Hcount d.
  unfold handle_tread. cbn [tread_fid tread_Count]. eapply runs_with_fid; [exact Hc|exact Hf|exact Hr|].
  set (fr1 := set_refs (refs fr + 1) fr). set (s1 := with_refs s r fr (refs fr + 1)).
  rewrite (proj2 (Z.ltb_ge maximumLength count)) by lia.
  eapply runs_seq; [eapply (run_readBufPool_Get c cs msize bufs); [exact Hc|exact Hpool|lia|exact Hbufs]|].
  intros buf s2 (Hbuf & Hw2 & Hh2 & cs2 & Hc2 & Hp2).
  assert (Hr2 : refHeap s2 !! r = Some fr1) by (rewrite Hh2; apply lookup_insert_eq).
  eapply runs_seq; [eapply runs_safelyRead; [exact Hr2|]; eapply (tread_fn_runs fid off count r fr1 bs buf)|].
  - exact Hr2.
  - exact Ho.
  - exact Hfl.
  - exact Hpx.
  - by rewrite Hw2.
  - exact Hoff.
  - lia.
  - intros [[buf' n] err] s3 (-> & Hd & Hlen & Heof & Hh3 & Hc3 & Hw3). fold d in Hd, Hlen |- *.
    assert (Hn : 0 <= len d <= len buf').
    { rewrite Hlen, Hbuf. unfold d. rewrite length_take. lia. }
    assert (Hend : forall h, runs ((data ← slice_to buf' (len d);
      (mret (MrreadServerPayloader (mk_rreadServerPayloader (mk_rread data) buf')) : M _)) h s3)
      (fun m s' => exists fr', refHeap s' !! r = Some fr' /\ 2 <= refs fr' /\
        ((exists buf, m = MrreadServerPayloader (mk_rreadServerPayloader (mk_rread d) buf) /\ len buf = msize) /\
         same_service c msize s r cs fr (with_refs s' r fr' (refs fr' - 1))))).
    { intros h. eapply runs_then; [by apply run_slice_to|]. cbn [runs mret M_ret].
      exists fr1. split; [by rewrite Hh3|]. split; [cbn; lia|].
      rewrite Nat2Z.id, Hd. split; [exists buf'; split; [done|congruence]|].
      split; [exists cs2; split; [cbn; congruence|exact Hp2]|]. split.
      - cbn. rewrite lookup_insert_eq. f_equal. replace (refs fr + 1 - 1) with (refs fr) by lia. by destruct fr.
      - intros g. cbn. by rewrite Hw3, Hw2. }
    destruct err as [err|]; [rewrite (Heof err eq_refl)|]; apply Hend.
Qed.

(** ** A request on the connection *)

Definition up (c : cid) (fid msize : Z) (p : St * registry) : Prop :=
  registry_full p.2 /\ exists r cs fr, file_open c fid msize p.1 r cs fr /\ tags cs = ∅ /\
    is_Some (file_bytes (world p.1) (file fr)).

Definition fid_bytes (c : cid) (fid : Z) (p : St * registry) : list byte :=
  default [] (cs ← conns p.1 !! c; r ← fids cs !! fid; fr ← refHeap p.1 !! r;
              file_bytes (world p.1) (file fr)).

Lemma fid_bytes_open c fid msize p r cs fr bs :
  file_open c fid msize p.1 r cs fr -> file_bytes (world p.1) (file fr) = Some bs ->
  fid_bytes c fid p = bs.
Proof. intros [Hc Hf Hr _ _ _ _ _ _ _] Hb. unfold fid_bytes. rewrite Hc. cbn. rewrite Hf. cbn. by rewrite Hr; cbn; rewrite Hb. Qed.

(** The buffer that goes back to the pool has its length. *)
Lemma cleaned_length d buf zeros :
  (length d <= length buf)%nat ->
  length (rreadServerPayloader_PayloadCleanup (mk_rreadServerPayloader (mk_rread d) buf) zeros) = length buf.
Proof.
  intros Hd. unfold rreadServerPayloader_PayloadCleanup. cbn. rewrite length_app, length_replicate, length_drop. lia.
Qed.

Lemma frame_read_reply t d buf :
  frame t (MrreadServerPayloader (mk_rreadServerPayloader (mk_rread d) buf)) = frame t (Mrread (mk_rread d)).
Proof. by rewrite !frame_eq. Qed.

#[export] Instance server_reads c fid msize :
  ByteReader (server_write c) fid msize (up c fid msize) (fid_bytes c fid).
Proof.
  intros t off count [srv reg] (Hreg & r & cs & fr & Ho & Htags & [bs Hbs]) Ht Hoff Hcount Hlen.
  cbn [fst snd] in *. pose proof Ho as [Hc Hf Hr Hk Hop Hfl Hpx Hpool [Hms Hmb] Hfid].
  rewrite (fid_bytes_open _ _ _ (srv, reg) _ _ _ _ Ho Hbs).
  set (d := take (Z.to_nat count) (drop (Z.to_nat off) bs)).
  assert (Hmax : maximumLength = 4194304) by done.
  assert (Hsend : sendable (t, Mtread (mk_tread fid off count))).
  { split; [|split; [unfold u16, noTag in *; cbn; lia|done]]. cbn. split; [done|]. unfold u64, u32. cbn. lia. }
  pose proof (handleRequest_frame c t (Mtread (mk_tread fid off count)) [] reg cs srv Hsend Hreg Hc) as Hone.
  cbv zeta in Hone. rewrite Hms, tread_frame_length in Hone. rewrite (proj2 (Z.eqb_neq msize 0)) in Hone by lia.
  rewrite (proj2 (Z.ltb_ge _ _)) in Hone by lia. rewrite app_nil_r in Hone. destruct Hone as (reg' & Hreg' & Hone).
  set (cst := set_tags (fun ts => {[t]} ∪ ts) cs). set (srv1 := tag_started c cs t srv).
  assert (Ho1 : file_open c fid msize srv1 r cst fr).
  { split; try done. apply lookup_insert_eq. }
  assert (Hrun : runs (respond c t (Mtread (mk_tread fid off count)) [] srv) (fun out s' =>
    out = frame t (Mrread (mk_rread d)) /\ exists cs', file_open c fid msize s' r cs' fr /\ tags cs' = ∅ /\
      forall g, file_bytes (world s') g = file_bytes (world srv) g)).
  { rewrite (respond_started c cs) by (done || rewrite Htags; set_solver). fold srv1.
    eapply runs_seq; [eapply handle_returns; [done|];
      eapply (handle_tread_runs c fid msize off count srv1 r cst fr bs); [exact Ho1|exact Hbs|exact Hoff|lia]|].
    fold d. intros m s2 ((buf & -> & Hbuf) & (cs2 & Hc2 & bufs2 & -> & Hb2) & Hr2 & Hw2).
    eapply runs_then; [eapply run_ClearTag; [exact Hc2|cbn; set_solver]|].
    unfold PayloadCleanup. apply runs_bind. eapply runs_get_conn; [apply lookup_insert_eq|].
    cbv zeta. cbn [readBufPool set_tags set_readBufPool pristineZeros]. cbn [runs set_conn mret M_ret].
    split; [apply frame_read_reply|]. eexists. split; [split|split].
    - cbn. apply lookup_insert_eq.
    - exact Hf.
    - exact Hr2.
    - exact Hk.
    - exact Hop.
    - exact Hfl.
    - exact Hpx.
    - eexists. split; [reflexivity|]. apply Forall_cons. split; [|exact Hb2].
      transitivity (len buf); [|done]. f_equal. apply (cleaned_length d). unfold d. rewrite length_take. lia.
    - split; [exact Hms|lia].
    - exact Hfid.
    - cbn. rewrite Htags. set_solver.
    - exact Hw2. }
  apply runs_ret in Hrun as (out & srv2 & Hresp & -> & cs2 & Ho2 & Ht2 & Hw2).
  exists (srv2, reg' (frame t (Mrread (mk_rread d)))). split; [|split].
  - unfold server_write. rewrite Hone. cbn [received]. unfold mbind, M_bind. by rewrite Hresp.
  - rewrite (fid_bytes_open _ _ _ (srv2, _) _ _ _ bs Ho2); [done|]. cbn. by rewrite Hw2.
  - split; [apply Hreg'|]. exists r, cs2, fr. split; [exact Ho2|]. split; [done|]. cbn. rewrite Hw2. by eexists.
Qed.
End serve.
