(* ===== verification/Multiplex.v ===== *)
(** * Concurrent calls of one client ([sendRecv], [waitAndRecv] and [handleOne] of
      [p9/client.go])

    Goroutines that call [sendRecv] at the same time share the connection: each registers
    a response under its tag, sends, and waits; whichever waits receives, for itself or
    for another. A call is a small state machine whose steps are what the code does
    atomically, under a lock or with the receive token. Response objects come from a pool,
    so a call may get one that another call has used. The steps have two parameters:
    whether a write may fail, and whether the peer may send any bytes and end the
    connection, or only answers the requests that it got, in any order. *)
From S2P Require Import Prelude Errno Buffer Types Messages Message Transport Version Pool.
From S2P Require Import Session Client Calls.

(** ** Calls *)

Inductive phase :=
| Starting
| Tagged (t : Z)                   (* has its tag *)
| Expecting (t : Z) (i : nat)      (* its response [i] is pending under [t] *)
| Waiting (t : Z) (i : nat)        (* the request is sent *)
| Returned (res : message + error).

Record call := mk_call { c_request : message; c_receiver : message; c_phase : phase }.

Definition tag_of (p : phase) : option Z :=
  match p with Tagged t | Expecting t _ | Waiting t _ => Some t | _ => None end.
Definition id_of (p : phase) : option nat :=
  match p with Expecting _ i | Waiting _ i => Some i | _ => None end.
Definition phase_tag (c : call) : option Z := tag_of (c_phase c).
Definition phase_response (c : call) : option nat := id_of (c_phase c).

Definition set_phase (p : phase) (c : call) : call := mk_call (c_request c) (c_receiver c) p.

Record MSt := mk_MSt {
  mclient : Client;
  (* the bytes from the peer that were not received yet *)
  minput : list byte;
  mcalls : list call;
  (* the requests that the peer has not answered yet *)
  asked : list (Z * message);
}.

Definition set_mclient (c : Client) (s : MSt) : MSt := mk_MSt c (minput s) (mcalls s) (asked s).
Definition set_call (k : nat) (c : call) (s : MSt) : MSt :=
  mk_MSt (mclient s) (minput s) (<[k := c]> (mcalls s)) (asked s).

(** [responsePool.Get] and [resp.r = rm]: a new response, or one that no call holds. What is
    in the channel of an old one stays there. *)
Definition takes_response (calls : list call) (rm : message) (c : Client) (i : nat) (cl : Client)
    : Prop :=
  new_response rm c = (i, cl) \/
  exists resp, responses c !! i = Some resp /\ i ∉ omap phase_response calls /\
    cl = set_responses (<[i := mk_response rm (resp_done resp)]> (responses c)) c.

(** What a call makes of its response. *)
Definition call_outcome (r : message) (err : option error) : message + error :=
  match err with Some err => inr (Wrap err) | None => call_value r end.

Section multiplex.
(** What the peer answers to a request, and how many calls there are. *)
Context (answer : message -> message) (n : nat).

Section steps.
(** Whether a write may fail, and whether the peer may do anything. *)
Context (writes_fail any_peer : bool).

Inductive mstep : MSt -> MSt -> Prop :=
| m_tag k c t p s :
    mcalls s !! k = Some c -> c_phase c = Starting -> Get (tagPool (mclient s)) = (Some t, p) ->
    mstep s (set_call k (set_phase (Tagged t) c) (set_mclient (set_tagPool p (mclient s)) s))
| m_no_tag k c p s :
    mcalls s !! k = Some c -> c_phase c = Starting -> Get (tagPool (mclient s)) = (None, p) ->
    mstep s (set_call k (set_phase (Returned (inr ErrOutOfTags)) c) s)
| m_expect k c t i cl s :
    mcalls s !! k = Some c -> c_phase c = Tagged t ->
    takes_response (mcalls s) (c_receiver c) (mclient s) i cl ->
    mstep s (set_call k (set_phase (Expecting t i) c)
      (set_mclient (set_pending (<[t := i]> (pending cl)) cl) s))
| m_send k c t i s :
    mcalls s !! k = Some c -> c_phase c = Expecting t i ->
    mstep s (mk_MSt (mclient s) (minput s) (<[k := set_phase (Waiting t i) c]> (mcalls s))
      ((t, c_request c) :: asked s))
| m_send_fails k c t i err s :
    (* the tag and the response go back to their pools; the response stays pending *)
    writes_fail = true -> mcalls s !! k = Some c -> c_phase c = Expecting t i ->
    mstep s (set_call k (set_phase (Returned (inr (Wrap (ConnError err)))) c)
      (set_mclient (set_tagPool (Put t (tagPool (mclient s))) (mclient s)) s))
| m_answer l1 t m l2 s :
    asked s = l1 ++ (t, m) :: l2 ->
    mstep s (mk_MSt (mclient s) (minput s ++ frame t (answer m)) (mcalls s) (l1 ++ l2))
| m_bytes bs s :
    any_peer = true -> mstep s (mk_MSt (mclient s) (minput s ++ bs) (mcalls s) (asked s))
| m_receive k c t i rm cl rest s :
    (* it got the token, its response is not there, and there is something to receive, or
       the connection ended *)
    mcalls s !! k = Some c -> c_phase c = Waiting t i ->
    responses (mclient s) !! i = Some (mk_response rm None) ->
    minput s <> [] \/ any_peer = true ->
    handleOne (mclient s) (minput s) = Done (cl, rest) ->
    mstep s (mk_MSt cl rest (mcalls s) (asked s))
| m_return k c t i r err s :
    mcalls s !! k = Some c -> c_phase c = Waiting t i ->
    responses (mclient s) !! i = Some (mk_response r (Some err)) ->
    mstep s (set_call k (set_phase (Returned (call_outcome r err)) c)
      (set_mclient (set_tagPool (Put t (tagPool (mclient s)))
        (set_responses (<[i := mk_response r None]> (responses (mclient s))) (mclient s))) s)).
End steps.

(** ** Lists of calls *)

Lemma omap_insert {A D} (f : A -> option D) (l : list A) k x y :
  l !! k = Some x -> exists rest,
    omap f l ≡ₚ option_list (f x) ++ rest /\ omap f (<[k := y]> l) ≡ₚ option_list (f y) ++ rest.
Proof.
  intros Hk. pose proof (take_drop_middle _ _ _ Hk) as E.
  exists (omap f (take k l) ++ omap f (drop (S k) l)).
  assert (Hl : (k < length l)%nat) by by apply lookup_lt_Some in Hk.
  assert (Hm : forall z, omap f (take k l ++ z :: drop (S k) l) ≡ₚ
    option_list (f z) ++ omap f (take k l) ++ omap f (drop (S k) l)).
  { intros z. rewrite (cons_middle z), !omap_app. cbn.
    destruct (f z); cbn; [|done]. by rewrite <- Permutation_middle. }
  split; [rewrite <- E at 1; apply Hm|]. rewrite insert_take_drop by done. apply Hm.
Qed.

Lemma omap_inj {A D} (f : A -> option D) (l : list A) k k' x y z :
  NoDup (omap f l) -> l !! k = Some x -> l !! k' = Some y -> f x = Some z -> f y = Some z -> k = k'.
Proof.
  revert k k'. induction l as [|w l IH]; intros k k' Hnd Hk Hk' Hx Hy; [done|].
  assert (Hin : forall j v, l !! j = Some v -> f v = Some z -> z ∈ omap f l).
  { intros j v Hj Hv. apply list_elem_of_omap. exists v. split; [|done]. by eapply list_elem_of_lookup_2. }
  cbn in Hnd. destruct k as [|k], k' as [|k']; cbn in Hk, Hk'.
  - done.
  - injection Hk as ->. rewrite Hx in Hnd. apply NoDup_cons in Hnd as [Hn _]. exfalso. eauto.
  - injection Hk' as ->. rewrite Hy in Hnd. apply NoDup_cons in Hnd as [Hn _]. exfalso. eauto.
  - f_equal. apply (IH k k'); try done. destruct (f w); [by apply NoDup_cons in Hnd as [_ ?]|done].
Qed.

Lemma lookup_set {A} (l : list A) k x y j z :
  l !! k = Some x -> <[k := y]> l !! j = Some z -> (j = k /\ z = y) \/ (j <> k /\ l !! j = Some z).
Proof.
  intros Hk Hj. destruct (decide (j = k)) as [->|Hne].
  - rewrite list_lookup_insert_eq in Hj by by apply lookup_lt_Some in Hk. left. by injection Hj.
  - rewrite list_lookup_insert_ne in Hj by done. by right.
Qed.

(** The tags and the responses of the calls when one of them moves on. *)
Lemma phase_lists calls k c p q :
  calls !! k = Some c -> c_phase c = p -> exists r1 r2,
  omap phase_tag calls ≡ₚ option_list (tag_of p) ++ r1 /\
  omap phase_tag (<[k := set_phase q c]> calls) ≡ₚ option_list (tag_of q) ++ r1 /\
  omap phase_response calls ≡ₚ option_list (id_of p) ++ r2 /\
  omap phase_response (<[k := set_phase q c]> calls) ≡ₚ option_list (id_of q) ++ r2.
Proof.
  intros Hk <-. destruct (omap_insert phase_tag calls k c (set_phase q c) Hk) as (r1 & H1 & H2).
  destruct (omap_insert phase_response calls k c (set_phase q c) Hk) as (r2 & H3 & H4).
  by exists r1, r2.
Qed.

(** ** Tags and responses, whatever the peer and the connection do *)

Record winv (s : MSt) : Prop := {
  wi_tags : pool_inv 1 noTag (tagPool (mclient s), omap phase_tag (mcalls s));
  wi_ids : NoDup (omap phase_response (mcalls s));
  wi_used : forall i, i ∈ omap phase_response (mcalls s) -> is_Some (responses (mclient s) !! i);
  wi_next : forall i, is_Some (responses (mclient s) !! i) -> (i < next_response (mclient s))%nat;
}.

(** The tags of two calls differ, and so do their responses. *)
Lemma tags_differ s k k' c c' t :
  winv s -> mcalls s !! k = Some c -> mcalls s !! k' = Some c' ->
  phase_tag c = Some t -> phase_tag c' = Some t -> k = k'.
Proof.
  intros Hi Hk Hk'. destruct (pool_out_inv 1 noTag _ _ ltac:(done) ltac:(done) (wi_tags _ Hi)) as (Hnd & _).
  by apply (omap_inj phase_tag (mcalls s)).
Qed.
Lemma responses_differ s k k' c c' i :
  winv s -> mcalls s !! k = Some c -> mcalls s !! k' = Some c' ->
  phase_response c = Some i -> phase_response c' = Some i -> k = k'.
Proof. intros Hi Hk Hk'. apply (omap_inj phase_response (mcalls s)); [apply (wi_ids _ Hi)|done..]. Qed.

Lemma held_response s k c i :
  mcalls s !! k = Some c -> phase_response c = Some i -> i ∈ omap phase_response (mcalls s).
Proof. intros Hk Hc. apply list_elem_of_omap. exists c. split; [by eapply list_elem_of_lookup_2|done]. Qed.

(** What a call gets from the pool. *)
Lemma takes_spec s rm i cl :
  winv s -> takes_response (mcalls s) rm (mclient s) i cl ->
  i ∉ omap phase_response (mcalls s) /\ tagPool cl = tagPool (mclient s) /\
  pending cl = pending (mclient s) /\ cl_messageSize cl = cl_messageSize (mclient s) /\
  (exists d, responses cl = <[i := mk_response rm d]> (responses (mclient s)) /\
     (d = None \/ exists r, responses (mclient s) !! i = Some (mk_response r d))) /\
  (forall j, is_Some (responses cl !! j) -> (j < next_response cl)%nat).
Proof.
  intros Hw [[= <- <-]|([r d] & Hr & Hi & ->)]; cbn; split_and!; try done.
  - intros Hi. apply (wi_used _ Hw), (wi_next _ Hw) in Hi. lia.
  - exists None. split; [done|by left].
  - intros j [x Hx]. apply lookup_insert_Some in Hx as [[<- _]|[_ Hx]]; [lia|].
    assert (j < next_response (mclient s))%nat; [apply (wi_next _ Hw); by eexists|lia].
  - exists d. split; [done|]. right. by exists r.
  - intros j [x Hx]. apply lookup_insert_Some in Hx as [[<- _]|[_ Hx]]; apply (wi_next _ Hw); by eexists.
Qed.

(** Receiving leaves the objects where they are. *)
Lemma notify_dom ids err rs rs' :
  notify ids err rs = Done rs' -> forall i, is_Some (rs' !! i) <-> is_Some (rs !! i).
Proof.
  revert rs. induction ids as [|j ids IH]; intros rs; cbn [notify]; [by intros [= ->]|].
  destruct (rs !! j) as [[r [d|]]|] eqn:Ej; try discriminate. cbn. intros Hn i.
  rewrite (IH _ Hn i). destruct (decide (i = j)) as [->|Hne].
  - by rewrite lookup_insert_eq, Ej.
  - by rewrite lookup_insert_ne by done.
Qed.

Lemma handleOne_dom c inp c' rest :
  handleOne c inp = Done (c', rest) -> tagPool c' = tagPool c /\
  next_response c' = next_response c /\ forall i, is_Some (responses c' !! i) <-> is_Some (responses c !! i).
Proof.
  unfold handleOne. destruct (recv _ _ _ _) as [[[t [r|err]] rest'] []].
  - destruct (pending c !! t) as [i|]; [|discriminate]. cbn [set_pending responses].
    destruct (responses c !! i) as [[r' [d|]]|] eqn:Ei; try discriminate. cbn.
    intros [= <- <-]. split; [done|]. split; [done|]. intros j. cbn.
    destruct (decide (j = i)) as [->|Hne]; [by rewrite lookup_insert_eq, Ei|].
    by rewrite lookup_insert_ne.
  - destruct (notify _ _ _) as [rs| |] eqn:En; try discriminate. intros [= <- <-].
    split; [done|]. split; [done|]. cbn. by eapply notify_dom.
Qed.

(** One call moves on. *)
Lemma winv_set k c q cl inp a s :
  winv s -> mcalls s !! k = Some c ->
  (forall r, pool_inv 1 noTag (tagPool (mclient s), option_list (phase_tag c) ++ r) ->
     pool_inv 1 noTag (tagPool cl, option_list (tag_of q) ++ r)) ->
  id_of q = phase_response c \/ id_of q = None \/
    (exists i, id_of q = Some i /\ i ∉ omap phase_response (mcalls s) /\ is_Some (responses cl !! i)) ->
  (forall i, is_Some (responses (mclient s) !! i) -> is_Some (responses cl !! i)) ->
  (forall i, is_Some (responses cl !! i) -> (i < next_response cl)%nat) ->
  winv (mk_MSt cl inp (<[k := set_phase q c]> (mcalls s)) a).
Proof.
  intros [Htags Hids Hused Hnext] Hk Htag Hid Hsub Hlt.
  destruct (phase_lists (mcalls s) k c _ q Hk eq_refl) as (r1 & r2 & Hr1 & Hr1' & Hr2 & Hr2').
  change (tag_of (c_phase c)) with (phase_tag c) in Hr1. change (id_of (c_phase c)) with (phase_response c) in Hr2.
  assert (Hr : r2 ⊆ omap phase_response (mcalls s)).
  { intros x Hx. rewrite Hr2. apply elem_of_app. by right. }
  split; cbn [mclient mcalls]; [| | |exact Hlt].
  - apply (pool_inv_perm 1 noTag _ (option_list (tag_of q) ++ r1)); [by rewrite Hr1'|].
    apply Htag. by apply (pool_inv_perm 1 noTag _ (omap phase_tag (mcalls s))).
  - rewrite Hr2'. destruct Hid as [E|[E|(i & E & Hi & _)]]; rewrite E.
    + by rewrite <- Hr2.
    + cbn. rewrite Hr2 in Hids. by apply NoDup_app in Hids as (_ & _ & ?).
    + cbn. apply NoDup_cons. split; [intros H; by apply Hi, Hr|].
      rewrite Hr2 in Hids. by apply NoDup_app in Hids as (_ & _ & ?).
  - intros x. rewrite Hr2', elem_of_app. intros [Hx|Hx]; [|by apply Hsub, Hused, Hr].
    destruct Hid as [E|[E|(i & E & _ & Hi)]]; rewrite E in Hx.
    + apply Hsub, Hused. rewrite Hr2, elem_of_app. by left.
    + by apply elem_of_nil in Hx.
    + cbn in Hx. apply elem_of_cons in Hx as [->|Hx]; [done|by apply elem_of_nil in Hx].
Qed.

Lemma pool_inv_Get t r p p' :
  Get p = (Some t, p') -> pool_inv 1 noTag (p, r) -> pool_inv 1 noTag (p', t :: r).
Proof.
  intros Hg H. eapply (pool_inv_step 1 noTag); [done|done|exact H|by apply step_Get].
Qed.
Lemma pool_inv_Put t r p :
  pool_inv 1 noTag (p, [t] ++ r) -> pool_inv 1 noTag (Put t p, r).
Proof.
  intros H. eapply (pool_inv_step 1 noTag); [done|done|exact H|apply (step_Put _ t [] r)].
Qed.

Lemma winv_step writes_fail any_peer s s' : winv s -> mstep writes_fail any_peer s s' -> winv s'.
Proof.
  intros Hw Hstep. pose proof (wi_next _ Hw) as Hnext.
  destruct Hstep as [k c t p s Hk Hp Hg|k c p s Hk Hp Hg|k c t i cl s Hk Hp Hr|k c t i s Hk Hp|
    k c t i err s _ Hk Hp|l1 t m l2 s Ha|bs s Hany|k c t i rm cl rest s Hk Hp Hr Hne Hone|
    k c t i r err s Hk Hp Hr].
  - apply (winv_set k c _ _ _ _ s Hw Hk); cbn; auto. unfold phase_tag. rewrite Hp. intros r. by apply pool_inv_Get.
  - apply (winv_set k c _ _ _ _ s Hw Hk); cbn; auto. unfold phase_tag. by rewrite Hp.
  - destruct (takes_spec s _ i cl Hw Hr) as (Hi & Ht & _ & _ & (d & Hrs & _) & Hlt).
    apply (winv_set k c _ _ _ _ s Hw Hk); cbn; [| | |exact Hlt].
    + unfold phase_tag. by rewrite Hp, Ht.
    + right. right. exists i. split; [done|]. split; [done|]. rewrite Hrs, lookup_insert_eq. by eexists.
    + intros j Hj. rewrite Hrs. by apply lookup_insert_is_Some'; right.
  - apply (winv_set k c _ _ _ _ s Hw Hk); cbn; auto.
    + unfold phase_tag. by rewrite Hp.
    + left. unfold phase_response. by rewrite Hp.
  - apply (winv_set k c _ _ _ _ s Hw Hk); cbn; auto.
    unfold phase_tag. rewrite Hp. intros r. apply pool_inv_Put.
  - destruct Hw. by split.
  - destruct Hw. by split.
  - destruct (handleOne_dom _ _ _ _ Hone) as (Ht & Hn & Hd). destruct Hw as [Htags Hids Hused _].
    split; cbn [mclient mcalls]; [by rewrite Ht|done| |].
    + intros j Hj. apply Hd, Hused, Hj.
    + intros j Hj. rewrite Hn. apply Hnext, Hd, Hj.
  - apply (winv_set k c _ _ _ _ s Hw Hk); cbn; auto.
    + unfold phase_tag. rewrite Hp. intros q. apply pool_inv_Put.
    + intros j Hj. by apply lookup_insert_is_Some'; right.
    + intros j Hj. apply lookup_insert_is_Some' in Hj as [<-|Hj]; apply Hnext; [by eexists|done].
Qed.

(** ** Pending calls, while writes succeed *)

(** A call in progress is pending, or it was woken. *)
Definition stands (cl : Client) (rm : message) (t : Z) (i : nat) : Prop :=
  pending cl !! t = Some i /\ responses cl !! i = Some (mk_response rm None) \/
  pending cl !! t = None /\ exists resp, responses cl !! i = Some resp /\ answered rm resp.

Record hinv (s : MSt) : Prop := {
  hi_winv : winv s;
  hi_pending : forall t i, pending (mclient s) !! t = Some i -> exists k c,
    mcalls s !! k = Some c /\ phase_tag c = Some t /\ phase_response c = Some i;
  hi_calls : forall k c t i, mcalls s !! k = Some c -> phase_tag c = Some t ->
    phase_response c = Some i -> stands (mclient s) (c_receiver c) t i;
  (* what is back in the pool has an empty channel *)
  hi_free : forall i resp, responses (mclient s) !! i = Some resp ->
    i ∉ omap phase_response (mcalls s) -> resp_done resp = None;
  hi_returned : forall k c m, mcalls s !! k = Some c -> c_phase c = Returned (inl m) ->
    same_type m (c_receiver c);
}.

Lemma hinv_pending_ok s : hinv s -> pending_ok (mclient s).
Proof.
  intros [Hw Hp Hc _ _]. split.
  - intros t i Hi. destruct (Hp t i Hi) as (k & c & Hk & Ht & Hr).
    destruct (Hc k c t i Hk Ht Hr) as [[_ H]|[H _]]; [by eexists|congruence].
  - intros t t' i Hi Hi'. destruct (Hp t i Hi) as (k & c & Hk & Ht & Hr).
    destruct (Hp t' i Hi') as (k' & c' & Hk' & Ht' & Hr').
    assert (k = k') as <- by (by eapply (responses_differ s)). congruence.
Qed.

(** A step that leaves the pending calls and the responses alone. *)
Lemma hinv_move k c q cl inp a s :
  hinv s -> mcalls s !! k = Some c ->
  pending cl = pending (mclient s) -> responses cl = responses (mclient s) ->
  id_of q = phase_response c /\ (id_of q = None \/ tag_of q = phase_tag c) ->
  (forall m, q <> Returned (inl m)) ->
  winv (mk_MSt cl inp (<[k := set_phase q c]> (mcalls s)) a) ->
  hinv (mk_MSt cl inp (<[k := set_phase q c]> (mcalls s)) a).
Proof.
  intros [Hw Hp Hc Hf Hr] Hk Epe Ers [Eid Etag] Hq Hw'.
  split; cbn [mclient mcalls]; [done|..]; rewrite ?Epe, ?Ers.
  - intros t i Hi. destruct (Hp t i Hi) as (j & d & Hj & Ht & Hi').
    destruct (decide (j = k)) as [->|Hne].
    + assert (d = c) as -> by congruence. exists k, (set_phase q c).
      rewrite list_lookup_insert_eq by (by apply lookup_lt_Some in Hk).
      unfold phase_tag, phase_response in *. cbn [c_phase set_phase].
      destruct Etag as [E|E]; [congruence|]. by rewrite E, Eid.
    + exists j, d. by rewrite list_lookup_insert_ne.
  - intros j d t i Hj Ht Hi. unfold stands. rewrite Epe, Ers.
    destruct (lookup_set _ _ _ _ _ _ Hk Hj) as [[-> ->]|[_ Hd]]; [|by apply (Hc j d t i)].
    apply (Hc k c t i Hk); unfold phase_tag, phase_response in *; cbn [c_phase set_phase] in Ht, Hi; [|congruence].
    destruct Etag as [E|E]; congruence.
  - intros i resp Hi Hn. apply (Hf i resp Hi). intros H. apply Hn.
    destruct (phase_lists (mcalls s) k c _ q Hk eq_refl) as (_ & r2 & _ & _ & Hr2 & Hr2').
    rewrite Hr2'. rewrite Hr2 in H. unfold phase_response in Eid. by rewrite Eid.
  - intros j d m Hj Hm. destruct (lookup_set _ _ _ _ _ _ Hk Hj) as [[-> ->]|[_ Hd]]; [|by eapply Hr].
    by destruct (Hq m).
Qed.

(** What happens to another call when [t] and [i] are not its own. *)
Lemma stands_other cl cl' rm t i :
  pending cl' !! t = pending cl !! t -> responses cl' !! i = responses cl !! i ->
  stands cl rm t i -> stands cl' rm t i.
Proof. unfold stands. by intros -> ->. Qed.

Lemma hinv_expect k c t i cl s :
  hinv s -> mcalls s !! k = Some c -> c_phase c = Tagged t ->
  takes_response (mcalls s) (c_receiver c) (mclient s) i cl ->
  winv (set_call k (set_phase (Expecting t i) c) (set_mclient (set_pending (<[t := i]> (pending cl)) cl) s)) ->
  hinv (set_call k (set_phase (Expecting t i) c) (set_mclient (set_pending (<[t := i]> (pending cl)) cl) s)).
Proof.
  intros [Hw Hp Hc Hf Hret] Hk Hph Hr Hw'.
  destruct (takes_spec s _ i cl Hw Hr) as (Hi & _ & Epe & _ & (d & Ers & Hd) & _).
  assert (d = None) as -> by (destruct Hd as [->|[r Hd]]; [done|by apply (Hf _ _ Hd)]).
  assert (Hct : phase_tag c = Some t) by (unfold phase_tag; by rewrite Hph).
  assert (Hcr : phase_response c = None) by (unfold phase_response; by rewrite Hph).
  split; [done|cbn [set_call set_mclient mclient mcalls set_pending pending responses]..]; rewrite ?Epe, ?Ers.
  - intros t' i' H. apply lookup_insert_Some in H as [[<- <-]|[Hne H]].
    + exists k, (set_phase (Expecting t i) c). split; [|done].
      apply list_lookup_insert_eq. by apply lookup_lt_Some in Hk.
    + destruct (Hp t' i' H) as (j & e & Hj & Ht & Hi'). exists j, e. split; [|done].
      rewrite list_lookup_insert_ne; [done|]. intros <-. congruence.
  - intros j e t' i' Hj Ht Hi'. unfold stands. cbn. rewrite ?Epe, ?Ers.
    destruct (lookup_set _ _ _ _ _ _ Hk Hj) as [[-> ->]|[Hne He]].
    + injection Ht as <-. injection Hi' as <-. left. by rewrite !lookup_insert_eq.
    + rewrite !lookup_insert_ne; [by apply (Hc j e)|..].
      * intros <-. apply Hi. by eapply held_response.
      * intros <-. apply Hne. by eapply (tags_differ s).
  - intros i' resp Hi' Hn. destruct (phase_lists (mcalls s) k c _ (Expecting t i) Hk Hph) as (_ & r2 & _ & _ & Hr2 & Hr2').
    cbn in Hr2, Hr2'. rewrite Hr2' in Hn. apply not_elem_of_cons in Hn as [Hne Hn].
    rewrite lookup_insert_ne in Hi' by done. apply (Hf i' resp Hi'). by rewrite Hr2.
  - intros j e m Hj Hm. destruct (lookup_set _ _ _ _ _ _ Hk Hj) as [[-> ->]|[_ He]]; [done|by eapply Hret].
Qed.

Lemma hinv_receive cl rest s :
  hinv s -> handleOne (mclient s) (minput s) = Done (cl, rest) ->
  winv (mk_MSt cl rest (mcalls s) (asked s)) -> hinv (mk_MSt cl rest (mcalls s) (asked s)).
Proof.
  intros Hinv Hone Hw'. pose proof (hinv_pending_ok s Hinv) as Hok. destruct Hinv as [Hw Hp Hc Hf Hret].
  destruct (handleOne_ok _ (minput s) Hok) as (cl' & rest' & Hone' & Hok' & Hsub & Hkeep & Hout & _ & _).
  assert (cl' = cl /\ rest' = rest) as [-> ->] by (split; congruence).
  assert (Hpend : forall t i, pending cl !! t = Some i -> pending (mclient s) !! t = Some i).
  { intros t i Hi. by eapply lookup_weaken. }
  split; cbn [mclient mcalls]; [done|..|done].
  - intros t i Hi. apply Hp. by apply Hpend.
  - intros k c t i Hk Ht Hi. destruct (Hc k c t i Hk Ht Hi) as [[Hpt Hri]|[Hpt (resp & Hri & Ha)]].
    + destruct (Hkeep t i _ Hpt Hri) as [?|(resp & Hr' & Ha)]; [by left|right].
      split; [|by exists resp]. destruct (pending cl !! t) as [j|] eqn:Ej; [|done].
      destruct (po_empty _ Hok' _ _ Ej) as [rm Hrm]. apply Hpend in Ej.
      assert (j = i) as -> by congruence. assert (resp = mk_response rm None) as -> by congruence. done.
    + right. split.
      * destruct (pending cl !! t) eqn:Ej; [|done]. apply Hpend in Ej. congruence.
      * exists resp. split; [|done]. rewrite Hout; [done|]. intros t' Ht'.
        destruct (Hp t' i Ht') as (k' & c' & Hk' & Htag' & Hi').
        assert (k' = k) as -> by (by eapply (responses_differ s)). congruence.
  - intros i resp Hi Hn. apply (Hf i resp); [|done]. rewrite <- Hout; [done|].
    intros t Ht. destruct (Hp t i Ht) as (k & c & Hk & _ & Hi'). apply Hn. by eapply held_response.
Qed.

Lemma hinv_return k c t i r err s :
  hinv s -> mcalls s !! k = Some c -> c_phase c = Waiting t i ->
  responses (mclient s) !! i = Some (mk_response r (Some err)) ->
  let s' := set_call k (set_phase (Returned (call_outcome r err)) c)
      (set_mclient (set_tagPool (Put t (tagPool (mclient s)))
        (set_responses (<[i := mk_response r None]> (responses (mclient s))) (mclient s))) s) in
  winv s' -> hinv s'.
Proof.
  intros [Hw Hp Hc Hf Hret] Hk Hph Hri s' Hw'. subst s'.
  assert (Hct : phase_tag c = Some t) by (unfold phase_tag; by rewrite Hph).
  assert (Hcr : phase_response c = Some i) by (unfold phase_response; by rewrite Hph).
  destruct (Hc k c t i Hk Hct Hcr) as [[_ H]|[Hnone (resp & H & Ha)]]; [congruence|].
  assert (resp = mk_response r (Some err)) as -> by congruence.
  split; [done|cbn [set_call set_mclient mclient mcalls set_tagPool set_responses pending responses]..].
  - intros t' i' Hi'. destruct (Hp t' i' Hi') as (j & e & Hj & Ht & He). exists j, e. split; [|done].
    rewrite list_lookup_insert_ne; [done|]. intros <-. congruence.
  - intros j e t' i' Hj Ht Hi'. destruct (lookup_set _ _ _ _ _ _ Hk Hj) as [[-> ->]|[Hne He]]; [done|].
    apply (stands_other (mclient s)); [done| |by apply (Hc j e)]. cbn. apply lookup_insert_ne.
    intros <-. apply Hne. by eapply (responses_differ s).
  - intros i' resp Hi' Hn. apply lookup_insert_Some in Hi' as [[<- <-]|[Hne Hi']]; [done|].
    apply (Hf i' resp Hi').
    destruct (phase_lists (mcalls s) k c _ (Returned (call_outcome r err)) Hk Hph) as (_ & r2 & _ & _ & Hr2 & Hr2').
    cbn in Hr2, Hr2'. rewrite Hr2' in Hn. rewrite Hr2. apply not_elem_of_cons. by split.
  - intros j e m Hj Hm. destruct (lookup_set _ _ _ _ _ _ Hk Hj) as [[-> ->]|[_ He]]; [|by eapply Hret].
    cbn [c_phase set_phase c_receiver] in *. injection Hm as Hm. destruct err as [err|]; [done|].
    cbn in Hm, Ha. destruct Ha as [Ha|[e ->]]; [|done]. cbn in Ha.
    assert (m = r) as -> by (destruct r; cbn in Hm; congruence). done.
Qed.

Lemma hinv_step any_peer s s' : hinv s -> mstep false any_peer s s' -> hinv s'.
Proof.
  intros Hinv Hstep. pose proof (winv_step _ _ _ _ (hi_winv _ Hinv) Hstep) as Hw'.
  destruct Hstep as [k c t p s Hk Hp Hg|k c p s Hk Hp Hg|k c t i cl s Hk Hp Hr|k c t i s Hk Hp|
    k c t i err s Hwf Hk Hp|l1 t m l2 s Ha|bs s Hany|k c t i rm cl rest s Hk Hp Hr Hne Hone|
    k c t i r err s Hk Hp Hr].
  - apply (hinv_move k c _ _ _ _ s Hinv Hk); try done. unfold phase_response. rewrite Hp. cbn. auto.
  - apply (hinv_move k c _ _ _ _ s Hinv Hk); try done. unfold phase_response. rewrite Hp. cbn. auto.
  - by apply hinv_expect.
  - apply (hinv_move k c _ _ _ _ s Hinv Hk); try done. unfold phase_response, phase_tag. rewrite Hp. cbn. auto.
  - discriminate.
  - destruct Hinv. by split.
  - destruct Hinv. by split.
  - by apply hinv_receive.
  - by eapply hinv_return.
Qed.

(** ** A peer that answers *)

(** The frames of answers. *)
Definition answer_bytes (ms : list (Z * message)) : list byte :=
  request_bytes (prod_map id answer <$> ms).

(** How a call stands, given the requests that are not yet answered or whose answers are
    on the way. *)
Definition call_ok (cl : Client) (open : list (Z * message)) (c : call) : Prop :=
  match c_phase c with
  | Starting | Tagged _ => True
  | Expecting t i =>
      pending cl !! t = Some i /\ responses cl !! i = Some (mk_response (c_receiver c) None)
  | Waiting t i =>
      pending cl !! t = Some i /\ responses cl !! i = Some (mk_response (c_receiver c) None) /\
        (t, c_request c) ∈ open \/
      pending cl !! t = None /\
        responses cl !! i = Some (mk_response (received (answer (c_request c))) (Some None))
  | Returned res =>
      res = call_value (received (answer (c_request c))) \/
      res = inr ErrOutOfTags /\ noTag - 1 <= Z.of_nat n
  end.

(** The peer's answer to a call can be sent, received and taken. *)
Definition answerable (msize : Z) (c : call) : Prop :=
  (forall t, 1 <= t < noTag -> sendable (t, answer (c_request c))) /\
  frame_length (answer (c_request c)) <= Z.min maximumLength msize /\
  fits_receiver (c_receiver c) (answer (c_request c)).

Record minv (flight : list (Z * message)) (s : MSt) : Prop := {
  mi_input : minput s = answer_bytes flight;
  mi_calls : forall k c, mcalls s !! k = Some c -> call_ok (mclient s) (asked s ++ flight) c;
  mi_open : NoDup (asked s ++ flight).*1;
  mi_asked : forall t m, (t, m) ∈ asked s ++ flight -> exists k c i, mcalls s !! k = Some c /\
    c_phase c = Waiting t i /\ c_request c = m /\ pending (mclient s) !! t = Some i;
  mi_answers : Forall (answerable (cl_messageSize (mclient s))) (mcalls s);
  mi_length : length (mcalls s) = n;
}.

Lemma answers_set msize k p c calls :
  calls !! k = Some c -> Forall (answerable msize) calls ->
  Forall (answerable msize) (<[k := set_phase p c]> calls).
Proof.
  intros Hk Ha. apply Forall_insert; [done|]. apply (Forall_lookup_1 _ _ _ _ Ha Hk).
Qed.

(** Requests that are not answered belong to calls that wait, and a change of another call
    does not concern them. *)
Lemma asked_set k c p s :
  mcalls s !! k = Some c ->
  forall (P : Z -> message -> Prop) (pm : gmap Z nat),
  (forall t m, P t m -> exists k c i, mcalls s !! k = Some c /\ c_phase c = Waiting t i /\
     c_request c = m /\ pm !! t = Some i) ->
  (forall t m i, P t m -> c_phase c = Waiting t i -> pm !! t = Some i -> False) ->
  forall t m, P t m -> exists k' c' i, <[k := set_phase p c]> (mcalls s) !! k' = Some c' /\
    c_phase c' = Waiting t i /\ c_request c' = m /\ pm !! t = Some i.
Proof.
  intros Hk P pm Hall Hno t m HP. destruct (Hall t m HP) as (k' & c' & i & Hk' & Hp & Hm & Hpe).
  exists k', c', i. split; [|done]. rewrite list_lookup_insert_ne; [done|]. intros <-.
  assert (c' = c) as -> by congruence. by eapply Hno.
Qed.

(** *** One step each *)

Lemma minv_tag flight k c t p s :
  minv flight s -> mcalls s !! k = Some c -> c_phase c = Starting ->
  Get (tagPool (mclient s)) = (Some t, p) ->
  minv flight (set_call k (set_phase (Tagged t) c) (set_mclient (set_tagPool p (mclient s)) s)).
Proof.
  intros [Hin Hcalls Hopen Hasked Hans Hn] Hk Hph Hg.
  split; cbn [set_call set_mclient mclient minput mcalls asked set_tagPool tagPool pending responses
    next_response cl_messageSize]; rewrite ?length_insert; try done.
  - intros j d Hj. destruct (lookup_set _ _ _ _ _ _ Hk Hj) as [[-> ->]|[_ Hd]]; [done|].
    exact (Hcalls j d Hd).
  - apply (asked_set k c (Tagged t) s Hk (fun t m => (t, m) ∈ asked s ++ flight) _ Hasked).
    intros ? ? ? _ Hw _. congruence.
  - by apply answers_set.
Qed.

(** Without a free tag there are as many calls as tags. *)
Lemma out_of_tags p held :
  pool_inv 1 noTag (p, held) -> (Get p).1 = None -> noTag - 1 <= Z.of_nat (length held).
Proof.
  intros (Hl & Hs & Hp) Hg. unfold Get in Hg. destruct (cache p); [|discriminate].
  destruct (Z.eqb_spec (start p) (limit p)) as [E|]; [|discriminate]. rewrite E, Hl in Hp.
  apply Permutation_length in Hp. rewrite length_seqZ in Hp. cbn [app] in Hp. lia.
Qed.

Lemma length_omap_le {A D} (f : A -> option D) l : (length (omap f l) <= length l)%nat.
Proof. induction l as [|x l IH]; cbn; [done|]. destruct (f x); cbn; lia. Qed.

Lemma minv_no_tag flight k c s :
  winv s -> minv flight s -> mcalls s !! k = Some c -> c_phase c = Starting ->
  (Get (tagPool (mclient s))).1 = None ->
  minv flight (set_call k (set_phase (Returned (inr ErrOutOfTags)) c) s).
Proof.
  intros Hw [Hin Hcalls Hopen Hasked Hans Hn] Hk Hph Hg.
  split; cbn [set_call mclient minput mcalls asked]; rewrite ?length_insert; try done.
  - intros j d Hj. destruct (lookup_set _ _ _ _ _ _ Hk Hj) as [[-> ->]|[_ Hd]].
    { right. split; [done|]. pose proof (out_of_tags _ _ (wi_tags _ Hw) Hg) as H.
      pose proof (length_omap_le phase_tag (mcalls s)). lia. }
    exact (Hcalls j d Hd).
  - apply (asked_set k c _ s Hk (fun t m => (t, m) ∈ asked s ++ flight) _ Hasked).
    intros ? ? ? _ Hwt _. congruence.
  - by apply answers_set.
Qed.

(** What happens to another call when [t] and [i] are not its own. *)
Lemma call_ok_other cl cl' open c :
  (forall t, phase_tag c = Some t -> pending cl' !! t = pending cl !! t) ->
  (forall i, phase_response c = Some i -> responses cl' !! i = responses cl !! i) ->
  call_ok cl open c -> call_ok cl' open c.
Proof.
  unfold call_ok, phase_tag, phase_response. intros Ht Hi.
  destruct (c_phase c); try done; rewrite (Ht _ eq_refl), (Hi _ eq_refl); done.
Qed.

Lemma minv_expect flight k c t i cl s :
  hinv s -> minv flight s -> mcalls s !! k = Some c -> c_phase c = Tagged t ->
  takes_response (mcalls s) (c_receiver c) (mclient s) i cl ->
  minv flight (set_call k (set_phase (Expecting t i) c)
    (set_mclient (set_pending (<[t := i]> (pending cl)) cl) s)).
Proof.
  intros [Hw _ _ Hf _] [Hin Hcalls Hopen Hasked Hans Hn] Hk Hph Hr.
  destruct (takes_spec s _ i cl Hw Hr) as (Hi & _ & Epe & Ems & (d & Ers & Hd) & _).
  assert (d = None) as -> by (destruct Hd as [->|[r Hd]]; [done|by apply (Hf _ _ Hd)]).
  assert (Hct : phase_tag c = Some t) by (unfold phase_tag; by rewrite Hph).
  assert (Hother : forall j e t', j <> k -> mcalls s !! j = Some e -> phase_tag e = Some t' -> t <> t').
  { intros j e t' Hjk He Ht' <-. apply Hjk. by eapply (tags_differ s). }
  split; cbn [set_call set_mclient mclient minput mcalls asked set_pending tagPool pending responses
    next_response cl_messageSize]; rewrite ?length_insert, ?Ems; try done.
  - intros j e Hj. destruct (lookup_set _ _ _ _ _ _ Hk Hj) as [[-> ->]|[Hjk He]].
    + cbn. by rewrite Ers, !lookup_insert_eq.
    + apply (call_ok_other (mclient s)); [..|exact (Hcalls j e He)]; cbn; rewrite ?Epe, ?Ers.
      * intros t' Ht'. apply lookup_insert_ne. by eapply Hother.
      * intros i' Hi'. apply lookup_insert_ne. intros <-. apply Hi. by eapply held_response.
  - rewrite Epe. apply (asked_set k c _ s Hk (fun t m => (t, m) ∈ asked s ++ flight)).
    + intros t' m Hm. destruct (Hasked t' m Hm) as (j & e & i' & He & Hwt & Hreq & Hp).
      exists j, e, i'. split_and!; try done. rewrite lookup_insert_ne; [done|].
      apply (Hother j e); [|done|unfold phase_tag; by rewrite Hwt]. intros ->. congruence.
    + intros ? ? ? _ Hwt _. congruence.
  - by apply answers_set.
Qed.

(** More open requests do not hurt. *)
Lemma call_ok_open cl open open' c : open ⊆ open' -> call_ok cl open c -> call_ok cl open' c.
Proof.
  intros Hsub. unfold call_ok. destruct (c_phase c); try done.
  intros [(H1 & H2 & H3)|H]; [left|by right]. split; [done|]. split; [done|]. by apply Hsub.
Qed.

Lemma minv_send flight k c t i s :
  winv s -> minv flight s -> mcalls s !! k = Some c -> c_phase c = Expecting t i ->
  minv flight (mk_MSt (mclient s) (minput s) (<[k := set_phase (Waiting t i) c]> (mcalls s))
    ((t, c_request c) :: asked s)).
Proof.
  intros Hw0 [Hin Hcalls Hopen Hasked Hans Hn] Hk Hph. pose proof (Hcalls k c Hk) as Hc. unfold call_ok in Hc.
  rewrite Hph in Hc. destruct Hc as [Hpt Hri].
  split; cbn [mclient minput mcalls asked app]; rewrite ?length_insert; try done.
  - intros j d Hj. destruct (lookup_set _ _ _ _ _ _ Hk Hj) as [[-> ->]|[_ Hd]].
    + left. split; [done|]. split; [done|]. by left.
    + apply (call_ok_open _ (asked s ++ flight)); [by apply list_subseteq_cons|exact (Hcalls j d Hd)].
  - apply NoDup_cons. split; [|done]. intros Ht. apply list_elem_of_fmap in Ht as ([t' m] & Ht & Hm). cbn in Ht. subst t'.
    destruct (Hasked _ _ Hm) as (j & d & i' & Hd & Hw & _).
    assert (j = k) as ->; [|congruence]. eapply (tags_differ s j k d c _ Hw0 Hd Hk).
    + unfold phase_tag. by rewrite Hw.
    + unfold phase_tag. by rewrite Hph.
  - intros t' m Hm. apply elem_of_cons in Hm as [[= -> ->]|Hm].
    + exists k, (set_phase (Waiting t i) c), i. split; [|done].
      apply list_lookup_insert_eq. by apply lookup_lt_Some in Hk.
    + revert t' m Hm. apply (asked_set k c _ s Hk (fun t m => (t, m) ∈ asked s ++ flight) _ Hasked).
      intros ? ? ? _ Hw _. congruence.
  - by apply answers_set.
Qed.

Lemma answer_bytes_app f g : answer_bytes (f ++ g) = answer_bytes f ++ answer_bytes g.
Proof. unfold answer_bytes, request_bytes. by rewrite fmap_app, map_app, concat_app. Qed.

Lemma minv_answer flight l1 t m l2 s :
  minv flight s -> asked s = l1 ++ (t, m) :: l2 ->
  minv (flight ++ [(t, m)])
    (mk_MSt (mclient s) (minput s ++ frame t (answer m)) (mcalls s) (l1 ++ l2)).
Proof.
  intros [Hin Hcalls Hopen Hasked Hans Hn] Ha.
  assert (Hp : asked s ++ flight ≡ₚ (l1 ++ l2) ++ flight ++ [(t, m)]).
  { rewrite Ha, (app_assoc (l1 ++ l2)), <- (Permutation_cons_append ((l1 ++ l2) ++ flight)).
    rewrite <- !app_assoc. cbn. by rewrite <- Permutation_middle. }
  split; cbn [mclient minput mcalls asked]; rewrite ?length_insert; try done.
  - rewrite Hin, answer_bytes_app. f_equal. unfold answer_bytes, request_bytes. cbn. by rewrite app_nil_r.
  - intros k c Hk. apply (call_ok_open _ (asked s ++ flight)); [|by apply (Hcalls k)].
    intros x Hx. by rewrite <- Hp.
  - by rewrite <- Hp.
  - intros t' m' Hm. apply Hasked. by rewrite Hp.
Qed.

(** Whoever receives takes the first answer off the input and hands it to its call. *)
Lemma minv_handleOne flight s :
  winv s -> minv flight s -> minput s <> [] -> exists t m fl cl,
  flight = (t, m) :: fl /\ handleOne (mclient s) (minput s) = Done (cl, answer_bytes fl) /\
  pending cl = delete t (pending (mclient s)) /\ is_Some (pending (mclient s) !! t) /\
  minv fl (mk_MSt cl (answer_bytes fl) (mcalls s) (asked s)).
Proof.
  intros Hw0 [Hin Hcalls Hopen Hasked Hans Hn] Hne.
  destruct flight as [|[t m] fl]; [by rewrite Hin in Hne|].
  assert (Hmem : (t, m) ∈ asked s ++ (t, m) :: fl) by (apply elem_of_app; right; by left).
  destruct (Hasked t m Hmem) as (k & c & i & Hk & Hw & <- & Hp).
  pose proof (Hcalls k c Hk) as Hc. unfold call_ok in Hc. rewrite Hw in Hc.
  destruct Hc as [(_ & Hr & _)|[Hnone _]]; [|congruence].
  assert (Htag : phase_tag c = Some t) by (unfold phase_tag; by rewrite Hw).
  assert (Hid : phase_response c = Some i) by (unfold phase_response; by rewrite Hw).
  pose proof (Forall_lookup_1 _ _ _ _ Hans Hk) as (Hsend & Hlen & Hfit).
  assert (Ht : 1 <= t < noTag).
  { destruct (pool_out_inv 1 noTag _ _ ltac:(done) ltac:(done) (wi_tags _ Hw0)) as (_ & Hrange & _).
    rewrite Forall_forall in Hrange. apply Hrange. apply list_elem_of_omap. exists c.
    split; [by eapply list_elem_of_lookup_2|done]. }
  pose proof (handleOne_frame (mclient s) t i (c_receiver c) (answer (c_request c))
    (answer_bytes fl) Hp Hr (Hsend t Ht) Hlen Hfit) as Hone.
  exists t, (c_request c), fl. eexists. split; [done|]. split; [by rewrite Hin; exact Hone|].
  split; [done|]. split; [by eexists|].
  assert (Hopen' : t ∉ (asked s ++ fl).*1 /\ NoDup (asked s ++ fl).*1).
  { rewrite !fmap_app, fmap_cons in Hopen. rewrite fmap_app.
    rewrite <- Permutation_middle in Hopen. by apply NoDup_cons in Hopen. }
  destruct Hopen' as [Hnt Hopen'].
  assert (Hother : forall j d, j <> k -> mcalls s !! j = Some d ->
    phase_tag d <> Some t /\ phase_response d <> Some i).
  { intros j d Hj Hd. split; intros E; apply Hj; [by eapply (tags_differ s)|by eapply (responses_differ s)]. }
  split; cbn [mclient minput mcalls asked set_responses set_pending tagPool pending responses
    next_response cl_messageSize]; rewrite ?length_insert; try done.
  - intros j d Hd. destruct (decide (j = k)) as [->|Hjk].
    + assert (d = c) as -> by congruence. unfold call_ok. rewrite Hw. cbn. right.
      by rewrite lookup_delete_eq, lookup_insert_eq.
    + destruct (Hother j d Hjk Hd) as [H1 H2]. pose proof (Hcalls j d Hd) as Hok.
      assert (Hok' : call_ok (mclient s) (asked s ++ fl) d).
      { revert Hok. unfold call_ok, phase_tag in *. destruct (c_phase d) as [| | |t' i'|] eqn:Ed; try done.
        intros [(Hp' & Hr' & Hm')|H]; [left|by right]. split; [done|]. split; [done|].
        apply elem_of_app in Hm'. apply elem_of_app. destruct Hm' as [?|Hm']; [by left|right].
        apply elem_of_cons in Hm' as [[= -> _]|?]; [by destruct H1|done]. }
      apply (call_ok_other (mclient s)); [..|exact Hok']; cbn.
      * intros t' Ht'. apply lookup_delete_ne. congruence.
      * intros i' Hi'. apply lookup_insert_ne. congruence.
  - intros t' m' Hm. destruct (Hasked t' m') as (j & d & i' & Hd & Hw' & Hreq & Hp').
    { apply elem_of_app in Hm. apply elem_of_app. destruct Hm; [by left|right; by right]. }
    exists j, d, i'. split_and!; try done. rewrite lookup_delete_ne; [done|]. intros <-.
    apply Hnt. apply list_elem_of_fmap. by exists (t, m').
Qed.

Lemma minv_return flight k c t i r err s :
  winv s -> minv flight s -> mcalls s !! k = Some c -> c_phase c = Waiting t i ->
  responses (mclient s) !! i = Some (mk_response r (Some err)) ->
  minv flight (set_call k (set_phase (Returned (call_outcome r err)) c)
    (set_mclient (set_tagPool (Put t (tagPool (mclient s)))
      (set_responses (<[i := mk_response r None]> (responses (mclient s))) (mclient s))) s)).
Proof.
  intros Hw0 [Hin Hcalls Hopen Hasked Hans Hn] Hk Hph Hri.
  pose proof (Hcalls k c Hk) as Hc. unfold call_ok in Hc. rewrite Hph in Hc.
  destruct Hc as [(_ & Hr & _)|[Hnone Hr]]; [congruence|].
  assert (err = None /\ r = received (answer (c_request c))) as [-> ->] by (split; congruence).
  split; cbn [set_call set_mclient set_responses mclient minput mcalls asked set_tagPool tagPool
    pending responses next_response cl_messageSize]; rewrite ?length_insert; try done.
  - intros j d Hj. destruct (lookup_set _ _ _ _ _ _ Hk Hj) as [[-> ->]|[Hjk Hd]]; [by left|].
    apply (call_ok_other (mclient s)); [done| |exact (Hcalls j d Hd)]. cbn.
    intros i' Hi'. apply lookup_insert_ne. intros <-. apply Hjk.
    eapply (responses_differ s); [done|exact Hd|exact Hk|exact Hi'|].
    unfold phase_response. by rewrite Hph.
  - apply (asked_set k c _ s Hk (fun t m => (t, m) ∈ asked s ++ flight) _ Hasked).
    intros ? ? ? _ Hw Hp. congruence.
  - by apply answers_set.
Qed.

(** Such a peer and writes that succeed. *)
Local Notation astep := (mstep false false).

Lemma minv_step flight s s' :
  hinv s -> minv flight s -> astep s s' -> exists flight', minv flight' s'.
Proof.
  intros Hh Hinv Hstep. pose proof (hi_winv _ Hh) as Hw.
  destruct Hstep as [k c t p s Hk Hp Hg|k c p s Hk Hp Hg|k c t i cl s Hk Hp Hr|k c t i s Hk Hp|
    k c t i err s Hwf Hk Hp|l1 t m l2 s Ha|bs s Hany|k c t i rm cl rest s Hk Hp Hr Hne Hone|
    k c t i r err s Hk Hp Hr].
  - eexists. by apply minv_tag.
  - eexists. apply minv_no_tag; try done. by rewrite Hg.
  - eexists. by apply minv_expect.
  - eexists. by apply minv_send.
  - discriminate.
  - eexists. by apply minv_answer.
  - discriminate.
  - destruct Hne as [Hne|]; [|discriminate].
    destruct (minv_handleOne flight s Hw Hinv Hne) as (t' & m & fl & cl' & _ & Hone' & _ & _ & Hm).
    assert (cl' = cl /\ answer_bytes fl = rest) as [<- <-] by (split; congruence). by exists fl.
  - eexists. by eapply minv_return.
Qed.

(** ** Runs *)

(** [n] calls that are about to start, of a client that is between calls. *)
Record started (s : MSt) : Prop := {
  st_calls : Forall (fun c => c_phase c = Starting) (mcalls s);
  st_length : length (mcalls s) = n;
  st_client : client_ok (mclient s);
  st_pending : pending (mclient s) = ∅;
  st_tags : pool_inv 1 noTag (tagPool (mclient s), []);
  st_input : minput s = [];
  st_asked : asked s = [];
  (* the channels of earlier responses are empty *)
  st_free : forall i resp, responses (mclient s) !! i = Some resp -> resp_done resp = None;
}.

(** The peer's answers to the calls can be sent, received and taken. *)
Definition answers_fit (s : MSt) : Prop := Forall (answerable (cl_messageSize (mclient s))) (mcalls s).

Lemma omap_none {A D} (f : A -> option D) l : Forall (fun x => f x = None) l -> omap f l = [].
Proof. induction 1 as [|x l Hx Hl IH]; cbn; [done|]. by rewrite Hx. Qed.

Lemma started_hinv s : started s -> hinv s.
Proof.
  intros [Hs Hn Hok Hp Ht Hi Hask Hf].
  assert (E1 : omap phase_tag (mcalls s) = []).
  { apply omap_none. eapply Forall_impl; [exact Hs|]. intros c Hc. unfold phase_tag. by rewrite Hc. }
  assert (E2 : omap phase_response (mcalls s) = []).
  { apply omap_none. eapply Forall_impl; [exact Hs|]. intros c Hc. unfold phase_response. by rewrite Hc. }
  split; rewrite ?E2; [split; rewrite ?E1, ?E2|..].
  - done.
  - apply NoDup_nil_2.
  - intros i H. by apply elem_of_nil in H.
  - apply (co_next _ Hok).
  - intros t i. by rewrite Hp, lookup_empty.
  - intros k c t i Hk Hc. unfold phase_tag in Hc. by rewrite (Forall_lookup_1 _ _ _ _ Hs Hk) in Hc.
  - intros i resp H _. by eapply Hf.
  - intros k c m Hk Hc. by rewrite (Forall_lookup_1 _ _ _ _ Hs Hk) in Hc.
Qed.

Lemma started_minv s : started s -> answers_fit s -> minv [] s.
Proof.
  intros [Hs Hn Hok Hp Ht Hi Hask Hf] Ha. split; rewrite ?Hask; try done.
  - intros k c Hk. unfold call_ok. by rewrite (Forall_lookup_1 _ _ _ _ Hs Hk).
  - apply NoDup_nil_2.
  - intros t m Hm. by apply elem_of_nil in Hm.
Qed.

Lemma steps_winv writes_fail any_peer s s' :
  winv s -> rtc (mstep writes_fail any_peer) s s' -> winv s'.
Proof. intros Hw Hsteps. induction Hsteps as [|s1 s2 s3 Hstep _ IH]; eauto using winv_step. Qed.

Lemma steps_hinv any_peer s s' : hinv s -> rtc (mstep false any_peer) s s' -> hinv s'.
Proof. intros Hw Hsteps. induction Hsteps as [|s1 s2 s3 Hstep _ IH]; eauto using hinv_step. Qed.

Lemma steps_minv s s' :
  started s -> answers_fit s -> rtc astep s s' -> hinv s' /\ exists flight, minv flight s'.
Proof.
  intros Hs Ha Hsteps. apply started_hinv in Hs as Hh.
  assert (H : exists flight, minv flight s) by (exists []; by apply started_minv).
  clear Hs Ha. induction Hsteps as [|s1 s2 s3 Hstep _ IH]; [done|]. destruct H as [flight H].
  apply IH; [by eapply hinv_step|by eapply minv_step].
Qed.

Lemma requests_kept writes_fail any_peer s s' :
  mstep writes_fail any_peer s s' -> c_request <$> mcalls s' = c_request <$> mcalls s.
Proof.
  assert (Hset : forall k c p (l : list call), l !! k = Some c ->
    c_request <$> <[k := set_phase p c]> l = c_request <$> l).
  { intros k c p l Hk. rewrite list_fmap_insert. apply list_insert_id. cbn.
    by rewrite list_lookup_fmap, Hk. }
  intros Hstep. destruct Hstep; cbn; auto.
Qed.

(** C16: concurrent calls are not mixed up, in any order of the goroutines, with responses
  that are used again. Whatever the peer sends and whichever writes fail, no two calls in
  progress have the same tag or the same response. While no write fails, whatever bytes the
  peer sends and whenever the connection ends, whoever receives neither panics nor blocks on
  a channel, and a call that returned has an error or a message of its receiver's type. If
  the peer answers the requests, in any order, a call that returned has the answer to its own
  request, whoever received it (or found all tags taken, which takes as many calls). A write
  that fails breaks the rest: see [failed_write_blocks]. *)
Theorem calls_not_mixed s0 s writes_fail any_peer :
started s0 -> rtc (mstep writes_fail any_peer) s0 s ->
NoDup (omap phase_tag (mcalls s)) /\ NoDup (omap phase_response (mcalls s)) /\
c_request <$> mcalls s = c_request <$> mcalls s0 /\
(writes_fail = false ->
 (exists cl rest, handleOne (mclient s) (minput s) = Done (cl, rest)) /\
 (forall k c res, mcalls s !! k = Some c -> c_phase c = Returned res ->
    match res with inl m => same_type m (c_receiver c) | inr _ => True end)) /\
(writes_fail = false -> any_peer = false -> answers_fit s0 ->
 forall k c res, mcalls s !! k = Some c -> c_phase c = Returned res ->
   res = call_value (received (answer (c_request c))) \/
   res = inr ErrOutOfTags /\ noTag - 1 <= Z.of_nat n).
Proof.
intros Hs Hsteps. apply started_hinv in Hs as Hh.
pose proof (steps_winv _ _ _ _ (hi_winv _ Hh) Hsteps) as Hw.
destruct (pool_out_inv 1 noTag _ _ ltac:(done) ltac:(done) (wi_tags _ Hw)) as (Hnd & _).
split; [done|]. split; [apply (wi_ids _ Hw)|]. split; [|split].
- clear Hw Hnd Hs Hh. induction Hsteps as [|s1 s2 s3 Hstep _ IH]; [done|].
  by rewrite IH, (requests_kept _ _ _ _ Hstep).
- intros ->. pose proof (steps_hinv _ _ _ Hh Hsteps) as Hh'. split.
  + destruct (handleOne_ok _ (minput s) (hinv_pending_ok s Hh')) as (cl & rest & Hone & _). by exists cl, rest.
  + intros k c [m|e] Hk Hph; [|done]. by apply (hi_returned _ Hh' k c m).
- intros -> -> Ha k c res Hk Hph. destruct (steps_minv s0 s Hs Ha Hsteps) as (_ & flight & Hinv).
  pose proof (mi_calls _ _ Hinv k c Hk) as H. unfold call_ok in H. by rewrite Hph in H.
Qed.

(** *** Progress and termination *)

Definition weight_of (p : phase) : nat :=
  match p with
  | Starting => 6 | Tagged _ => 5 | Expecting _ _ => 3 | Waiting _ _ => 1 | Returned _ => 0
  end.
Definition weight (c : call) : nat := weight_of (c_phase c).

(** What is left to do: each step takes something off. *)
Definition work (s : MSt) : nat :=
  sum_list_with weight (mcalls s) + length (asked s) + size (pending (mclient s)).

Lemma sum_phase (l : list call) k c p q :
  l !! k = Some c -> c_phase c = p ->
  (sum_list_with weight (<[k := set_phase q c]> l) + weight_of p =
   sum_list_with weight l + weight_of q)%nat.
Proof.
  intros Hk <-. revert k Hk. induction l as [|x l IH]; intros [|k] Hk; cbn in Hk |- *; try done.
  - injection Hk as ->. unfold weight. cbn [c_phase set_phase]. lia.
  - specialize (IH k Hk).
    rewrite <- !Nat.add_assoc. f_equal. exact IH.
Qed.

Lemma step_works flight s s' : winv s -> minv flight s -> astep s s' -> (work s' < work s)%nat.
Proof.
  intros Hw Hinv Hstep. unfold work.
  destruct Hstep as [k c t p s Hk Hp Hg|k c p s Hk Hp Hg|k c t i cl s Hk Hp Hr|k c t i s Hk Hp|
    k c t i err s Hwf Hk Hp|l1 t m l2 s Ha|bs s Hany|k c t i rm cl rest s Hk Hp Hr Hne Hone|
    k c t i r err s Hk Hp Hr]; try discriminate;
    cbn [mclient mcalls asked set_call set_mclient
    set_tagPool set_pending set_responses pending];
    try (match goal with |- context [<[k := set_phase ?q c]> _] =>
      pose proof (sum_phase (mcalls s) k c _ q Hk Hp) as Hsum; cbn [weight_of] in Hsum end).
  - lia.
  - lia.
  - destruct (takes_spec s _ i cl Hw Hr) as (_ & _ & -> & _).
    rewrite map_size_insert. destruct (pending (mclient s) !! t); unfold id; lia.
  - cbn [length]. lia.
  - rewrite Ha, !length_app. cbn [length]. lia.
  - destruct Hne as [Hne|]; [|discriminate].
    destruct (minv_handleOne flight s Hw Hinv Hne) as (t' & m & fl & cl' & _ & Hone' & Hpe & Hi' & _).
    assert (cl' = cl) as -> by congruence. rewrite Hpe.
    rewrite map_size_delete_Some by done.
    assert (0 < size (pending (mclient s)))%nat; [|lia]. apply Nat.neq_0_lt_0. intros E.
    apply map_size_empty_inv in E. rewrite E in Hi'. by destruct Hi'.
  - lia.
Qed.

(** A call that did not return can move on, or there is something for it to wait for. *)
Lemma progress flight s k c :
  winv s -> minv flight s -> mcalls s !! k = Some c -> (forall res, c_phase c <> Returned res) ->
  exists s', astep s s'.
Proof.
  intros Hw Hinv Hk Hnot. pose proof (mi_calls _ _ Hinv k c Hk) as Hc. unfold call_ok in Hc.
  destruct (c_phase c) as [|t|t i|t i|res] eqn:Hp; [| | | |by destruct (Hnot res)].
  - destruct (Get (tagPool (mclient s))) as [[t|] p] eqn:Hg.
    + eexists. by eapply m_tag.
    + eexists. by eapply m_no_tag.
  - destruct (new_response (c_receiver c) (mclient s)) as [i cl] eqn:Hr. eexists.
    eapply m_expect; [done|done|by left].
  - eexists. by eapply m_send.
  - destruct Hc as [(Hpe & Hr & Hm)|[_ Hr]]; [|eexists; by eapply m_return].
    destruct (asked s) as [|[t' m] rest] eqn:Ha; [|eexists; by apply (m_answer _ _ [] t' m rest)].
    assert (Hne : minput s <> []).
    { rewrite (mi_input _ _ Hinv). destruct flight as [|[t' m] fl]; [by apply elem_of_nil in Hm|].
      unfold answer_bytes, request_bytes. cbn. pose proof (frame_nonempty t' (answer m)) as Hl.
      intros E. apply (f_equal length) in E. rewrite length_app in E. cbn in E. lia. }
    destruct (minv_handleOne flight s Hw Hinv Hne) as (t' & m & fl & cl & _ & Hone & _).
    eexists. eapply m_receive; try done. by left.
Qed.

Lemma run_length flight s s' j :
  hinv s -> minv flight s -> nsteps astep j s s' -> (j + work s' <= work s)%nat.
Proof.
  intros Hh Hinv Hj. revert flight Hh Hinv.
  induction Hj as [s|j s1 s2 s3 Hstep _ IH]; intros flight Hh Hinv; [lia|].
  pose proof (step_works flight s1 s2 (hi_winv _ Hh) Hinv Hstep).
  destruct (minv_step flight s1 s2 Hh Hinv Hstep) as [fl H2].
  specialize (IH fl (hinv_step _ _ _ Hh Hstep) H2). lia.
Qed.

Lemma started_work s : started s -> work s = (6 * n)%nat.
Proof.
  intros [Hs Hn _ Hp _ _ Ha _]. unfold work. rewrite Hp, Ha, map_size_empty, <- Hn. clear Hn.
  induction Hs as [|c l Hc _ IH]; cbn [sum_list_with length] in *; [done|].
  unfold weight at 1. rewrite Hc. cbn [weight_of]. lia.
Qed.

(** C15: all calls complete: with fewer calls than tags and a peer that answers, every
  run ends, after six steps for each call at most; and where it ends, whatever the
  order of the goroutines and of the answers, each call has returned the answer to its
  request: no call is left waiting. *)
Theorem calls_complete s0 s j :
started s0 -> answers_fit s0 -> Z.of_nat n < noTag - 1 -> nsteps (mstep false false) j s0 s ->
(j <= 6 * n)%nat /\
((forall s', ~ mstep false false s s') -> forall k c, mcalls s !! k = Some c ->
   c_phase c = Returned (call_value (received (answer (c_request c))))).
Proof.
intros Hs Ha Hn Hj. split.
- pose proof (run_length [] s0 s j (started_hinv s0 Hs) (started_minv s0 Hs Ha) Hj).
  rewrite (started_work s0 Hs) in H. lia.
- intros Hstop k c Hk. destruct (steps_minv s0 s Hs Ha) as (Hh & flight & Hinv); [by eapply rtc_nsteps_2|].
  pose proof (mi_calls _ _ Hinv k c Hk) as Hc. unfold call_ok in Hc.
  destruct (c_phase c) as [| | | |res] eqn:Hp;
    try (destruct (progress flight s k c (hi_winv _ Hh) Hinv Hk) as [s' Hs'];
    [intros res E; congruence|by destruct (Hstop s')]).
  destruct Hc as [->|[_ Hout]]; [done|lia].
Qed.
End multiplex.

(** ** Two calls *)

Definition example_answer (m : message) : message :=
  match m with
  | Mtclunk _ => Mrclunk mk_rclunk
  | _ => Mrlerror (mk_rlerror ENOENT)
  end.

Definition example_calls : MSt :=
  mk_MSt example_Client []
    [mk_call (Mtclunk (mk_tclunk 5)) (Mrclunk mk_rclunk) Starting;
     mk_call (Mtfsync (mk_tfsync 6)) (Mrfsync mk_rfsync) Starting] [].

Lemma example_calls_started : started 2 example_calls.
Proof.
  split; try reflexivity.
  - apply Forall_cons; split; [done|]. apply Forall_cons; split; [done|]. by apply Forall_nil.
  - exact example_Client_ok.
  - apply pool_inv_init. done.
  - done.
Qed.

Lemma example_answers_fit : answers_fit example_answer example_calls.
Proof.
  apply Forall_cons; split; [split|apply Forall_cons; split; [split|by apply Forall_nil]]; [|split| |split].
  - intros t Ht. split; [split; done|]. split; [unfold u16, noTag in *; cbn; lia|done].
  - vm_compute. discriminate.
  - right. split; [discriminate|]. split; [reflexivity|exact Logic.I].
  - intros t Ht. split; [split; done|]. split; [unfold u16, noTag in *; cbn; lia|done].
  - vm_compute. discriminate.
  - left. by eexists.
Qed.

Definition first_call (p : phase) : call :=
  mk_call (Mtclunk (mk_tclunk 5)) (Mrclunk mk_rclunk) p.
Definition second_call (p : phase) : call :=
  mk_call (Mtfsync (mk_tfsync 6)) (Mrfsync mk_rfsync) p.

(** The first call gets its tag. *)
Definition example_next : MSt :=
  mk_MSt (set_tagPool (mk_pool [] 2 noTag) example_Client) []
    [first_call (Tagged 1); second_call Starting] [].

Lemma example_step writes_fail any_peer :
  mstep example_answer writes_fail any_peer example_calls example_next.
Proof.
  exact (m_tag example_answer _ _ 0%nat (first_call Starting)
    1 (mk_pool [] 2 noTag) example_calls eq_refl eq_refl eq_refl).
Qed.

(** Any bytes from the peer. *)
Definition example_garbled : MSt :=
  mk_MSt (mclient example_next) [x00; x2a] (mcalls example_next) [].

Lemma calls_not_mixed_witness :
  (started 2 example_calls /\ rtc (mstep example_answer false true) example_calls example_garbled) /\
  NoDup (omap phase_tag (mcalls example_garbled)) /\
  exists cl rest, handleOne (mclient example_garbled) (minput example_garbled) = Done (cl, rest).
Proof.
  assert (Hr : rtc (mstep example_answer false true) example_calls example_garbled).
  { eapply rtc_l; [apply example_step|]. apply rtc_once.
    exact (m_bytes example_answer false true [x00; x2a] example_next eq_refl). }
  split; [exact (conj example_calls_started Hr)|].
  destruct (calls_not_mixed example_answer 2 example_calls example_garbled false true
    example_calls_started Hr) as (Htags & _ & _ & Hone & _).
  split; [exact Htags|]. exact (proj1 (Hone eq_refl)).
Defined.

Lemma calls_complete_witness :
  nsteps (mstep example_answer false false) 1 example_calls example_next /\ (1 <= 12)%nat.
Proof.
  assert (Hr : nsteps (mstep example_answer false false) 1 example_calls example_next)
    by (apply nsteps_once; apply example_step).
  split; [exact Hr|].
  exact (proj1 (calls_complete example_answer 2 example_calls example_next 1
    example_calls_started example_answers_fit ltac:(unfold noTag; lia) Hr)).
Defined.

(** ** A write that fails

    The first call registers its response under its tag, its write fails and it returns: the
    response goes back to the pool, and stays pending. The second call gets it. *)
Definition two_pending : MSt :=
  mk_MSt (mk_Client (mk_pool [1] 3 noTag) (mk_pool [] 1 noFID) (<[2 := 0%nat]> {[1 := 0%nat]})
      {[0%nat := mk_response (Mrfsync mk_rfsync) None]} 1 65536 65024 7) []
    [first_call (Returned (inr (Wrap (ConnError (OtherError "broken pipe")))));
     second_call (Waiting 2 0)] [(2, Mtfsync (mk_tfsync 6))].

Lemma two_pending_reached : rtc (mstep example_answer true false) example_calls two_pending.
Proof.
  eapply rtc_l; [apply example_step|].
  eapply rtc_l; [eapply (m_tag _ _ _ 1%nat); reflexivity|].
  eapply rtc_l; [eapply (m_expect _ _ _ 0%nat); [reflexivity|reflexivity|left; reflexivity]|].
  eapply rtc_l; [eapply (m_send_fails _ _ _ 0%nat _ _ _ (OtherError "broken pipe")); reflexivity|].
  eapply rtc_l.
  { eapply (m_expect _ _ _ 1%nat _ _ 0%nat); [reflexivity|reflexivity|right]. eexists. split; [reflexivity|].
    split; [|reflexivity]. cbn. apply not_elem_of_nil. }
  eapply rtc_l; [eapply (m_send _ _ _ 1%nat); reflexivity|]. apply rtc_refl.
Qed.

(** When the connection ends, whoever receives sends to the channel of the one response
    twice and blocks; an answer to the first request goes to the second call. *)
Example failed_write_blocks :
  rtc (mstep example_answer true false) example_calls two_pending /\
  handleOne (mclient two_pending) [] = Blocks /\
  exists cl, handleOne (mclient two_pending) (frame 1 (Mrlerror (mk_rlerror 9))) = Done (cl, []) /\
    responses cl !! 0%nat = Some (mk_response (Mrlerror (mk_rlerror 9)) (Some None)).
Proof.
  split; [exact two_pending_reached|]. split; [vm_compute; reflexivity|].
  eexists. split; vm_compute; reflexivity.
Qed.
