(* ===== verification/Qids.v ===== *)
(** * QID paths for composed file systems ([fsimpl/qids])

    A [PathGenerator] gives out path numbers; a [Mapper] translates the paths of one file
    system into numbers of a generator, and [qidTransformFile] puts a mapper between a
    file and its callers. Mappers are shared by the files walked to, so they are a heap;
    the generator is shared by all of them. *)
From S2P Require Import Prelude Errno Buffer Types Messages File.

(** ** Generator and mappers *)

Record qid_state := mk_qid_state {
  uids : Z;
  mappers : list (gmap Z Z);
}.

Definition qid_state_zero : qid_state := mk_qid_state 0 [].

(** [atomic.AddUint64(&g.uids, 1)]. *)
Definition NewPath (q : qid_state) : Z * qid_state :=
  let path := wrap64 (uids q + 1) in (path, mk_qid_state path (mappers q)).

(** [NewMapper(g)]: the index of a new mapper. *)
Definition NewMapper (q : qid_state) : nat * qid_state :=
  (length (mappers q), mk_qid_state (uids q) (mappers q ++ [∅])).

Definition QIDFor (m : nat) (qid : QID) (q : qid_state) : QID * qid_state :=
  match default ∅ (mappers q !! m) !! QID_Path qid with
  | Some path => (mkQID (QID_Type qid) (QID_Version qid) path, q)
  | None =>
      let '(path, q) := NewPath q in
      (mkQID (QID_Type qid) (QID_Version qid) path,
       mk_qid_state (uids q) (alter (<[QID_Path qid := path]>) m (mappers q)))
  end.

Fixpoint QIDsFor (m : nat) (qids : list QID) (q : qid_state) : list QID * qid_state :=
  match qids with
  | [] => ([], q)
  | qid :: qids =>
      let '(nqid, q) := QIDFor m qid q in
      let '(nqids, q) := QIDsFor m qids q in
      (nqid :: nqids, q)
  end.

(** ** The wrapper *)

Section wrapper.
(** The files behind the wrapper, and what a file of another implementation is to them. *)
Context {W G : Type} (inner : forall A, FileE G A -> W -> A * W) (foreign : G).
Arguments inner {A}.

Record qidTransformFile := NewWrapperFile { wf_File : G; wf_m : nat }.

Definition wrapper_world : Type := W * qid_state.

(** A result with a QID: next to an error the QID has the path zero, and it is mapped
    all the same. *)
Definition map_result {A B} (m : nat) (f : A -> qid_state -> B * qid_state)
    (r : (A + error) * W) (q : qid_state) : (B + error) * wrapper_world :=
  match r with
  | (inl a, w) => let '(b, q) := f a q in (inl b, (w, q))
  | (inr err, w) => let '(_, q) := QIDFor m QID_zero q in (inr err, (w, q))
  end.

(** The methods that the wrapper defines, and those of the file that it embeds: these get
    their arguments as they are, so a [File] among them is a wrapper. *)
Definition wrapper_exec {A} (e : FileE qidTransformFile A) (s : wrapper_world)
    : A * wrapper_world :=
  let '(w, q) := s in
  let pass {A} (e : FileE G A) : A * wrapper_world := let '(a, w) := inner e w in (a, (w, q)) in
  match e in FileE _ A return A * wrapper_world with
  | FAttach => (inr (Errno ENOSYS), (w, q))      (* not a method of a file *)
  | FWalk f names =>
      match inner (FWalk (wf_File f) names) w with
      | (inl (qids, file), w) =>
          let '(nqids, q) := QIDsFor (wf_m f) qids q in
          (inl (nqids, NewWrapperFile file (wf_m f)), (w, q))
      | (inr err, w) => (inr err, (w, q))
      end
  | FWalkGetAttr f names =>
      match inner (FWalkGetAttr (wf_File f) names) w with
      | (inl (qids, file, mask, attr), w) =>
          let '(nqids, q) := QIDsFor (wf_m f) qids q in
          (inl (nqids, NewWrapperFile file (wf_m f), mask, attr), (w, q))
      | (inr err, w) => (inr err, (w, q))
      end
  | FGetAttr f req =>
      map_result (wf_m f) (fun '(qid, mask, attr) q =>
        let '(nqid, q) := QIDFor (wf_m f) qid q in ((nqid, mask, attr), q))
        (inner (FGetAttr (wf_File f) req) w) q
  | FOpen f mode =>
      map_result (wf_m f) (fun '(qid, iounit) q =>
        let '(nqid, q) := QIDFor (wf_m f) qid q in ((nqid, iounit), q))
        (inner (FOpen (wf_File f) mode) w) q
  | FCreate f name flags permissions uid gid =>
      map_result (wf_m f) (fun '(file, qid, iounit) q =>
        let '(nqid, q) := QIDFor (wf_m f) qid q in
        ((NewWrapperFile file (wf_m f), nqid, iounit), q))
        (inner (FCreate (wf_File f) name flags permissions uid gid) w) q
  | FMkdir f name permissions uid gid =>
      map_result (wf_m f) (QIDFor (wf_m f)) (inner (FMkdir (wf_File f) name permissions uid gid) w) q
  | FSymlink f oldName newName uid gid =>
      map_result (wf_m f) (QIDFor (wf_m f)) (inner (FSymlink (wf_File f) oldName newName uid gid) w) q
  | FMknod f name mode major minor uid gid =>
      map_result (wf_m f) (QIDFor (wf_m f))
        (inner (FMknod (wf_File f) name mode major minor uid gid) w) q
  | FReaddir f offset count =>
      match inner (FReaddir (wf_File f) offset count) w with
      | (dirents, err, w) =>
          let '(nqids, q) := QIDsFor (wf_m f) (Dirent_QID <$> dirents) q in
          (zip_with (fun d qid => mkDirent qid (Dirent_Offset d) (Dirent_Type d) (Dirent_Name d))
             dirents nqids, err, (w, q))
      end
  | FStatFS f => pass (FStatFS (wf_File f))
  | FSetAttr f valid attr => pass (FSetAttr (wf_File f) valid attr)
  | FClose f => pass (FClose (wf_File f))
  | FReadAt f p offset => pass (FReadAt (wf_File f) p offset)
  | FWriteAt f p offset => pass (FWriteAt (wf_File f) p offset)
  | FSetXattr f attr data flags => pass (FSetXattr (wf_File f) attr data flags)
  | FGetXattr f attr => pass (FGetXattr (wf_File f) attr)
  | FListXattrs f => pass (FListXattrs (wf_File f))
  | FRemoveXattr f attr => pass (FRemoveXattr (wf_File f) attr)
  | FFSync f => pass (FFSync (wf_File f))
  | FLock f pid locktype flags start length client =>
      pass (FLock (wf_File f) pid locktype flags start length client)
  | FLink f _ newName => pass (FLink (wf_File f) foreign newName)
  | FRename f _ newName => pass (FRename (wf_File f) foreign newName)
  | FRenameAt f oldName _ newName => pass (FRenameAt (wf_File f) oldName foreign newName)
  | FUnlinkAt f name flags => pass (FUnlinkAt (wf_File f) name flags)
  | FReadlink f => pass (FReadlink (wf_File f))
  | FRenamed f _ newName => pass (FRenamed (wf_File f) foreign newName)
  end.
End wrapper.
Arguments qidTransformFile : clear implicits.
Arguments NewWrapperFile {G}. Arguments wf_File {G}. Arguments wf_m {G}.

(** ** The paths are unique *)

(** The path of a mapper for a source path. *)
Definition mapped (q : qid_state) (m : nat) (p path : Z) : Prop :=
  exists paths, mappers q !! m = Some paths /\ paths !! p = Some path.

Inductive qid_step : qid_state -> qid_state -> Prop :=
| step_QIDFor m qid q : (m < length (mappers q))%nat -> qid_step q (QIDFor m qid q).2
| step_NewMapper q : qid_step q (NewMapper q).2.

Record qid_inv (q : qid_state) : Prop := {
  qi_range : forall m p path, mapped q m p path -> 1 <= path <= uids q;
  qi_inj : forall m p m' p' path, mapped q m p path -> mapped q m' p' path -> m = m' /\ p = p';
}.

Lemma QIDFor_mapped m qid q path :
  mapped q m (QID_Path qid) path ->
  QIDFor m qid q = (mkQID (QID_Type qid) (QID_Version qid) path, q).
Proof.
  intros (paths & Hm & Hp). unfold QIDFor. rewrite Hm.
  change (default ∅ (Some paths)) with paths. by rewrite Hp.
Qed.

(** A path that is new to its mapper gets the next number; the others keep theirs. *)
Lemma QIDFor_new m qid q :
  (m < length (mappers q))%nat -> 0 <= uids q < 2 ^ 64 - 1 ->
  (forall path, ~ mapped q m (QID_Path qid) path) ->
  exists q', QIDFor m qid q = (mkQID (QID_Type qid) (QID_Version qid) (uids q + 1), q') /\
    uids q' = uids q + 1 /\ length (mappers q') = length (mappers q) /\
    forall m' p' path', mapped q' m' p' path' <->
      mapped q m' p' path' \/ m' = m /\ p' = QID_Path qid /\ path' = uids q + 1.
Proof.
  intros Hm Hu Hnone. destruct (lookup_lt_is_Some_2 _ _ Hm) as [paths Hp].
  assert (Hnp : paths !! QID_Path qid = None).
  { apply eq_None_not_Some. intros [path H]. apply (Hnone path). by exists paths. }
  assert (Hw : wrap64 (uids q + 1) = uids q + 1) by (apply Z.mod_small; lia).
  unfold QIDFor, NewPath. rewrite Hp. change (default ∅ (Some paths)) with paths. rewrite Hnp, Hw. cbn.
  eexists. split; [done|]. cbn. split; [done|]. split; [apply length_alter|].
  intros m' p' path'. unfold mapped. cbn. split.
  - intros (ps & Hm' & Hp'). destruct (decide (m' = m)) as [->|Hne].
    + rewrite list_lookup_alter_eq, Hp in Hm'. injection Hm' as <-.
      apply lookup_insert_Some in Hp' as [[<- <-]|[_ Hp']]; [by right|]. left. by exists paths.
    + rewrite list_lookup_alter_ne in Hm' by done. left. by exists ps.
  - intros [(ps & Hm' & Hp')|(-> & -> & ->)].
    + destruct (decide (m' = m)) as [->|Hne].
      * exists (<[QID_Path qid := uids q + 1]> paths). rewrite list_lookup_alter_eq, Hp. split; [done|].
        assert (ps = paths) as -> by congruence. rewrite lookup_insert_ne; [done|]. congruence.
      * exists ps. by rewrite list_lookup_alter_ne.
    + exists (<[QID_Path qid := uids q + 1]> paths). rewrite list_lookup_alter_eq, Hp.
      split; [done|]. apply lookup_insert_eq.
Qed.

Lemma mapped_dec q m p : (exists path, mapped q m p path) \/ forall path, ~ mapped q m p path.
Proof.
  unfold mapped. destruct (mappers q !! m) as [paths|]; [|right; by intros path (? & ? & _)].
  destruct (paths !! p) as [path|] eqn:E; [left; by exists path, paths|right].
  intros path (ps & [= <-] & H). congruence.
Qed.

(** What a mapper has, it keeps. *)
Lemma mapped_step q q' m p path : qid_step q q' -> mapped q m p path -> mapped q' m p path.
Proof.
  intros [m' qid q0 _|q0] (ps & Hm & Hp).
  - unfold QIDFor. destruct (default ∅ (mappers q0 !! m') !! QID_Path qid) as [|] eqn:E;
      [by exists ps|]. cbn. destruct (decide (m' = m)) as [->|Hne].
    + rewrite Hm in E. cbn in E. eexists. cbn [mappers]. rewrite list_lookup_alter_eq, Hm. split; [done|].
      rewrite lookup_insert_ne; [done|]. intros H. rewrite H in E. congruence.
    + exists ps. cbn [mappers]. by rewrite list_lookup_alter_ne.
  - exists ps. split; [by apply lookup_app_l_Some|done].
Qed.

Lemma mapped_steps k q q' m p path :
  nsteps qid_step k q q' -> mapped q m p path -> mapped q' m p path.
Proof. induction 1 as [|k q1 q2 q3 H _ IH]; [done|]. intros Hp. apply IH. by eapply mapped_step. Qed.

Lemma mapped_functional q m p path path' : mapped q m p path -> mapped q m p path' -> path = path'.
Proof. intros (ps & Hm & Hp) (ps' & Hm' & Hp'). congruence. Qed.

(** The path in the answer is the one that the mapper has afterwards. *)
Lemma QIDFor_answer m qid q :
  (m < length (mappers q))%nat ->
  mapped (QIDFor m qid q).2 m (QID_Path qid) (QID_Path (QIDFor m qid q).1).
Proof.
  intros Hm. destruct (lookup_lt_is_Some_2 _ _ Hm) as [ps Hps]. unfold QIDFor. rewrite Hps. cbn.
  destruct (ps !! QID_Path qid) as [path|] eqn:E; [by exists ps|]. eexists. cbn [mappers snd].
  rewrite list_lookup_alter_eq, Hps. split; [done|]. apply lookup_insert_eq.
Qed.

Lemma qid_step_inv q q' :
  0 <= uids q < 2 ^ 64 - 1 -> qid_inv q -> qid_step q q' ->
  qid_inv q' /\ uids q <= uids q' <= uids q + 1 /\
  forall m p path, mapped q m p path -> mapped q' m p path.
Proof.
  intros Hu [Hr Hi] Hstep. destruct Hstep as [m qid q Hm|q].
  - destruct (mapped_dec q m (QID_Path qid)) as [[path Hp]|Hnone].
    + rewrite (QIDFor_mapped m qid q path Hp). cbn. split; [by split|]. split; [lia|done].
    + destruct (QIDFor_new m qid q Hm Hu Hnone) as (q' & -> & Hu' & _ & Hmap). cbn.
      split; [split|split; [lia|intros; apply Hmap; by left]].
      * intros m' p' path' H. apply Hmap in H as [H|(-> & -> & ->)]; [apply Hr in H|]; lia.
      * intros m1 p1 m2 p2 path H1 H2. apply Hmap in H1, H2.
        destruct H1 as [H1|(-> & -> & ->)], H2 as [H2|(-> & -> & E)]; [by eapply Hi| | |done].
        -- apply Hr in H1. lia.
        -- apply Hr in H2. lia.
  - assert (Hmap : forall m p path, mapped (NewMapper q).2 m p path <-> mapped q m p path).
    { intros m p path. unfold mapped, NewMapper. cbn. split.
      - intros (ps & Hps & Hp). apply lookup_app_Some in Hps as [Hps|[_ Hps]]; [by exists ps|].
        apply list_lookup_singleton_Some in Hps as [_ <-]. by rewrite lookup_empty in Hp.
      - intros (ps & Hps & Hp). exists ps. split; [by apply lookup_app_l_Some|done]. }
    split; [split|split; [cbn; lia|intros; by apply Hmap]].
    + intros m p path H. apply Hmap, Hr in H. cbn. lia.
    + intros m p m' p' path H1 H2. eapply Hi; by apply Hmap.
Qed.

Lemma qid_steps_inv k q :
  nsteps qid_step k qid_state_zero q -> Z.of_nat k < 2 ^ 64 ->
  qid_inv q /\ 0 <= uids q <= Z.of_nat k.
Proof.
  intros Hk. remember qid_state_zero as q0 eqn:E0. revert q Hk.
  assert (H : forall k q, nsteps qid_step k q0 q -> Z.of_nat k < 2 ^ 64 -> qid_inv q /\ 0 <= uids q <= Z.of_nat k);
    [|by apply H].
  clear k. intros k. induction k as [|k IH]; intros q Hk Hlt.
  - inversion Hk. subst. split; [split|cbn; lia].
    + intros m p path (ps & Hm & _). by destruct m.
    + intros m p m' p' path (ps & Hm & _). by destruct m.
  - apply nsteps_inv_r in Hk as (q1 & Hk & Hs). destruct (IH q1 Hk) as [Hi Hu]; [lia|].
    destruct (qid_step_inv q1 q) as (Hi' & Hu' & _); [lia|done..|]. split; [done|lia].
Qed.

(** A new mapper and its first path: no mapping of another mapper changes. *)
Lemma fresh_mapper k q qid :
  nsteps qid_step k qid_state_zero q -> Z.of_nat (S k) < 2 ^ 64 - 1 ->
  let m := length (mappers q) in
  exists path q2, QIDFor m qid (NewMapper q).2 = (mkQID (QID_Type qid) (QID_Version qid) path, q2) /\
    nsteps qid_step (S (S k)) qid_state_zero q2 /\
    (forall m' p path, mapped q m' p path -> m' <> m) /\
    forall m' p' path', mapped q2 m' p' path' <->
      mapped q m' p' path' \/ m' = m /\ p' = QID_Path qid /\ path' = path.
Proof.
  intros Hs Hk m. set (q1 := (NewMapper q).2).
  assert (Hs1 : nsteps qid_step (S k) qid_state_zero q1)
    by (eapply nsteps_r; [exact Hs|apply step_NewMapper]).
  destruct (qid_steps_inv _ _ Hs1) as [_ Hu]; [lia|].
  assert (Hlt : (m < length (mappers q1))%nat) by (cbn; rewrite length_app; cbn; lia).
  assert (Hold : forall m' p path, mapped q m' p path -> (m' < m)%nat).
  { intros m' p path (ps & Hps & _). by eapply lookup_lt_Some. }
  assert (Hq1 : forall m' p path, mapped q1 m' p path <-> mapped q m' p path).
  { intros m' p path. split; intros (ps & Hps & Hp); exists ps; (split; [|done]).
    - cbn in Hps. apply lookup_app_Some in Hps as [Hps|[_ Hps]]; [done|].
      apply list_lookup_singleton_Some in Hps as [_ <-]. by rewrite lookup_empty in Hp.
    - by apply lookup_app_l_Some. }
  destruct (QIDFor_new m qid q1 Hlt ltac:(lia)) as (q2 & Hq & _ & _ & Hmap).
  { intros path H. apply Hq1, Hold in H. lia. }
  exists (uids q1 + 1), q2. split; [done|]. split; [|split].
  - eapply nsteps_r; [exact Hs1|].
    replace q2 with (QIDFor m qid q1).2 by (by rewrite Hq). by apply step_QIDFor.
  - intros m' p path H. apply Hold in H. lia.
  - intros m' p' path'. rewrite Hmap. by rewrite Hq1.
Qed.

(** C28: the QIDs of composed file systems do not collide: after any calls of the mappers
  of a generator (fewer than 2^64 - 1), two files of one or of two file systems have the same
  path only if they are the same file of the same file system, and none has the path of
  the root, zero; what a mapper answers is the path that it keeps for the file, with the
  type and the version as they were. *)
Theorem qid_paths_unique k q :
nsteps qid_step k qid_state_zero q -> Z.of_nat k < 2 ^ 64 - 1 ->
(forall m p m' p' path, mapped q m p path -> mapped q m' p' path -> m = m' /\ p = p') /\
(forall m p path, mapped q m p path -> path <> 0) /\
(forall m qid, (m < length (mappers q))%nat -> exists path q',
   QIDFor m qid q = (mkQID (QID_Type qid) (QID_Version qid) path, q') /\
   mapped q' m (QID_Path qid) path /\
   forall m' p' path', mapped q m' p' path' -> mapped q' m' p' path').
Proof.
intros Hk Hlt. destruct (qid_steps_inv k q Hk) as [[Hr Hi] Hu]; [lia|].
split; [done|]. split; [intros m p path H; apply Hr in H; lia|]. intros m qid Hm.
destruct (mapped_dec q m (QID_Path qid)) as [[path Hp]|Hnone].
- exists path, q. split; [by apply QIDFor_mapped|done].
- destruct (QIDFor_new m qid q Hm) as (q' & Hq & _ & _ & Hmap); [lia|done|].
  exists (uids q + 1), q'. split; [done|]. split; [apply Hmap; by right|].
  intros m' p' path' H. apply Hmap. by left.
Qed.

Lemma qid_paths_unique_witness :
  let q := (QIDFor 0 (mkQID 0 0 77) (NewMapper qid_state_zero).2).2 in
  nsteps qid_step 2 qid_state_zero q /\ forall m p path, mapped q m p path -> path <> 0.
Proof.
  intros q. assert (H : nsteps qid_step 2 qid_state_zero q).
  { eapply nsteps_l; [apply step_NewMapper|]. apply nsteps_once. apply step_QIDFor. cbn. lia. }
  split; [exact H|]. exact (proj1 (proj2 (qid_paths_unique 2 q H ltac:(lia)))).
Defined.
