(* ===== verification/Readdir.v ===== *)
(** * Paging through a directory ([fsimpl/readdir])

    The offset of an entry is its index plus one, so the offset of the last entry of a
    page is where the next page starts. *)
From S2P Require Import Prelude Errno Buffer Types Messages.

Local Notation len l := (Z.of_nat (length l)).

(** [qids[name]]: the zero QID for a name that is not there. *)
Definition qid_of (qids : gmap string QID) (name : string) : QID :=
  default QID_zero (qids !! name).

Definition entry (qids : gmap string QID) (offset : Z) (i : nat) (name : string) : Dirent :=
  let qid := qid_of qids name in
  mkDirent qid (wrap64 (wrap64 (offset + Z.of_nat i) + 1)) (QID_Type qid) name.

(** [Readdir(offset, count, names, qids)]: [None] is the panic of a slice whose end is
    before its start. *)
Definition Readdir (offset count : Z) (names : list string) (qids : gmap string QID)
    : option (list Dirent) :=
  if len names <=? offset then Some []
  else
    let end_ := Z.min (wrap64 (offset + count)) (len names) in
    if end_ <? offset then None
    else Some (imap (entry qids offset)
                 (take (Z.to_nat (end_ - offset)) (drop (Z.to_nat offset) names))).

Lemma imap_names (f : nat -> string -> Dirent) (l : list string) :
  (forall i name, Dirent_Name (f i name) = name) -> Dirent_Name <$> imap f l = l.
Proof.
  intros Hf. revert f Hf. induction l as [|x l IH]; intros f Hf; [done|]. cbn. rewrite Hf. f_equal.
  apply IH. intros i name. apply Hf.
Qed.

(** A page from the start that is large enough has all the names. *)
Lemma Readdir_page count names qids :
  len names <= count < 2 ^ 63 -> exists ds,
  Readdir 0 count names qids = Some ds /\ Dirent_Name <$> ds = names.
Proof.
  intros Hc. unfold Readdir. destruct (Z.leb_spec (len names) 0) as [H|H].
  - exists []. destruct names; [done|]. cbn in H. lia.
  - unfold wrap64. rewrite Z.mod_small, Z.min_r by lia.
    rewrite (proj2 (Z.ltb_ge _ _)) by lia. eexists. split; [done|].
    rewrite imap_names by done. change (drop (Z.to_nat 0) names) with names. apply take_ge. lia.
Qed.

(** ** What a client does with it *)

Section pages.
Context (count : Z) (names : list string) (qids : gmap string QID).
Hypothesis Hcount : 1 <= count < 2 ^ 32.
Hypothesis Hnames : len names < 2 ^ 63.

(** A listing from an offset on: pages of which at least one entry arrives, each asked for
    at the offset of the last entry of the page before, until a page is empty. *)
Inductive listing : Z -> list Dirent -> Prop :=
| listing_end offset : Readdir offset count names qids = Some [] -> listing offset []
| listing_page offset entries k d rest :
    Readdir offset count names qids = Some entries ->
    last (take (S k) entries) = Some d -> listing (Dirent_Offset d) rest ->
    listing offset (take (S k) entries ++ rest).

(** The entry for a name and its index. *)
Definition entry_at (i : nat) (name : string) : Dirent :=
  mkDirent (qid_of qids name) (Z.of_nat i + 1) (QID_Type (qid_of qids name)) name.

Lemma entry_small offset i name :
  0 <= offset -> offset + Z.of_nat i < 2 ^ 63 ->
  entry qids offset i name = entry_at (Z.to_nat offset + i) name.
Proof.
  intros Ho Hi. unfold entry, entry_at. f_equal. unfold wrap64.
  rewrite (Z.mod_small (offset + Z.of_nat i)), Z.mod_small by lia. lia.
Qed.

Lemma Readdir_entries offset :
  0 <= offset < 2 ^ 63 -> exists n, (len names <= offset \/ (0 < n)%nat) /\
  Readdir offset count names qids =
    Some (imap (fun i => entry_at (Z.to_nat offset + i)) (take n (drop (Z.to_nat offset) names))).
Proof.
  intros Ho. unfold Readdir. destruct (Z.leb_spec (len names) offset) as [Hle|Hlt].
  - exists 0%nat. split; [by left|]. by rewrite take_0.
  - unfold wrap64. rewrite Z.mod_small by lia.
    exists (Z.to_nat (Z.min (offset + count) (len names) - offset)). split; [right; lia|].
    rewrite (proj2 (Z.ltb_ge _ _)) by lia. f_equal. apply imap_ext. intros i name Hi.
    apply lookup_take_Some in Hi as [Hi _]. apply lookup_lt_Some in Hi. rewrite length_drop in Hi.
    apply entry_small; lia.
Qed.

Lemma imap_take {A D} (f : nat -> A -> D) (l : list A) k : take k (imap f l) = imap f (take k l).
Proof.
  revert f k. induction l as [|x l IH]; intros f [|k]; try done. cbn. by rewrite IH.
Qed.

Lemma listing_names offset ds :
  listing offset ds -> 0 <= offset <= len names ->
  ds = imap (fun i => entry_at (Z.to_nat offset + i)) (drop (Z.to_nat offset) names).
Proof.
  induction 1 as [offset He|offset entries k d rest He Hd _ IH]; intros Ho;
    destruct (Readdir_entries offset) as (n & Hn & Hr); try lia; rewrite Hr in He;
    injection He as He.
  - destruct Hn as [Hn|Hn]; [by rewrite drop_ge by lia|].
    destruct (drop (Z.to_nat offset) names) as [|x l]; [done|]. destruct n; [lia|done].
  - subst entries. rewrite imap_take, take_take in Hd |- *.
    set (j := Nat.min (S k) n) in *. set (l := drop (Z.to_nat offset) names) in *.
    assert (Hj : exists x l', take j l = l' ++ [x]).
    { destruct (take j l) as [|x0 l0] eqn:E using rev_ind; [done|]. by exists x0, l0. }
    destruct Hj as (x & l' & Hj). rewrite Hj, imap_app, last_app in Hd. cbn in Hd.
    injection Hd as <-. cbn [Dirent_Offset entry_at] in IH.
    assert (Hl' : (length l' + 1 = Nat.min j (length l))%nat).
    { pose proof (f_equal length Hj) as E. rewrite length_take, length_app in E. cbn [length] in E. lia. }
    assert (Hll : (length l = length names - Z.to_nat offset)%nat) by (unfold l; apply length_drop).
    rewrite Nat.add_0_r in IH. specialize (IH ltac:(lia)).
    set (f := fun i => entry_at (Z.to_nat offset + i)) in *.
    transitivity (imap f (take j l ++ drop j l)); [|by rewrite take_drop].
    rewrite imap_app. f_equal. rewrite IH, length_take.
    replace (Z.to_nat (Z.of_nat (Z.to_nat offset + length l') + 1))
      with (Z.to_nat offset + Nat.min j (length l))%nat by lia.
    rewrite <- drop_drop. fold l.
    assert (Hdrop : drop (Nat.min j (length l)) l = drop j l).
    { destruct (Nat.le_ge_cases j (length l)); [by rewrite Nat.min_l|].
      by rewrite Nat.min_r, !drop_ge by lia. }
    rewrite Hdrop. apply imap_ext. intros i name _. unfold f, compose. f_equal. lia.
Qed.

Lemma Readdir_nonempty offset :
  0 <= offset < len names -> exists d es,
  Readdir offset count names qids = Some (d :: es) /\ Dirent_Offset d = offset + 1.
Proof.
  intros Ho. destruct (Readdir_entries offset) as (n & Hn & ->); [lia|].
  destruct n as [|n]; [lia|]. destruct (lookup_lt_is_Some_2 names (Z.to_nat offset)) as [x Hx]; [lia|].
  rewrite (drop_S _ _ _ Hx). cbn. eexists _, _. split; [done|]. cbn. lia.
Qed.

Lemma listing_exists m offset :
  0 <= offset <= len names -> len names - offset <= Z.of_nat m -> exists ds, listing offset ds.
Proof.
  revert offset. induction m as [|m IH]; intros offset Ho Hm.
  - exists []. constructor. unfold Readdir. by rewrite (proj2 (Z.leb_le _ _)) by lia.
  - destruct (Z.eq_dec offset (len names)) as [->|Hne]; [apply IH; lia|].
    destruct (Readdir_nonempty offset) as (d & es & Hr & Hd); [lia|].
    destruct (IH (Dirent_Offset d)) as [rest Hrest]; [lia..|].
    exists (take 1 (d :: es) ++ rest). by apply (listing_page offset (d :: es) 0 d rest).
Qed.

(** C29: paging through a directory lists it: however many entries of each page arrive, one
  at least, the pages together have every name once, in order, with its QID, and then
  comes the empty page; and such a listing there is. *)
Theorem listing_complete :
(exists ds, listing 0 ds) /\
forall ds, listing 0 ds ->
  Dirent_Name <$> ds = names /\ Forall (fun d => Dirent_QID d = qid_of qids (Dirent_Name d)) ds.
Proof.
split; [apply (listing_exists (length names)); lia|].
intros ds Hds. apply listing_names in Hds as ->; [|lia]. split; [by apply imap_names|].
apply Forall_forall. intros d Hd. apply elem_of_lookup_imap in Hd as (i & name & -> & _). done.
Qed.
End pages.

(** Three names in pages of two bytes: a page may have two entries. *)
Lemma listing_complete_witness :
  exists ds, listing 2 ["a"; "b"; "c"]%string ∅ 0 ds /\ Dirent_Name <$> ds = ["a"; "b"; "c"]%string.
Proof.
  destruct (listing_complete 2 ["a"; "b"; "c"]%string ∅ ltac:(lia) ltac:(cbn; lia)) as [[ds Hds] H].
  exists ds. split; [exact Hds|exact (proj1 (H ds Hds))].
Defined.
