(* ===== verification/Templates.v ===== *)
(** * Templates of files ([fsimpl/templatefs])

    A template is a struct with some of the methods of [File]; a file embeds templates
    and overrides what it implements itself. A template is a partial implementation: the
    methods that it has, with what they return. *)
From S2P Require Import Prelude Errno Buffer Types Messages File.

Section templates.
Context {F : Type}.

Definition template : Type := forall A, FileE F A -> option A.

(** A struct with methods of its own, [own], and embedded structs, whose methods it has
    where it has none: Go demands that at most one of them does. *)
Definition embed (own : template) (embedded : list template) : template := fun A e =>
  match own A e with
  | Some a => Some a
  | None => first_some (fun t : template => t A e) embedded
  end.

Definition no_methods : template := fun A e => None.

(** What a method returns that fails with [err]: zero values next to it. *)
Definition failure (err : error) {A} (e : FileE F A) : A :=
  match e in FileE _ A return A with
  | FAttach | FWalk _ _ | FWalkGetAttr _ _ | FStatFS _ | FGetAttr _ _ | FOpen _ _
  | FWriteAt _ _ _ | FGetXattr _ _ | FListXattrs _ | FLock _ _ _ _ _ _ _
  | FCreate _ _ _ _ _ _ | FMkdir _ _ _ _ _ | FSymlink _ _ _ _ _ | FMknod _ _ _ _ _ _ _
  | FReadlink _ => inr err
  | FSetAttr _ _ _ | FClose _ | FSetXattr _ _ _ _ | FRemoveXattr _ _ | FFSync _ | FLink _ _ _
  | FRename _ _ _ | FRenameAt _ _ _ _ | FUnlinkAt _ _ _ => Some err
  | FReadAt _ p _ => (p, 0, Some err)
  | FReaddir _ _ _ => ([], Some err)
  | FRenamed _ _ _ => tt
  end.

(** The methods of a struct that is a [File]; that it has them all is a lemma on it. *)
Definition methods (t : template) {A} (e : FileE F A) : A :=
  default (failure (OtherError "missing method") e) (t A e).

(** The templates that deny: for which methods, with which error. *)
Definition NotSymlinkFile : template := fun A e =>
  match e with FReadlink _ => Some (failure (Errno EINVAL) e) | _ => None end.

Definition NotDirectoryFile : template := fun A e =>
  match e with
  | FCreate _ _ _ _ _ _ | FMkdir _ _ _ _ _ | FSymlink _ _ _ _ _ | FLink _ _ _
  | FMknod _ _ _ _ _ _ _ | FRenameAt _ _ _ _ | FUnlinkAt _ _ _ | FReaddir _ _ _ =>
      Some (failure (Errno ENOTDIR) e)
  | _ => None
  end.

Definition XattrUnimplemented : template := fun A e =>
  match e with
  | FSetXattr _ _ _ _ | FGetXattr _ _ | FListXattrs _ | FRemoveXattr _ _ =>
      Some (failure (Errno ENOSYS) e)
  | _ => None
  end.

Definition NotLockable : template := fun A e =>
  match e with FLock _ _ _ _ _ _ _ => Some (failure (Errno ENOSYS) e) | _ => None end.

Definition IsDir : template := fun A e =>
  match e with FWriteAt _ _ _ | FReadAt _ _ _ => Some (failure (Errno EISDIR) e) | _ => None end.

(** [p9.DefaultWalkGetAttr]. *)
Definition DefaultWalkGetAttr : template := fun A e =>
  match e with FWalkGetAttr _ _ => Some (failure (Errno ENOSYS) e) | _ => None end.

(** The templates that do nothing. *)
Definition NoopRenamed : template := fun A e =>
  match e in FileE _ A return option A with FRenamed _ _ _ => Some tt | _ => None end.
Definition NilCloser : template := fun A e =>
  match e in FileE _ A return option A with FClose _ => Some None | _ => None end.
Definition NilSyncer : template := fun A e =>
  match e in FileE _ A return option A with FFSync _ => Some None | _ => None end.

Definition ReadOnlyFile : template :=
  embed (fun A e =>
    match e with
    | FFSync _ | FSetAttr _ _ _ | FRename _ _ _ | FWriteAt _ _ _ => Some (failure (Errno EROFS) e)
    | _ => None
    end) [NotSymlinkFile; NotDirectoryFile; XattrUnimplemented; NoopRenamed; NotLockable].

Definition ReadOnlyDir : template :=
  embed (fun A e =>
    match e with
    | FCreate _ _ _ _ _ _ | FMkdir _ _ _ _ _ | FSymlink _ _ _ _ _ | FLink _ _ _
    | FMknod _ _ _ _ _ _ _ | FRenameAt _ _ _ _ | FUnlinkAt _ _ _ | FReaddir _ _ _
    | FFSync _ | FSetAttr _ _ _ | FRename _ _ _ => Some (failure (Errno EROFS) e)
    | _ => None
    end) [NotSymlinkFile; IsDir; XattrUnimplemented; NoopRenamed; NotLockable].

Definition NotImplementedFile : template :=
  embed (fun A e =>
    match e with
    | FWalk _ _ | FStatFS _ | FOpen _ _ | FReadAt _ _ _ | FGetAttr _ _ | FSetAttr _ _ _
    | FRename _ _ _ | FWriteAt _ _ _ | FCreate _ _ _ _ _ _ | FMkdir _ _ _ _ _
    | FSymlink _ _ _ _ _ | FLink _ _ _ | FMknod _ _ _ _ _ _ _ | FRenameAt _ _ _ _
    | FUnlinkAt _ _ _ | FReaddir _ _ _ | FReadlink _ => Some (failure (Errno ENOSYS) e)
    | _ => None
    end) [DefaultWalkGetAttr; NotLockable; XattrUnimplemented].

Definition NoopFile : template :=
  embed no_methods [NotImplementedFile; NilCloser; NilSyncer; NoopRenamed].

(** ** What templates promise *)

(** The methods that change the file system. *)
Definition modifies {A} (e : FileE F A) : bool :=
  match e with
  | FSetAttr _ _ _ | FWriteAt _ _ _ | FSetXattr _ _ _ _ | FRemoveXattr _ _
  | FCreate _ _ _ _ _ _ | FMkdir _ _ _ _ _ | FSymlink _ _ _ _ _ | FLink _ _ _
  | FMknod _ _ _ _ _ _ _ | FRename _ _ _ | FRenameAt _ _ _ _ | FUnlinkAt _ _ _ => true
  | _ => false
  end.

(** A template that denies them: each fails with one of four errors, and none is left to
    the struct that embeds the template. *)
Definition denies (t : template) : Prop := forall A (e : FileE F A), modifies e = true ->
  exists errno, errno ∈ [EROFS; ENOTDIR; EISDIR; ENOSYS] /\
    t A e = Some (failure (Errno errno) e).

Ltac denied err :=
  exists err; split;
  [rewrite !elem_of_cons; tauto|reflexivity].

Lemma ReadOnlyFile_denies : denies ReadOnlyFile.
Proof.
  intros A e He. destruct e; try discriminate He;
    first [denied EROFS | denied ENOTDIR | denied ENOSYS].
Qed.
Lemma ReadOnlyDir_denies : denies ReadOnlyDir.
Proof.
  intros A e He. destruct e; try discriminate He;
    first [denied EROFS | denied EISDIR | denied ENOSYS].
Qed.

(** Every method of [File] is in [NoopFile]: it is a [p9.File]. *)
Lemma NoopFile_total A (e : FileE F A) :
  match e with FAttach => True | _ => is_Some (NoopFile A e) end.
Proof. destruct e; try exact Logic.I; eexists; reflexivity. Qed.
End templates.
Arguments template : clear implicits.

(** ** Files within a larger type inj files *)

(** A file system whose files are among those of another: [inj] says which ones, [proj] is
    what a file of the other one is to it. *)
Section lift.
Context {F G S : Type} (proj : F -> G) (inj : G -> F) (ex : forall A, FileE G A -> S -> A * S).
Arguments ex {A}.

Definition with_result {A B} (f : A -> B) (r : (A + error) * S) : (B + error) * S :=
  (match r.1 with inl a => inl (f a) | inr err => inr err end, r.2).

Definition lift {A} (e : FileE F A) (s : S) : A * S :=
  match e in FileE _ A return A * S with
  | FAttach => with_result inj (ex FAttach s)
  | FWalk f names =>
      with_result (fun '(qids, file) => (qids, inj file)) (ex (FWalk (proj f) names) s)
  | FWalkGetAttr f names =>
      with_result (fun '(qids, file, mask, attr) => (qids, inj file, mask, attr))
        (ex (FWalkGetAttr (proj f) names) s)
  | FCreate f name flags permissions uid gid =>
      with_result (fun '(file, qid, iounit) => (inj file, qid, iounit))
        (ex (FCreate (proj f) name flags permissions uid gid) s)
  | FStatFS f => ex (FStatFS (proj f)) s
  | FGetAttr f req => ex (FGetAttr (proj f) req) s
  | FSetAttr f valid attr => ex (FSetAttr (proj f) valid attr) s
  | FClose f => ex (FClose (proj f)) s
  | FOpen f mode => ex (FOpen (proj f) mode) s
  | FReadAt f p offset => ex (FReadAt (proj f) p offset) s
  | FWriteAt f p offset => ex (FWriteAt (proj f) p offset) s
  | FSetXattr f attr data flags => ex (FSetXattr (proj f) attr data flags) s
  | FGetXattr f attr => ex (FGetXattr (proj f) attr) s
  | FListXattrs f => ex (FListXattrs (proj f)) s
  | FRemoveXattr f attr => ex (FRemoveXattr (proj f) attr) s
  | FFSync f => ex (FFSync (proj f)) s
  | FLock f pid locktype flags start length client =>
      ex (FLock (proj f) pid locktype flags start length client) s
  | FMkdir f name permissions uid gid => ex (FMkdir (proj f) name permissions uid gid) s
  | FSymlink f oldName newName uid gid => ex (FSymlink (proj f) oldName newName uid gid) s
  | FLink f target newName => ex (FLink (proj f) (proj target) newName) s
  | FMknod f name mode major minor uid gid =>
      ex (FMknod (proj f) name mode major minor uid gid) s
  | FRename f newDir newName => ex (FRename (proj f) (proj newDir) newName) s
  | FRenameAt f oldName newDir newName => ex (FRenameAt (proj f) oldName (proj newDir) newName) s
  | FUnlinkAt f name flags => ex (FUnlinkAt (proj f) name flags) s
  | FReaddir f offset count => ex (FReaddir (proj f) offset count) s
  | FReadlink f => ex (FReadlink (proj f)) s
  | FRenamed f newDir newName => ex (FRenamed (proj f) (proj newDir) newName) s
  end.
End lift.
