(* ===== verification/StaticFS.v ===== *)
(** * The static file system ([fsimpl/staticfs])

    A read-only file system of one directory with files in memory, given by options:
    [WithFile] for each file, [New] for all of them. A file is a string behind a QID
    mapper of its own; the directory knows the mapped QIDs. *)
From stdpp Require Import sorting.
From S2P Require Import Prelude Errno Buffer Types Messages Message File State Handlers.
From S2P Require Import Server Reach Qids Readdir Templates.

Local Notation len l := (Z.of_nat (length l)).

(** ** Files *)

(** [strings.Reader.ReadAt], of the standard library: the slice afterwards, the count, the
    error. *)
Definition Reader_ReadAt (content p : list byte) (off : Z) : list byte * Z * option error :=
  if off <? 0 then (p, 0, Some (OtherError "strings.Reader.ReadAt: negative offset"))
  else if len content <=? off then (p, 0, Some io_EOF)
  else
    let data := take (length p) (drop (Z.to_nat off) content) in
    (data ++ drop (length data) p, len data,
     if len data <? len p then Some io_EOF else None).

Record file := mk_file { Reader : list byte; qid : QID }.

(** [ReadOnlyFile(content)]. *)
Definition ReadOnlyFile_of (content : string) : file :=
  mk_file (bytes_of_string content) (mkQID TypeRegular 0 0).

Definition statfs {F} : template F := fun A e =>
  match e in FileE _ A return option A with
  | FStatFS _ => Some (inl (mkFSStat 0x01021997 4096 0 0 0 0 0 0 0))
  | _ => None
  end.

Definition file_Attr (f : file) : Attr :=
  mkAttr (Z.lor ModeRegular 0x1b6 (* 0666 *)) 0 0 0 0 (len (Reader f)) 4096 0 0 0 0 0 0 0 0 0 0 0.

Definition file_methods : template file :=
  embed (fun A e =>
    match e in FileE _ A return option A with
    | FWalk f names =>
        Some (match names with [] => inl ([], f) | _ => inr (Errno ENOTDIR) end)
    | FOpen f mode =>
        Some (if OpenFlags_Mode mode =? ReadOnly then inl (qid f, 4096) else inr (Errno EROFS))
    | FGetAttr f req => Some (inl (qid f, req, file_Attr f))
    | FReadAt f p offset => Some (Reader_ReadAt (Reader f) p offset)
    | _ => None
    end) [statfs; DefaultWalkGetAttr; ReadOnlyFile; NilCloser].

Definition file_exec {A} (e : FileE file A) (w : unit) : A * unit :=
  (methods file_methods e, w).

(** ** The directory *)

Definition wrapped : Type := qidTransformFile file.

Record attacher := mk_attacher {
  files : gmap string wrapped;
  qids : gmap string QID;
  paths : qid_state;
}.

(** A [File] of this file system. *)
Inductive sfile := SDir | SFile (f : wrapped).

Definition zero_file : file := mk_file [] QID_zero.

(** What a method of a wrapped file does; a file given to it as an argument is another
    implementation's to it. *)
Definition wrapped_exec {A} (e : FileE wrapped A) (q : qid_state) : A * qid_state :=
  let '(a, (_, q)) := wrapper_exec (fun A => file_exec) zero_file e (tt, q) in (a, q).

Definition rootQID : QID := mkQID TypeDir 0 0.
Definition dir_Attr : Attr :=
  mkAttr (Z.lor ModeDirectory 0x1b6 (* 0666 *)) 0 0 2 0 0 0 0 0 0 0 0 0 0 0 0 0 0.

Section staticfs.
(** [maps.Keys] and [slices.Sort] of [golang.org/x/exp]: the keys of a map in some order, and
    a list sorted in place. *)
Context (Keys : gmap string wrapped -> list string) (Sort : list string -> list string).

Definition dir_methods (a : attacher) : template sfile :=
  embed (fun A e =>
    match e in FileE _ A return option A with
    | FOpen _ mode =>
        Some (if OpenFlags_Mode mode =? ReadOnly then inl (rootQID, 4096) else inr (Errno EROFS))
    | FWalk d names =>
        Some (match names with
              | [] => inl ([], d)
              | [name] =>
                  match files a !! name with
                  | Some f => inl ([qid_of (qids a) name], SFile f)
                  | None => inr (Errno ENOENT)
                  end
              | _ => inr (Errno ENOENT)
              end)
    | FGetAttr _ req => Some (inl (rootQID, req, dir_Attr))
    | FReaddir _ offset count =>
        (* the bounds of the slice are right for every offset and a count of 32 bits, so the
           second case is not reached *)
        Some (match Readdir offset count (Sort (Keys (files a))) (qids a) with
              | Some ds => (ds, None)
              | None => ([], Some (OtherError "panic: slice bounds out of range"))
              end)
    | _ => None
    end) [statfs; DefaultWalkGetAttr; ReadOnlyDir; NilCloser].

Definition unwrap (f : sfile) : wrapped :=
  match f with SFile f => f | SDir => NewWrapperFile zero_file 0 end.

Definition static_exec {A} (e : FileE sfile A) (a : attacher) : A * attacher :=
  match e in FileE _ A return A * attacher with
  | FAttach => (inl SDir, a)
  | e =>
      match receiver e with
      | Some (SFile _) =>
          let '(r, q) := lift unwrap SFile (fun A => wrapped_exec) e (paths a) in
          (r, mk_attacher (files a) (qids a) q)
      | _ => (methods (dir_methods a) e, a)
      end
  end.

(** ** Options *)

Definition WithFile (name content : string) (a : attacher) : attacher + error :=
  if contains_slash name then inr (OtherError "directories are not supported by staticfs")
  else match files a !! name with
  | Some _ => inr (OtherError "file already exists")
  | None =>
      let '(m, q) := NewMapper (paths a) in
      let f := NewWrapperFile (ReadOnlyFile_of content) m in
      let files := <[name := f]> (files a) in
      (* Precompute QID for Readdir. *)
      match wrapped_exec (FGetAttr f (AttrMask_of_bits 1)) q with
      | (inr err, q) => inr err
      | (inl (qid, _, _), q) => inl (mk_attacher files (<[name := qid]> (qids a)) q)
      end
  end.

Fixpoint apply_opts (opts : list (string * string)) (a : attacher) : attacher + error :=
  match opts with
  | [] => inl a
  | (name, content) :: opts =>
      match WithFile name content a with
      | inl a => apply_opts opts a
      | inr err => inr err
      end
  end.

Definition New (opts : list (string * string)) : attacher + error :=
  apply_opts opts (mk_attacher ∅ ∅ qid_state_zero).
End staticfs.

(** ** What a mapper in use changes: nothing *)

(** A wrapped file of this file system whose mapper knows its path, zero. *)
Record settled (q : qid_state) (f : wrapped) (path : Z) : Prop := {
  st_qid : qid (wf_File f) = mkQID TypeRegular 0 0;
  st_mapped : mapped q (wf_m f) 0 path;
}.

Lemma QIDFor_settled q f path : settled q f path ->
  QIDFor (wf_m f) (qid (wf_File f)) q = (mkQID TypeRegular 0 path, q) /\
  (QIDFor (wf_m f) QID_zero q).2 = q.
Proof.
  intros [Hq Hm]. rewrite Hq. split; [by apply QIDFor_mapped|].
  by rewrite (QIDFor_mapped _ QID_zero _ _ Hm).
Qed.

Lemma wrapped_GetAttr q f path req : settled q f path ->
  wrapped_exec (FGetAttr f req) q
    = (inl (mkQID TypeRegular 0 path, req, file_Attr (wf_File f)), q).
Proof.
  intros Hf. unfold wrapped_exec, wrapper_exec, map_result. cbn.
  by rewrite (proj1 (QIDFor_settled _ _ _ Hf)).
Qed.

Lemma wrapped_Walk q f names :
  wrapped_exec (FWalk f names) q
    = (match names with [] => inl ([], f) | _ => inr (Errno ENOTDIR) end, q).
Proof. destruct names; [|done]. by destruct f. Qed.

Lemma wrapped_ReadAt q f p offset :
  wrapped_exec (FReadAt f p offset) q = (Reader_ReadAt (Reader (wf_File f)) p offset, q).
Proof. done. Qed.

Lemma wrapped_exec_same q f path A (e : FileE wrapped A) :
  settled q f path -> receiver e = Some f -> (wrapped_exec e q).2 = q.
Proof.
  intros Hf He. pose proof (QIDFor_settled _ _ _ Hf) as [Hq Hz].
  destruct e; cbn in He; try discriminate He; injection He as ->; try reflexivity.
  - by rewrite wrapped_Walk.
  - by rewrite (wrapped_GetAttr _ _ path).
  - unfold wrapped_exec, wrapper_exec, map_result. cbn.
    destruct (OpenFlags_Mode mode =? ReadOnly); cbn; [by rewrite Hq|].
    by destruct (QIDFor (wf_m f) QID_zero q).
  - unfold wrapped_exec, wrapper_exec, map_result. cbn. by destruct (QIDFor (wf_m f) QID_zero q).
  - unfold wrapped_exec, wrapper_exec, map_result. cbn. by destruct (QIDFor (wf_m f) QID_zero q).
  - unfold wrapped_exec, wrapper_exec, map_result. cbn. by destruct (QIDFor (wf_m f) QID_zero q).
  - unfold wrapped_exec, wrapper_exec, map_result. cbn. by destruct (QIDFor (wf_m f) QID_zero q).
Qed.

(** ** What [New] builds *)

(** The file system after the options [opts], [k] calls of the QID library later. *)
Record built (opts : list (string * string)) (a : attacher) : Prop := {
  bu_names : forall name, is_Some (files a !! name) <-> name ∈ opts.*1;
  bu_nodup : NoDup opts.*1;
  bu_file : forall name f, files a !! name = Some f ->
    exists content path, (name, content) ∈ opts /\ wf_File f = ReadOnlyFile_of content /\
      settled (paths a) f path /\ qids a !! name = Some (mkQID TypeRegular 0 path);
  bu_mappers : forall name f name' f', files a !! name = Some f -> files a !! name' = Some f' ->
    wf_m f = wf_m f' -> name = name';
  bu_steps : nsteps qid_step (2 * length opts) qid_state_zero (paths a);
}.

(** One option: a new mapper, one path in it. *)
Lemma WithFile_ok name content a a' :
  let m := length (mappers (paths a)) in
  let r := QIDFor m (mkQID TypeRegular 0 0) (NewMapper (paths a)).2 in
  WithFile name content a = inl a' ->
  files a !! name = None /\
  a' = mk_attacher (<[name := NewWrapperFile (ReadOnlyFile_of content) m]> (files a))
         (<[name := r.1]> (qids a)) r.2.
Proof.
  intros m r. unfold WithFile. destruct (contains_slash name); [done|].
  destruct (files a !! name) eqn:E; [done|]. cbn. unfold wrapped_exec, wrapper_exec, map_result. cbn.
  change (QIDFor _ _ _) with r. destruct r as [nqid q]. cbn. by intros [= <-].
Qed.

Lemma WithFile_built opts a name content a' :
  Z.of_nat (2 * length (opts ++ [(name, content)])) < 2 ^ 64 ->
  built opts a -> WithFile name content a = inl a' -> built (opts ++ [(name, content)]) a'.
Proof.
  intros Hlen [Hn Hd Hf Hm Hs] Hw. apply WithFile_ok in Hw as [Hnone ->].
  rewrite length_app in Hlen. cbn [length] in Hlen. set (m := length (mappers (paths a))).
  destruct (fresh_mapper _ _ (mkQID TypeRegular 0 0) Hs ltac:(lia))
    as (path & q2 & Hq & Hs2 & Hold & Hmap).
  fold m in Hq, Hold, Hmap. rewrite Hq. cbn [fst snd QID_Type QID_Version QID_Path] in *.
  assert (Hname : name ∉ opts.*1) by (intros H; apply Hn in H as [? H]; congruence).
  split; cbn [files qids paths].
  - intros n. rewrite fmap_app, elem_of_app, lookup_insert_is_Some, <- Hn. cbn.
    rewrite list_elem_of_singleton. destruct (decide (name = n)); naive_solver.
  - rewrite fmap_app. apply NoDup_app. split; [done|]. split; [|apply NoDup_singleton].
    intros x Hx Hx'. apply list_elem_of_singleton in Hx'. by subst.
  - intros n f Hl. destruct (decide (name = n)) as [<-|Hne].
    + rewrite lookup_insert_eq in Hl. injection Hl as <-. exists content, path.
      split; [apply elem_of_app; right; by left|]. split; [done|]. split; [|apply lookup_insert_eq].
      split; [done|]. apply Hmap. by right.
    + rewrite lookup_insert_ne in Hl by done. destruct (Hf n f Hl) as (c & p & Hin & Hc & [Hq0 Hp] & Hqid).
      exists c, p. split; [apply elem_of_app; by left|]. split; [done|].
      split; [|by rewrite lookup_insert_ne]. split; [done|]. apply Hmap. by left.
  - assert (Hother : forall n f, files a !! n = Some f -> wf_m f <> m).
    { intros n f Hl. destruct (Hf n f Hl) as (c & p & _ & _ & [_ Hp] & _). exact (Hold _ _ _ Hp). }
    intros n f n' f' Hl Hl' E. apply lookup_insert_Some in Hl, Hl'.
    destruct Hl as [[<- <-]|[_ Hl]], Hl' as [[<- <-]|[_ Hl']]; cbn in E; [done|..].
    + by destruct (Hother n' f').
    + by destruct (Hother n f).
    + by apply (Hm n f n' f').
  - rewrite length_app. cbn [length].
    by replace (2 * (length opts + 1))%nat with (S (S (2 * length opts))) by lia.
Qed.

Lemma apply_opts_built opts opts0 a a' :
  Z.of_nat (2 * length (opts0 ++ opts)) < 2 ^ 64 ->
  built opts0 a -> apply_opts opts a = inl a' -> built (opts0 ++ opts) a'.
Proof.
  revert opts0 a. induction opts as [|[name content] opts IH]; intros opts0 a Hlen Ha; cbn.
  - intros [= <-]. by rewrite app_nil_r.
  - destruct (WithFile name content a) as [a1|] eqn:E; [|done]. intros H.
    rewrite cons_middle, app_assoc in Hlen |- *. apply (IH _ a1); [done| |done].
    apply (WithFile_built _ a); [|done..]. rewrite length_app in Hlen. lia.
Qed.

Lemma New_built opts a :
  Z.of_nat (2 * length opts) < 2 ^ 64 -> New opts = inl a -> built opts a.
Proof.
  intros Hlen H. apply (apply_opts_built opts [] (mk_attacher ∅ ∅ qid_state_zero)); [done| |done].
  split; cbn.
  - intros name. rewrite lookup_empty, elem_of_nil, is_Some_alt. done.
  - constructor.
  - intros name f Hf. by rewrite lookup_empty in Hf.
  - intros name f name' f' Hf. by rewrite lookup_empty in Hf.
  - constructor.
Qed.

(** ** Reading a file *)

Section contents.
Context (Keys : gmap string wrapped -> list string) (Sort : list string -> list string).
Hypothesis Keys_perm : forall m, Keys m ≡ₚ (map_to_list m).*1.
Hypothesis Sort_perm : forall l, Sort l ≡ₚ l.
Local Notation run := (static_exec Keys Sort).

(** What a client does: reads of [n] bytes from an offset on, until one says that the file
    ends there; [fuel] bounds their number. *)
Fixpoint read_all (fuel : nat) (f : sfile) (n : nat) (offset : Z) (a : attacher)
    : option (list byte) :=
  match fuel with
  | O => None
  | S fuel =>
      match run (FReadAt f (replicate n x00) offset) a with
      | ((p, k, Some err), _) =>
          if Is err TEOF then Some (take (Z.to_nat k) p) else None
      | ((p, k, None), a) =>
          (take (Z.to_nat k) p ++.) <$> read_all fuel f n (offset + k) a
      end
  end.

(** The files of the file system: its directory, and those that it walks to. *)
Definition owns (a : attacher) (f : sfile) : Prop :=
  match f with SDir => True | SFile f => exists name, files a !! name = Some f end.

Lemma static_exec_same opts a A (e : FileE sfile A) f :
  built opts a -> owns a f -> receiver e = Some f -> (run e a).2 = a.
Proof.
  intros Hb Ho He. destruct f as [|f].
  - destruct e; cbn in He; try discriminate He; injection He as ->; reflexivity.
  - destruct Ho as [name Hf]. destruct (bu_file _ _ Hb _ _ Hf) as (content & path & _ & _ & Hs & _).
    pose proof (fun A e => wrapped_exec_same _ _ _ A e Hs) as Hsame.
    assert (E : (lift unwrap SFile (fun A => wrapped_exec) e (paths a)).2 = paths a).
    { destruct e; cbn in He; try discriminate He; injection He as ->; cbn [lift with_result snd];
        by apply Hsame. }
    destruct e; cbn in He; try discriminate He; injection He as ->; unfold static_exec;
      cbn [receiver]; destruct (lift _ _ _ _ _) as [r q]; cbn in E |- *; subst q; by destruct a.
Qed.

(** A method that fails with [errno], a wrapper around it or not. *)
Ltac fails_with errno :=
  exists errno; split; [rewrite !elem_of_cons; tauto|];
  solve [reflexivity
        |unfold static_exec, lift, wrapped_exec, wrapper_exec, map_result; cbn;
         repeat match goal with |- context [QIDFor ?m QID_zero ?q] => destruct (QIDFor m QID_zero q) end;
         reflexivity].

Lemma static_denies a A (e : FileE sfile A) f :
  receiver e = Some f -> modifies e = true ->
  exists errno, errno ∈ [EROFS; ENOTDIR; EISDIR; ENOSYS] /\ (run e a).1 = failure (Errno errno) e.
Proof.
  intros He Hm. destruct f; destruct e; try discriminate Hm; cbn in He; injection He as ->;
    first [fails_with EROFS|fails_with ENOTDIR|fails_with EISDIR|fails_with ENOSYS].
Qed.

Lemma static_walk_owned a f names qs f' :
  owns a f -> (run (FWalk f names) a).1 = inl (qs, f') -> owns a f'.
Proof.
  intros Ho. destruct f as [|f].
  - destruct names as [|name [|]]; cbn; [by intros [= _ <-]| |done].
    destruct (files a !! name) as [f|] eqn:E; [|done]. intros [= _ <-]. by exists name.
  - cbn. rewrite wrapped_Walk. destruct names; [|done]. by intros [= _ <-].
Qed.

(** C26: the static file system is read-only: a method that would change a file fails, no
  method changes the state of the file system, the QID mappers included, and a walk leads
  to a file of which the same holds. *)
Theorem static_read_only opts a A (e : FileE sfile A) f :
Z.of_nat (2 * length opts) < 2 ^ 64 -> New opts = inl a -> owns a f -> receiver e = Some f ->
(run e a).2 = a /\
(modifies e = true -> exists errno, errno ∈ [EROFS; ENOTDIR; EISDIR; ENOSYS] /\
   (run e a).1 = failure (Errno errno) e) /\
(forall names qs f', (run (FWalk f names) a).1 = inl (qs, f') -> owns a f').
Proof.
intros Hlen Hnew Ho He. pose proof (New_built _ _ Hlen Hnew) as Hb.
split; [by eapply static_exec_same|]. split; [by eapply static_denies|].
intros names qs f'. by apply static_walk_owned.
Qed.

(** *** The contents *)

Lemma static_ReadAt a f n offset :
  (0 < n)%nat -> 0 <= offset ->
  exists p k e, run (FReadAt (SFile f) (replicate n x00) offset) a = ((p, k, e), a) /\
  take (Z.to_nat k) p = take n (drop (Z.to_nat offset) (Reader (wf_File f))) /\
  k = len (take n (drop (Z.to_nat offset) (Reader (wf_File f)))) /\
  e = if k <? Z.of_nat n then Some io_EOF else None.
Proof.
  intros Hn Ho.
  assert (E : run (FReadAt (SFile f) (replicate n x00) offset) a
    = (Reader_ReadAt (Reader (wf_File f)) (replicate n x00) offset, a)) by (by destruct a).
  rewrite E. unfold Reader_ReadAt. rewrite (proj2 (Z.ltb_ge _ _)) by lia.
  rewrite length_replicate. destruct (Z.leb_spec (len (Reader (wf_File f))) offset).
  - rewrite drop_ge, take_nil by lia. eexists _, _, _. split; [done|]. split; [done|].
    split; [done|]. by rewrite (proj2 (Z.ltb_lt _ _)) by (cbn; lia).
  - set (data := take n (drop (Z.to_nat offset) (Reader (wf_File f)))).
    eexists _, _, _. split; [done|]. rewrite Nat2Z.id, take_app_length. done.
Qed.

Lemma read_all_ok fuel a f n offset :
  (0 < n)%nat -> 0 <= offset <= len (Reader (wf_File f)) ->
  len (Reader (wf_File f)) - offset < Z.of_nat fuel ->
  read_all fuel (SFile f) n offset a = Some (drop (Z.to_nat offset) (Reader (wf_File f))).
Proof.
  intros Hn. revert offset. induction fuel as [|fuel IH]; intros offset Ho Hfuel; [lia|].
  destruct (static_ReadAt a f n offset) as (p & k & e & Hr & Hp & Hk & He); [lia..|].
  cbn [read_all]. rewrite Hr. rewrite length_take, length_drop in Hk.
  destruct (Z.ltb_spec k (Z.of_nat n)) as [Hlt|Hge]; subst e; cbn.
  - rewrite Hp. f_equal. apply take_ge. rewrite length_drop. lia.
  - rewrite IH by lia. cbn. rewrite Hp. f_equal.
    replace (Z.to_nat (offset + k)) with (Z.to_nat offset + n)%nat by lia.
    by rewrite <- drop_drop, take_drop.
Qed.
Lemma built_file opts a name content :
  built opts a -> (name, content) ∈ opts -> exists f path,
  files a !! name = Some f /\ wf_File f = ReadOnlyFile_of content /\
  settled (paths a) f path /\ qids a !! name = Some (mkQID TypeRegular 0 path).
Proof.
  intros [Hn Hd Hf _ _] Hin.
  destruct (proj2 (Hn name)) as [f Hl]; [apply list_elem_of_fmap; by exists (name, content)|].
  destruct (Hf _ _ Hl) as (content' & path & Hin' & Hc & Hs & Hq). exists f, path.
  apply (elem_of_list_to_map_1 (M := gmap string)) in Hin, Hin'; [|done..].
  assert (content' = content) as -> by congruence. done.
Qed.

Lemma static_walk_one a name f qid :
  files a !! name = Some f -> qids a !! name = Some qid ->
  (run (FWalk SDir [name]) a).1 = inl ([qid], SFile f).
Proof. intros Hf Hq. cbn. rewrite Hf. unfold qid_of. by rewrite Hq. Qed.

Lemma static_GetAttr a f path req :
  settled (paths a) f path ->
  (run (FGetAttr (SFile f) req) a).1 = inl (mkQID TypeRegular 0 path, req, file_Attr (wf_File f)).
Proof. intros Hs. unfold static_exec. cbn [receiver lift unwrap]. by rewrite (wrapped_GetAttr _ _ path). Qed.

Lemma built_paths opts a name name' f f' path :
  Z.of_nat (2 * length opts) < 2 ^ 64 -> built opts a ->
  files a !! name = Some f -> files a !! name' = Some f' ->
  mapped (paths a) (wf_m f) 0 path -> mapped (paths a) (wf_m f') 0 path ->
  name = name' /\ path <> 0.
Proof.
  intros Hlen Hb Hf Hf' H H'. destruct (qid_steps_inv _ _ (bu_steps _ _ Hb) Hlen) as [[Hr Hi] _].
  split; [|apply Hr in H; lia]. eapply (bu_mappers _ _ Hb); [done..|].
  exact (proj1 (Hi _ _ _ _ _ H H')).
Qed.

Lemma built_names opts a : built opts a -> Sort (Keys (files a)) ≡ₚ opts.*1.
Proof.
  intros Hb. rewrite Sort_perm, Keys_perm. apply NoDup_Permutation.
  - apply NoDup_fst_map_to_list.
  - apply (bu_nodup _ _ Hb).
  - intros name. rewrite <- (bu_names _ _ Hb), list_elem_of_fmap. split.
    + intros ([n f] & -> & H). apply elem_of_map_to_list in H. by exists f.
    + intros [f H]. exists (name, f). split; [done|]. by apply elem_of_map_to_list.
Qed.

Lemma static_file opts a name content :
  Z.of_nat (2 * length opts) < 2 ^ 64 -> built opts a -> (name, content) ∈ opts ->
  exists f path, let qid := mkQID TypeRegular 0 path in
  (run (FWalk SDir [name]) a).1 = inl ([qid], SFile f) /\ path <> QID_Path rootQID /\
  (forall req, exists attr, (run (FGetAttr (SFile f) req) a).1 = inl (qid, req, attr) /\
     Attr_Size attr = Z.of_nat (String.length content)) /\
  forall n, (0 < n)%nat ->
    read_all (S (String.length content)) (SFile f) n 0 a = Some (bytes_of_string content).
Proof.
  intros Hlen Hb Hin. destruct (built_file _ _ _ _ Hb Hin) as (f & path & Hf & Hc & Hs & Hq).
  pose proof (st_mapped _ _ _ Hs) as Hm.
  exists f, path. split; [by apply static_walk_one|].
  split; [exact (proj2 (built_paths _ _ _ _ _ _ _ Hlen Hb Hf Hf Hm Hm))|split].
  - intros req. eexists. split; [by apply static_GetAttr|]. rewrite Hc. cbn.
    by rewrite length_bytes_of_string.
  - intros n Hn.
    rewrite read_all_ok, Hc; [done|done|..]; rewrite ?Hc; cbn; rewrite length_bytes_of_string; lia.
Qed.

Lemma static_distinct opts a name name' qid qid' f f' :
  Z.of_nat (2 * length opts) < 2 ^ 64 -> built opts a ->
  (run (FWalk SDir [name]) a).1 = inl ([qid], f) ->
  (run (FWalk SDir [name']) a).1 = inl ([qid'], f') -> QID_Path qid = QID_Path qid' ->
  name = name'.
Proof.
  intros Hlen Hb. cbn. destruct (files a !! name) as [g|] eqn:E; [|done].
  destruct (files a !! name') as [g'|] eqn:E'; [|done]. intros [= <- <-] [= <- <-].
  destruct (bu_file _ _ Hb _ _ E) as (_ & path & _ & _ & [_ Hm] & Hq).
  destruct (bu_file _ _ Hb _ _ E') as (_ & path' & _ & _ & [_ Hm'] & Hq').
  unfold qid_of. rewrite Hq, Hq'. cbn. intros <-.
  exact (proj1 (built_paths _ _ _ _ _ _ _ Hlen Hb E E' Hm Hm')).
Qed.

Lemma static_page opts a count :
  built opts a -> len opts <= count < 2 ^ 32 -> exists ds,
  (run (FReaddir SDir 0 count) a).1 = (ds, None) /\ Dirent_Name <$> ds ≡ₚ opts.*1.
Proof.
  intros Hb Hcount. pose proof (built_names _ _ Hb) as Hp.
  pose proof (Permutation_length Hp) as Hl. rewrite length_fmap in Hl.
  destruct (Readdir_page count (Sort (Keys (files a))) (qids a)) as (ds & Hr & Hd); [lia..|].
  exists ds. split; [|by rewrite Hd]. cbn. by rewrite Hr.
Qed.

(** C25: the static file system serves its files: after [New], a walk to the name of an option
  finds a file, with the QID that the file and the directory say, whose size is that of
  the contents and from which reads of any size give the contents up to the end; a walk
  to another name fails; the QIDs of two files differ, and from the directory's; a page
  of the directory that is large enough has the names of the options, each once. *)
Theorem static_contents opts a :
Z.of_nat (2 * length opts) < 2 ^ 64 -> New opts = inl a ->
(forall name content, (name, content) ∈ opts -> exists f path,
   let qid := mkQID TypeRegular 0 path in
   (run (FWalk SDir [name]) a).1 = inl ([qid], SFile f) /\ path <> QID_Path rootQID /\
   (forall req, exists attr, (run (FGetAttr (SFile f) req) a).1 = inl (qid, req, attr) /\
      Attr_Size attr = Z.of_nat (String.length content)) /\
   forall n, (0 < n)%nat ->
     read_all (S (String.length content)) (SFile f) n 0 a = Some (bytes_of_string content)) /\
(forall name, name ∉ opts.*1 -> (run (FWalk SDir [name]) a).1 = inr (Errno ENOENT)) /\
(forall name name' qid qid' f f', (run (FWalk SDir [name]) a).1 = inl ([qid], f) ->
   (run (FWalk SDir [name']) a).1 = inl ([qid'], f') -> QID_Path qid = QID_Path qid' ->
   name = name') /\
(forall count, len opts <= count < 2 ^ 32 -> exists ds,
   (run (FReaddir SDir 0 count) a).1 = (ds, None) /\ Dirent_Name <$> ds ≡ₚ opts.*1).
Proof.
intros Hlen Hnew. pose proof (New_built _ _ Hlen Hnew) as Hb. split; [|split; [|split]].
- intros name content. by apply static_file.
- intros name Hname. cbn. destruct (files a !! name) as [f|] eqn:E; [|done].
  destruct Hname. apply (bu_names _ _ Hb). by exists f.
- intros name name' qid qid' f f'. by eapply static_distinct.
- intros count. by eapply static_page.
Qed.
End contents.

(** ** An example, and the server on top *)

Definition keys_of (m : gmap string wrapped) : list string := (map_to_list m).*1.
Definition sort_names : list string -> list string := merge_sort String.le.

Lemma keys_of_perm m : keys_of m ≡ₚ (map_to_list m).*1.
Proof. done. Qed.
Lemma sort_names_perm l : sort_names l ≡ₚ l.
Proof. apply merge_sort_Permutation. Qed.

Definition demo_opts : list (string * string) := [("b", "hello"); ("a", "world!")]%string.
Definition demo_fs : attacher :=
  match New demo_opts with inl a => a | inr _ => mk_attacher ∅ ∅ qid_state_zero end.

Lemma demo_New : New demo_opts = inl demo_fs.
Proof. vm_compute. reflexivity. Qed.

Lemma static_read_only_witness :
  (static_exec keys_of sort_names (FUnlinkAt SDir "a"%string 0) demo_fs).2 = demo_fs /\
  exists errno, errno ∈ [EROFS; ENOTDIR; EISDIR; ENOSYS] /\
    (static_exec keys_of sort_names (FUnlinkAt SDir "a"%string 0) demo_fs).1 = Some (Errno errno).
Proof.
  destruct (static_read_only keys_of sort_names demo_opts demo_fs _ (FUnlinkAt SDir "a"%string 0) SDir
    ltac:(cbn; lia) demo_New Logic.I eq_refl) as (H & Hm & _).
  split; [exact H|exact (Hm eq_refl)].
Defined.

Lemma static_contents_witness :
  exists f, (static_exec keys_of sort_names (FWalk SDir ["a"%string]) demo_fs).1
    = inl ([mkQID TypeRegular 0 2], SFile f) /\
  read_all keys_of sort_names 7 (SFile f) 4 0 demo_fs = Some (bytes_of_string "world!").
Proof.
  destruct (static_contents keys_of sort_names keys_of_perm sort_names_perm demo_opts demo_fs
    ltac:(cbn; lia) demo_New) as (H & _).
  destruct (H "a"%string "world!"%string ltac:(right; left)) as (f & path & Hw & _ & _ & Hr).
  exists f. split; [|exact (Hr 4%nat ltac:(lia))].
  transitivity (inl (A := list QID * sfile) (B := error) ([mkQID TypeRegular 0 path], SFile f));
    [exact Hw|]. clear Hr. vm_compute in Hw. injection Hw as <- <-. reflexivity.
Defined.

#[export] Program Instance static_backend : Backend attacher sfile := {|
  exec A e a := static_exec keys_of sort_names e a;
  panics A e w := false;
  range A a l := l;
|}.
Next Obligation. done. Qed.
#[export] Instance static_returning : Returning static_backend.
Proof. by intros A e w. Qed.

(** The methods that reading needs, as the server calls them. *)
Lemma exec_Walk a name f qid :
  files a !! name = Some f -> qids a !! name = Some qid ->
  exec (FWalk SDir [name]) a = (inl ([qid], SFile f), a).
Proof.
  intros Hf Hq. transitivity ((static_exec keys_of sort_names (FWalk SDir [name]) a).1, a); [done|].
  by rewrite (static_walk_one keys_of sort_names a name f _ Hf Hq).
Qed.

Lemma exec_GetAttr a f path req : settled (paths a) f path ->
  exec (FGetAttr (SFile f) req) a = (inl (mkQID TypeRegular 0 path, req, file_Attr (wf_File f)), a).
Proof.
  intros Hs. cbn [exec static_backend]. unfold static_exec. cbn [receiver lift unwrap].
  rewrite (wrapped_GetAttr _ _ path) by done. by destruct a.
Qed.

Lemma exec_Open a f path : settled (paths a) f path ->
  exec (FOpen (SFile f) ReadOnly) a = (inl (mkQID TypeRegular 0 path, 4096), a).
Proof.
  intros Hs. cbn [exec static_backend]. unfold static_exec. cbn [receiver lift unwrap].
  assert (E : wrapped_exec (FOpen f ReadOnly) (paths a) = (inl (mkQID TypeRegular 0 path, 4096), paths a)).
  { unfold wrapped_exec, wrapper_exec, map_result. cbn.
    change (OpenFlags_Mode ReadOnly =? ReadOnly) with true. cbn. by rewrite (proj1 (QIDFor_settled _ _ _ Hs)). }
  rewrite E. by destruct a.
Qed.

Lemma exec_ReadAt a f p off :
  exec (FReadAt (SFile f) p off) a = (Reader_ReadAt (Reader (wf_File f)) p off, a).
Proof. by destruct a. Qed.

(** [io.ReaderAt]: all there is, and [io.EOF] if that is less than asked for. *)
Lemma Reader_ReadAt_spec bs p off : 0 <= off ->
  let d := take (length p) (drop (Z.to_nat off) bs) in
  exists err, Reader_ReadAt bs p off = (d ++ drop (length d) p, len d, err) /\
    (forall e, err = Some e -> Is e TEOF = true) /\ (len d < len p -> err <> None).
Proof.
  intros Ho d. unfold Reader_ReadAt. rewrite (proj2 (Z.ltb_ge _ _)) by lia. unfold d.
  destruct (Z.leb_spec (len bs) off).
  - rewrite drop_ge, take_nil by lia. eexists. split; [done|]. split; [by intros e [= <-]|done].
  - eexists. split; [done|].
    destruct (Z.ltb_spec (len (take (length p) (drop (Z.to_nat off) bs))) (len p)).
    + split; [by intros e [= <-]|done].
    + split; [done|]. lia.
Qed.

(** The server over it: attach, walk, open, and a read of four bytes from the second on. *)
Example static_session :
  match response_after demo_fs
    [toy_version; toy_attach 1; Mtwalk (mk_twalk 1 2 ["a"%string]); Mtlopen (mk_tlopen 2 ReadOnly)]
    (Mtread (mk_tread 2 1 4))
  with
  | Some (MrreadServerPayloader r) => rread_Data (rsp_rread r) = bytes_of_string "orld"
  | _ => False
  end.
Proof. vm_compute. reflexivity. Qed.
