(* ===== verification/RemoteFile.v ===== *)
(** * Reading a file of the static file system over a connection

    The client, the bytes on the connection, the server and the file system together: a
    new client attaches, walks to a file, opens it and reads it, and gets its contents. *)
From S2P Require Import Prelude Errno Buffer Types Messages Message Transport Version Pool.
From S2P Require Import File State PathTree FidRef Handlers Server Reach Session Runs ServerRuns.
From S2P Require Import Client Calls Chunk ClientFile ClientFiles ClientIO Remote RemoteSession.
From S2P Require Import ServeBytes Qids Templates StaticFS.

Local Notation len p := (Z.of_nat (length p)).

(** ** What the server's handlers ask of the file system *)

Definition sfile_bytes (_ : attacher) (f : sfile) : option (list byte) :=
  match f with SDir => None | SFile f => Some (Reader (wf_File f)) end.

#[export] Instance static_bytes : ByteFiles attacher sfile sfile_bytes.
Proof.
  intros a f bs p off Hb Ho d. destruct f as [|f]; [done|]. injection Hb as <-.
  destruct (Reader_ReadAt_spec (Reader (wf_File f)) p off) as (err & Hr & Heof & _); [lia|].
  exists err, a. rewrite exec_ReadAt, Hr. by split.
Qed.

Lemma static_attach a : exec FAttach a = (inl SDir, a).
Proof. done. Qed.

Lemma static_root_attr a : exec (FGetAttr SDir AttrMaskAll) a = (inl (rootQID, AttrMaskAll, dir_Attr), a).
Proof. done. Qed.

Lemma built_path opts a f path :
  Z.of_nat (2 * length opts) < 2 ^ 64 -> built opts a -> settled (paths a) f path ->
  QID_wf (mkQID TypeRegular 0 path).
Proof.
  intros Hlen Hb Hs. destruct (qid_steps_inv _ _ (bu_steps _ _ Hb) Hlen) as [[Hr _] Hu].
  pose proof (Hr _ _ _ (st_mapped _ _ _ Hs)). split; [done|]. split; [done|]. unfold u64. cbn. lia.
Qed.

Lemma static_finds opts a name content :
  built opts a -> (name, content) ∈ opts -> safe_name name = true -> exists f path,
  finds SDir name a a (mkQID TypeRegular 0 path) (SFile f) (file_Attr (wf_File f)) /\
  settled (paths a) f path /\ Reader (wf_File f) = bytes_of_string content.
Proof.
  intros Hb Hin Hsafe. destruct (built_file _ _ _ _ Hb Hin) as (f & path & Hf & Hc & Hs & Hq).
  exists f, path. split; [|split; [done|by rewrite Hc]]. split; [done|].
  exists (Errno ENOSYS), a, a, AttrMaskAll, (mkQID TypeRegular 0 path).
  split; [by destruct a|]. split; [done|]. split; [by apply exec_Walk|by apply exec_GetAttr].
Qed.

(** ** The client *)

(** A user's code: connect, attach to the root, walk to a file of it, open it, read. *)
Definition read_remote {Peer} (conn_write : list byte -> Peer -> (option error * list byte) * Peer)
    (m : Z) (name : string) (p : list byte) (off : Z) : CM (Peer := Peer) (Z * option error * list byte + error) :=
  r ← NewClient conn_write (Some m);
  match r with
  | inr err => mret (inr err)
  | inl _ =>
      r ← Attach conn_write EmptyString;
      match r with
      | inr err => mret (inr err)
      | inl root =>
          r ← clientFile_Walk conn_write root [name];
          match r with
          | inr err => mret (inr err)
          | inl (_, f) =>
              r ← clientFile_Open conn_write f ReadOnly;
              match r with
              | inr err => mret (inr err)
              | inl _ => r ← clientFile_ReadAt conn_write f p off; mret (inl r)
              end
          end
      end
  end.

(** The payload of a client's messages. *)
Lemma payload_room m : 153 < m <= maximumLength ->
  1 <= payloadSize (new_Client m) /\ payloadSize (new_Client m) + 153 <= m.
Proof.
  intros Hm. unfold new_Client. cbn [payloadSize]. rewrite largestFixedSize_153. unfold wrap32, maximumLength in *.
  rewrite Z.mod_small by lia. unfold roundDown.
  destruct (Z.ltb_spec 512 (m - 153)); cbn [andb]; [|lia].
  destruct (Z.eqb_spec ((m - 153) mod 512) 0); cbn [negb]; [lia|].
  pose proof (Z.mod_pos_bound (m - 153) 512). pose proof (Z.div_mod (m - 153) 512).
  assert (1 <= (m - 153) / 512) by (apply Z.div_le_lower_bound; lia). lia.
Qed.

(** ** The session *)

Section session.
Context (opts : list (string * string)) (a : attacher) (name content : string) (m : Z).
Hypothesis Hopts : Z.of_nat (2 * length opts) < 2 ^ 64.
Hypothesis Hnew : New opts = inl a.
Hypothesis Hin : (name, content) ∈ opts.
Hypothesis Hname : safe_name name = true /\ str16 name /\ 19 + Z.of_nat (String.length name) <= m.
Hypothesis Hm : 153 < m <= maximumLength.
Local Notation St := (St attacher sfile).
Local Notation CSt := (CSt (Peer := St * registry)).
Local Notation conn := (server_write (W := attacher) (File := sfile) 0%nat).

(** The states of the connection: negotiated, attached, walked. *)
Definition session_conn (fids : gmap Z rid) : connState := set_fids (fun _ => fids) (negotiated m new_connState).
Definition conn_start : connState := session_conn ∅.
Definition conn_attached : connState := session_conn {[1 := 0%nat]}.
Definition conn_walked : connState := session_conn {[2 := 1%nat; 1 := 0%nat]}.

(** A fresh client before the fresh server. *)
Definition session_start (cl : Client) : CSt := mk_CSt cl [] (connected a, msgDotLRegistry) [].

Lemma session_limit fids : request_limit (session_conn fids) = m.
Proof.
  assert (messageSize (session_conn fids) = m) as E by (cbn; lia).
  unfold request_limit. rewrite E, (proj2 (Z.eqb_neq m 0)) by lia. lia.
Qed.

(** Connected, and the file system's root attached. *)
Lemma attached_runs cl : exists s0 s1 tr,
  NewClient conn (Some m) (session_start cl) = CRet (inl tt) s0 /\
  Attach conn EmptyString s0 = CRet (inl 0%nat) s1 /\
  (peer s1).1 = mk_St a {[ pathTree := newPathNode ]} {[ 0%nat := root_ref SDir dir_Attr ]}
    {[ 0%nat := conn_attached ]} 1%nat 1%nat tr /\
  idle 0%nat (conn_attached) s1 /\ fidPool (client s1) = mk_pool [] 2 noFID /\
  cl_messageSize (client s1) = m /\ payloadSize (client s1) = payloadSize (new_Client m) /\
  cfiles s1 = [mk_clientFile 1 false].
Proof.
  pose proof (session_limit ∅) as Hlim. assert (Hmax : maximumLength = 4194304) by done.
  destruct (NewClient_runs 0%nat new_connState m (session_start cl))
    as (s0 & Hn & Hpeer & Hidle & (Hf & Hms & Hps & _) & Hfs); [lia|done| |done|done|done|].
  { split; [exact (proj2 registry_init_ok)|reflexivity]. }
  cbn in Hf, Hms, Hps.
  destruct (Attach_runs 0%nat conn_start s0 1 (mk_pool [] 2 noFID) SDir rootQID AttrMaskAll dir_Attr a a)
    as (s1 & tr & Ha & Hpeer1 & Hidle1 & Hpool & (Hk1 & Hk2 & _) & Hfs1); try done.
  - by rewrite Hf.
  - unfold conn_start. lia.
  - lia.
  - by rewrite Hpeer.
  - exists s0, s1, tr. rewrite Hfs in Ha, Hfs1. split; [exact Hn|]. split; [exact Ha|].
    rewrite Hpeer in Hidle1. rewrite Hpeer1, Hpeer. split; [done|]. split; [exact Hidle1|]. split; [exact Hpool|].
    split; [rewrite Hk1; exact Hms|]. split; [rewrite Hk2; exact Hps|exact Hfs1].
Qed.

(** Walked to the file, and opened: the FID 2 reads the contents. *)
Lemma opened_runs s1 tr :
  (peer s1).1 = mk_St a {[ pathTree := newPathNode ]} {[ 0%nat := root_ref SDir dir_Attr ]}
    {[ 0%nat := conn_attached ]} 1%nat 1%nat tr ->
  idle 0%nat conn_attached s1 -> fidPool (client s1) = mk_pool [] 2 noFID ->
  cl_messageSize (client s1) = m -> payloadSize (client s1) = payloadSize (new_Client m) ->
  cfiles s1 = [mk_clientFile 1 false] ->
  exists s2 s3 qid, clientFile_Walk conn 0 [name] s1 = CRet (inl ([qid], 1%nat)) s2 /\
    clientFile_Open conn 1 ReadOnly s2 = CRet (inl (qid, 4096)) s3 /\
    ready 2 m (up sfile_bytes 0%nat 2 m) 1 s3 /\
    payloadSize (client s3) = payloadSize (new_Client m) /\
    fid_bytes sfile_bytes 0%nat 2 (peer s3) = bytes_of_string content.
Proof.
  intros Hpeer1 Hidle1 Hpool1 Hms1 Hps1 Hfs1. destruct Hname as (Hsafe & Hstr & Hlen).
  assert (Hmax : maximumLength = 4194304) by done.
  pose proof (New_built opts a Hopts Hnew) as Hb.
  destruct (static_finds opts a name content Hb Hin Hsafe) as (f & path & Hfind & Hset & Hbytes).
  pose proof (built_path opts a f path Hopts Hb Hset) as Hqid. set (qid := mkQID TypeRegular 0 path) in *.
  destruct (Walk_runs 0%nat conn_attached s1 0 1 2 name 0%nat (root_ref SDir dir_Attr) newPathNode a qid (SFile f)
    (file_Attr (wf_File f)) (mk_pool [] 3 noFID)) as (s2 & Hw & Hidle2 & Hw2 & Hr2 & Hn2 & _ & (Hk1 & Hk2 & _) & Hfs2);
    try done; try (by rewrite Hfs1); try (by rewrite Hpool1); try (by rewrite Hpeer1).
  - unfold conn_attached. by rewrite session_limit.
  - rewrite Hms1. lia.
  - rewrite Hpeer1 in Hidle2, Hr2, Hn2. cbn in Hidle2, Hr2, Hn2. rewrite Hfs1 in Hw, Hfs2.
    destruct (Open_runs 0%nat conn_walked s2 1 2 ReadOnly 1%nat (walked_ref (SFile f) (file_Attr (wf_File f)) 1%nat 0%nat)
      newPathNode a qid 4096) as (s3 & Ho & Hidle3 & Hw3 & Hr3 & (Hq1 & Hq2 & Hq3 & _) & Hfs3);
      try done; try (by rewrite Hfs2).
    + unfold conn_walked. rewrite session_limit. lia.
    + rewrite Hk1, Hms1. lia.
    + split; try done. apply (lk_conn _ _ _ (id_linked _ _ _ Hidle2)).
    + rewrite Hw2. by apply exec_Open.
    + assert (Hopen : file_open 0%nat 2 m (peer s3).1 1%nat conn_walked
        (set_opened ReadOnly (walked_ref (SFile f) (file_Attr (wf_File f)) 1%nat 0%nat))).
      { split; try done; [apply (lk_conn _ _ _ (id_linked _ _ _ Hidle3))| |cbn; lia].
        exists []. split; [|done]. cbn. do 2 f_equal. lia. }
      exists s2, s3, qid. split; [exact Hw|]. split; [exact Ho|]. split; [|split; [congruence|]].
      * destruct Hidle3 as [[Hp3 Hi3 Hreg3 Hc3] Ha3 Ht3]. split; try done.
        -- by rewrite Hfs3, Hfs2.
        -- rewrite Hq2, Hk1. split; [done|lia].
        -- rewrite Hq3, Hk2, Hps1. by apply payload_room.
        -- split; [done|]. eexists _, _, _. split; [exact Hopen|]. by split.
      * rewrite <- Hbytes. by eapply fid_bytes_open.
Qed.

(** C11: a client reads a file of the static file system: a new client of any message size
  that the server takes, connected to a fresh server over [New]'s files, attaches to the
  root, walks to the name of a file, opens it and reads any number of bytes from any
  offset; each call succeeds, through the bytes of their requests and responses, the
  server's loop, its tables of FIDs and references and its path tree; the read returns
  exactly the bytes of the contents that are there, in as many requests as the message
  size makes necessary. *)
Theorem remote_read_file cl p off :
0 <= off -> off + len p < 2 ^ 63 ->
let d := take (length p) (drop (Z.to_nat off) (bytes_of_string content)) in
exists s', read_remote conn m name p off (session_start cl) =
  CRet (inl (len d, if (len d <? len p) && (len d mod payloadSize (new_Client m) =? 0)
                    then Some io_EOF else None, d ++ drop (length d) p)) s'.
Proof.
intros Ho Hov d. destruct (attached_runs cl) as (s0 & s1 & tr & Hn & Ha & H1 & H2 & H3 & H4 & H5 & H6).
destruct (opened_runs s1 tr H1 H2 H3 H4 H5 H6) as (s2 & s3 & qid & Hw & Hop & Hr & Hps & Hd).
destruct (ReadAt_runs conn 2 m (up sfile_bytes 0%nat 2 m) (fid_bytes sfile_bytes 0%nat 2) 1 p off s3 Hr Ho Hov)
  as (s4 & Hread & _). rewrite Hd, Hps in Hread.
exists s4. unfold read_remote, mbind, CM_bind. by rewrite Hn, Ha, Hw, Hop, Hread.
Qed.
End session.

(** Twenty bytes of a file from its fourth on: there are three. *)
Lemma remote_read_file_witness :
  exists s', read_remote (server_write (W := attacher) (File := sfile) 0%nat) 8192 "a" (replicate 20 x00) 3
    (session_start demo_fs (new_Client 8192)) =
    CRet (inl (3, None, bytes_of_string "ld!" ++ replicate 17 x00)) s'.
Proof.
  destruct (remote_read_file demo_opts demo_fs "a" "world!" 8192 ltac:(cbn; lia) demo_New
    ltac:(right; left) ltac:(split; [reflexivity|split; [unfold str16; cbn; lia|cbn; lia]]) ltac:(unfold maximumLength; lia)
    (new_Client 8192) (replicate 20 x00) 3 ltac:(lia) ltac:(cbn; lia)) as (s' & H).
  exists s'. rewrite H. reflexivity.
Defined.
