(* ===== verification/FileTest.v ===== *)
(** * The acceptance tests of file systems ([fsimpl/test/filetest.go])

    The tests that the package offers to those who implement [File], as programs over a
    backend: a test reports failures, may stop at one, or crash. *)
From S2P Require Import Prelude Errno Buffer Types Messages File Version.

(** ** The testing package *)

(** How a test function ends: by its return, by [t.Fatalf], by a panic. *)
Inductive test_end (A : Type) := Returns (a : A) | FailsNow | Crashes.
Arguments Returns {A}. Arguments FailsNow {A}. Arguments Crashes {A}.

Section testing.
Context {W File : Type} {B : Backend W File}.

(** A piece of a test: its end, whether the test has failed so far, and the world. *)
Definition T (A : Type) : Type := bool -> W -> test_end A * bool * W.

#[export] Instance T_ret : MRet T := fun A a failed w => (Returns a, failed, w).
#[export] Instance T_bind : MBind T := fun A C k m failed w =>
  match m failed w with
  | (Returns a, failed, w) => k a failed w
  | (FailsNow, failed, w) => (FailsNow, failed, w)
  | (Crashes, failed, w) => (Crashes, failed, w)
  end.

Definition Errorf : T unit := fun _ w => (Returns tt, true, w).
Definition Fatalf {A} : T A := fun _ w => (FailsNow, true, w).
Definition crash {A} : T A := fun failed w => (Crashes, failed, w).

(** [t.Run]: a test of its own, which stops alone, and fails its parent if it fails. *)
Definition Run (f : T unit) : T unit := fun failed w =>
  match f false w with
  | (Crashes, sub, w) => (Crashes, failed || sub, w)
  | (_, sub, w) => (Returns tt, failed || sub, w)
  end.

(** A deferred call. *)
Definition deferred (d : T unit) {A} (m : T A) : T A := fun failed w =>
  let '(e, failed, w) := m failed w in
  match d failed w with
  | (Returns _, failed, w) => (e, failed, w)
  | (FailsNow, failed, w) => (match e with Crashes => Crashes | _ => FailsNow end, failed, w)
  | (Crashes, failed, w) => (Crashes, failed, w)
  end.

(** A method of a file; a file that is returned with an error is nil, so that to call it
    is a panic. *)
Definition method {A} (e : FileE File A) : T A := fun failed w =>
  let '(a, w') := exec e w in (if panics e w then Crashes else Returns a, failed, w').

Fixpoint each {A} (f : A -> T unit) (l : list A) : T unit :=
  match l with
  | [] => mret tt
  | x :: l => f x;; each f l
  end.

(** The order in which a map is ranged over. *)
Definition ranged {A} (l : list A) : T (list A) := fun failed w => (Returns (range w l), failed, w).

(** [if err != nil { t.Fatalf(...) }]. *)
Definition must {A} (m : T (A + error)) : T A :=
  r ← m; match r with inl a => mret a | inr _ => Fatalf end.

(** [if !cond { t.Errorf(...) }], and with [t.Fatalf]. *)
Definition expects (cond : bool) : T unit := if cond then mret tt else Errorf.
Definition requires (cond : bool) : T unit := if cond then mret tt else Fatalf.

(** The test passes: it gets to its end, and nothing failed. *)
Definition passes (t : T unit) (w : W) : Prop := exists w', t false w = (Returns tt, false, w').
End testing.
Arguments T : clear implicits.

(** ** What is expected of a file system *)

(** [file] and [dir]. *)
Record expected_file := mk_expected_file { content : string; attr : Attr; mask : AttrMask }.
Record expected_dir := mk_expected_dir { members : list string }.
Record expect := mk_expect { expect_files : gmap string expected_file; expect_dirs : gmap string expected_dir }.

Definition Expect : Type := expect -> expect.

Definition WithDir (path : string) (members : list string) : Expect := fun e =>
  mk_expect (expect_files e) (<[path := mk_expected_dir members]> (expect_dirs e)).
Definition WithFile (path content : string) (attr : Attr) (mask : AttrMask) : Expect := fun e =>
  mk_expect (<[path := mk_expected_file content attr mask]> (expect_files e)) (expect_dirs e).
Definition WithSymlink (path target : string) (attr : Attr) (mask : AttrMask) : Expect := fun e =>
  mk_expect (<[path := mk_expected_file target attr mask]> (expect_files e)) (expect_dirs e).

(** ** The tests *)

Section tests.
Context {W File : Type} {B : Backend W File}.
(** [uio.ReadAll]; [slices.Sort] and [slices.Equal]. *)
Context (ReadAll : File -> W -> (list byte + error) * W).
Context (Sort : list string -> list string) (Equal : list string -> list string -> bool).
Local Notation T := (T W).

Definition read_all (f : File) : T (list byte + error) := fun failed w =>
  let '(r, w) := ReadAll f w in (Returns r, failed, w).

Definition readdir (dir : File) : T (list Dirent + error) :=
  r ← method (FWalk dir []);
  match r with
  | inr err => mret (inr (OtherError "dir should be able to walk to itself"))
  | inl (_, dirCopy) =>
      r ← method (FOpen dirCopy ReadOnly);
      match r with
      | inr err => mret (inr (OtherError "directory must be open-able to readdir"))
      | inl _ =>
          '(dirents, err) ← method (FReaddir dirCopy 0 10);
          match err with
          | Some err => mret (inr (OtherError "Readdir failed"))
          | None => mret (inl dirents)
          end
      end
  end.

(** What [GetAttr] returns is zero next to an error. *)
Definition getattr (f : File) : T (QID * Attr) :=
  r ← method (FGetAttr f AttrMaskAll);
  match r with
  | inr err => Errorf;; mret (QID_zero, Attr_zero)
  | inl (qid, _, attr) => mret (qid, attr)
  end.

Definition testSameFile (f1 f2 : File) : T unit :=
  '(f1QID, f1Attr) ← getattr f1;
  '(f2QID, f2Attr) ← getattr f2;
  expects (bool_decide (f1QID = f2QID));;
  expects (bool_decide (f1Attr = f2Attr)).

(** [nil] and the empty slice are one to a model. *)
Definition testWalkSelf (root : File) : T unit :=
  each (fun names => Run (
    r ← method (FWalk root names);
    match r with
    | inr err => Errorf;; crash
    | inl (_, got) => testSameFile root got
    end)) [[]; []].

Definition testReaddirWalk (root : File) : T unit :=
  dirents ← must (readdir root);
  each (fun dirent => Run (
    r ← method (FWalk root [Dirent_Name dirent]);
    match r with
    | inr err => Errorf;; crash
    | inl (qids, got) =>
        expects (length qids =? 1)%nat;;
        '(qid, _) ← getattr got;
        match qids with
        | [] => crash
        | qid0 :: _ => expects (bool_decide (qid0 = qid))
        end
    end)) dirents.

(** The loop of [testDirContents] over the pages of a directory. *)
Fixpoint list_dir (fuel : nat) (f : File) (dirents : list Dirent) (offset : Z) : T (list Dirent) :=
  match fuel with
  | O => crash
  | S fuel =>
      '(d, err) ← method (FReaddir f offset 1000);
      if (length d =? 0)%nat || match err with Some err => error_eq err TEOF | None => false end
      then mret dirents
      else match err with
      | Some err => Fatalf
      | None =>
          match last d with
          | None => crash
          | Some e => list_dir fuel f (dirents ++ d) (Dirent_Offset e)
          end
      end
  end.

Definition testDirContents (fuel : nat) (root : File) (path : string) (d : expected_dir) : T unit :=
  let dest := if (0 <? String.length path)%nat then Split "/" path else [] in
  '(_, f) ← must (method (FWalk root dest));
  '(_, _, attr) ← must (method (FGetAttr f (AttrMask_of_bits 1)));
  requires (FileMode_IsDir (Attr_Mode attr));;
  _ ← must (method (FOpen f ReadOnly));
  dirents ← list_dir fuel f [] 0;
  requires (Equal (Sort (Dirent_Name <$> dirents)) (Sort (members d)));;
  each (fun entry =>
    '(qids, _) ← must (method (FWalk f [Dirent_Name entry]));
    match qids with
    | [] => crash
    | qid0 :: _ => requires (bool_decide (qid0 = Dirent_QID entry))
    end) dirents;;
  err ← method (FClose f);
  match err with Some err => Fatalf | None => mret tt end.

Definition testIsFile (root : File) (path : string) (file : expected_file) : T unit :=
  '(_, f) ← must (method (FWalk root (Split "/" path)));
  '(_, _, got) ← must (method (FGetAttr f (mask file)));
  requires (bool_decide (Attr_WithMask got (mask file) = attr file));;
  if FileMode_IsRegular (Attr_Mode (attr file)) then
    _ ← must (method (FOpen f ReadOnly));
    each (fun _ : nat =>
      con ← must (read_all f);
      requires (String.eqb (string_of_bytes con) (content file))) [0%nat; 1%nat];;
    err ← method (FClose f);
    expects (match err with Some err => false | None => true end)
  else if FileMode_IsSymlink (Attr_Mode (attr file)) then
    target ← must (method (FReadlink f));
    requires (String.eqb target (content file))
  else mret tt.

(** [TestReadOnlyFS]. *)
Definition TestReadOnlyFS (fuel : nat) (expectations : list Expect) : T unit :=
  root ← must (method FAttach);
  Run (testWalkSelf root);;
  Run (testReaddirWalk root);;
  let e := foldl (fun e exp => exp e) (mk_expect ∅ ∅) expectations in
  dirs ← ranged (map_to_list (expect_dirs e));
  each (fun '(path, dir) => Run (testDirContents fuel root path dir)) dirs;;
  files ← ranged (map_to_list (expect_files e));
  each (fun '(path, file) => Run (testIsFile root path file)) files.

Definition testCreate (root : File) : T unit :=
  '(_, f1) ← must (method (FWalk root []));
  r ← method (FCreate f1 "file2" ReadWrite 0x1ff NoUID NoGID);
  expects (match r with inl _ => true | inr _ => false end);;
  r ← method (FCreate f1 "file2" ReadWrite 0x1ff NoUID NoGID);
  expects (match r with inl _ => false | inr _ => true end);;
  dirents ← must (readdir root);
  expects (match Dirents_Find "file2" dirents with Some _ => true | None => false end).

(** [TestFile]: for an empty directory that can be written. *)
Definition TestFile : T unit :=
  root ← must (method FAttach);
  Run (testWalkSelf root);;
  Run (testCreate root);;
  Run (testReaddirWalk root).

(** [TestReadWriteFS]. *)
Definition TestReadWriteFS : T unit :=
  let dummyFileName := "dummy_file.txt"%string in
  root ← must (method FAttach);
  deferred (_ ← method (FClose root); mret tt) (
    '(f, _, _) ← must (method (FCreate root dummyFileName ReadWrite 0x1b6 NoUID NoGID));
    _ ← method (FClose f);
    err ← method (FUnlinkAt root dummyFileName 0);
    expects (match err with Some _ => false | None => true end);;
    dirents ← must (readdir root);
    expects (match Dirents_Find dummyFileName dirents with Some _ => false | None => true end)).
End tests.
