(* ===== verification/StaticTests.v ===== *)
(** * The static file system passes the acceptance tests

    [TestReadOnlyFS] of [fsimpl/test] on what [New] of [staticfs] builds, with any
    expectations that the options justify. *)
From stdpp Require Import sorting.
From S2P Require Import Prelude Errno Buffer Types Messages Message File State Handlers Version.
From S2P Require Import Qids Readdir Templates StaticFS FileTest.

Local Notation len l := (Z.of_nat (length l)).

(** ** Tests that leave the world alone *)

Section logic.
Context {W File : Type} {B : Backend W File} {RB : Returning B}.
Local Notation T := (T W).

(** The piece returns, without a failure, in the same world. *)
Definition fine {A} (m : T A) (w : W) (Q : A -> Prop) : Prop :=
  exists a, m false w = (Returns a, false, w) /\ Q a.

Lemma fine_ret {A} (a : A) w (Q : A -> Prop) : Q a -> fine (mret a) w Q.
Proof. by exists a. Qed.

Lemma fine_bind {A C} (m : T A) (k : A -> T C) w Q :
  fine m w (fun a => fine (k a) w Q) -> fine (m ≫= k) w Q.
Proof. intros (a & Hm & b & Hk & HQ). exists b. split; [|done]. unfold mbind, T_bind. by rewrite Hm. Qed.

Lemma fine_mono {A} (m : T A) w (Q Q' : A -> Prop) :
  fine m w Q -> (forall a, Q a -> Q' a) -> fine m w Q'.
Proof. intros (a & Hm & HQ) H. exists a. auto. Qed.

Lemma fine_seq {A C} (m : T A) (k : A -> T C) w Q (Q' : A -> Prop) :
  fine m w Q' -> (forall a, Q' a -> fine (k a) w Q) -> fine (m ≫= k) w Q.
Proof. intros Hm Hk. apply fine_bind. by eapply fine_mono. Qed.

Lemma fine_method {A} (e : FileE File A) a w Q : exec e w = (a, w) -> Q a -> fine (method e) w Q.
Proof. intros He HQ. exists a. unfold method. by rewrite He, returning. Qed.

Lemma fine_must {A} (m : T (A + error)) w Q :
  fine m w (fun r => exists a, r = inl a /\ Q a) -> fine (must m) w Q.
Proof. intros H. apply fine_bind. eapply fine_mono; [exact H|]. intros r (a & -> & HQ). by apply fine_ret. Qed.

(** A method that has to succeed, and then the rest. *)
Lemma fine_call {A C} (e : FileE File (A + error)) a (k : A -> T C) w Q :
  exec e w = (inl a, w) -> fine (k a) w Q -> fine (must (method e) ≫= k) w Q.
Proof.
  intros He Hk. apply fine_bind, fine_must. eapply fine_method; [exact He|]. by exists a.
Qed.

Lemma fine_then {A C} (e : FileE File A) a (k : A -> T C) w Q :
  exec e w = (a, w) -> fine (k a) w Q -> fine (method e ≫= k) w Q.
Proof. intros He Hk. apply fine_bind. by eapply fine_method. Qed.

Lemma fine_expects b w (Q : unit -> Prop) : b = true -> Q tt -> fine (expects b) w Q.
Proof. intros ->. apply fine_ret. Qed.
Lemma fine_requires {C} b (k : unit -> T C) w Q : b = true -> fine (k tt) w Q -> fine (requires b ≫= k) w Q.
Proof. intros -> H. apply fine_bind. by apply fine_ret. Qed.

Lemma fine_each {A} (f : A -> T unit) l w :
  (forall x, x ∈ l -> fine (f x) w (fun _ => True)) -> fine (each f l) w (fun _ => True).
Proof.
  induction l as [|x l IH]; intros H; [by apply fine_ret|]. cbn [each].
  eapply fine_seq; [apply H; by left|]. intros _ _. apply IH. intros y Hy. apply H. by right.
Qed.

Lemma fine_Run f w : fine f w (fun _ => True) -> fine (Run f) w (fun _ => True).
Proof. intros ([] & Hf & _). exists tt. unfold Run. by rewrite Hf. Qed.

Lemma fine_ranged {A C} (l : list A) (k : list A -> T C) w Q :
  fine (k (range w l)) w Q -> fine (ranged l ≫= k) w Q.
Proof. intros H. apply fine_bind. by exists (range w l). Qed.

Lemma fine_passes t w : fine t w (fun _ => True) -> passes t w.
Proof. intros ([] & Ht & _). by exists w. Qed.
End logic.

(** ** The reader of [uio] *)

(** The file has these bytes, by [io.ReaderAt]'s contract. *)
Definition reads_as {W File} {B : Backend W File} (f : File) (w : W) (bs : list byte) : Prop :=
  forall p off, 0 <= off -> let d := take (length p) (drop (Z.to_nat off) bs) in
  exists err, exec (FReadAt f p off) w = ((d ++ drop (length d) p, len d, err), w) /\
    (forall e, err = Some e -> Is e TEOF = true) /\ (len d < len p -> err <> None).

(** What a file of the static file system is expected to say of itself. *)
Definition static_attr (content : string) : Attr :=
  mkAttr (Z.lor ModeRegular 0x1b6 (* 0666 *)) 0 0 0 0 (Z.of_nat (String.length content)) 4096 0 0 0 0 0 0 0 0 0 0 0.

(** The expectations that options justify. *)
Inductive expected (opts : list (string * string)) : Expect -> Prop :=
| expected_names members : members ≡ₚ opts.*1 -> expected opts (WithDir EmptyString members)
| expected_content name content mask : (name, content) ∈ opts ->
    expected opts (FileTest.WithFile name content (Attr_WithMask (static_attr content) mask) mask).

(** ** The file system *)

Lemma no_slash_Split name : contains_slash name = false -> Split "/" name = [name].
Proof.
  induction name as [|c name IH]; [done|]. cbn. destruct (Ascii.eqb c "/"); [done|]. intros H. by rewrite IH.
Qed.

Lemma New_no_slash opts a : New opts = inl a -> Forall (fun o => contains_slash o.1 = false) opts.
Proof.
  unfold New. generalize (mk_attacher ∅ ∅ qid_state_zero). induction opts as [|[name c] opts IH]; intros a0; [by constructor|].
  cbn. destruct (StaticFS.WithFile name c a0) as [a1|] eqn:E; [|done]. intros H. constructor; [|by eapply IH].
  unfold StaticFS.WithFile in E. cbn. by destruct (contains_slash name).
Qed.

Section static.
Context (ReadAll : sfile -> attacher -> (list byte + error) * attacher).
Context (Sort : list string -> list string) (Equal : list string -> list string -> bool).
Hypothesis ReadAll_reads : forall f a bs, reads_as f a bs -> ReadAll f a = (inl bs, a).
Hypothesis Sort_perm : forall l, Sort l ≡ₚ l.
Hypothesis Sort_sorted : forall l, Sorted String.le (Sort l).
Hypothesis Equal_spec : forall l k, Equal l k = true <-> l = k.

Context (opts : list (string * string)) (a : attacher).
Hypothesis Hlen : Z.of_nat (2 * length opts) < 2 ^ 64.
Hypothesis Hnew : New opts = inl a.

Let names : list string := sort_names (keys_of (files a)).

Lemma names_perm : names ≡ₚ opts.*1.
Proof. apply (built_names keys_of sort_names keys_of_perm sort_names_perm), New_built; done. Qed.

Lemma names_small : len names < 2 ^ 63.
Proof. pose proof (Permutation_length names_perm) as H. rewrite length_fmap in H. lia. Qed.

(** A name of the directory is walked to. *)
Lemma static_walk name : name ∈ names -> exists f content path,
  (name, content) ∈ opts /\ wf_File f = ReadOnlyFile_of content /\ settled (paths a) f path /\
  qid_of (qids a) name = mkQID TypeRegular 0 path /\
  exec (FWalk SDir [name]) a = (inl ([mkQID TypeRegular 0 path], SFile f), a).
Proof.
  rewrite names_perm. intros Hin. apply list_elem_of_fmap in Hin as ([name' content] & -> & Hin).
  destruct (built_file opts a name' content) as (f & path & Hf & Hc & Hs & Hq); [by apply New_built|done|].
  exists f, content, path. cbn [fst]. split_and!; try done.
  - unfold qid_of. by rewrite Hq.
  - by apply exec_Walk.
Qed.

Lemma static_readdir offset count :
  1 <= count < 2 ^ 32 -> 0 <= offset < 2 ^ 63 -> exists n,
  (len names <= offset \/ (0 < n)%nat) /\ exec (FReaddir SDir offset count) a =
    ((imap (fun i => entry_at (qids a) (Z.to_nat offset + i)) (take n (drop (Z.to_nat offset) names)), None), a).
Proof.
  intros Hc Ho. destruct (Readdir_entries count names (qids a) Hc names_small offset Ho) as (n & Hn & Hr).
  exists n. split; [done|]. cbn. fold names. by rewrite Hr.
Qed.

(** *** The tests, one by one *)

Lemma getattr_root : fine (getattr SDir) a (fun r => r = (rootQID, dir_Attr)).
Proof. eapply fine_then; [done|]. by apply fine_ret. Qed.

Lemma walk_self_fine : fine (testWalkSelf SDir) a (fun _ => True).
Proof.
  apply fine_each. intros l Hl. apply fine_Run. assert (l = []) as ->.
  { rewrite !elem_of_cons, elem_of_nil in Hl. naive_solver. }
  eapply fine_then; [done|]. cbv beta iota. unfold testSameFile.
  eapply fine_seq; [apply getattr_root|]. intros ? ->. eapply fine_seq; [apply getattr_root|]. intros ? ->.
  eapply fine_seq; [by apply (fine_expects _ _ (fun _ => True))|]. intros _ _. by apply fine_expects.
Qed.

Lemma entry_name i name l k d :
  d ∈ imap (fun i => entry_at (qids a) (k + i)) (take i (drop k l)) -> name = Dirent_Name d -> name ∈ l.
Proof.
  intros Hd ->. apply list_elem_of_lookup in Hd as [j Hj].
  rewrite list_lookup_imap in Hj. destruct (take i (drop k l) !! j) as [x|] eqn:E; [|done].
  injection Hj as <-. cbn. apply lookup_take_Some in E as [E _]. rewrite lookup_drop in E.
  by eapply list_elem_of_lookup_2.
Qed.

Lemma readdir_fine : fine (readdir SDir) a (fun r => exists ds, r = inl ds /\ forall d, d ∈ ds -> Dirent_Name d ∈ names).
Proof.
  eapply fine_then; [done|]. cbv beta iota. eapply fine_then; [done|]. cbv beta iota.
  destruct (static_readdir 0 10) as (n & _ & Hr); [lia..|].
  eapply fine_then; [exact Hr|]. apply fine_ret. eexists. split; [done|].
  intros d Hd. by eapply entry_name.
Qed.

Lemma readdir_walk_fine : fine (testReaddirWalk SDir) a (fun _ => True).
Proof.
  eapply fine_seq; [apply fine_must, readdir_fine|]. intros ds Hds.
  apply fine_each. intros d Hd. apply fine_Run.
  destruct (static_walk (Dirent_Name d)) as (f & content & path & _ & _ & Hs & _ & Hw); [by apply Hds|].
  eapply fine_then; [exact Hw|]. cbv beta iota.
  eapply fine_seq; [by apply (fine_expects _ _ (fun _ => True))|]. intros _ _.
  apply fine_bind. eapply fine_then; [by apply exec_GetAttr|]. apply fine_ret. cbv beta iota.
  apply fine_expects; [|done]. by apply bool_decide_eq_true.
Qed.

(** The loop over the pages gets all names. *)
Lemma list_dir_fine fuel ds offset :
  0 <= offset <= len names -> len names - offset < Z.of_nat fuel ->
  fine (list_dir fuel SDir ds offset) a (fun r =>
    r = ds ++ imap (fun i => entry_at (qids a) (Z.to_nat offset + i)) (drop (Z.to_nat offset) names)).
Proof.
  pose proof names_small as Hsmall. revert ds offset. induction fuel as [|fuel IH]; intros ds offset Ho Hf; [lia|].
  destruct (static_readdir offset 1000) as (n & Hn & Hr); [lia..|]. cbn [list_dir].
  eapply fine_then; [exact Hr|]. cbv beta iota. set (l := drop (Z.to_nat offset) names) in *.
  set (g := fun i => entry_at (qids a) (Z.to_nat offset + i)).
  assert (Hll : (length l = length names - Z.to_nat offset)%nat) by (unfold l; apply length_drop).
  rewrite orb_false_r, length_imap. destruct (Nat.eqb_spec (length (take n l)) 0) as [Hz|Hz].
  - apply fine_ret. assert (l = []) as ->; [|by rewrite app_nil_r].
    apply nil_length_inv. rewrite length_take in Hz. lia.
  - destruct (take n l) as [|x0 l0] eqn:E using rev_ind; [done|]. clear IHl0.
    rewrite imap_app, last_app. cbn [last imap]. cbn [entry_at Dirent_Offset g compose].
    assert (Hk : (length l0 + 1 <= length l)%nat).
    { pose proof (f_equal length E) as H. rewrite length_take, length_app in H. cbn [length] in H. lia. }
    eapply fine_mono; [apply IH; lia|]. intros r ->.
    rewrite <- app_assoc. f_equal.
    transitivity (imap g (take n l ++ drop n l)); [|by rewrite take_drop].
    rewrite E, imap_app, imap_app. f_equal.
    replace (Z.to_nat (Z.of_nat (Z.to_nat offset + (length l0 + 0)) + 1)) with (Z.to_nat offset + (length l0 + 1))%nat by lia.
    rewrite <- drop_drop. fold l.
    assert (Hd : drop (length l0 + 1) l = drop n l).
    { pose proof (f_equal length E) as H. rewrite length_take, length_app in H. cbn [length] in H.
      destruct (Nat.le_ge_cases n (length l)); [f_equal; lia|]. rewrite !drop_ge by lia. done. }
    rewrite Hd. apply imap_ext. intros i y _. unfold g, compose. rewrite length_app. cbn [length]. f_equal. lia.
Qed.

Lemma entry_names l : Dirent_Name <$> imap (fun i => entry_at (qids a) (Z.to_nat 0 + i)) l = l.
Proof. by apply imap_names. Qed.

Lemma sort_canonical l k : l ≡ₚ k -> Sort l = Sort k.
Proof.
  intros H. apply (Sorted_unique String.le); [apply Sort_sorted..|]. by rewrite !Sort_perm.
Qed.

Lemma dir_contents_fine fuel d : (length opts < fuel)%nat -> members d ≡ₚ opts.*1 ->
  fine (testDirContents Sort Equal fuel SDir EmptyString d) a (fun _ => True).
Proof.
  intros Hfuel Hd. unfold testDirContents. cbn [String.length Nat.ltb Nat.leb].
  eapply fine_call; [done|]. cbv beta iota. eapply fine_call; [done|]. cbv beta iota.
  apply fine_requires; [done|]. eapply fine_call; [done|].
  pose proof (Permutation_length names_perm) as Hn. rewrite length_fmap in Hn.
  eapply fine_seq; [apply list_dir_fine; lia|]. intros ds ->. cbn [app]. rewrite entry_names.
  apply fine_requires.
  { apply Equal_spec, sort_canonical. by rewrite Hd, <- names_perm. }
  eapply fine_seq; [apply (fine_each _ _ a)|].
  - intros e He. apply list_elem_of_lookup in He as [j Hj]. rewrite list_lookup_imap in Hj.
    destruct (drop (Z.to_nat 0) names !! j) as [name|] eqn:E; [|done]. injection Hj as <-.
    destruct (static_walk name) as (f & content & path & _ & _ & _ & Hq & Hw);
      [by eapply list_elem_of_lookup_2|].
    eapply fine_call; [exact Hw|]. cbv beta iota. cbn [entry_at Dirent_QID]. rewrite Hq.
    unfold requires. rewrite bool_decide_true by done. by apply fine_ret.
  - intros _ _. eapply fine_then; [done|]. by apply fine_ret.
Qed.

Lemma static_reads f : reads_as (SFile f) a (Reader (wf_File f)).
Proof.
  intros p off Ho d. destruct (Reader_ReadAt_spec (Reader (wf_File f)) p off Ho) as (err & Hr & H).
  exists err. by rewrite exec_ReadAt, Hr.
Qed.

Lemma is_file_fine name content mask : (name, content) ∈ opts ->
  fine (testIsFile ReadAll SDir name
    (mk_expected_file content (Attr_WithMask (static_attr content) mask) mask)) a (fun _ => True).
Proof.
  intros Hin. pose proof (proj1 (List.Forall_forall _ _) (New_no_slash _ _ Hnew)) as Hslash.
  specialize (Hslash (name, content) ltac:(by apply list_elem_of_In)). cbn [fst] in Hslash.
  destruct (built_file opts a name content) as (f & path & Hf & Hc & Hs & Hq); [by apply New_built|done|].
  assert (Ha : file_Attr (wf_File f) = static_attr content).
  { rewrite Hc. unfold file_Attr, static_attr. cbn. by rewrite length_bytes_of_string. }
  unfold testIsFile. rewrite no_slash_Split by done. cbn [FileTest.mask FileTest.attr FileTest.content].
  eapply fine_call; [by apply exec_Walk|]. cbv beta iota. eapply fine_call; [by apply exec_GetAttr|]. cbv beta iota.
  rewrite Ha. apply fine_requires; [by apply bool_decide_eq_true|].
  destruct (FileMode_IsRegular _).
  - eapply fine_call; [by apply exec_Open|].
    eapply fine_seq; [apply (fine_each _ _ a)|].
    + intros _ _. eapply (fine_seq _ _ _ _ (fun con => con = Reader (wf_File f))).
      * apply fine_must. exists (inl (Reader (wf_File f))). unfold read_all.
        rewrite (ReadAll_reads _ _ _ (static_reads f)). split; [done|]. by eexists.
      * intros con ->. unfold requires. rewrite Hc. cbn [Reader ReadOnlyFile_of].
        rewrite string_of_bytes_of_string, String.eqb_refl. by apply fine_ret.
    + intros _ _. eapply fine_then; [by destruct a|]. by apply fine_expects.
  - destruct (FileMode_IsSymlink _) eqn:El; [|by apply fine_ret]. exfalso. revert El. cbn.
    destruct (AM_Mode mask); vm_compute; discriminate.
Qed.

(** *** All of them *)

Definition justified (e : expect) : Prop :=
  (forall path d, expect_dirs e !! path = Some d -> path = EmptyString /\ members d ≡ₚ opts.*1) /\
  (forall path f, expect_files e !! path = Some f -> exists content mask, (path, content) ∈ opts /\
     f = mk_expected_file content (Attr_WithMask (static_attr content) mask) mask).

Lemma expectations_justified exps e : Forall (expected opts) exps -> justified e ->
  justified (foldl (fun e exp => exp e) e exps).
Proof.
  intros Hx. revert e. induction Hx as [|x exps Hx _ IH]; intros e [Hd Hf]; [by split|]. cbn. apply IH.
  destruct Hx as [ms Hms|name content mask Hin]; split; cbn; intros path y Hy; try (by apply Hd); try (by apply Hf).
  - apply lookup_insert_Some in Hy as [[<- <-]|[_ Hy]]; [done|by apply Hd].
  - apply lookup_insert_Some in Hy as [[<- <-]|[_ Hy]]; [by exists content, mask|by apply Hf].
Qed.

(** C24: the static file system passes the package's own acceptance tests: whatever the
  options, [TestReadOnlyFS] on what [New] builds of them returns and has no failure and no
  panic, with any expectations that the options justify, on the directory's names and on the
  contents and attributes of files, for any mask. *)
Theorem static_passes_tests exps fuel :
Forall (expected opts) exps -> (length opts < fuel)%nat ->
passes (TestReadOnlyFS ReadAll Sort Equal fuel exps) a.
Proof.
intros Hexps Hfuel. apply fine_passes. unfold TestReadOnlyFS.
destruct (expectations_justified exps (mk_expect ∅ ∅) Hexps) as [Hd Hf].
{ split; intros path x Hx; cbn in Hx; by rewrite lookup_empty in Hx. }
eapply fine_call; [done|]. eapply fine_seq; [apply fine_Run, walk_self_fine|]. intros _ _.
eapply fine_seq; [apply fine_Run, readdir_walk_fine|]. intros _ _. apply fine_ranged.
eapply fine_seq; [apply (fine_each _ _ a)|intros _ _; apply fine_ranged, fine_each].
- intros [path d] Hin. apply elem_of_map_to_list in Hin. destruct (Hd _ _ Hin) as [-> Hm].
  by apply fine_Run, dir_contents_fine.
- intros [path f] Hin. apply elem_of_map_to_list in Hin. destruct (Hf _ _ Hin) as (content & mask & Ho & ->).
  by apply fine_Run, is_file_fine.
Qed.
End static.

(** ** The tests of the package *)

(** A reader for the files of the static file system. *)
Definition static_ReadAll (f : sfile) (a : attacher) : (list byte + error) * attacher :=
  match f with
  | SDir => (inr (Errno EISDIR), a)
  | SFile f => (inl (Reader (wf_File f)), a)
  end.

Lemma static_ReadAll_reads f a bs : reads_as f a bs -> static_ReadAll f a = (inl bs, a).
Proof.
  intros H. destruct f as [|f].
  - destruct (H [x00] 0 ltac:(lia)) as (err & He & Heof & _). apply (f_equal (fun r => r.1.2)) in He. cbn in He.
    discriminate (Heof _ (eq_sym He)).
  - cbn. do 2 f_equal. set (R := Reader (wf_File f)). set (n := (length bs + length R)%nat).
    destruct (H (replicate n x00) 0 ltac:(lia)) as (err & He & _).
    destruct (static_reads a f (replicate n x00) 0 ltac:(lia)) as (err' & He' & _).
    rewrite He in He'. injection He' as Hd Hl _. rewrite length_replicate in Hd, Hl. fold R in Hd, Hl.
    change (drop (Z.to_nat 0) bs) with bs in *. change (drop (Z.to_nat 0) R) with R in *.
    rewrite !take_ge in Hd, Hl by (unfold n; lia). apply Nat2Z.inj in Hl.
    by apply app_inj_1 in Hd as [Hd _].
Qed.

Lemma sort_names_sorted l : Sorted String.le (sort_names l).
Proof. apply Sorted_merge_sort, _. Qed.

Definition equal_names (l k : list string) : bool := bool_decide (l = k).

Lemma equal_names_spec l k : equal_names l k = true <-> l = k.
Proof. apply bool_decide_eq_true. Qed.

(** [TestFilesMatch] of [staticfs_test.go]. *)
Definition TestFilesMatch_opts : list (string * string) :=
  [("foo.txt", "barbarbar"); ("baz.txt", "barbarbarbar")]%string.

Lemma static_passes_tests_witness : exists a, New TestFilesMatch_opts = inl a /\
  passes (TestReadOnlyFS static_ReadAll sort_names equal_names 3
    [FileTest.WithFile "foo.txt" "barbarbar" (Attr_WithMask (static_attr "barbarbar") AttrMaskAll) AttrMaskAll;
     FileTest.WithFile "baz.txt" "barbarbarbar" (Attr_WithMask (static_attr "barbarbarbar") AttrMaskAll) AttrMaskAll;
     WithDir EmptyString ["foo.txt"; "baz.txt"]%string]) a.
Proof.
  destruct (New TestFilesMatch_opts) as [a|err] eqn:E; [|exfalso; vm_compute in E; discriminate E].
  exists a. split; [done|].
  apply (static_passes_tests static_ReadAll sort_names equal_names static_ReadAll_reads sort_names_perm
    sort_names_sorted equal_names_spec TestFilesMatch_opts a ltac:(cbn; lia) E).
  - repeat constructor.
  - cbn. lia.
Defined.
