(* ===== verification/ComposeFS.v ===== *)
(** * Composed file systems ([fsimpl/composefs])

    A directory whose entries are files of other implementations, each behind a QID
    wrapper with a mapper of its own. The implementations are one backend here, [inner], on
    a world [W] with files [G]; a file system that is composed itself is a case of it. *)
From S2P Require Import Prelude Errno Buffer Types Messages Message File State Handlers.
From S2P Require Import Server Reach Qids Readdir Templates.

Local Notation len l := (Z.of_nat (length l)).

Definition ErrFlatHierarchy : error := OtherError "composefs only supports a flat hierarchy".
Definition ErrFileExists : error := OtherError "file already exists".

Section composefs.
Context {W G : Type} (inner : forall A, FileE G A -> W -> A * W) (foreign : G).
Arguments inner {A}.
(** [maps.Keys] and [slices.Sort] of [golang.org/x/exp]. *)
Context (Keys : gmap string (qidTransformFile G) -> list string).
Context (Sort : list string -> list string).

Record FS := mk_FS {
  mounts : gmap string (qidTransformFile G);
  fs_qids : qid_state;
}.

(** ** Options *)

Definition opt : Type := FS -> W -> (FS + error) * W.

(** [fs.mounts[dir] = qids.NewWrapperFile(f, qids.NewMapper(fs.qids))]. *)
Definition mount (dir : string) (f : G) (fs : FS) : FS :=
  let '(m, q) := NewMapper (fs_qids fs) in
  mk_FS (<[dir := NewWrapperFile f m]> (mounts fs)) q.

(** [attach] is the [Attach] of the attacher. *)
Definition WithMount (dir : string) (attach : W -> (G + error) * W) : opt := fun fs w =>
  if contains_slash dir then (inr (Wrap ErrFlatHierarchy), w)
  else match mounts fs !! dir with
  | Some _ => (inr (Wrap ErrFileExists), w)
  | None =>
      match attach w with
      | (inr err, w) => (inr err, w)
      | (inl f, w) => (inl (mount dir f fs), w)
      end
  end.

(** [new] makes a composed file system from the options and yields its root. *)
Definition WithDir (dir : string) (new : W -> (G + error) * W) : opt := fun fs w =>
  match new w with
  | (inr err, w) => (inr err, w)
  | (inl subfs, w) => WithMount dir (fun w => (inl subfs, w)) fs w
  end.

Definition WithFile (file : string) (f : G) : opt := fun fs w =>
  if contains_slash file then (inr (Wrap ErrFlatHierarchy), w)
  else match mounts fs !! file with
  | Some _ => (inr (Wrap ErrFileExists), w)
  | None => (inl (mount file f fs), w)
  end.

Fixpoint apply_mounts (opts : list opt) (fs : FS) (w : W) : (FS + error) * W :=
  match opts with
  | [] => (inl fs, w)
  | m :: opts =>
      match m fs w with
      | (inr err, w) => (inr err, w)
      | (inl fs, w) => apply_mounts opts fs w
      end
  end.

Definition New (opts : list opt) (w : W) : (FS + error) * W :=
  apply_mounts opts (mk_FS ∅ qid_state_zero) w.

(** ** The root *)

Inductive cfile := CRoot | CMount (f : qidTransformFile G).
Definition unmount (f : cfile) : qidTransformFile G :=
  match f with CMount f => f | CRoot => NewWrapperFile foreign 0 end.

Definition compose_world : Type := FS * W.

(** A method of a mounted file. *)
Definition mounted {A} (e : FileE (qidTransformFile G) A) (s : compose_world)
    : A * compose_world :=
  let '(fs, w) := s in
  let '(a, (w, q)) := wrapper_exec (fun A => inner) foreign e (w, fs_qids fs) in
  (a, (mk_FS (mounts fs) q, w)).

Definition rootQID : QID := mkQID TypeDir 0 0.
Definition AttrMask_Mode : AttrMask := AttrMask_of_bits 1.

Definition root_Walk (names : list string) (s : compose_world)
    : (list QID * cfile + error) * compose_world :=
  match names with
  | [] => (inl ([], CRoot), s)
  | name :: rest =>
      match mounts s.1 !! name with
      | None => (inr (Errno ENOENT), s)
      | Some file =>
          match mounted (FWalk file rest) s with
          | (inr err, s) => (inr err, s)
          | (inl (qids, file), s) =>
              if (length names =? 1)%nat && (length qids =? 0)%nat then
                match mounted (FGetAttr file AttrMask_Mode) s with
                | (inr err, s) => (inr err, s)
                | (inl (qid, _, _), s) => (inl ([qid], CMount file), s)
                end
              else (inl (qids, CMount file), s)
          end
      end
  end.

(** The loop that asks the mounts for their QIDs: a mount that is not there cannot be. *)
Fixpoint root_qids (names : list string) (qids : gmap string QID) (s : compose_world)
    : (gmap string QID + error) * compose_world :=
  match names with
  | [] => (inl qids, s)
  | name :: names =>
      match mounts s.1 !! name with
      | None => root_qids names qids s
      | Some file =>
          match mounted (FGetAttr file AttrMask_Mode) s with
          | (inr err, s) => (inr err, s)
          | (inl (qid, _, _), s) => root_qids names (<[name := qid]> qids) s
          end
      end
  end.

Definition root_Readdir (offset count : Z) (s : compose_world)
    : (list Dirent * option error) * compose_world :=
  let names := Sort (Keys (mounts s.1)) in
  match root_qids names ∅ s with
  | (inr err, s) => (([], Some err), s)
  | (inl qids, s) =>
      (match Readdir offset count names qids with
       | Some ds => (ds, None)
       | None => ([], Some (OtherError "panic: slice bounds out of range"))
       end, s)
  end.

Definition root_Attr (fs : FS) : Attr :=
  mkAttr (Z.lor 0x1ff (* 0777 *) ModeDirectory) 0 0 (1 + Z.of_nat (size (mounts fs))) 0 0 4096
    0 0 0 0 0 0 0 0 0 0 0.

(** The methods of the root that do not ask the mounts. *)
Definition root_methods (fs : FS) : template cfile :=
  embed (fun A e =>
    match e in FileE _ A return option A with
    | FOpen _ mode =>
        Some (if negb (OpenFlags_Mode mode =? ReadOnly) then inr (Errno EACCES)
              else inl (QID_zero, 0))
    | FStatFS _ => Some (inr (Errno ENOSYS))
    | FGetAttr _ req => Some (inl (rootQID, req, root_Attr fs))
    | _ => None
    end) [DefaultWalkGetAttr; ReadOnlyDir; NilCloser].

Definition root_exec {A} (e : FileE cfile A) (s : compose_world) : A * compose_world :=
  match e in FileE _ A return A * compose_world with
  | FAttach => (inl CRoot, s)
  | FWalk _ names => root_Walk names s
  | FReaddir _ offset count => root_Readdir offset count s
  | e => (methods (root_methods s.1) e, s)
  end.

Definition compose_exec {A} (e : FileE cfile A) (s : compose_world) : A * compose_world :=
  match receiver e with
  | Some (CMount _) => lift unmount CMount (fun A => mounted) e s
  | _ => root_exec e s
  end.

(** ** The state of the QIDs *)

(** The options that the package has. *)
Inductive is_opt : opt -> Prop :=
| opt_mount dir attach : is_opt (WithMount dir attach)
| opt_dir dir new : is_opt (WithDir dir new)
| opt_file file f : is_opt (WithFile file f).

(** After [k] steps of the QID library: every mount has a mapper of its own. *)
Record composed (k : nat) (fs : FS) : Prop := {
  co_steps : nsteps qid_step k qid_state_zero (fs_qids fs);
  co_mapper : forall name f, mounts fs !! name = Some f ->
    (wf_m f < length (mappers (fs_qids fs)))%nat;
  co_distinct : forall name name' f f', mounts fs !! name = Some f ->
    mounts fs !! name' = Some f' -> wf_m f = wf_m f' -> name = name';
}.

Lemma composed_mount k fs dir f :
  composed k fs -> mounts fs !! dir = None -> composed (S k) (mount dir f fs).
Proof.
  intros [Hs Hm Hd] Hn. unfold mount, NewMapper. split; cbn [mounts fs_qids].
  - eapply nsteps_r; [exact Hs|]. apply step_NewMapper.
  - intros name g Hg. cbn. rewrite length_app. cbn.
    apply lookup_insert_Some in Hg as [[_ <-]|[_ Hg]]; [cbn; lia|]. apply Hm in Hg. lia.
  - intros n n' g g' Hg Hg' E. apply lookup_insert_Some in Hg, Hg'.
    destruct Hg as [[<- <-]|[_ Hg]], Hg' as [[<- <-]|[_ Hg']]; cbn in E; [done|..].
    + apply Hm in Hg'. lia.
    + apply Hm in Hg. lia.
    + by eapply Hd.
Qed.

Lemma opt_composed o k fs w fs' w' :
  is_opt o -> composed k fs -> o fs w = (inl fs', w') -> composed (S k) fs'.
Proof.
  assert (Hwm : forall dir attach k fs w fs' w', composed k fs ->
    WithMount dir attach fs w = (inl fs', w') -> composed (S k) fs').
  { intros dir attach k1 fs1 w1 fs2 w2 Hc. unfold WithMount. destruct (contains_slash dir); [done|].
    destruct (mounts fs1 !! dir) eqn:E; [done|]. destruct (attach w1) as [[f|] w3]; [|done].
    intros [= <- _]. by apply composed_mount. }
  intros Ho Hc. destruct Ho as [dir attach|dir new|file f].
  - by apply Hwm.
  - unfold WithDir. destruct (new w) as [[subfs|] w3]; [|done]. by apply Hwm.
  - unfold WithFile. destruct (contains_slash file); [done|].
    destruct (mounts fs !! file) eqn:E; [done|]. intros [= <- _]. by apply composed_mount.
Qed.

Lemma New_composed opts w fs w' :
  Forall is_opt opts -> New opts w = (inl fs, w') -> composed (length opts) fs.
Proof.
  assert (H : forall opts k fs0 w fs w', Forall is_opt opts -> composed k fs0 ->
    apply_mounts opts fs0 w = (inl fs, w') -> composed (k + length opts) fs).
  { intros os. induction os as [|o os IH]; intros k fs0 w0 fs1 w1 Hos Hc; cbn.
    - intros [= <- _]. by rewrite Nat.add_0_r.
    - inversion Hos as [|? ? Ho Hos']; subst. destruct (o fs0 w0) as [[fs2|] w2] eqn:E; [|done].
      intros Happ. replace (k + S (length os))%nat with (S k + length os)%nat by lia.
      eapply IH; [done| |done]. by eapply opt_composed. }
  intros Hos HN. apply (H opts 0%nat (mk_FS ∅ qid_state_zero) w fs w'); [done| |done].
  split; cbn; [constructor|..]; intros *; by rewrite lookup_empty.
Qed.

(** *** Methods *)

(** The files that a client of the composed file system can hold. *)
Definition valid (f : cfile) (fs : FS) : Prop :=
  match f with CRoot => True | CMount f => (wf_m f < length (mappers (fs_qids fs)))%nat end.

Lemma qid_step_length q q' : qid_step q q' -> (length (mappers q) <= length (mappers q'))%nat.
Proof.
  intros [m qid q0 _|q0]; [|cbn; rewrite length_app; lia].
  unfold QIDFor. destruct (_ !! _); [done|]. cbn. by rewrite length_alter.
Qed.

Lemma qid_steps_length k q q' :
  nsteps qid_step k q q' -> (length (mappers q) <= length (mappers q'))%nat.
Proof. induction 1 as [|k q1 q2 q3 H _ IH]; [done|]. apply qid_step_length in H. lia. Qed.

Lemma QIDsFor_steps m qs q :
  (m < length (mappers q))%nat -> nsteps qid_step (length qs) q (QIDsFor m qs q).2.
Proof.
  revert q. induction qs as [|qid qs IH]; intros q Hm; cbn; [constructor|].
  pose proof (step_QIDFor m qid q Hm) as Hst. pose proof (qid_step_length _ _ Hst) as Hl.
  destruct (QIDFor m qid q) as [nqid q1] eqn:E. cbn in Hst, Hl.
  specialize (IH q1 ltac:(lia)). destruct (QIDsFor m qs q1) as [nqids q2]. by eapply nsteps_l.
Qed.

Definition some_steps (q q' : qid_state) : Prop := exists k, nsteps qid_step k q q'.

Lemma QIDFor_steps m qid q : (m < length (mappers q))%nat -> some_steps q (QIDFor m qid q).2.
Proof. intros Hm. exists 1%nat. apply nsteps_once. by apply step_QIDFor. Qed.

Lemma map_result_steps {A C} m (f : A -> qid_state -> C * qid_state) r q :
  (m < length (mappers q))%nat -> (forall a, some_steps q (f a q).2) ->
  some_steps q (map_result (W := W) m f r q).2.2.
Proof.
  intros Hm Hf. unfold map_result. destruct r as [[a|err] w].
  - specialize (Hf a). by destruct (f a q).
  - pose proof (QIDFor_steps m QID_zero q Hm). by destruct (QIDFor m QID_zero q).
Qed.

Lemma wrapper_steps {A} (e : FileE (qidTransformFile G) A) w q :
  (forall f, receiver e = Some f -> (wf_m f < length (mappers q))%nat) ->
  some_steps q (wrapper_exec (fun A => inner) foreign e (w, q)).2.2.
Proof.
  intros He.
  assert (H0 : some_steps q q) by (exists 0%nat; constructor).
  destruct e; try exact H0; specialize (He f eq_refl); cbn [wrapper_exec];
    try (destruct (inner _ w) as [a w']; exact H0);
    try (apply map_result_steps; [done|]; intros ?;
         repeat match goal with x : (_ * _)%type |- _ => destruct x end;
         match goal with |- some_steps _ (let '(_, _) := QIDFor ?m ?qid ?q in _).2 =>
           pose proof (QIDFor_steps m qid q He) as Hst; by destruct (QIDFor m qid q) | _ => idtac end;
         by apply QIDFor_steps).
  - destruct (inner _ w) as [[[qs file]|err] w']; [|exact H0].
    pose proof (QIDsFor_steps (wf_m f) qs q He) as Hst. destruct (QIDsFor _ _ _). by eexists.
  - destruct (inner _ w) as [[[[[qs file] mask] attr]|err] w']; [|exact H0].
    pose proof (QIDsFor_steps (wf_m f) qs q He) as Hst. destruct (QIDsFor _ _ _). by eexists.
  - destruct (inner _ w) as [[dirents err] w'].
    pose proof (QIDsFor_steps (wf_m f) (Dirent_QID <$> dirents) q He) as Hst.
    destruct (QIDsFor _ _ _). by eexists.
Qed.

(** What calls do to the file system: the mounts stay, the QIDs go on. *)
Definition goes_on (s s' : compose_world) : Prop :=
  mounts s'.1 = mounts s.1 /\ some_steps (fs_qids s.1) (fs_qids s'.1).

#[local] Instance goes_on_preorder : PreOrder goes_on.
Proof.
  split; [intros s; split; [done|]; exists 0%nat; constructor|].
  intros s1 s2 s3 [H1 [k1 K1]] [H2 [k2 K2]]. split; [congruence|].
  exists (k1 + k2)%nat. by eapply nsteps_trans.
Qed.

Lemma goes_on_valid s s' f : goes_on s s' -> valid f s.1 -> valid f s'.1.
Proof.
  intros [_ [k Hk]]. destruct f as [|f]; [done|]. cbn. apply qid_steps_length in Hk. lia.
Qed.

Lemma mounted_goes_on {A} (e : FileE (qidTransformFile G) A) s :
  (forall f, receiver e = Some f -> valid (CMount f) s.1) -> goes_on s (mounted e s).2.
Proof.
  destruct s as [fs w]. intros He. unfold mounted.
  pose proof (wrapper_steps e w (fs_qids fs) He) as Hst.
  destruct (wrapper_exec _ _ _ _) as [a [w' q]]. by split.
Qed.

(** A walk in a mount stays in it. *)
Lemma mounted_Walk_file f names s qs f' s' :
  mounted (FWalk f names) s = (inl (qs, f'), s') -> wf_m f' = wf_m f.
Proof.
  destruct s as [fs w]. cbn. destruct (inner _ w) as [[[iqs file]|err] w']; [|done].
  destruct (QIDsFor _ _ _) as [nqids q]. by intros [= _ <- _].
Qed.

Lemma root_Walk_goes_on k names s : composed k s.1 ->
  goes_on s (root_Walk names s).2 /\
  forall qs f, (root_Walk names s).1 = inl (qs, f) -> valid f (root_Walk names s).2.1.
Proof.
  intros Hc. destruct names as [|name rest]; cbn [root_Walk]; [split; [done|by intros qs f [= _ <-]]|].
  destruct (mounts s.1 !! name) as [file|] eqn:E; [|by split].
  pose proof (co_mapper _ _ Hc _ _ E) as Hv.
  pose proof (mounted_goes_on (FWalk file rest) s) as H1.
  destruct (mounted (FWalk file rest) s) as [[[qs f]|err] s1] eqn:Ew; cbn [snd] in H1.
  - specialize (H1 ltac:(by intros g [= <-])). apply mounted_Walk_file in Ew.
    assert (Hf : valid (CMount f) s1.1).
    { apply (goes_on_valid s); [done|]. cbn. by rewrite Ew. }
    destruct ((length (name :: rest) =? 1)%nat && (length qs =? 0)%nat).
    + pose proof (mounted_goes_on (FGetAttr f AttrMask_Mode) s1 ltac:(by intros g [= <-])) as H2.
      destruct (mounted (FGetAttr f AttrMask_Mode) s1) as [[[[qid mask] attr]|err] s2];
        cbn [snd fst] in H2 |- *; (split; [by transitivity s1|]); [|done].
      intros qs' f' [= _ <-]. by apply (goes_on_valid s1).
    + split; [done|]. by intros qs' f' [= _ <-].
  - split; [apply H1; by intros g [= <-]|done].
Qed.

Lemma root_qids_goes_on k names qids s : composed k s.1 -> goes_on s (root_qids names qids s).2.
Proof.
  intros Hc. assert (Hm : forall name f, mounts s.1 !! name = Some f -> valid (CMount f) s.1)
    by apply Hc. clear Hc. revert qids s Hm.
  induction names as [|name names IH]; intros qids s Hm; cbn [root_qids]; [done|].
  destruct (mounts s.1 !! name) as [file|] eqn:E; [|by apply IH].
  pose proof (mounted_goes_on (FGetAttr file AttrMask_Mode) s) as H1.
  destruct (mounted (FGetAttr file AttrMask_Mode) s) as [[[[qid mask] attr]|err] s1];
    cbn [snd] in H1; specialize (H1 ltac:(intros f [= <-]; by eapply Hm)); [|done].
  transitivity s1; [done|]. apply IH. intros n f Hf. apply (goes_on_valid s); [done|].
  eapply Hm. rewrite <- (proj1 H1). exact Hf.
Qed.

Lemma compose_goes_on k {A} (e : FileE cfile A) s :
  composed k s.1 -> (forall f, receiver e = Some f -> valid f s.1) ->
  goes_on s (compose_exec e s).2.
Proof.
  intros Hc He. unfold compose_exec. destruct (receiver e) as [[|g]|] eqn:Er.
  - destruct e; try done; cbn [root_exec]; [by eapply root_Walk_goes_on|].
    unfold root_Readdir. pose proof (root_qids_goes_on k (Sort (Keys (mounts s.1))) ∅ s Hc) as H.
    by destruct (root_qids _ _ _) as [[qids|err] s1].
  - specialize (He _ eq_refl).
    destruct e; cbn in Er; try discriminate Er; injection Er as ->; cbn [lift unmount with_result snd];
      apply mounted_goes_on; intros g' [= <-]; exact He.
  - by destruct e.
Qed.

(** A file that a call yields is valid, and one that a mount's file yields is the mount's. *)
Lemma compose_Walk_valid k f names s qs f' s' :
  composed k s.1 -> valid f s.1 -> compose_exec (FWalk f names) s = (inl (qs, f'), s') ->
  valid f' s'.1 /\ match f with CMount g => exists g', f' = CMount g' /\ wf_m g' = wf_m g | CRoot => True end.
Proof.
  intros Hc Hv H. destruct f as [|g].
  - destruct (root_Walk_goes_on k names s Hc) as [_ Hr]. cbn in H. rewrite H in Hr. by eauto.
  - unfold compose_exec in H. cbn [receiver lift unmount] in H. unfold with_result in H.
    pose proof (mounted_goes_on (FWalk g names) s ltac:(by intros x [= <-])) as Hg.
    destruct (mounted (FWalk g names) s) as [[[qs1 f1]|err] s1] eqn:E; [|done].
    cbn in H, Hg. injection H as <- <- <-. apply mounted_Walk_file in E. split; [|by eexists].
    apply (goes_on_valid s); [done|]. cbn. by rewrite E.
Qed.

(** ** The QIDs of the whole *)

Definition call_step (s s' : compose_world) : Prop := exists A (e : FileE cfile A),
  (forall f, receiver e = Some f -> valid f s.1) /\ s' = (compose_exec e s).2.

Lemma composed_goes_on k s s' :
  composed k s.1 -> goes_on s s' -> exists k', composed k' s'.1.
Proof.
  intros [Hs Hm Hd] [He [k' Hk]]. exists (k + k')%nat. split.
  - by eapply nsteps_trans.
  - intros name f Hf. rewrite He in Hf. apply Hm in Hf. apply qid_steps_length in Hk. lia.
  - rewrite He. exact Hd.
Qed.

Lemma call_steps k s s' :
  composed k s.1 -> rtc call_step s s' -> goes_on s s' /\ exists k', composed k' s'.1.
Proof.
  intros Hc H. revert k Hc. induction H as [s|s s1 s' (A & e & Hv & ->) _ IH]; intros k Hc.
  - split; [done|by exists k].
  - pose proof (compose_goes_on k e s Hc Hv) as Hg.
    destruct (composed_goes_on k s _ Hc Hg) as [k1 Hc1]. destruct (IH k1 Hc1) as [Hg1 Hk].
    split; [by etransitivity|done].
Qed.

(** [f] is a file of the mount [name]. *)
Definition in_mount (name : string) (f : qidTransformFile G) (s : compose_world) : Prop :=
  exists g, mounts s.1 !! name = Some g /\ wf_m f = wf_m g.

(** A walk from the root by [name] leads to a file of that mount. *)
Lemma root_walk_in_mount name rest s qs f s' :
  root_Walk (name :: rest) s = (inl (qs, CMount f), s') -> in_mount name f s.
Proof.
  cbn [root_Walk]. destruct (mounts s.1 !! name) as [g|] eqn:E; [|done].
  destruct (mounted (FWalk g rest) s) as [[[qs1 f1]|err] s1] eqn:Ew; [|done].
  apply mounted_Walk_file in Ew. destruct (_ && _).
  - destruct (mounted _ s1) as [[[[qid mask] attr]|err] s2]; [|done]. intros [= _ <- _]. by exists g.
  - intros [= _ <- _]. by exists g.
Qed.

(** In [s] the file [f] of the mount [name] is asked for its attributes: the
    implementation says the path [p], the composed file system [qid]. *)
Definition asked (name : string) (f : qidTransformFile G) (s : compose_world) (p : Z) (qid : QID)
    (s' : compose_world) : Prop :=
  in_mount name f s /\ exists req iqid mask attr w,
    inner (FGetAttr (wf_File f) req) s.2 = (inl (iqid, mask, attr), w) /\ QID_Path iqid = p /\
    compose_exec (FGetAttr (CMount f) req) s = (inl (qid, mask, attr), s').

Lemma asked_mapped k name f s p qid s' :
  composed k s.1 -> asked name f s p qid s' ->
  exists g, mounts s.1 !! name = Some g /\ mapped (fs_qids s'.1) (wf_m g) p (QID_Path qid) /\
  goes_on s s'.
Proof.
  intros Hc ((g & Hg & Em) & req & iqid & mask & attr & w & Hi & <- & H). exists g. split; [done|].
  pose proof (co_mapper _ _ Hc _ _ Hg) as Hlt. destruct s as [fs w0].
  pose proof (mounted_goes_on (FGetAttr f req) (fs, w0)) as Hgo.
  specialize (Hgo ltac:(intros x [= <-]; cbn in *; lia)).
  unfold compose_exec in H. cbn [receiver lift unmount] in H. rewrite H in Hgo. split; [|exact Hgo].
  cbn in H, Hi, Hg, Hlt. rewrite Hi in H. cbn in H. rewrite Em in H.
  pose proof (QIDFor_answer (wf_m g) iqid (fs_qids fs) Hlt) as Ha.
  destruct (QIDFor (wf_m g) iqid (fs_qids fs)) as [nqid q]. by injection H as <- <-.
Qed.

(** C27: the QIDs of a composed file system are unique: in the file system that [New] makes
  from any options, two files that are asked for their attributes, at any two times with
  any calls before and in between, have the same path exactly if they are of the same
  mount and its implementation gave them the same path; and no file has the path of the
  root. (Fewer than 2^64 - 1 paths are given out.) *)
Theorem compose_qids opts w0 fs w s1 s1' s2 s2' n1 f1 p1 qid1 n2 f2 p2 qid2 k :
Forall is_opt opts -> New opts w0 = (inl fs, w) ->
rtc call_step (fs, w) s1 -> asked n1 f1 s1 p1 qid1 s1' ->
rtc call_step s1' s2 -> asked n2 f2 s2 p2 qid2 s2' ->
nsteps qid_step k qid_state_zero (fs_qids s2'.1) -> Z.of_nat k < 2 ^ 64 ->
(QID_Path qid1 = QID_Path qid2 <-> n1 = n2 /\ p1 = p2) /\ QID_Path qid1 <> QID_Path rootQID.
Proof.
intros Hos HN H1 Ha1 H2 Ha2 Hk Hlt. pose proof (New_composed _ _ _ _ Hos HN) as Hc0.
destruct (call_steps _ (fs, w) _ Hc0 H1) as [_ [k1 Hc1]].
destruct (asked_mapped _ _ _ _ _ _ _ Hc1 Ha1) as (g1 & Hg1 & Hm1 & Hgo1).
destruct (composed_goes_on _ _ _ Hc1 Hgo1) as [k1' Hc1'].
destruct (call_steps _ _ _ Hc1' H2) as [Hgo12 [k2 Hc2]].
destruct (asked_mapped _ _ _ _ _ _ _ Hc2 Ha2) as (g2 & Hg2 & Hm2 & Hgo2).
destruct (transitivity Hgo12 Hgo2) as [_ [j Hj]]. apply (mapped_steps j _ _ _ _ _ Hj) in Hm1.
destruct (qid_steps_inv _ _ Hk Hlt) as [[Hr Hi] _].
rewrite (proj1 Hgo12), (proj1 Hgo1) in Hg2. split; [split|apply Hr in Hm1; cbn; lia].
- intros E. rewrite <- E in Hm2. destruct (Hi _ _ _ _ _ Hm1 Hm2) as [Em ->].
  split; [by eapply (co_distinct _ _ Hc1)|done].
- intros [-> ->]. rewrite Hg1 in Hg2. injection Hg2 as ->. by eapply mapped_functional.
Qed.
End composefs.

(** ** An example: a file system and a file, both with files of the path zero *)

Section example.
Local Notation inner := (fun A => @toy_exec A).
Local Notation foreign := ((0%nat, 0) : toy_file).
Local Notation keys := (fun m : gmap string (qidTransformFile toy_file) => (map_to_list m).*1).
Local Notation names := (fun l : list string => l).

Definition demo_mounts : list opt :=
  [WithMount "d" (toy_exec FAttach); WithFile "f" (7%nat, ModeRegular)].

Definition demo_fs : FS * nat :=
  match New demo_mounts 0%nat with (inl fs, w) => (fs, w) | (inr _, w) => (mk_FS ∅ qid_state_zero, w) end.

Definition demo_dir : qidTransformFile toy_file := NewWrapperFile (0%nat, ModeDirectory) 0.
Definition demo_file : qidTransformFile toy_file := NewWrapperFile (7%nat, ModeRegular) 1.
Definition demo_asks (f : qidTransformFile toy_file) (s : FS * nat) : FS * nat :=
  (compose_exec inner foreign keys names (FGetAttr (CMount f) AttrMaskAll) s).2.

Lemma compose_qids_witness :
  asked inner foreign keys names "d" demo_dir demo_fs 0 (mkQID 0 0 1) (demo_asks demo_dir demo_fs) /\
  asked inner foreign keys names "f" demo_file (demo_asks demo_dir demo_fs) 0 (mkQID 0 0 2)
    (demo_asks demo_file (demo_asks demo_dir demo_fs)) /\
  (1 = 2 <-> "d"%string = "f"%string /\ 0 = 0) /\ 1 <> QID_Path rootQID.
Proof.
  assert (H1 : asked inner foreign keys names "d" demo_dir demo_fs 0 (mkQID 0 0 1)
    (demo_asks demo_dir demo_fs)).
  { split; [eexists; split; [vm_compute; reflexivity|reflexivity]|].
    exists AttrMaskAll, toy_qid, AttrMaskAll, (toy_attr ModeDirectory), 1%nat.
    split; [reflexivity|]. split; reflexivity. }
  assert (H2 : asked inner foreign keys names "f" demo_file (demo_asks demo_dir demo_fs) 0 (mkQID 0 0 2)
    (demo_asks demo_file (demo_asks demo_dir demo_fs))).
  { split; [eexists; split; [vm_compute; reflexivity|reflexivity]|].
    exists AttrMaskAll, toy_qid, AttrMaskAll, (toy_attr ModeRegular), 1%nat.
    split; [reflexivity|]. split; reflexivity. }
  split; [exact H1|]. split; [exact H2|].
  refine (compose_qids inner foreign keys names demo_mounts 0%nat demo_fs.1 demo_fs.2
    demo_fs _ _ _ "d" demo_dir 0 (mkQID 0 0 1) "f" demo_file 0 (mkQID 0 0 2) 4
    _ _ (rtc_refl _ _) H1 (rtc_refl _ _) H2 _ _).
  - repeat constructor.
  - reflexivity.
  - set (q1 := (NewMapper qid_state_zero).2). set (q2 := (NewMapper q1).2).
    set (q3 := (QIDFor 0 toy_qid q2).2).
    apply (nsteps_l _ _ _ q1); [apply step_NewMapper|].
    apply (nsteps_l _ _ _ q2); [apply step_NewMapper|].
    apply (nsteps_l _ _ _ q3); [apply step_QIDFor; vm_compute; lia|].
    apply nsteps_once. refine (step_QIDFor 1 toy_qid q3 _). vm_compute. lia.
  - lia.
Defined.
End example.
