(* ===== verification/HandlerLogic.v ===== *)
(** * Invariants that the server's primitives keep

    An invariant on the world and the trace is kept by the handlers, and so by the steps of
    the server, as soon as it is kept by every call into the backend and by the writes to the
    server's own state: [FreeRules]. *)
From S2P Require Import Prelude Errno Buffer Types Messages Message Transport Version.
From S2P Require Import File State PathTree FidRef Handlers Server Reach ProgramLogic TreeLogic.

Section free.
Context {W File : Type} {B : Backend W File} {inv : Inv W File}.
Local Notation St := (St W File).
Local Notation M := (M W File).
Implicit Types (s : St) (h : held) (F : St -> Prop).

Class FreeRules : Prop := {
  fr_call : forall A h F r (e : FileE File A), keeps h F (call r e : M _);
  fr_set_ref : forall h F r fr, keeps h F (set_ref r fr : M _);
  fr_new_ref : forall h F fr, keeps h F (new_ref fr : M _);
  fr_set_node : forall h F n nd, keeps h F (set_node n nd : M _);
  fr_new_node : forall h F nd, keeps h F (new_node nd : M _);
  fr_set_conn : forall h F c cs, keeps h F (set_conn c cs : M _);
}.
Context {rules : FreeRules}.
#[local] Hint Resolve fr_call fr_set_ref fr_new_ref fr_set_node fr_new_node fr_set_conn : keeps.

#[export] Instance free_tree_rules : TreeRules W File.
Proof.
  split; [intros; apply fr_call|intros; by apply (fr_set_ref h (fun _ => True))|auto with keeps..].
Qed.

(** One step through code that calls no primitive in a special way. *)
Ltac free_step :=
  intros; lazymatch goal with
  | |- keeps _ _ (reply _ _) => unfold reply
  | |- keeps _ _ (with_fid _ _ _ _) => unfold with_fid
  | |- keeps _ _ (check_dir _ _) => unfold check_dir
  | |- keeps _ _ (call_err _ _) => unfold call_err
  | |- keeps _ _ (safelyRead _ _) => unfold safelyRead
  | |- keeps _ _ (safelyWrite _ _) => unfold safelyWrite
  | |- keeps _ _ (safelyGlobal _ _) => unfold safelyGlobal
  | |- _ => keeps_step
  end.
Ltac free_code := repeat (first [solve [eauto 3 with keeps] | free_step]).

Lemma free_LookupFID h F `{!Stable F} c fid : keeps h F (LookupFID c fid : M _).
Proof. unfold LookupFID. free_code. Qed.
Lemma free_InsertFID h F `{!Stable F} c fid r : keeps h F (InsertFID c fid r : M _).
Proof. unfold InsertFID. free_code. Qed.
Lemma free_DeleteFID h F `{!Stable F} c fid : keeps h F (DeleteFID c fid : M _).
Proof. unfold DeleteFID. free_code. Qed.
Lemma free_WaitTag h F `{!Stable F} c t : keeps h F (WaitTag c t : M _).
Proof. unfold WaitTag. free_code. Qed.
#[local] Hint Resolve free_LookupFID free_InsertFID free_DeleteFID free_WaitTag : keeps.

Lemma free_handler m f c : handler m = Some f -> keeps [] (fun _ => True) (f c : M _).
Proof.
  destruct m; try discriminate; intros [= <-];
    unfold handle_tversion, handle_tflush, handle_tauth, handle_tattach, handle_tclunk,
      handle_trenameat, handle_trename, handle_tread,
              handle_tremove, handle_tlopen, handle_tlcreate, handle_tsymlink,
              handle_tlink, handle_tunlinkat, handle_treadlink, handle_twrite,
              handle_tmknod, handle_tmkdir, handle_tgetattr, handle_tsetattr,
              handle_txattrwalk, handle_txattrcreate, handle_treaddir, handle_tfsync,
              handle_tstatfs, handle_tlock, handle_twalk, handle_twalkgetattr,
              handle_tucreate, handle_tumkdir, handle_tusymlink, handle_tumknod,
              clunkHandleXattr, tlcreate_do, tsymlink_do, tmknod_do, tmkdir_do,
              check_walk_busy, readBufPool_Get, tread_fn, slice_to, slice_from, hasParent;
    free_code.
Qed.

Lemma free_handle c m : keeps [] (fun _ => True) (handle c m : M _).
Proof.
  apply logic_recover. destruct (handler m) eqn:E; [by eapply free_handler|free_code].
Qed.

Lemma free_respond c tag m : keeps [] (fun _ => True) (respond c tag m : M _).
Proof.
  pose proof free_handle. unfold respond, StartTag, ClearTag, PayloadCleanup. free_code.
Qed.

Lemma free_stop c : keeps [] (fun _ => True) (stop c : M _).
Proof. unfold stop. free_code. Qed.

(** A step keeps the invariant if a change of the world does. *)
Lemma free_server_step R s s' :
  (forall s w, I s -> R (world s) w -> I (set_world w s)) ->
  I s -> server_step_by R s s' -> I s'.
Proof.
  intros HR HI Hst. revert HI.
  destruct Hst as [s s' c _ Hs|s s' c tag m Hs|s s' c Hs|s w Hw]; intros HI; [..|by apply HR].
  - eapply logic_final; [apply fr_set_conn|exact HI|exact Hs].
  - eapply logic_final; [apply free_respond|exact HI|exact Hs].
  - eapply logic_final; [|exact HI|exact Hs]. pose proof free_stop. free_code.
Qed.
End free.
Arguments FreeRules W File {B inv}.
