(* ===== verification/LocalQids.v ===== *)
(** * QID paths of local files ([fsimpl/localfs/system_unix.go], [internal])

    What the host says of a file, its conversion for the wire, and the numbers that
    [localfs] makes of devices and inodes: a fixed encoding for the likely ones, a counter
    for the rest. *)
From S2P Require Import Prelude.

(** ** What the host says of a file *)

(** [syscall.Stat_t]; times are seconds with nanoseconds. *)
Record Stat_t := mk_Stat_t {
  st_Dev : Z; st_Ino : Z; st_Nlink : Z; st_Mode : Z; st_Uid : Z; st_Gid : Z; st_Rdev : Z;
  st_Size : Z; st_Blksize : Z; st_Blocks : Z;
  st_Atim : Z * Z; st_Mtim : Z * Z; st_Ctim : Z * Z;
}.

(** [os.FileInfo]: its mode, and what [Sys] returns. *)
Record FileInfo := mk_FileInfo { fi_Mode : Z; fi_Sys : Stat_t }.

(** [syscall.TimespecToNsec]. *)
Definition TimespecToNsec (ts : Z * Z) : Z := sint64 (ts.1 * 1000000000 + ts.2).

Section InfoToStat.
(** [golang.org/x/sys/unix]. *)
Context (NsecToTimespec : Z -> Z * Z).

Definition InfoToStat (fi : FileInfo) : Stat_t :=
  let nativeStat := fi_Sys fi in
  mk_Stat_t (st_Dev nativeStat) (st_Ino nativeStat) (st_Nlink nativeStat) (st_Mode nativeStat)
    (st_Uid nativeStat) (st_Gid nativeStat) (st_Rdev nativeStat) (st_Size nativeStat)
    (st_Blksize nativeStat) (st_Blocks nativeStat)
    (NsecToTimespec (TimespecToNsec (st_Atim nativeStat)))
    (NsecToTimespec (TimespecToNsec (st_Mtim nativeStat)))
    (NsecToTimespec (TimespecToNsec (st_Ctim nativeStat))).
End InfoToStat.

(** ** The encoding of the likely ones *)

Definition devUpperBits : Z := 32.
Definition devUpperOffset : Z := 32.
Definition devMajorBits : Z := 12.
Definition devMinorBits : Z := 20.

Definition devMajorLikelyBits : Z := devMajorBits - 0.
Definition devMinorLikelyBits : Z := devMinorBits - 8.
Definition inodeLikelyBits : Z := 39.

(** [^x] on a [uint64]. *)
Definition not64 (x : Z) : Z := wrap64 (Z.lnot x).

Definition nOnes (n : Z) : Z := wrap64 (Z.shiftl 1 n) - 1.

(** The memo of the unlikely ones. The keys of the [sync.Map] are of type [*devino]: the
    map compares addresses, here numbers, of which [next_ptr] is the next that [&devino]
    gives. What is in the map stays allocated. *)
Record devino := mk_devino { dev : Z; ino : Z }.

#[export] Instance devino_eq_dec : EqDecision devino.
Proof. solve_decision. Defined.

Record lqids := mk_lqids { qids : gmap nat Z; heap : gmap nat devino; next_ptr : nat; nextQid : Z }.

(** [init]: [None] for its panic. *)
Definition init : option lqids :=
  if negb (devMajorLikelyBits + devMinorLikelyBits + inodeLikelyBits =? 63) then None
  else Some (mk_lqids ∅ ∅ 0 (wrap64 (Z.shiftl 1 63))).

Section qids.
(** [golang.org/x/sys/unix]. *)
Context (Major Minor : Z -> Z).

Definition encodeLikely (dev ino : Z) : option Z :=
  let inoLikely := nOnes inodeLikelyBits in
  if negb (Z.land ino (not64 inoLikely) =? 0) then None
  else
  let upperUnlikely := wrap64 (Z.shiftl (nOnes devUpperBits) devUpperOffset) in
  if negb (Z.land dev upperUnlikely =? 0) then None
  else
  let major := Major dev in
  if nOnes devMajorLikelyBits <? major then None
  else
  let minor := Minor dev in
  if nOnes devMinorLikelyBits <? minor then None
  else
  let q := Z.land ino inoLikely in
  let q := Z.lor q (wrap64 (Z.shiftl minor inodeLikelyBits)) in
  Some (Z.lor q (wrap64 (Z.shiftl major (inodeLikelyBits + devMinorLikelyBits)))).

(** [qids.LoadOrStore]. *)
Definition LoadOrStore (key : nat) (value : Z) (s : lqids) : Z * lqids :=
  match qids s !! key with
  | Some q => (q, s)
  | None => (value, mk_lqids (<[key := value]> (qids s)) (heap s) (next_ptr s) (nextQid s))
  end.

Definition localToQid (fi : FileInfo) (s : lqids) : Z * lqids :=
  let stat := fi_Sys fi in
  match encodeLikely (st_Dev stat) (st_Ino stat) with
  | Some q => (q, s)
  | None =>
      (* di := &devino{...} *)
      let di := next_ptr s in
      let s := mk_lqids (qids s) (<[di := mk_devino (st_Dev stat) (st_Ino stat)]> (heap s))
                 (S di) (nextQid s) in
      match qids s !! di with
      | Some q => (q, s)
      | None =>
          let q := wrap64 (nextQid s + 1) in
          LoadOrStore di q (mk_lqids (qids s) (heap s) (next_ptr s) q)
      end
  end.

(** The paths of a sequence of files. *)
Fixpoint localToQids (fis : list FileInfo) (s : lqids) : list Z * lqids :=
  match fis with
  | [] => ([], s)
  | fi :: fis =>
      let '(q, s) := localToQid fi s in
      let '(qs, s) := localToQids fis s in
      (q :: qs, s)
  end.
End qids.

(** ** Lemmas *)

Lemma nOnes_ones n : 0 <= n < 64 -> nOnes n = Z.ones n.
Proof.
  intros Hn. unfold nOnes, wrap64. rewrite Z.shiftl_1_l, Z.mod_small, Z.ones_equiv; [lia|].
  split; [apply Z.pow_nonneg; lia|apply Z.pow_lt_mono_r; lia].
Qed.

Lemma nOnes_value n : 0 <= n < 64 -> nOnes n = 2 ^ n - 1.
Proof. intros Hn. rewrite nOnes_ones, Z.ones_equiv by done. lia. Qed.

(** Nothing above the low [n] bits. *)
Lemma no_upper_bits x n :
  0 <= n < 64 -> u64 x -> Z.land x (not64 (nOnes n)) = 0 -> 0 <= x < 2 ^ n.
Proof.
  intros Hn Hx H. rewrite nOnes_ones in H by done. unfold u64, not64, wrap64 in *.
  rewrite <- Z.land_ones, (Z.land_comm (Z.lnot _)), Z.land_assoc in H by lia.
  rewrite (Z.land_ones x 64), (Z.mod_small x) in H by lia.
  rewrite <- Z.ldiff_land, Z.ldiff_ones_r, Z.shiftl_mul_pow2, Z.shiftr_div_pow2 in H by lia.
  pose proof (Z.pow_pos_nonneg 2 n ltac:(lia) ltac:(lia)).
  assert (x / 2 ^ n = 0) by nia. apply Z.div_small_iff in H1; lia.
Qed.

Lemma no_upper_half x :
  u64 x -> Z.land x (wrap64 (Z.shiftl (nOnes devUpperBits) devUpperOffset)) = 0 ->
  0 <= x < 2 ^ 32.
Proof.
  intros Hx H. apply (no_upper_bits x 32); [lia|done|]. rewrite <- H. f_equal.
Qed.

(** [a | b << n] for an [a] below the shift. *)
Lemma lor_shiftl a b n : 0 <= n -> 0 <= a < 2 ^ n -> 0 <= b ->
  Z.lor a (Z.shiftl b n) = a + b * 2 ^ n.
Proof.
  intros Hn Ha Hb. rewrite <- Z.shiftl_mul_pow2 by done.
  assert (Hd : Z.land a (Z.shiftl b n) = 0).
  { apply Z.bits_inj'. intros i Hi. rewrite Z.land_spec, Z.bits_0, Z.shiftl_spec by done.
    destruct (Z.lt_ge_cases i n); [by rewrite (Z.testbit_neg_r b), andb_false_r by lia|].
    destruct (Z.eq_dec a 0) as [->|]; [by rewrite Z.bits_0|].
    rewrite (Z.bits_above_log2 a), ?andb_false_l; [done|lia|].
    apply Z.log2_lt_pow2; [lia|]. eapply Z.lt_le_trans; [apply Ha|apply Z.pow_le_mono_r; lia]. }
  rewrite <- Z.lxor_lor by done. by rewrite Z.add_nocarry_lxor.
Qed.

Section encoding.
Context (Major Minor : Z -> Z) (Mkdev : Z -> Z -> Z).
(** Device numbers of 32 bits are made of a major and a minor number. *)
Hypothesis Major_u32 : forall dev, u64 dev -> u32 (Major dev).
Hypothesis Minor_u32 : forall dev, u64 dev -> u32 (Minor dev).
Hypothesis Mkdev_Major_Minor : forall dev, u32 dev -> Mkdev (Major dev) (Minor dev) = dev.

Local Notation encodeLikely := (encodeLikely Major Minor).
Local Notation localToQid := (localToQid Major Minor).
Local Notation localToQids := (localToQids Major Minor).

Lemma encodeLikely_eq d i q :
  u64 d -> u64 i -> encodeLikely d i = Some q ->
  0 <= d < 2 ^ 32 /\ 0 <= i < 2 ^ 39 /\ 0 <= Minor d < 2 ^ 12 /\ 0 <= Major d < 2 ^ 12 /\
  q = i + Minor d * 2 ^ 39 + Major d * 2 ^ 51.
Proof.
  intros Hd Hi. pose proof (Major_u32 d Hd) as HM. pose proof (Minor_u32 d Hd) as Hm.
  unfold LocalQids.encodeLikely.
  destruct (Z.eqb_spec (Z.land i (not64 (nOnes inodeLikelyBits))) 0) as [Hi0|]; [|done].
  destruct (Z.eqb_spec (Z.land d (wrap64 (Z.shiftl (nOnes devUpperBits) devUpperOffset))) 0)
    as [Hd0|]; [|done]. cbn [negb].
  apply no_upper_bits in Hi0; [|cbv; split; congruence|done].
  apply no_upper_half in Hd0; [|done]. unfold inodeLikelyBits in Hi0.
  rewrite (nOnes_ones inodeLikelyBits) by (cbv; split; congruence).
  change (nOnes devMajorLikelyBits) with (2 ^ 12 - 1).
  change (nOnes devMinorLikelyBits) with (2 ^ 12 - 1).
  change inodeLikelyBits with 39. change devMinorLikelyBits with 12. change (39 + 12) with 51.
  destruct (Z.ltb_spec (2 ^ 12 - 1) (Major d)); [done|].
  destruct (Z.ltb_spec (2 ^ 12 - 1) (Minor d)); [done|]. unfold u32 in *.
  intros [= <-]. split_and!; try lia.
  rewrite Z.land_ones, Z.mod_small by lia. unfold wrap64.
  rewrite !Z.mod_small by (rewrite Z.shiftl_mul_pow2; lia).
  rewrite (lor_shiftl i), lor_shiftl by lia. lia.
Qed.

(** Likely devices and inodes can be read off their path, which has the top bit clear. *)
Lemma encodeLikely_inj d i d' i' q :
  u64 d -> u64 i -> u64 d' -> u64 i' ->
  encodeLikely d i = Some q -> encodeLikely d' i' = Some q -> d = d' /\ i = i'.
Proof.
  intros Hd Hi Hd' Hi' E E'.
  apply encodeLikely_eq in E as (Hdr & Hir & Hm & HM & ->); [|done..].
  apply encodeLikely_eq in E' as (Hdr' & Hir' & Hm' & HM' & E'); [|done..].
  assert (Major d = Major d' /\ Minor d = Minor d' /\ i = i') as (EM & Em & ->) by lia.
  split; [|done]. rewrite <- (Mkdev_Major_Minor d), <- (Mkdev_Major_Minor d') by done. congruence.
Qed.

Lemma encodeLikely_range d i q :
  u64 d -> u64 i -> encodeLikely d i = Some q -> 0 <= q < 2 ^ 63.
Proof. intros Hd Hi E. apply encodeLikely_eq in E as (? & ? & ? & ? & ->); [lia|done..]. Qed.

(** ** A sequence of calls *)

Definition likely (fi : FileInfo) : option Z :=
  encodeLikely (st_Dev (fi_Sys fi)) (st_Ino (fi_Sys fi)).

Definition FileInfo_wf (fi : FileInfo) : Prop :=
  u64 (st_Dev (fi_Sys fi)) /\ u64 (st_Ino (fi_Sys fi)).

(** The device and inode that identify a file of the host. *)
Definition file_id (fi : FileInfo) : devino :=
  mk_devino (st_Dev (fi_Sys fi)) (st_Ino (fi_Sys fi)).

(** The keys of the memo are addresses given out before. *)
Definition allocated (s : lqids) : Prop := forall p q, qids s !! p = Some q -> (p < next_ptr s)%nat.

(** The memo is never hit: every unlikely file takes a new number, and an entry. *)
Lemma localToQid_unlikely fi s :
  allocated s -> likely fi = None ->
  localToQid fi s = (wrap64 (nextQid s + 1),
    mk_lqids (<[next_ptr s := wrap64 (nextQid s + 1)]> (qids s))
      (<[next_ptr s := file_id fi]> (heap s)) (S (next_ptr s)) (wrap64 (nextQid s + 1))).
Proof.
  intros Ha Hl. unfold LocalQids.localToQid, LoadOrStore. fold (likely fi). rewrite Hl. cbn.
  assert (Hn : qids s !! next_ptr s = None).
  { destruct (qids s !! next_ptr s) eqn:E; [|done]. apply Ha in E. lia. }
  by rewrite !Hn.
Qed.

Lemma localToQid_likely fi s q : likely fi = Some q -> localToQid fi s = (q, s).
Proof. intros Hl. unfold LocalQids.localToQid. fold (likely fi). by rewrite Hl. Qed.

(** The specification: the encoding, or the next number. *)
Fixpoint spec_paths (n : Z) (fis : list FileInfo) : list Z :=
  match fis with
  | [] => []
  | fi :: fis =>
      match likely fi with
      | Some q => q :: spec_paths n fis
      | None => n + 1 :: spec_paths (n + 1) fis
      end
  end.

Definition unlikely_count (fis : list FileInfo) : nat :=
  length (filter (fun fi => likely fi = None) fis).

Lemma unlikely_count_cons fi fis :
  unlikely_count (fi :: fis) = ((if likely fi then 0 else 1) + unlikely_count fis)%nat.
Proof.
  unfold unlikely_count. rewrite filter_cons.
  destruct (likely fi); [by rewrite decide_False|by rewrite decide_True].
Qed.

Lemma localToQids_spec fis s :
  allocated s -> 0 <= nextQid s -> nextQid s + Z.of_nat (length fis) < 2 ^ 64 ->
  exists s', localToQids fis s = (spec_paths (nextQid s) fis, s') /\
    size (qids s') = (size (qids s) + unlikely_count fis)%nat.
Proof.
  revert s. induction fis as [|fi fis IH]; intros s Ha H0 Hlen; [by eexists; split|].
  rewrite unlikely_count_cons. cbn [length localToQids spec_paths] in *.
  destruct (likely fi) as [q|] eqn:E.
  - rewrite (localToQid_likely _ _ _ E). destruct (IH s) as (s' & -> & Hs); [done|done|lia|].
    by exists s'.
  - rewrite localToQid_unlikely by done.
    assert (wrap64 (nextQid s + 1) = nextQid s + 1) as -> by (apply Z.mod_small; lia).
    edestruct IH as (s' & Hs & Hsize); [..|rewrite Hs; exists s'; cbn; split; [done|]]; cbn.
    + intros p q Hp. cbn in Hp |- *. apply lookup_insert_Some in Hp as [[<- _]|[_ Hp]]; [lia|].
      apply Ha in Hp. lia.
    + lia.
    + lia.
    + rewrite Hsize. cbn. rewrite map_size_insert_None; [lia|].
      destruct (qids s !! next_ptr s) eqn:En; [|done]. apply Ha in En. lia.
Qed.

Lemma spec_paths_lookup n fis k fi p :
  fis !! k = Some fi -> spec_paths n fis !! k = Some p ->
  match likely fi with Some q => p = q | None => n < p <= n + Z.of_nat (S k) end.
Proof.
  revert n k. induction fis as [|f fis IH]; intros n k Hk Hp; [done|].
  destruct k as [|k]; cbn in Hk, Hp.
  - injection Hk as ->. destruct (likely fi); cbn in Hp; injection Hp as <-; [done|lia].
  - destruct (likely f); cbn in Hp; specialize (IH _ _ Hk Hp); destruct (likely fi); [done|lia|done|lia].
Qed.

Lemma spec_paths_increase n fis j k f g p r :
  (j < k)%nat -> fis !! j = Some f -> fis !! k = Some g -> likely f = None -> likely g = None ->
  spec_paths n fis !! j = Some p -> spec_paths n fis !! k = Some r -> p < r.
Proof.
  revert n j k. induction fis as [|x fis IH]; intros n j k Hlt Hj Hk Hf Hg Hp Hr; [done|].
  destruct k as [|k]; [lia|]. cbn in Hk. destruct j as [|j].
  - injection Hj as ->. cbn in Hp, Hr. rewrite Hf in Hp, Hr. cbn in Hp, Hr. injection Hp as <-.
    pose proof (spec_paths_lookup _ _ _ _ _ Hk Hr) as H. rewrite Hg in H. lia.
  - cbn in Hj, Hp, Hr. destruct (likely x); cbn in Hp, Hr; eapply (IH _ j k); eauto; lia.
Qed.

(** What [init] leaves. *)
Lemma init_allocated s : init = Some s -> allocated s /\ nextQid s = 2 ^ 63 /\ qids s = ∅.
Proof. intros [= <-]. split; [|split; reflexivity]. intros p q. cbn. by rewrite lookup_empty. Qed.

(** The paths of two calls, by the specification. *)
Lemma spec_paths_eq fis j k f g p r :
  Forall FileInfo_wf fis -> j <> k -> fis !! j = Some f -> fis !! k = Some g ->
  spec_paths (2 ^ 63) fis !! j = Some p -> spec_paths (2 ^ 63) fis !! k = Some r ->
  p = r <-> file_id f = file_id g /\ is_Some (likely f).
Proof.
  intros Hwf Hne Hj Hk Hp Hr. rewrite Forall_lookup in Hwf.
  destruct (Hwf _ _ Hj) as [Hfd Hfi], (Hwf _ _ Hk) as [Hgd Hgi].
  pose proof (spec_paths_lookup _ _ _ _ _ Hj Hp) as Hlf.
  pose proof (spec_paths_lookup _ _ _ _ _ Hk Hr) as Hlg.
  destruct (likely f) as [q|] eqn:Ef, (likely g) as [q'|] eqn:Eg.
  - subst q q'. split.
    + intros <-. destruct (encodeLikely_inj _ _ _ _ _ Hfd Hfi Hgd Hgi Ef Eg) as [Ed Ei].
      split; [|done]. unfold file_id. by rewrite Ed, Ei.
    + intros [[= Ed Ei] _]. unfold likely in Ef, Eg. rewrite Ed, Ei in Ef. congruence.
  - subst q. apply encodeLikely_range in Ef as Hq; [|done..]. split; [lia|].
    intros [[= Ed Ei] _]. unfold likely in Ef, Eg. rewrite Ed, Ei in Ef. congruence.
  - subst q'. apply encodeLikely_range in Eg as Hq; [|done..]. split; [lia|]. by intros [_ [? ?]].
  - split; [|by intros [_ [? ?]]]. intros <-.
    assert (Hjk : (j < k)%nat \/ (k < j)%nat) by lia. destruct Hjk.
    + pose proof (spec_paths_increase _ _ j k _ _ _ _ H Hj Hk Ef Eg Hp Hr). lia.
    + pose proof (spec_paths_increase _ _ k j _ _ _ _ H Hk Hj Eg Ef Hr Hp). lia.
Qed.

(** C30: the QID paths of local files do not collide: of any two calls, for any files, the
  paths are equal only if the device and the inode are; likely ones have the same path
  whenever they are, below 2^63; an unlikely file has a path of its own above it at each
  call, and leaves an entry behind each time, because the memo compares pointers. *)
Theorem local_qid_paths fis s :
Forall FileInfo_wf fis -> Z.of_nat (length fis) < 2 ^ 63 -> init = Some s ->
exists qs s', localToQids fis s = (qs, s') /\ length qs = length fis /\
(forall j k f g p r, j <> k -> fis !! j = Some f -> fis !! k = Some g ->
   qs !! j = Some p -> qs !! k = Some r ->
   p = r <-> file_id f = file_id g /\ is_Some (likely f)) /\
(forall k f p, fis !! k = Some f -> qs !! k = Some p ->
   0 <= p < 2 ^ 64 /\ (p < 2 ^ 63 <-> is_Some (likely f))) /\
size (qids s') = unlikely_count fis.
Proof.
intros Hwf Hlen (Ha & Hn & Hq)%init_allocated.
destruct (localToQids_spec fis s Ha) as (s' & Hs & Hsize); [lia..|]. rewrite Hn in Hs.
exists (spec_paths (2 ^ 63) fis), s'. split; [done|]. split; [|split; [|split]].
- generalize (2 ^ 63). clear. induction fis as [|fi fis IH]; intros n; cbn; [done|].
  destruct (likely fi); cbn; by rewrite IH.
- intros. by apply (spec_paths_eq fis j k).
- intros k f p Hk Hp. pose proof (spec_paths_lookup _ _ _ _ _ Hk Hp) as H.
  apply lookup_lt_Some in Hk as Hlt. rewrite Forall_lookup in Hwf.
  destruct (Hwf _ _ Hk) as [Hd Hi]. destruct (likely f) as [q|] eqn:E.
  + subst q. apply encodeLikely_range in E; [|done..]. split; [lia|]. split; [done|lia].
  + split; [lia|]. split; [lia|]. by intros [? ?].
- by rewrite Hsize, Hq, map_size_empty.
Qed.
End encoding.

(** *** An example: devices split in the middle, two likely files and an unlikely one twice *)

Definition demo_Major (dev : Z) : Z := dev / 2 ^ 20 mod 2 ^ 32.
Definition demo_Minor (dev : Z) : Z := dev mod 2 ^ 20.
Definition demo_Mkdev (major minor : Z) : Z := major * 2 ^ 20 + minor.

Definition demo_info (dev ino : Z) : FileInfo :=
  mk_FileInfo 0 (mk_Stat_t dev ino 1 0 0 0 0 0 0 0 (0, 0) (0, 0) (0, 0)).
Definition demo_infos : list FileInfo :=
  [demo_info 0x800002 77; demo_info 0x800002 (2 ^ 39); demo_info 0x800002 77;
   demo_info 0x800002 (2 ^ 39)].

Lemma local_qid_paths_witness :
  Forall FileInfo_wf demo_infos /\
  exists qs s', localToQids demo_Major demo_Minor demo_infos
    (mk_lqids ∅ ∅ 0 (2 ^ 63)) = (qs, s') /\ length qs = 4%nat /\ size (qids s') = 2%nat /\
  qs = [77 + 2 * 2 ^ 39 + 8 * 2 ^ 51; 2 ^ 63 + 1; 77 + 2 * 2 ^ 39 + 8 * 2 ^ 51; 2 ^ 63 + 2].
Proof.
  assert (Hwf : Forall FileInfo_wf demo_infos)
    by (repeat (constructor; [split; cbv; split; congruence|]); constructor).
  split; [exact Hwf|].
  destruct (local_qid_paths demo_Major demo_Minor demo_Mkdev) with (fis := demo_infos)
    (s := mk_lqids ∅ ∅ 0 (2 ^ 63)) as (qs & s' & E & Hl & _ & _ & Hs).
  - intros dev _. apply Z.mod_pos_bound. lia.
  - intros dev _. unfold u32, demo_Minor. pose proof (Z.mod_pos_bound dev (2 ^ 20)). lia.
  - intros dev Hd. unfold demo_Mkdev, demo_Major, demo_Minor, u32 in *.
    rewrite (Z.mod_small (_ / _)); [pose proof (Z.div_mod dev (2 ^ 20)); lia|].
    split; [apply Z.div_pos; lia|apply Z.div_lt_upper_bound; lia].
  - exact Hwf.
  - reflexivity.
  - reflexivity.
  - exists qs, s'. split; [exact E|]. split; [exact Hl|]. split; [exact Hs|].
    vm_compute in E. injection E as <- _. reflexivity.
Defined.
