(* ===== verification/OtherHosts.v ===== *)
(** * Builds for other hosts ([linux/errors_*.go], [internal/stat_*.go],
    [localfs/system_windows.go], [xattr_other.go])

    What stands in for the Linux build's files on another system: the translation of the
    host's errors, and what the host says of a file. Names have the host's at their end. *)
From S2P Require Import Prelude Errno Buffer Types LocalQids.

(** The errors of [syscall] under their names on Windows. *)
Definition ERROR_FILE_NOT_FOUND : Z := 2.
Definition ERROR_PATH_NOT_FOUND : Z := 3.
Definition ERROR_ACCESS_DENIED : Z := 5.
Definition ERROR_FILE_EXISTS : Z := 80.
Definition ERROR_INSUFFICIENT_BUFFER : Z := 122.

(** [errors.Is(err, e)] for a [syscall.Errno] as the target. *)
Fixpoint Is_SyscallErrno (err : error) (e : Z) : bool :=
  match err with
  | SyscallErrno e' => e' =? e
  | ConnError (SyscallErrno e') => e' =? e
  | Wrap err => Is_SyscallErrno err e
  | Join errs => existsb (fun err => Is_SyscallErrno err e) errs
  | _ => false
  end.

(** The first pair of a table whose error is the one at hand. *)
Definition table_errno {A} (matches : A -> bool) (table : list (A * Z)) : Z :=
  default 0 (first_some (fun '(target, errno) => if matches target then Some errno else None) table).

(** ** BSD and Darwin *)

(** [errors_unix.go]: no look below a wrapping. *)
Definition sysErrno_unix (err : error) : Z :=
  match err with
  | SyscallErrno se => if se <=? 34 then se else 0
  | _ => 0
  end.

Section InfoToStat_bsd.
(** [golang.org/x/sys/unix]. *)
Context (NsecToTimespec : Z -> Z * Z).

Definition times_bsd (ts : Z * Z) : Z * Z := NsecToTimespec (TimespecToNsec ts).

(** [stat_bsd.go]: the times are the fields [Atimespec], [Mtimespec], [Ctimespec]. *)
Definition InfoToStat_bsd (fi : FileInfo) : LocalQids.Stat_t :=
  let nativeStat := fi_Sys fi in
  mk_Stat_t (st_Dev nativeStat) (st_Ino nativeStat) (st_Nlink nativeStat) (st_Mode nativeStat)
    (st_Uid nativeStat) (st_Gid nativeStat) (st_Rdev nativeStat) (st_Size nativeStat)
    (st_Blksize nativeStat) (st_Blocks nativeStat) (times_bsd (st_Atim nativeStat))
    (times_bsd (st_Mtim nativeStat)) (times_bsd (st_Ctim nativeStat)).
End InfoToStat_bsd.

Section InfoToStat_openbsd.
Context (NsecToTimespec : Z -> Z * Z).

(** [stat_openbsd.go]: the block size is made an [int32]. *)
Definition InfoToStat_openbsd (fi : FileInfo) : LocalQids.Stat_t :=
  let nativeStat := fi_Sys fi in
  mk_Stat_t (st_Dev nativeStat) (st_Ino nativeStat) (st_Nlink nativeStat) (st_Mode nativeStat)
    (st_Uid nativeStat) (st_Gid nativeStat) (st_Rdev nativeStat) (st_Size nativeStat)
    (sint32 (st_Blksize nativeStat)) (st_Blocks nativeStat)
    (times_bsd NsecToTimespec (st_Atim nativeStat)) (times_bsd NsecToTimespec (st_Mtim nativeStat))
    (times_bsd NsecToTimespec (st_Ctim nativeStat)).
End InfoToStat_openbsd.

(** What [os.FileInfo] says on hosts without a [Stat_t] of their own: the mode, the size,
    and the time of the last change as seconds and nanoseconds since 1970. *)
Record PlainInfo := mk_PlainInfo { pi_Mode : Z; pi_Size : Z; pi_ModTime : Z * Z }.

(** [Time.Unix] and [Time.UnixNano]. *)
Definition Time_Unix (t : Z * Z) : Z := t.1.
Definition Time_UnixNano (t : Z * Z) : Z := sint64 (t.1 * 1000000000 + t.2).

(** ** Plan 9 *)

(** [errors_plan9.go]. *)
Definition sysErrno_plan9 (err : error) : Z :=
  table_errno (Is err) [(TNotExist, ENOENT); (TPermission, EACCES); (TExist, EEXIST)].

(** [stat_plan9.go]. *)
Definition InfoToStat_plan9 (fi : PlainInfo) : LocalQids.Stat_t :=
  let blockSize := 8192 in
  let t := (Time_Unix (pi_ModTime fi), 0) in
  mk_Stat_t 0 0 1 (wrap32 (pi_Mode fi)) 0 0 0 (pi_Size fi) blockSize
    (Z.quot (pi_Size fi) blockSize) t t t.

(** ** Windows *)

(** [errors_windows.go]. *)
Definition sysErrno_windows (err : error) : Z :=
  table_errno (Is_SyscallErrno err)
    [(ERROR_FILE_NOT_FOUND, ENOENT); (ERROR_PATH_NOT_FOUND, ENOENT); (ERROR_ACCESS_DENIED, EACCES);
     (ERROR_FILE_EXISTS, EEXIST); (ERROR_INSUFFICIENT_BUFFER, 0xc (* ENOMEM *))].

(** [modeFromOS] of [stat_windows.go], a copy of that of [p9.go]. *)
Definition modeFromOS_windows (mode : Z) : Z :=
  let m := Z.land mode os_ModePerm in
  Z.lor m
    (if has_flag mode os_ModeDir then ModeDirectory
     else if has_flag mode os_ModeSymlink then ModeSymlink
     else if has_flag mode os_ModeSocket then ModeSocket
     else if has_flag mode os_ModeNamedPipe then ModeNamedPipe
     else if has_flag mode os_ModeCharDevice then ModeCharacterDevice
     else if has_flag mode os_ModeDevice then ModeBlockDevice
     else ModeRegular).

(** [InfoToStat]: the fields that it leaves out are zero. *)
Definition InfoToStat_windows (fi : PlainInfo) : LocalQids.Stat_t :=
  mk_Stat_t 0 0 0 (wrap32 (modeFromOS_windows (pi_Mode fi))) 0 0 0 (pi_Size fi) 0 0 (0, 0)
    (Time_Unix (pi_ModTime fi), Time_UnixNano (pi_ModTime fi)) (0, 0).

(** [localfs/system_windows.go]. *)
Definition umask_windows (_ : Z) : Z := 0.

(** [lock], which says that it did it and that it cannot do it. *)
Definition lock_windows : Z * option error := (LockStatusOK, Some (Errno ENOSYS)).

(** The number of a file, from its two halves. *)
Definition file_index_windows (FileIndexHigh FileIndexLow : Z) : Z :=
  Z.lor (wrap64 (Z.shiftl FileIndexHigh 32)) FileIndexLow.

Section localToQid_windows.
(** The system: the handles that this process has open are part of the world. *)
Context {W : Type}.
Context (UTF16PtrFromString : string -> list Z + error).
(* the path, access, share mode, create mode, attributes *)
Context (CreateFile : list Z -> Z -> Z -> Z -> Z -> W -> (Z + error) * W).
Context (GetFileInformationByHandle : Z -> W -> ((Z * Z) + error) * W).

Definition OPEN_EXISTING : Z := 3.
Definition FILE_ATTRIBUTE_NORMAL : Z := 0x80.
Definition FILE_FLAG_BACKUP_SEMANTICS : Z := 0x2000000.

(** [localToQid]: the handle is not closed. *)
Definition localToQid_windows (path : string) (info : PlainInfo) (w : W) : (Z + error) * W :=
  match UTF16PtrFromString path with
  | inr err => (inr err, w)
  | inl pathPtr =>
      let attribute := if has_flag (pi_Mode info) os_ModeDir then FILE_FLAG_BACKUP_SEMANTICS
                       else FILE_ATTRIBUTE_NORMAL in
      match CreateFile pathPtr 0 0 OPEN_EXISTING attribute w with
      | (inr err, w) => (inr err, w)
      | (inl fd, w) =>
          match GetFileInformationByHandle fd w with
          | (inr err, w) => (inr err, w)
          | (inl (FileIndexHigh, FileIndexLow), w) =>
              (inl (file_index_windows FileIndexHigh FileIndexLow), w)
          end
      end
  end.
End localToQid_windows.

(** ** No extended attributes ([xattr_other.go]) *)

Definition List_other (p : string) : list string + error := inr (Errno ENOSYS).
Definition Get_other (p attr : string) : list byte + error := inr (Errno ENOSYS).

(** * Theorems *)

(** ** Errors *)

(** The numbers of [sysErrno] are those that Linux has as well. *)
Lemma unix_errno_shared err : sysErrno_unix err <= 34.
Proof. destruct err; cbn; try lia. case_match; lia. Qed.

(** Unlike the other builds', the Unix one's [sysErrno] does not see an error that is
    wrapped, as those of package [os] are. *)
Lemma unix_errno_wrapped err : sysErrno_unix (Wrap err) = 0.
Proof. done. Qed.

(** On Plan 9, [sysErrno] has nothing to add: [ExtractErrno] has asked the same before. *)
Lemma plan9_errno_redundant err :
  Is err TNotExist = false -> Is err TExist = false -> Is err TPermission = false ->
  sysErrno_plan9 err = 0.
Proof. intros H1 H2 H3. unfold sysErrno_plan9, table_errno. cbn. by rewrite H1, H2, H3. Qed.

Lemma windows_errno_Wrap err : sysErrno_windows (Wrap err) = sysErrno_windows err.
Proof. done. Qed.

(** ** Modes *)

(** Windows' copy of [ModeFromOS] leaves out the bits above the permissions, and nothing
    else: file types agree always. *)
Lemma windows_mode mode :
  has_flag mode os_ModeSetuid = false -> has_flag mode os_ModeSetgid = false ->
  has_flag mode os_ModeSticky = false -> modeFromOS_windows mode = ModeFromOS mode.
Proof. intros H1 H2 H3. unfold ModeFromOS. by rewrite H1, H2, H3. Qed.

(** On Plan 9 the mode of a file goes to the client as Go has it: a directory is none. *)
Example plan9_directory :
  let dir := Z.lor os_ModeDir 0x1ed in
  FileMode_IsDir (ModeFromOS dir) = true /\
  FileMode_IsDir (st_Mode (InfoToStat_plan9 (mk_PlainInfo dir 0 (0, 0)))) = false /\
  FileMode_IsRegular (st_Mode (InfoToStat_plan9 (mk_PlainInfo 0x1a4 0 (0, 0)))) = false.
Proof. vm_compute. done. Qed.

(** On Windows the nanoseconds of a time are all those since 1970. *)
Example windows_nanoseconds :
  st_Mtim (InfoToStat_windows (mk_PlainInfo 0 0 (1000000000, 5))) = (1000000000, 1000000000000000005).
Proof. vm_compute. done. Qed.

(** ** QIDs on Windows *)

Section windows_qid.
Context {W : Type} (handles : W -> gset Z).
Context (UTF16PtrFromString : string -> list Z + error).
(* the path, access, share mode, create mode, attributes *)
Context (CreateFile : list Z -> Z -> Z -> Z -> Z -> W -> (Z + error) * W).
Context (GetFileInformationByHandle : Z -> W -> ((Z * Z) + error) * W).
(** A file that is opened has a new handle; asking leaves the handles alone. *)
Hypothesis CreateFile_opens : forall p a sh c at' w fd w', CreateFile p a sh c at' w = (inl fd, w') ->
  fd ∉ handles w /\ handles w' = {[fd]} ∪ handles w.
Hypothesis Get_keeps : forall fd w, handles (GetFileInformationByHandle fd w).2 = handles w.
Local Notation localToQid := (localToQid_windows UTF16PtrFromString CreateFile GetFileInformationByHandle).

(** Every QID costs a handle. *)
Lemma localToQid_leaks path info w x w' :
  localToQid path info w = (inl x, w') -> size (handles w') = S (size (handles w)).
Proof.
  unfold localToQid_windows. destruct (UTF16PtrFromString path) as [p|]; [|done].
  destruct (CreateFile p _ _ _ _ w) as [[fd|] w1] eqn:Ec; [|done].
  destruct (CreateFile_opens _ _ _ _ _ _ _ _ Ec) as [Hn Hh]. pose proof (Get_keeps fd w1) as Hk.
  destruct (GetFileInformationByHandle fd w1) as [[[h l]|] w2]; [|done]. intros [= _ <-]. cbn in Hk.
  rewrite Hk, Hh, size_union, size_singleton by set_solver. done.
Qed.
End windows_qid.

(** The path is the file index, both halves of it. *)
Lemma file_index_inj h l h' l' :
  u32 h -> u32 l -> u32 h' -> u32 l' ->
  file_index_windows h l = file_index_windows h' l' -> h = h' /\ l = l'.
Proof.
  assert (E : forall h l, u32 h -> u32 l -> file_index_windows h l = l + h * 2 ^ 32).
  { clear. intros h l Hh Hl. unfold u32, file_index_windows, wrap64 in *. rewrite Z.lor_comm, Z.mod_small.
    - by rewrite lor_shiftl by lia.
    - rewrite Z.shiftl_mul_pow2 by lia. lia. }
  intros H1 H2 H3 H4. rewrite !E by done. unfold u32 in *. lia.
Qed.
