(* ===== verification/Commands.v ===== *)
(** * The server command and the network of the test machine
    ([cmd/p9ufs/p9ufs.go], [fsimpl/test/vmdriver/vmdriver.go])

    [main] parses its flags, listens and serves a directory of the host; what it does is
    a function of its arguments and of whether the address can be bound.  The flags are
    parsed as package flag does with the three that the command has.  The driver of the
    test machine counts addresses up from that of a network; addresses and networks are
    those of package net, the options of QEMU are those of another module. *)
From S2P Require Import Prelude Fmt.

Module P9ufs.

(** ** Flags *)

Record flags := mk_flags { verbose : bool; root : string; unix : bool }.

Definition flags_default : flags := mk_flags false "/" false.

(** Errors of [flag.CommandLine.Parse]: [flag.ErrHelp], or one that it has printed. *)
Inductive parse_error := ErrHelp | ParseFailed.

(** [strconv.ParseBool]. *)
Definition ParseBool (s : string) : option bool :=
  if bool_decide (s ∈ ["1"; "t"; "T"; "TRUE"; "true"; "True"]) then Some true
  else if bool_decide (s ∈ ["0"; "f"; "F"; "FALSE"; "false"; "False"]) then Some false
  else None.

(** [name=value], split at the first equals sign that is not the first byte. *)
Fixpoint split_eq (s : string) : string * option string :=
  match s with
  | EmptyString => (EmptyString, None)
  | String c s =>
      if Ascii.eqb c "=" then (EmptyString, Some s)
      else let '(n, v) := split_eq s in (String c n, v)
  end.

(** Setting a flag: of a boolean one no value means true; the other one takes the next
    argument if it has no value of its own. *)
Definition set_bool (set : bool -> flags) (value : option string) (args : list string)
    : (flags * list string) + parse_error :=
  match value with
  | None => inl (set true, args)
  | Some v => match ParseBool v with
              | Some b => inl (set b, args)
              | None => inr ParseFailed
              end
  end.

Definition set_flag (f : flags) (name : string) (value : option string) (args : list string)
    : (flags * list string) + parse_error :=
  if String.eqb name "v" then set_bool (fun b => mk_flags b (root f) (unix f)) value args
  else if String.eqb name "unix" then set_bool (fun b => mk_flags (verbose f) (root f) b) value args
  else if String.eqb name "root" then
    match value, args with
    | Some v, _ => inl (mk_flags (verbose f) v (unix f), args)
    | None, v :: args => inl (mk_flags (verbose f) v (unix f), args)
    | None, [] => inr ParseFailed
    end
  else if String.eqb name "help" || String.eqb name "h" then inr ErrHelp
  else inr ParseFailed.

(** One argument: [None] when the flags end here. *)
Definition parseOne (f : flags) (args : list string)
    : option ((flags * list string) + parse_error) * list string :=
  match args with
  | String "-" (String c s) :: rest =>
      let name := if Ascii.eqb c "-" then s else String c s in
      match name with
      | EmptyString => (None, rest)
      | String c' name' =>
          if Ascii.eqb c' "-" || Ascii.eqb c' "=" then (Some (inr ParseFailed), rest)
          else
            let '(n, value) := split_eq name' in
            (Some (set_flag f (String c' n) value rest), rest)
      end
  | _ => (None, args)
  end.

(** [flag.CommandLine.Parse]: the flags and the arguments that are left.  An argument
    is taken in each round. *)
Fixpoint Parse (fuel : nat) (f : flags) (args : list string)
    : (flags * list string) + parse_error :=
  match fuel with
  | O => inl (f, args)
  | S fuel =>
      match parseOne f args with
      | (None, rest) => inl (f, rest)
      | (Some (inl (f, rest)), _) => Parse fuel f rest
      | (Some (inr err), _) => inr err
      end
  end.

(** ** [main] *)

(** How the program ends: [os.Exit], after its usage or not; or by serving on an
    address, with logs or not, until [Serve] returns.  The error of [Serve] is dropped. *)
Inductive program_end :=
  | Exited (usage : bool) (code : Z)
  | Served (network addr root : string) (logs : bool).

(** [Listen] is whether [net.Listen] binds the address. *)
Definition main (Listen : string -> string -> bool) (args : list string) : program_end :=
  match Parse (S (length args)) flags_default args with
  | inr ErrHelp => Exited true 0
  | inr ParseFailed => Exited false 1
  | inl (f, args) =>
      match args with
      | [addr] =>
          let network := if unix f then "unix"%string else "tcp"%string in
          if Listen network addr then Served network addr (root f) (verbose f)
          else Exited false 2
      | _ => Exited true 0
      end
  end.

End P9ufs.

Module Vmdriver.

(** ** Package net: addresses, as lists of bytes *)

Definition IPv4len : nat := 4.
Definition IPv6len : nat := 16.

Definition v4InV6Prefix : list Z := replicate 10 0 ++ [0xff; 0xff].

(** [ip.To4()]; [None] is nil. *)
Definition To4 (ip : list Z) : option (list Z) :=
  if decide (length ip = IPv4len) then Some ip
  else if decide (length ip = IPv6len /\ take 12 ip = v4InV6Prefix) then Some (drop 12 ip)
  else None.

Record IPNet := mk_IPNet { IP : list Z; Mask : list Z }.

Definition networkNumberAndMask (n : IPNet) : option (list Z * list Z) :=
  ip ← (match To4 (IP n) with
        | Some ip => Some ip
        | None => if decide (length (IP n) = IPv6len) then Some (IP n) else None
        end);
  if decide (length (Mask n) = IPv4len)
  then if decide (length ip = IPv4len) then Some (ip, Mask n) else None
  else if decide (length (Mask n) = IPv6len)
  then Some (ip, if decide (length ip = IPv4len) then drop 12 (Mask n) else Mask n)
  else None.

(** [n.Contains(ip)]: the two agree where the mask has ones. *)
Fixpoint masked_eq (nn m ip : list Z) : bool :=
  match nn, m, ip with
  | a :: nn, k :: m, b :: ip => (Z.land a k =? Z.land b k) && masked_eq nn m ip
  | _, _, _ => true
  end.

Definition Contains (n : IPNet) (ip : list Z) : bool :=
  let ip := default ip (To4 ip) in
  match networkNumberAndMask n with
  | Some (nn, m) => bool_decide (length ip = length nn) && masked_eq nn m ip
  | None => bool_decide (length ip = 0%nat)
  end.

(** ** The driver *)

(** The loop of [inc], from the byte before [j] down to the first. *)
Fixpoint inc_loop (j : nat) (ip : list Z) : list Z :=
  match j with
  | O => ip
  | S j =>
      let v := wrap8 (ip !!! j + 1) in
      let ip := <[j := v]> ip in
      if 0 <? v then ip else inc_loop j ip
  end.

Definition inc (ip : list Z) : list Z := inc_loop (length ip) ip.

(** [copy(dst, src)]. *)
Definition copy (dst src : list Z) : list Z := take (length dst) src ++ drop (length src) dst.

(** [nthIP]; [None] is the nil address. *)
Definition nthIP (nt : IPNet) (n : nat) : option (list Z) :=
  let ip := copy (replicate IPv4len 0) (default [] (To4 (IP nt))) in
  let ip := Nat.iter n inc ip in
  if negb (Contains nt ip) then None else Some ip.

(** [HostNetwork(net)]: an error, or the arguments for QEMU, with the name of the device
    and the address of the first client.  [ID] and [AppendQEMU] are those of the options,
    [net_String] and [ip_String] the texts of a network and of an address. *)
Section HostNetwork.
Context {alloc opts : Type} (ID : string -> alloc -> string * alloc)
  (AppendQEMU : list string -> opts -> opts)
  (net_String : IPNet -> string) (ip_String : option (list Z) -> string).

Definition HostNetwork (net : IPNet) (a : alloc) (o : opts) : option string * alloc * opts :=
  match To4 (IP net) with
  | None => (Some "HostNetwork must be configured with an IPv4 address"%string, a, o)
  | Some _ =>
      let '(netdevID, a) := ID "netdev"%string a in
      (None, a,
       AppendQEMU ["-device"; Sprintf "e1000,netdev=%s" [Text netdevID];
                   "-netdev"; Sprintf "user,id=%s,net=%s,dhcpstart=%s"
                                [Text netdevID; Text (net_String net);
                                 Text (ip_String (nthIP net 8))]]%string o)
  end.
End HostNetwork.

End Vmdriver.

(** * Theorems *)

(** ** The command *)

Module P9ufsFacts.
Import P9ufs.

(** Each round of the parser takes an argument or ends. *)
Lemma set_bool_args set value args f rest :
  set_bool set value args = inl (f, rest) -> (length rest <= length args)%nat.
Proof. unfold set_bool. intros Hs. repeat case_match; by simplify_eq. Qed.

Lemma set_flag_args f name value args f' rest :
  set_flag f name value args = inl (f', rest) -> (length rest <= length args)%nat.
Proof.
  unfold set_flag. intros Hs. repeat case_match; simplify_eq; try (by eapply set_bool_args);
    cbn; lia.
Qed.

Lemma parseOne_args f args f' rest rest' :
  parseOne f args = (Some (inl (f', rest)), rest') -> (length rest < length args)%nat.
Proof.
  unfold parseOne. intros Hp. repeat (case_match; try done); simplify_eq;
    match goal with H : set_flag _ _ _ _ = _ |- _ => apply set_flag_args in H end; cbn; lia.
Qed.

(** So any more fuel than [main] gives leaves the result as it is. *)
Theorem Parse_fuel fuel fuel' f args :
  (length args < fuel)%nat -> (fuel <= fuel')%nat -> Parse fuel' f args = Parse fuel f args.
Proof.
  revert fuel' f args. induction fuel as [|fuel IH]; intros fuel' f args Hl Hf; [lia|].
  destruct fuel' as [|fuel']; [lia|]. cbn [Parse].
  destruct (parseOne f args) as [[[[f' rest]|err]|] rest'] eqn:E; try done.
  apply parseOne_args in E. apply IH; lia.
Qed.

(** An argument that is not a flag ends them. *)
Definition plain_arg (s : string) : Prop :=
  match s with String "-" (String _ _) => False | _ => True end.

Lemma Parse_plain fuel f args :
  match args with arg :: _ => plain_arg arg | [] => True end ->
  Parse (S fuel) f args = inl (f, args).
Proof.
  intros H. cbn [Parse]. destruct args as [|arg args]; [done|].
  unfold plain_arg in H. cbn [parseOne]. repeat (case_match; subst; try done).
Qed.

Lemma Parse_root fuel f dir args :
  Parse (S fuel) f ("-root" :: dir :: args)%string
  = Parse fuel (mk_flags (verbose f) dir (unix f)) args.
Proof. reflexivity. Qed.
Lemma Parse_unix fuel f args :
  Parse (S fuel) f ("-unix" :: args)%string = Parse fuel (mk_flags (verbose f) (root f) true) args.
Proof. reflexivity. Qed.
Lemma Parse_v fuel f args :
  Parse (S fuel) f ("-v" :: args)%string = Parse fuel (mk_flags true (root f) (unix f)) args.
Proof. reflexivity. Qed.

(** Serving the given directory on the given address, and on a Unix socket or with logs if
    those flags are given; exiting with 2 if the address is taken. *)
Theorem main_serves (Listen : string -> string -> bool) dir addr :
  plain_arg addr ->
  let result (network : string) logs := if Listen network addr then Served network addr dir logs
                             else Exited false 2 in
  main Listen ["-root"; dir; addr]%string = result "tcp"%string false /\
  main Listen ["-unix"; "-root"; dir; addr]%string = result "unix"%string false /\
  main Listen ["-v"; "-root"; dir; addr]%string = result "tcp"%string true /\
  main Listen ["-v"; "-unix"; "-root"; dir; addr]%string = result "unix"%string true.
Proof.
  intros Ha result. unfold main. cbn [length].
  repeat split; rewrite ?Parse_v, ?Parse_unix, Parse_root, Parse_plain by done; done.
Qed.

(** It never serves without an address, or with two; the code is then 0. *)
Theorem main_usage (Listen : string -> string -> bool) args :
  match Parse (S (length args)) flags_default args with
  | inl (_, [addr]) => False
  | inl _ => True
  | inr err => err = ErrHelp
  end -> main Listen args = Exited true 0.
Proof. unfold main. repeat case_match; subst; done. Qed.

Lemma main_usage_witness :
  main (fun _ _ => true) ["-v"; "localhost:1"; "localhost:2"]%string = Exited true 0 /\
  main (fun _ _ => true) ["--help"]%string = Exited true 0.
Proof. split; apply main_usage; vm_compute; auto. Defined.

Example main_bad_flag :
  main (fun _ _ => true) ["-unix=maybe"; "sock"]%string = Exited false 1.
Proof. reflexivity. Qed.

End P9ufsFacts.

(** ** The driver *)

Module VmdriverFacts.
Import Vmdriver.

(** The number that an address is, its first byte the highest. *)
Fixpoint be_Z (ip : list Z) : Z :=
  match ip with
  | [] => 0
  | b :: ip => b * 256 ^ Z.of_nat (length ip) + be_Z ip
  end.

Lemma be_Z_app ip ip' : be_Z (ip ++ ip') = be_Z ip * 256 ^ Z.of_nat (length ip') + be_Z ip'.
Proof.
  induction ip as [|b ip IH]; [done|]. cbn [be_Z app]. rewrite length_app, IH.
  rewrite Nat2Z.inj_add, Z.pow_add_r by lia. ring.
Qed.

Lemma be_Z_range ip : Forall u8 ip -> 0 <= be_Z ip < 256 ^ Z.of_nat (length ip).
Proof.
  induction 1 as [|b ip Hb _ IH]; [done|]. cbn [be_Z length]. unfold u8 in Hb.
  rewrite Nat2Z.inj_succ, Z.pow_succ_r by lia. nia.
Qed.

(** The carry: the byte [b] goes up, or wraps and the ones before it go up. *)
Lemma carry_mod n b P :
  0 <= n -> 0 < P ->
  (n * 256 + b + 1) mod (256 * P)
  = if b =? 255 then 256 * ((n + 1) mod P) else (n * 256 + (b + 1)) mod (256 * P).
Proof.
  intros Hn HP. destruct (Z.eqb_spec b 255) as [->|]; [|f_equal; lia].
  rewrite <- Z.mul_mod_distr_l by lia. f_equal. lia.
Qed.

(** The loop on the bytes [hd], with [tl] behind them. *)
Lemma inc_loop_spec hd tl :
  Forall u8 hd -> Forall u8 tl ->
  let ip := inc_loop (length hd) (hd ++ tl) in
  length ip = length (hd ++ tl) /\ Forall u8 ip /\
  be_Z ip = ((be_Z hd + 1) mod 256 ^ Z.of_nat (length hd)) * 256 ^ Z.of_nat (length tl) + be_Z tl.
Proof.
  intros Hhd. revert tl. induction hd as [|b hd IH] using rev_ind; intros tl Htl.
  - cbn. by rewrite Z.mod_1_r.
  - apply Forall_app in Hhd as [Hhd Hb]. apply Forall_cons_1 in Hb as [Hb _]. unfold u8 in Hb.
    pose proof (be_Z_range hd Hhd) as Hr.
    rewrite length_app, Nat.add_1_r, <- app_assoc. cbn [length inc_loop app].
    rewrite list_lookup_total_middle, insert_app_r_alt, Nat.sub_diag by done. cbn [list_insert insert].
    rewrite Nat2Z.inj_succ, Z.pow_succ_r, be_Z_app by lia. cbn [be_Z length].
    change (Z.of_nat 0) with 0. change (Z.of_nat 1) with 1. rewrite Z.pow_0_r, Z.pow_1_r.
    rewrite Z.add_0_r, Z.mul_1_r, carry_mod by lia. unfold wrap8.
    destruct (Z.eqb_spec b 255) as [->|].
    + change ((255 + 1) mod 2 ^ 8) with 0. cbn [Z.ltb Z.compare].
      destruct (IH Hhd (0 :: tl)) as (Hl & Hf & He); [by constructor|].
      split; [by rewrite Hl, !length_app|]. split; [exact Hf|]. rewrite He. cbn [be_Z length].
      rewrite Nat2Z.inj_succ, Z.pow_succ_r by lia. ring.
    + rewrite (Z.mod_small (b + 1)), (proj2 (Z.ltb_lt _ _)) by lia.
      split; [by rewrite !length_app|]. split.
      * apply Forall_app. split; [done|]. constructor; [unfold u8; lia|done].
      * rewrite be_Z_app, Z.mod_small by nia. cbn [be_Z length].
        rewrite Nat2Z.inj_succ, Z.pow_succ_r by lia. ring.
Qed.

(** [inc] is the next address, and the first one after the last. *)
Theorem inc_next ip :
  Forall u8 ip ->
  length (inc ip) = length ip /\ Forall u8 (inc ip) /\
  be_Z (inc ip) = (be_Z ip + 1) mod 256 ^ Z.of_nat (length ip).
Proof.
  intros Hip. pose proof (inc_loop_spec ip [] Hip (Forall_nil_2 _)) as H.
  cbn zeta in H. rewrite app_nil_r, Z.mul_1_r, Z.add_0_r in H. exact H.
Qed.

Lemma inc_iter ip n :
  Forall u8 ip ->
  length (Nat.iter n inc ip) = length ip /\ Forall u8 (Nat.iter n inc ip) /\
  be_Z (Nat.iter n inc ip) = (be_Z ip + Z.of_nat n) mod 256 ^ Z.of_nat (length ip).
Proof.
  intros Hip. induction n as [|n (Hl & Hf & He)]; cbn [Nat.iter nat_rect].
  - rewrite Z.add_0_r, Z.mod_small by by apply be_Z_range. done.
  - destruct (inc_next _ Hf) as (Hl' & Hf' & He'). fold (Nat.iter n inc ip) in *.
    rewrite Hl', He', He, Hl. split; [done|]. split; [done|].
    rewrite Zplus_mod_idemp_l. f_equal. lia.
Qed.

(** The address that the driver finds lies that far above the network's own, and in it. *)
Theorem nthIP_spec nt n ip v4 :
  Forall u8 v4 -> To4 (IP nt) = Some v4 -> length v4 = 4%nat ->
  nthIP nt n = Some ip ->
  Contains nt ip = true /\ length ip = 4%nat /\ be_Z ip = (be_Z v4 + Z.of_nat n) mod 2 ^ 32.
Proof.
  intros Hf Hv Hl. unfold nthIP. rewrite Hv. change (default [] (Some v4)) with v4.
  assert (copy (replicate IPv4len 0) v4 = v4) as ->.
  { unfold copy. rewrite length_replicate, Hl, drop_ge, app_nil_r by (rewrite length_replicate; done).
    by rewrite take_ge by by rewrite Hl. }
  destruct (Contains nt _) eqn:E; [|done]. intros [= <-].
  destruct (inc_iter v4 n Hf) as (Hl' & _ & He). rewrite He, Hl', Hl. done.
Qed.

Lemma nthIP_spec_witness :
  nthIP (mk_IPNet [192; 168; 0; 0] [255; 255; 255; 0]) 8 = Some [192; 168; 0; 8] /\
  be_Z [192; 168; 0; 8] = (be_Z [192; 168; 0; 0] + 8) mod 2 ^ 32.
Proof.
  split; [vm_compute; reflexivity|].
  apply (nthIP_spec (mk_IPNet [192; 168; 0; 0] [255; 255; 255; 0]) 8 _ [192; 168; 0; 0]);
    [repeat constructor; done|done..|vm_compute; reflexivity].
Defined.

(** In a network of eight addresses there is no such one: QEMU is then given the text of
    the nil address. *)
Example nthIP_small : nthIP (mk_IPNet [192; 168; 0; 0] [255; 255; 255; 248]) 8 = None.
Proof. reflexivity. Qed.

(** The driver fails exactly for networks that are not IPv4. *)
Theorem HostNetwork_fails {alloc opts} ID AppendQEMU net_String ip_String
    (net : IPNet) (a : alloc) (o : opts) :
  (HostNetwork ID AppendQEMU net_String ip_String net a o).1.1 = None <->
  is_Some (To4 (IP net)).
Proof.
  unfold HostNetwork. destruct (To4 (IP net)) as [v4|].
  - destruct (ID _ a) as [netdevID a']. by split; [eexists|].
  - split; [done|]. by intros [? ?].
Qed.

End VmdriverFacts.
