(* ===== verification/HostPath.v ===== *)
(** * Host paths: [path.Join] and [path.Clean]

    The two functions of the standard library that [localfs] makes paths with, and what
    they come to when the elements joined are names: the components of a path grow at the
    end and nowhere else. *)
From S2P Require Import Prelude Errno Buffer Types Messages Message File State Handlers.

Local Open Scope string_scope.

(** ** Cleaning a path *)

(** The parts between slashes, empty ones included. *)
Fixpoint split_slash (s : string) : list string :=
  match s with
  | EmptyString => [EmptyString]
  | String c s =>
      if Ascii.eqb c "/" then EmptyString :: split_slash s
      else match split_slash s with
           | x :: xs => String c x :: xs
           | [] => []
           end
  end.

(** One part, with the components before it, the last one first. *)
Definition clean_step (rooted : bool) (stack : list string) (part : string) : list string :=
  if String.eqb part EmptyString || String.eqb part "." then stack
  else if String.eqb part ".." then
    match stack with
    | top :: rest => if String.eqb top ".." then ".." :: stack else rest
    | [] => if rooted then [] else [".."]
    end
  else part :: stack.

Definition components (p : string) : list string :=
  rev (fold_left (clean_step (IsAbs p)) (split_slash p) []).

Definition render (rooted : bool) (cs : list string) : string :=
  match rooted, cs with
  | true, _ => "/" ++ String.concat "/" cs
  | false, [] => "."
  | false, _ => String.concat "/" cs
  end.

Definition Clean (p : string) : string :=
  if String.eqb p EmptyString then "." else render (IsAbs p) (components p).

(** [Join(a, b)]. *)
Definition Join (a b : string) : string :=
  let buf := if String.eqb a EmptyString then b else a ++ "/" ++ b in
  if String.eqb buf EmptyString then EmptyString else Clean buf.

(** The path of the file that is reached from [root] by [names]. *)
Definition path_of (root : string) (names : list string) : string :=
  match names with
  | [] => root
  | _ => render (IsAbs root) (components root ++ names)%list
  end.

(** ** Lemmas *)

(** No empty part, no slash. *)
Definition part_ok (s : string) : Prop := s <> EmptyString /\ contains_slash s = false.

Lemma split_slash_nonempty s : split_slash s <> [].
Proof.
  induction s as [|c s IH]; cbn; [done|]. destruct (Ascii.eqb c "/"); [done|].
  by destruct (split_slash s).
Qed.

Lemma split_slash_app a b :
  split_slash (a ++ "/" ++ b) = (split_slash a ++ split_slash b)%list.
Proof.
  induction a as [|c a IH]; [done|].
  change (String c a ++ "/" ++ b) with (String c (a ++ "/" ++ b)). cbn [split_slash]. rewrite IH.
  destruct (Ascii.eqb c "/"); [done|].
  pose proof (split_slash_nonempty a). by destruct (split_slash a).
Qed.

Lemma split_slash_part s : contains_slash s = false -> split_slash s = [s].
Proof.
  induction s as [|c s IH]; cbn; [done|]. intros [Hc Hs]%orb_false_iff.
  by rewrite Hc, IH.
Qed.

Lemma split_slash_concat cs :
  cs <> [] -> Forall part_ok cs -> split_slash (String.concat "/" cs) = cs.
Proof.
  intros Hne H. induction H as [|c cs [_ Hc] Hcs IH]; [done|].
  destruct cs as [|c' cs]; [by apply split_slash_part|].
  change (String.concat "/" (c :: c' :: cs)) with (c ++ "/" ++ String.concat "/" (c' :: cs)).
  rewrite split_slash_app, split_slash_part, IH by done. done.
Qed.

Lemma contains_slash_concat_head c cs :
  part_ok c -> IsAbs (String.concat "/" (c :: cs)) = false.
Proof.
  intros [Hne Hc]. destruct c as [|x c]; [done|]. cbn in Hc |- *.
  apply orb_false_iff in Hc as [Hx _]. by destruct cs.
Qed.

Lemma IsAbs_app a b : a <> EmptyString -> IsAbs (a ++ b) = IsAbs a.
Proof. by destruct a. Qed.

(** *** Components that are cleaned already *)

Lemma safe_name_part name : safe_name name = true -> part_ok name.
Proof.
  unfold safe_name. rewrite !andb_true_iff, !negb_true_iff, !String.eqb_neq. by intros [[[? ?] ?] ?].
Qed.

Lemma clean_step_safe r stack name :
  safe_name name = true -> clean_step r stack name = name :: stack.
Proof.
  unfold safe_name, clean_step. rewrite !andb_true_iff, !negb_true_iff.
  intros [[[H1 _] H2] H3]. by rewrite H1, H2, H3.
Qed.

Lemma clean_safe r stack names :
  Forall (fun name => safe_name name = true) names ->
  fold_left (clean_step r) names stack = (rev names ++ stack)%list.
Proof.
  intros H. revert stack. induction H as [|name names Hn _ IH]; intros stack; cbn; [done|].
  rewrite clean_step_safe, IH by done. by rewrite <- app_assoc.
Qed.

(** Some [..] on an unrooted path, then names. *)
Definition normal (r : bool) (cs : list string) : Prop := exists k names,
  cs = (replicate k ".." ++ names)%list /\ Forall (fun name => safe_name name = true) names /\
  (r = true -> k = 0%nat).

Lemma clean_dotdots k : fold_left (clean_step false) (replicate k "..") [] = replicate k "..".
Proof.
  assert (H : forall j, fold_left (clean_step false) (replicate k "..") (replicate j "..")
    = replicate (k + j) "..").
  { induction k as [|k IH]; intros j; [done|]. cbn [replicate fold_left].
    assert (clean_step false (replicate j "..") ".." = replicate (S j) "..") as -> by (by destruct j).
    rewrite IH. f_equal. lia. }
  change [] with (replicate 0 "..") at 1. rewrite H. f_equal. lia.
Qed.

Lemma normal_clean r cs : normal r cs -> fold_left (clean_step r) cs [] = rev cs.
Proof.
  intros (k & names & -> & Hn & Hk). rewrite fold_left_app, rev_app_distr.
  destruct r.
  - rewrite Hk by done. cbn. by rewrite clean_safe.
  - rewrite clean_dotdots, clean_safe by done. f_equal.
    induction k as [|k IH]; [done|]. cbn [rev replicate]. by rewrite <- IH, replicate_cons_app.
Qed.

Lemma normal_app r cs names :
  normal r cs -> Forall (fun name => safe_name name = true) names -> normal r (cs ++ names)%list.
Proof.
  intros (k & ns & -> & Hn & Hk) H. exists k, (ns ++ names)%list.
  rewrite app_assoc. split; [done|]. split; [by apply Forall_app|done].
Qed.

Lemma normal_parts r cs : normal r cs -> Forall part_ok cs.
Proof.
  intros (k & ns & -> & Hn & _). apply Forall_app. split.
  - by apply Forall_replicate.
  - by eapply Forall_impl; [exact Hn|apply safe_name_part].
Qed.

(** The parts have no slashes. *)
Lemma split_slash_parts p : Forall (fun c => contains_slash c = false) (split_slash p).
Proof.
  induction p as [|c p IH]; cbn; [by repeat constructor|].
  destruct (Ascii.eqb c "/") eqn:E; [by constructor|].
  inversion IH as [|x xs Hx Hxs H]; subst; [done|]. constructor; [|done]. cbn. by rewrite E.
Qed.

Lemma clean_step_normal r stack part :
  contains_slash part = false -> normal r (rev stack) -> normal r (rev (clean_step r stack part)).
Proof.
  intros Hp (k & names & Hs & Hn & Hk). unfold clean_step.
  destruct (String.eqb_spec part EmptyString) as [|He]; [by exists k, names|].
  destruct (String.eqb_spec part ".") as [|Hd]; [by exists k, names|]. cbn [orb].
  destruct (String.eqb_spec part "..") as [->|Hdd].
  - destruct names as [|name names _] using rev_ind.
    + rewrite app_nil_r in Hs. destruct stack as [|top stack]; cbn in Hs.
      * destruct k; [|done]. destruct r; [by exists 0%nat, []|]. by exists 1%nat, [].
      * destruct k as [|k]; [by apply app_nil in Hs as [_ ?]|].
        rewrite replicate_S_end in Hs. apply app_inj_tail in Hs as [Hs ->].
        exists (S (S k)), []. rewrite app_nil_r. change (String.eqb ".." "..") with true.
        split; [|split; [done|]].
        -- cbn [rev]. by rewrite Hs, !replicate_S_end.
        -- intros Hr. by specialize (Hk Hr).
    + rewrite app_assoc in Hs. destruct stack as [|top stack]; cbn in Hs.
      * symmetry in Hs. by apply app_nil in Hs as [_ ?].
      * apply app_inj_tail in Hs as [Hs ->]. apply Forall_app in Hn as [Hn Hlast].
        inversion Hlast as [|? ? Hname _]; subst.
        assert (String.eqb name ".." = false) as ->.
        { unfold safe_name in Hname. rewrite !andb_true_iff, !negb_true_iff in Hname. by apply Hname. }
        by exists k, names.
  - exists k, (names ++ [part])%list. cbn. rewrite Hs, app_assoc. split; [done|].
    split; [|done]. apply Forall_app. split; [done|]. constructor; [|done].
    unfold safe_name. by rewrite Hp, !(proj2 (String.eqb_neq _ _)).
Qed.

(** The components that come out of the cleaning. *)
Lemma components_normal p : normal (IsAbs p) (components p).
Proof.
  unfold components. generalize (split_slash_parts p). generalize (split_slash p).
  set (r := IsAbs p). intros parts Hp.
  assert (H : forall stack, normal r (rev stack) ->
    normal r (rev (fold_left (clean_step r) parts stack))).
  { induction Hp as [|c parts Hc _ IH]; intros stack Hs; [done|]. cbn [fold_left].
    apply IH. by apply clean_step_normal. }
  apply H. by exists 0%nat, [].
Qed.

(** A cleaned path reads back. *)
Lemma render_reads r cs :
  normal r cs -> cs <> [] -> IsAbs (render r cs) = r /\ components (render r cs) = cs.
Proof.
  intros Hn Hne. pose proof (normal_parts _ _ Hn) as Hp.
  assert (Ha : IsAbs (render r cs) = r).
  { destruct r; [done|]. destruct cs as [|c cs]; [done|].
    apply contains_slash_concat_head. by inversion Hp. }
  split; [done|]. unfold components. rewrite Ha.
  assert (Hs : fold_left (clean_step r) (split_slash (render r cs)) []
    = fold_left (clean_step r) cs []).
  { destruct r; cbn [render].
    - rewrite (split_slash_app EmptyString (String.concat "/" cs)
        : split_slash ("/" ++ String.concat "/" cs) = _).
      by rewrite split_slash_concat.
    - destruct cs as [|c cs]; [done|]. by rewrite split_slash_concat. }
  by rewrite Hs, normal_clean, rev_involutive.
Qed.

Lemma render_nonempty r cs : cs <> [] -> Forall part_ok cs -> render r cs <> EmptyString.
Proof.
  intros Hne Hp. destruct r; [done|]. destruct cs as [|c cs]; [done|].
  inversion Hp as [|? ? [Hc _] _]; subst. cbn [render]. destruct c; [done|]. by destruct cs.
Qed.

(** Joining a name puts it at the end of the components. *)
Lemma Join_name p name :
  p <> EmptyString -> safe_name name = true ->
  Join p name = render (IsAbs p) (components p ++ [name])%list.
Proof.
  intros Hp Hn. unfold Join, Clean. destruct (String.eqb_spec p EmptyString) as [|_]; [done|].
  assert (String.eqb (p ++ "/" ++ name) EmptyString = false) as -> by (by destruct p).
  rewrite IsAbs_app by done. f_equal. unfold components.
  rewrite IsAbs_app, split_slash_app, fold_left_app by done.
  rewrite (split_slash_part name) by apply (safe_name_part _ Hn). cbn [fold_left].
  by rewrite clean_step_safe.
Qed.

(** Whatever the path is, it gets one component longer. *)
Lemma components_Join p name :
  safe_name name = true -> components (Join p name) = (components p ++ [name])%list.
Proof.
  intros Hn. destruct (String.eqb_spec p EmptyString) as [->|Hp].
  - assert (Hne : name <> EmptyString) by (destruct (safe_name_part _ Hn); done).
    assert (Hc : components name = [name]).
    { unfold components. rewrite (split_slash_part name) by apply (safe_name_part _ Hn).
      cbn [fold_left]. by rewrite clean_step_safe. }
    assert (Ha : IsAbs name = false).
    { destruct (safe_name_part _ Hn) as [_ Hs]. destruct name as [|a name]; [done|].
      cbn in Hs |- *. by apply orb_false_iff in Hs as [-> _]. }
    unfold Join, Clean. rewrite String.eqb_refl, !(proj2 (String.eqb_neq _ _) Hne), Ha, Hc.
    by apply render_reads; [exists 0%nat, [name]; repeat constructor|done].
  - rewrite Join_name by done. apply render_reads; [|by destruct (components p)].
    apply normal_app; [apply components_normal|by constructor].
Qed.

Lemma path_of_nonempty root names :
  root <> EmptyString -> Forall (fun name => safe_name name = true) names ->
  path_of root names <> EmptyString.
Proof.
  intros Hr Hn. destruct names as [|name names]; [done|]. apply render_nonempty.
  - by destruct (components root).
  - by apply (normal_parts (IsAbs root)), normal_app; [apply components_normal|].
Qed.

Lemma path_of_reads root names :
  Forall (fun name => safe_name name = true) names ->
  IsAbs (path_of root names) = IsAbs root /\
  components (path_of root names) = (components root ++ names)%list.
Proof.
  intros Hn. destruct names as [|name names]; [by rewrite app_nil_r|]. apply render_reads.
  - by apply normal_app; [apply components_normal|].
  - by destruct (components root).
Qed.

Lemma Join_path_of root names name :
  root <> EmptyString -> Forall (fun name => safe_name name = true) names ->
  safe_name name = true -> Join (path_of root names) name = path_of root (names ++ [name])%list.
Proof.
  intros Hr Hns Hn. rewrite Join_name; [|by apply path_of_nonempty|done].
  destruct (path_of_reads root names Hns) as [-> ->]. rewrite <- app_assoc.
  unfold path_of. by destruct names.
Qed.

(** The path is the one asked for, or one of names below it. *)
Definition below (root p : string) : Prop :=
  exists names, Forall (fun name => safe_name name = true) names /\ p = path_of root names.

Lemma below_root root : below root root.
Proof. by exists []. Qed.
Lemma below_Join root p name :
  root <> EmptyString -> below root p -> safe_name name = true -> below root (Join p name).
Proof.
  intros Hr (names & Hn & ->) Hs. exists (names ++ [name])%list.
  split; [|by apply Join_path_of]. apply Forall_app. by repeat constructor.
Qed.

(** *** Examples: [Join] cleans *)
Example Join_root : Join "/" "a" = "/a".
Proof. reflexivity. Qed.
Example Join_relative : Join "../x/./y//z/.." "a" = "../x/y/a".
Proof. reflexivity. Qed.
Example Join_escape : Join "/srv/files" "../../etc" = "/etc".
Proof. reflexivity. Qed.
