(* ===== verification/LocalFS.v ===== *)
(** * The host's file system ([fsimpl/localfs], [fsimpl/xattr])

    A file is a pointer to a [Local]: a host path, with an [os.File] once it was opened. The
    host is behind its system calls: a call is a value of [OSE], what it does to the host is
    a parameter, the class [OS]; every call made is recorded. The methods are code in a
    state monad over the host and the pointers. *)
From S2P Require Import Prelude Errno Buffer Types Messages Message File State Handlers.
From S2P Require Import Reach Templates LocalQids HostPath.

(** ** System calls *)

Section OSE.
(** The values of type [*os.File], nil apart. *)
Context {F : Type}.

Inductive OSE : Type -> Type :=
| OUmask (mask : Z) : OSE Z
| OLstat (path : string) : OSE (FileInfo + error)
| OOpenFile (path : string) (flag perm : Z) : OSE (F + error)
| OMkdir (path : string) (perm : Z) : OSE (option error)
| OSymlink (oldname newname : string) : OSE (option error)
| OLink (oldname newname : string) : OSE (option error)
| ORename (oldpath newpath : string) : OSE (option error)
| OReadlink (path : string) : OSE (string + error)
| OTruncate (path : string) (size : Z) : OSE (option error)
| ORemove (path : string) : OSE (option error)
  (* extended attributes; the slice [dest] before and after, the count *)
| OSetxattr (path attr : string) (data : list byte) (flags : Z) : OSE (option error)
| OGetxattr (path attr : string) (dest : list byte) : OSE (list byte * Z + error)
| OListxattr (path : string) (dest : list byte) : OSE (list byte * Z + error)
| ORemovexattr (path attr : string) : OSE (option error)
  (* methods of an open file *)
| OStat (f : F) : OSE (FileInfo + error)
| OReadAt (f : F) (p : list byte) (off : Z) : OSE (list byte * Z * option error)
| OWriteAt (f : F) (p : list byte) (off : Z) : OSE (Z * option error)
| OSync (f : F) : OSE (option error)
| OClose (f : F) : OSE (option error)
  (* [Readdirnames(1)]: a name or an error, [io.EOF] at the end *)
| OReaddirnames1 (f : F) : OSE (string + error)
  (* [unix.Flock] on the descriptor of a file, -1 for that of nil *)
| OFlock (f : option F) (how : Z) : OSE (option error).

(** The host paths that a call acts on. The target of a symbolic link is its contents. *)
Definition host_paths {A} (e : OSE A) : list string :=
  match e with
  | OLstat path | OOpenFile path _ _ | OMkdir path _ | OSymlink _ path | OReadlink path
  | OTruncate path _ | ORemove path | OSetxattr path _ _ _ | OGetxattr path _ _
  | OListxattr path _ | ORemovexattr path _ => [path]
  | OLink old new | ORename old new => [old; new]
  | _ => []
  end.
End OSE.
Arguments OSE : clear implicits.

(** A host. [dir_left] bounds the names that an open directory has left to read. *)
Class OS (H F : Type) := {
  os_exec : forall {A}, OSE F A -> H -> A * H;
  NsecToTimespec : Z -> Z * Z;
  Major : Z -> Z;
  Minor : Z -> Z;
  dir_left : F -> H -> nat;
}.

(** ** Constants *)

Definition O_CREATE : Z := 0x40.
Definition O_EXCL : Z := 0x80.
Definition LOCK_EX : Z := 2.
Definition LOCK_UN : Z := 8.

(** ** Files *)

Section localfs.
Context {H F : Type} {os : OS H F}.

Record Local := mk_Local { path : string; local_file : option F }.

Record os_event := mk_os_event { oe_ret : Type; oe_call : OSE F oe_ret }.

Record local_world := mk_local_world {
  host : H;
  root : string;
  locals : list Local;
  lqs : lqids;
  (* the latest call first *)
  log : list os_event;
}.

Definition L (A : Type) : Type := local_world -> A * local_world.

#[global] Instance L_ret : MRet L := fun A a w => (a, w).
#[global] Instance L_bind : MBind L := fun A B k m w => let '(a, w) := m w in k a w.

(** [if err != nil { return err }] after a call. *)
Definition L_bind_err {A B} (e : L (A + error)) (k : A -> L (B + error)) : L (B + error) :=
  r ← e; match r with inl x => k x | inr err => mret (inr err) end.
Local Notation "x ←! e ; k" := (L_bind_err e (fun x => k))
  (at level 20, e at level 100, k at level 200, right associativity).
Local Notation "' x ←! e ; k" := (L_bind_err e (fun x => k))
  (at level 20, x pattern, e at level 100, k at level 200, right associativity).

(** A system call. *)
Definition sys {A} (e : OSE F A) : L A := fun w =>
  let '(a, h) := os_exec e (host w) in
  (a, mk_local_world h (root w) (locals w) (lqs w) (mk_os_event A e :: log w)).

Definition sys_err (e : OSE F (option error)) : L (unit + error) :=
  err ← sys e; mret (err_result err).

Definition get_root : L string := fun w => (root w, w).
Definition dir_fuel (f : F) : L nat := fun w => (dir_left f (host w), w).
Definition get_local (p : nat) : L (option Local) := fun w => (locals w !! p, w).
(** [&Local{...}]. *)
Definition new_local (l : Local) : L nat := fun w =>
  (length (locals w),
   mk_local_world (host w) (root w) (locals w ++ [l]) (lqs w) (log w)).
Definition set_local (p : nat) (l : Local) : L unit := fun w =>
  (tt, mk_local_world (host w) (root w) (<[p := l]> (locals w)) (lqs w) (log w)).
Definition to_qid (fi : FileInfo) : L Z := fun w =>
  let '(q, s) := localToQid Major Minor fi (lqs w) in
  (q, mk_local_world (host w) (root w) (locals w) s (log w)).

(** [umask(0)] and the root. *)
Definition Attach : L (nat + error) :=
  _ ← sys (OUmask 0);
  root ← get_root;
  p ← new_local (mk_Local root None);
  mret (inl p).

Definition info (l : Local) : L (QID * FileInfo + error) :=
  fi ←! match local_file l with
        | Some f => sys (OStat f)
        | None => sys (OLstat (path l))
        end;
  ninePath ← to_qid fi;
  mret (inl (mkQID (FileMode_QIDType (ModeFromOS (fi_Mode fi))) 0 ninePath, fi)).

Fixpoint Walk_loop (names : list string) (qids : list QID) (last : Local)
    : L (list QID * nat + error) :=
  match names with
  | [] => p ← new_local last; mret (inl (qids, p))
  | name :: names =>
      let c := mk_Local (Join (path last) name) None in
      '(qid, _) ←! info c;
      Walk_loop names (qids ++ [qid]) c
  end.

(** A walk with no names is a copy of self. *)
Definition Walk (l : Local) (names : list string) : L (list QID * nat + error) :=
  Walk_loop names [] (mk_Local (path l) None).

(** A method of [l.file], which returns [os.ErrInvalid] if that is nil. *)
Definition on_file {A} (l : Local) (invalid : A) (m : F -> L A) : L A :=
  match local_file l with None => mret invalid | Some f => m f end.

Definition FSync (l : Local) : L (option error) :=
  on_file l (Some os_ErrInvalid) (fun f => sys (OSync f)).

Definition GetAttr (l : Local) (req : AttrMask) : L (QID * AttrMask * Attr + error) :=
  '(qid, fi) ←! info l;
  let stat := InfoToStat NsecToTimespec fi in
  mret (inl (qid, req,
    mkAttr (st_Mode stat) (st_Uid stat) (st_Gid stat) (st_Nlink stat) (st_Rdev stat)
      (wrap64 (st_Size stat)) (wrap64 (st_Blksize stat)) (wrap64 (st_Blocks stat))
      (wrap64 (st_Atim stat).1) (wrap64 (st_Atim stat).2)
      (wrap64 (st_Mtim stat).1) (wrap64 (st_Mtim stat).2)
      (wrap64 (st_Ctim stat).1) (wrap64 (st_Ctim stat).2) 0 0 0 0)).

Definition Close (l : Local) : L (option error) :=
  match local_file l with Some f => sys (OClose f) | None => mret None end.

Definition Open (p : nat) (l : Local) (mode : Z) : L (QID * Z + error) :=
  '(qid, _) ←! info l;
  f ←! sys (OOpenFile (path l) mode 0);
  set_local p (mk_Local (path l) (Some f));;
  mret (inl (qid, 0)).

Definition ReadAt (l : Local) (p : list byte) (offset : Z) : L (list byte * Z * option error) :=
  on_file l (p, 0, Some os_ErrInvalid) (fun f => sys (OReadAt f p offset)).

Definition WriteAt (l : Local) (p : list byte) (offset : Z) : L (Z + error) :=
  '(n, err) ← on_file l (0, Some os_ErrInvalid) (fun f => sys (OWriteAt f p offset));
  mret (match err with Some err => inr err | None => inl n end).

Definition lock (l : Local) (locktype : Z) : L (Z + error) :=
  if (locktype =? ReadLock) || (locktype =? WriteLock) then
    err ← sys (OFlock (local_file l) LOCK_EX);
    mret (inl (match err with Some _ => LockStatusError | None => LockStatusOK end))
  else if locktype =? Unlock then
    err ← sys (OFlock (local_file l) LOCK_UN);
    mret (inl (match err with Some _ => LockStatusError | None => LockStatusOK end))
  else mret (inr (SyscallErrno ENOSYS)).

Definition Create (l : Local) (name : string) (mode permissions : Z) : L (nat * QID * Z + error) :=
  let newName := Join (path l) name in
  f ←! sys (OOpenFile newName (Z.lor (Z.lor mode O_CREATE) O_EXCL) permissions);
  let l2 := mk_Local newName (Some f) in
  r ← info l2;
  match r with
  | inr err => _ ← Close l2; mret (inr err)
  | inl (qid, _) => p ← new_local l2; mret (inl (p, qid, 0))
  end.

Definition Mkdir (l : Local) (name : string) (permissions : Z) : L (QID + error) :=
  _ ←! sys_err (OMkdir (Join (path l) name) permissions);
  mret (inl QID_zero).

Definition Symlink (l : Local) (oldname newname : string) : L (QID + error) :=
  _ ←! sys_err (OSymlink oldname (Join (path l) newname));
  mret (inl QID_zero).

Definition Link (l target : Local) (newname : string) : L (option error) :=
  sys (OLink (path target) (Join (path l) newname)).

Definition RenameAt (l : Local) (oldName : string) (newDir : Local) (newName : string)
    : L (option error) :=
  sys (ORename (Join (path l) oldName) (Join (path newDir) newName)).

Definition Readlink (l : Local) : L (string + error) := sys (OReadlink (path l)).

Definition Renamed (p : nat) (l parent : Local) (newName : string) : L unit :=
  set_local p (mk_Local (Join (path parent) newName) (local_file l)).

Definition SetAttr_supported : SetAttrMask :=
  mkSetAttrMask false false false true true true true false false.

Definition SetAttr (l : Local) (valid : SetAttrMask) (attr : SetAttr) : L (option error) :=
  if negb (SetAttrMask_IsSubsetOf valid SetAttr_supported) then mret (Some (Errno ENOSYS))
  else if SAM_Size valid then sys (OTruncate (path l) (sint64 (SA_Size attr)))
  else mret None.

Definition UnlinkAt (l : Local) (name : string) : L (option error) :=
  sys (ORemove (Join (path l) name)).

(** [readdir.go]: entries are counted from where the directory stands. *)
Fixpoint Readdir_loop (fuel : nat) (l : Local) (offset count cursor : Z) (p9Ents : list Dirent)
    : L (list Dirent * option error) :=
  if Z.of_nat (length p9Ents) <? sint64 count then
    match fuel with
    | O => mret ([], Some (OtherError "endless directory"))
    | S fuel =>
        singleEnt ← on_file l (inr os_ErrInvalid) (fun f => sys (OReaddirnames1 f));
        match singleEnt with
        | inr err =>
            if error_eq err TEOF then mret (p9Ents, None) else mret ([], Some err)
        | inl name =>
            (* we consumed an entry *)
            let cursor := wrap64 (cursor + 1) in
            if (cursor <? offset) || (wrap64 (offset + count) <? cursor)
            then Readdir_loop fuel l offset count cursor p9Ents
            else
              r ← info (mk_Local (Join (path l) name) None);
              match r with
              | inr err => mret (p9Ents, Some err)
              | inl (qid, _) =>
                  Readdir_loop fuel l offset count cursor
                    (p9Ents ++ [mkDirent qid cursor (QID_Type qid) name])
              end
        end
    end
  else mret (p9Ents, None).

Definition Readdir (l : Local) (offset count : Z) : L (list Dirent * option error) :=
  fuel ← match local_file l with Some f => dir_fuel f | None => mret 0%nat end;
  Readdir_loop (S fuel) l offset count 0 [].

(** ** Extended attributes *)

(** [strings.Trim(s, cutset)] and [strings.Split(s, sep)] for a single character. *)
Fixpoint trim_left (c : byte) (s : list byte) : list byte :=
  match s with
  | x :: s' => if Byte.eqb x c then trim_left c s' else s
  | [] => []
  end.
Definition Trim (s : list byte) (c : byte) : list byte := rev (trim_left c (rev (trim_left c s))).

Fixpoint Split (s : list byte) (c : byte) : list (list byte) :=
  match s with
  | [] => [[]]
  | x :: s =>
      if Byte.eqb x c then [] :: Split s c
      else match Split s c with
           | y :: ys => (x :: y) :: ys
           | [] => []
           end
  end.

(** [&fs.PathError{...}]. *)
Definition path_error {A} (r : A + error) : A + error :=
  match r with inl a => inl a | inr err => inr (Wrap err) end.

(** [xattr.List]. *)
Definition xattr_List (p : string) : L (list string + error) :=
  '(_, sz) ←! (r ← sys (OListxattr p []); mret (path_error r));
  let b := replicate (Z.to_nat sz) x00 in
  '(b, sz) ←! (r ← sys (OListxattr p b); mret (path_error r));
  mret (inl (string_of_bytes <$> Split (Trim (take (Z.to_nat sz) b) x00) x00)).

(** [xattr.Get]. *)
Definition xattr_Get (p attr : string) : L (list byte + error) :=
  '(_, sz) ←! (r ← sys (OGetxattr p attr []); mret (path_error r));
  let b := replicate (Z.to_nat sz) x00 in
  '(b, sz) ←! (r ← sys (OGetxattr p attr b); mret (path_error r));
  mret (inl (take (Z.to_nat sz) b)).

Definition SetXattr (l : Local) (attr : string) (data : list byte) (flags : Z) : L (option error) :=
  sys (OSetxattr (path l) attr data flags).
Definition ListXattrs (l : Local) : L (list string + error) := xattr_List (path l).
Definition GetXattr (l : Local) (attr : string) : L (list byte + error) := xattr_Get (path l) attr.
Definition RemoveXattr (l : Local) (attr : string) : L (option error) :=
  sys (ORemovexattr (path l) attr).

(** ** The methods *)

(** The methods of [p9.DefaultWalkGetAttr] and [templatefs.NoopFile], which [Local] embeds. *)
Definition embedded : template nat := embed no_methods [DefaultWalkGetAttr; NoopFile].

Definition embedded_method {A} (e : FileE nat A) : L A := mret (methods embedded e).

Definition nil_pointer : error := OtherError "panic: nil pointer dereference".

(** Through a pointer, for a method that is called as [e]. *)
Definition deref {A} (e : FileE nat A) (p : nat) (k : Local -> L A) : L A :=
  l ← get_local p;
  match l with Some l => k l | None => mret (failure nil_pointer e) end.

Definition local_exec {A} (e : FileE nat A) : L A :=
  match e in FileE _ A return (forall p, (Local -> L A) -> L A) -> L A with
  | FAttach => fun _ => Attach
  | FWalk p names => fun self => self p (fun l => Walk l names)
  | FGetAttr p req => fun self => self p (fun l => GetAttr l req)
  | FSetAttr p valid attr => fun self => self p (fun l => SetAttr l valid attr)
  | FClose p => fun self => self p (fun l => Close l)
  | FOpen p mode => fun self => self p (fun l => Open p l mode)
  | FReadAt p b offset => fun self => self p (fun l => ReadAt l b offset)
  | FWriteAt p b offset => fun self => self p (fun l => WriteAt l b offset)
  | FSetXattr p attr data flags => fun self => self p (fun l => SetXattr l attr data flags)
  | FGetXattr p attr => fun self => self p (fun l => GetXattr l attr)
  | FListXattrs p => fun self => self p (fun l => ListXattrs l)
  | FRemoveXattr p attr => fun self => self p (fun l => RemoveXattr l attr)
  | FFSync p => fun self => self p (fun l => FSync l)
  | FLock p _ locktype _ _ _ _ => fun self => self p (fun l => lock l locktype)
  | FCreate p name flags permissions _ _ => fun self =>
      self p (fun l => Create l name flags permissions)
  | FMkdir p name permissions _ _ => fun self => self p (fun l => Mkdir l name permissions)
  | FSymlink p oldName newName _ _ => fun self => self p (fun l => Symlink l oldName newName)
  | FLink p target newName => fun self =>
      self p (fun l => self target (fun target => Link l target newName))
  | FRenameAt p oldName newDir newName => fun self =>
      self p (fun l => self newDir (fun newDir => RenameAt l oldName newDir newName))
  | FUnlinkAt p name _ => fun self => self p (fun l => UnlinkAt l name)
  | FReaddir p offset count => fun self => self p (fun l => Readdir l offset count)
  | FReadlink p => fun self => self p (fun l => Readlink l)
  | FRenamed p parent newName => fun self =>
      self p (fun l => self parent (fun parent => Renamed p l parent newName))
  | e => fun _ => embedded_method e
  end (deref e).

#[global] Program Instance local_backend : Backend local_world nat := {|
  exec A e w := local_exec e w;
  panics A e w := false;
  range A w l := l;
|}.
Next Obligation. done. Qed.
#[global] Instance local_returning : Returning local_backend.
Proof. by intros A e w. Qed.

(** [Attacher(root)] and [RootAttacher()], on a host. *)
Definition Attacher (root : string) (s : lqids) (h : H) : local_world :=
  mk_local_world h (if (String.length root =? 0)%nat then "/"%string else root) [] s [].
Definition RootAttacher (s : lqids) (h : H) : local_world := mk_local_world h "/" [] s [].
End localfs.
Arguments Local : clear implicits.
Arguments os_event : clear implicits.
Arguments local_world : clear implicits.
Arguments L : clear implicits.
