(* ===== verification/LocalPaths.v ===== *)
(** * Host paths stay below the root

    Whatever clients ask for, the paths that [localfs] hands to the host under the server
    are the path that it was given, or that path with names at the end. *)
From S2P Require Import Prelude Errno Buffer Types Messages Message Transport Version.
From S2P Require Import File State PathTree FidRef Handlers Server Reach ProgramLogic TreeLogic HandlerLogic.
From S2P Require Import Guarantees Promises Templates LocalQids HostPath LocalFS.

Section confined.
Context {H F : Type} {os : OS H F} (r : string).
Local Notation world := (local_world H F).
Local Notation L := (L H F).

(** The names in directories are names. *)
Definition names_safe : Prop := forall f h name h',
  os_exec (OReaddirnames1 f) h = (inl name, h') -> safe_name name = true.

Hypothesis r_nonempty : r <> EmptyString.
Hypothesis readdir_names : names_safe.

Definition paths_below {A} (e : OSE F A) : Prop := Forall (below r) (host_paths e).

(** ** The invariant *)

Record confined (w : world) : Prop := {
  cf_root : root w = r;
  cf_locals : Forall (fun l => below r (path l)) (locals w);
  cf_log : Forall (fun ev => paths_below (oe_call ev)) (log w);
}.

(** The code keeps the invariant, and returns what satisfies [Q]. *)
Definition confines {A} (m : L A) (Q : A -> Prop) : Prop := forall w,
  confined w -> confined (m w).2 /\ Q (m w).1.

Lemma confines_weaken {A} (m : L A) (Q Q' : A -> Prop) :
  confines m Q -> (forall a, Q a -> Q' a) -> confines m Q'.
Proof. intros Hm HQ w Hw. destruct (Hm w Hw). auto. Qed.

Lemma confines_ret {A} (a : A) (Q : A -> Prop) : Q a -> confines (mret a) Q.
Proof. by intros Ha w Hw. Qed.

Lemma confines_bind {A B} (m : L A) (k : A -> L B) P Q :
  confines m P -> (forall a, P a -> confines (k a) Q) -> confines (m ≫= k) Q.
Proof.
  intros Hm Hk w Hw. destruct (Hm w Hw) as [Hw' Ha]. unfold mbind, L_bind.
  destruct (m w) as [a w']. by apply Hk.
Qed.

(** The value does not matter to the rest. *)
Lemma confines_seq {A B} (m : L A) (k : A -> L B) Q :
  confines m (fun _ => True) -> (forall a, confines (k a) Q) -> confines (m ≫= k) Q.
Proof. intros Hm Hk. eapply confines_bind; [exact Hm|auto]. Qed.

Lemma confines_bind_err {A B} (m : L (A + error)) (k : A -> L (B + error)) :
  confines m (fun _ => True) -> (forall a, confines (k a) (fun _ => True)) ->
  confines (L_bind_err m k) (fun _ => True).
Proof.
  intros Hm Hk. apply confines_seq; [done|]. intros [a|err]; [apply Hk|by apply confines_ret].
Qed.

Lemma confines_sys {A} (e : OSE F A) : paths_below e -> confines (sys e) (fun _ => True).
Proof.
  intros He w [Hr Hl Ht]. unfold sys. destruct (os_exec e (host w)) as [a h].
  split; [|done]. split; [done|done|by constructor].
Qed.

Lemma confines_sys_err (e : OSE F (option error)) :
  paths_below e -> confines (sys_err e) (fun _ => True).
Proof.
  intros He. apply confines_seq; [by apply confines_sys|]. intros a. by apply confines_ret.
Qed.

Lemma confines_readdirnames f :
  confines (sys (OReaddirnames1 f)) (fun n => match n with inl n => safe_name n = true | _ => True end).
Proof.
  intros w Hw. destruct (confines_sys (OReaddirnames1 f) ltac:(constructor) w Hw) as [Hw' _].
  split; [done|]. unfold sys in *. destruct (os_exec _ (host w)) as [[name|] h] eqn:E; [|done].
  exact (readdir_names _ _ _ _ E).
Qed.

Lemma confines_get_local p :
  confines (get_local p) (fun l => match l with Some l => below r (path l) | None => True end).
Proof.
  intros w Hw. split; [done|]. cbn. destruct (locals w !! p) as [l|] eqn:E; [|done].
  exact (proj1 (Forall_lookup _ _) (cf_locals _ Hw) _ _ E).
Qed.

Lemma confines_new_local l : below r (path l) -> confines (new_local l) (fun _ => True).
Proof.
  intros Hl w [Hr Hls Ht]. split; [|done]. split; [done| |done]. cbn. apply Forall_app. auto.
Qed.

Lemma confines_set_local p l : below r (path l) -> confines (set_local p l) (fun _ => True).
Proof.
  intros Hl w [Hr Hls Ht]. split; [|done]. split; [done| |done]. cbn. by apply Forall_insert.
Qed.

Lemma confines_to_qid fi : confines (to_qid fi) (fun _ => True).
Proof.
  intros w [Hr Hls Ht]. unfold to_qid. destruct (localToQid Major Minor fi (lqs w)). done.
Qed.

Lemma confines_dir_fuel f : confines (dir_fuel f) (fun _ => True).
Proof. by intros w Hw. Qed.

Lemma paths_below_Join p name : below r p -> safe_name name = true -> below r (Join p name).
Proof. by apply below_Join. Qed.
End confined.

Create HintDb confines.
#[export] Hint Resolve confines_get_local confines_to_qid confines_dir_fuel : confines.
#[export] Hint Resolve paths_below_Join below_root : confines.
#[export] Hint Extern 1 (paths_below _ _) =>
  (unfold paths_below; cbn; repeat (apply Forall_cons; split); try apply Forall_nil) : confines.
#[export] Hint Extern 1 (confines _ (mret _) _) => (apply confines_ret; exact Logic.I) : confines.
#[export] Hint Extern 2 (confines _ (sys _) _) => apply confines_sys : confines.
#[export] Hint Extern 2 (confines _ (sys_err _) _) => apply confines_sys_err : confines.
#[export] Hint Extern 2 (confines _ (new_local _) _) => (apply confines_new_local; cbn) : confines.
#[export] Hint Extern 2 (confines _ (set_local _ _) _) => (apply confines_set_local; cbn) : confines.

(** One step through a method, by the shape of the code. *)
Ltac confines_step :=
  intros; lazymatch goal with
  | |- confines _ (mbind _ (sys (OReaddirnames1 _))) _ => fail
  | |- confines _ (mbind _ _) _ => apply confines_seq
  | |- confines _ (L_bind_err _ _) _ => apply confines_bind_err
  | |- confines _ (on_file ?l _ _) _ => unfold on_file; destruct (local_file l)
  | |- confines _ (match ?x with _ => _ end) _ => destruct x
  end.
Ltac confines_code := repeat (first [solve [eauto 6 with confines] | confines_step]).

Section methods.
Context {H F : Type} {os : OS H F} (r : string).
Local Notation L := (L H F).
Hypothesis r_nonempty : r <> EmptyString.
Hypothesis readdir_names : names_safe (H := H) (F := F).
Local Notation confines := (confines (H := H) (F := F) r).
Implicit Types l : Local F.

(** ** The methods *)

Lemma confines_info l : below r (path l) -> confines (info l) (fun _ => True).
Proof. intros Hl. unfold info. confines_code. Qed.

Lemma confines_Close l : confines (Close l) (fun _ => True).
Proof. unfold Close. confines_code. Qed.

Lemma confines_Walk_loop names qids l :
  Forall (fun name => safe_name name = true) names -> below r (path l) ->
  confines (Walk_loop names qids l) (fun _ => True).
Proof.
  intros Hn. revert qids l. induction Hn as [|name names Hname _ IH]; intros qids l Hl;
    cbn [Walk_loop]; [confines_code|].
  pose proof (paths_below_Join r r_nonempty _ _ Hl Hname).
  apply confines_bind_err; [by apply confines_info|]. intros [qid fi]. by apply IH.
Qed.

Lemma confines_Readdir_loop fuel l offset count cursor ents :
  below r (path l) ->
  confines (Readdir_loop fuel l offset count cursor ents) (fun _ => True).
Proof.
  intros Hl. revert cursor ents.
  induction fuel as [|fuel IH]; intros cursor ents; cbn [Readdir_loop]; [confines_code|].
  destruct (_ <? _); [|confines_code].
  eapply confines_bind with (P := fun n => match n with inl n => safe_name n = true | _ => True end).
  { unfold on_file. destruct (local_file l); [by apply confines_readdirnames|by apply confines_ret]. }
  intros [name|err] Hname; [|confines_code]. cbv zeta. destruct (_ || _); [apply IH|].
  apply confines_seq; [apply confines_info; cbn; auto with confines|].
  intros [[qid fi]|err]; [apply IH|confines_code].
Qed.

Lemma confines_Readdir l offset count :
  below r (path l) -> confines (Readdir l offset count) (fun _ => True).
Proof.
  intros Hl. unfold Readdir. apply confines_seq; [confines_code|]. intros fuel.
  by apply confines_Readdir_loop.
Qed.

Lemma confines_deref {A} (e : FileE nat A) p (k : Local F -> L A) :
  (forall l, below r (path l) -> confines (k l) (fun _ => True)) ->
  confines (deref e p k) (fun _ => True).
Proof.
  intros Hk. eapply confines_bind; [apply confines_get_local|].
  intros [l|] Hl; [by apply Hk|by apply confines_ret].
Qed.

Lemma confines_Attach : confines Attach (fun _ => True).
Proof.
  unfold Attach. apply confines_seq; [confines_code|]. intros _.
  apply confines_bind with (P := fun x => x = r).
  { intros w Hw. split; [done|]. apply (cf_root _ _ Hw). }
  intros x ->. confines_code.
Qed.

(** Every method whose names are safe. *)
Lemma local_confined A (e : FileE nat A) :
  Forall (fun name => safe_name name = true) (path_elements e) ->
  confines (local_exec e) (fun _ => True).
Proof.
  pose proof confines_info as Hinfo. pose proof confines_Close as Hclose.
  destruct e; cbn [local_exec path_elements]; intros Hn;
    repeat match goal with Hn : Forall _ (_ :: _) |- _ => apply Forall_cons in Hn as [? Hn] end;
    try (repeat (apply confines_deref; intros));
    unfold Walk, GetAttr, SetAttr, Open, ReadAt, WriteAt, SetXattr, GetXattr, ListXattrs,
      RemoveXattr, FSync, lock, Create, Mkdir, Symlink, Link, RenameAt, UnlinkAt, Readlink, Renamed,
      xattr_List, xattr_Get, embedded_method;
    first [by apply confines_Attach | by apply confines_Close | by apply confines_Walk_loop | by apply confines_Readdir | idtac];
    confines_code.
Qed.
End methods.

(** ** Under the server *)

Section server.
Context {H F : Type} {os : OS H F} (r : string).
Local Notation world := (local_world H F).
Local Notation St := (St world nat).
Hypothesis r_nonempty : r <> EmptyString.
Hypothesis readdir_names : names_safe (H := H) (F := F).

(** As long as the names are safe that were passed. *)
#[local] Program Instance paths_inv : Inv world nat := {|
  I s := Forall safe_elements (trace s) -> confined r (State.world s);
  ext _ _ := True;
|}.
Next Obligation. by split. Qed.

Lemma keeps_paths_same {A} h (K : St -> Prop) (m : M world nat A) :
  (forall h s, match m h s with
     | Ret _ s' | Panic s' => State.world s' = State.world s /\ trace s' = trace s
     | Stuck => True
     end) -> keeps h K m.
Proof.
  intros Hm s _ HI. specialize (Hm h s).
  destruct (m h s) as [a s'|s'|]; [..|done]; destruct Hm as [Hw Ht]; cbn; rewrite Hw, Ht; auto.
Qed.

#[local] Instance paths_rules : FreeRules world nat.
Proof.
  split; try (intros; by apply keeps_paths_same).
  intros A h K p e s _ HI. unfold call. cbn.
  destruct (local_exec e (State.world s)) as [a w] eqn:E. cbn. split; [|done].
  intros Ht. apply Forall_cons in Ht as [He Ht].
  pose proof (local_confined r r_nonempty readdir_names A e He (State.world s) (HI Ht)) as [Hc _].
  by rewrite E in Hc.
Qed.

(** What goes on at the host besides. *)
Definition host_change (w w' : world) : Prop :=
  root w' = root w /\ locals w' = locals w /\ lqs w' = lqs w /\ log w' = log w.

Lemma host_change_confined w w' : host_change w w' -> confined r w -> confined r w'.
Proof. intros (H1 & H2 & _ & H4) [? ? ?]. split; congruence. Qed.

Lemma reachable_confined w s :
  root w = r -> locals w = [] -> log w = [] ->
  reachable_from host_change w s -> confined r (State.world s).
Proof.
  intros Hr Hl Ht Hs.
  assert (Hp : Forall safe_elements (trace s)).
  { destruct (reachable_promises s (reachable_from_reachable _ _ _ Hs)) as (_ & _ & Hg).
    by apply good_trace_safe. }
  revert Hp. change (I s). revert s Hs. apply (rtc_ind_r (fun s => I s)).
  - intros _. cbn. rewrite <- Hr. split; [done|rewrite Hl; constructor|rewrite Ht; constructor].
  - intros s1 s2 _ Hst HI. eapply free_server_step; [|exact HI|exact Hst].
    intros s0 w' HI' Hc Htr. cbn in Htr |- *. eapply host_change_confined; [exact Hc|auto].
Qed.
End server.

(** Where a path is that is below [r], in terms of its components. *)
Lemma below_components r p :
  r <> EmptyString -> below r p ->
  p = r \/ exists names, names <> [] /\ Forall path_element names /\
    components p = (components r ++ names)%list /\ IsAbs p = IsAbs r /\ Clean p = p.
Proof.
  intros Hr (names & Hn & ->). destruct names as [|name names]; [by left|right].
  destruct (path_of_reads r _ Hn) as [Ha Hc]. exists (name :: names). split; [done|].
  split; [by eapply Forall_impl; [exact Hn|apply safe_name_path_element]|].
  split; [done|]. split; [done|]. unfold Clean.
  rewrite (proj2 (String.eqb_neq _ _)) by (by apply path_of_nonempty).
  by rewrite Ha, Hc.
Qed.

Section property.
Context {H F : Type} {os : OS H F}.

(** C8: the local file system stays below its root: in every state that a server over it
  reaches, whatever the clients sent, in any number of connections, and whatever happened
  at the host meanwhile, each path that was handed to the host is the path of the attacher,
  or has its components with names at the end, none of which is empty, a dot, two dots or
  has a slash in it; so no path leads out of the root, as far as its text goes. *)
Theorem host_paths_confined (r : string) q (h : H) (s : St (local_world H F) nat) :
names_safe (H := H) (F := F) -> reachable_from host_change (Attacher r q h) s ->
let top := if (String.length r =? 0)%nat then "/"%string else r in
Forall (fun ev => Forall (fun p =>
  p = top \/ exists names, names <> [] /\ Forall path_element names /\
    components p = (components top ++ names)%list /\ IsAbs p = IsAbs top /\ Clean p = p)
  (host_paths (oe_call ev))) (log (State.world s)).
Proof.
intros Hn Hs top.
assert (Hr : top <> EmptyString) by (subst top; by destruct r).
apply (reachable_confined top) in Hs; [|done..].
eapply Forall_impl; [exact (cf_log _ _ Hs)|]. intros ev Hev.
eapply Forall_impl; [exact Hev|]. intros p. by apply below_components.
Qed.
End property.

(** ** A host for examples

    Every path exists: it is a directory unless it ends in [f]. Directories list the same
    names; the host counts how many of them were read since the last opening. *)
Definition demo_names : list string := ["a"; "b"; "c"; "d"; "f"]%string.

Fixpoint ends_in_f (p : string) : bool :=
  match p with
  | EmptyString => false
  | String c EmptyString => Ascii.eqb c "f"
  | String _ p => ends_in_f p
  end.

Definition demo_stat (p : string) : FileInfo :=
  mk_FileInfo (if ends_in_f p then 0x1a4 else Z.lor os_ModeDir 0x1ed)
    (mk_Stat_t 0x800002 (Z.of_nat (String.length p)) 1
       (if ends_in_f p then 0x81a4 else 0x41ed) 0 0 0 3 4096 8 (0, 0) (0, 0) (0, 0)).

Definition demo_os_exec {A} (e : OSE string A) (n : nat) : A * nat :=
  match e in OSE _ A return A * nat with
  | OUmask _ => (0, n)
  | OLstat p => (inl (demo_stat p), n)
  | OStat p => (inl (demo_stat p), n)
  | OOpenFile p _ _ => (inl p, 0%nat)
  | OReadlink _ => (inr (SyscallErrno EINVAL), n)
  | OGetxattr _ _ _ | OListxattr _ _ => (inr (SyscallErrno ENOSYS), n)
  | OReadAt _ p off => ((p, 0, Some io_EOF), n)
  | OWriteAt _ p off => ((Z.of_nat (length p), None), n)
  | OReaddirnames1 _ =>
      match demo_names !! n with Some name => (inl name, S n) | None => (inr io_EOF, n) end
  | OMkdir _ _ | OSymlink _ _ | OLink _ _ | ORename _ _ | OTruncate _ _ | ORemove _
  | OSetxattr _ _ _ _ | ORemovexattr _ _ | OSync _ | OClose _ | OFlock _ _ => (None, n)
  end.

#[export] Instance demo_os : OS nat string := {|
  os_exec A e n := demo_os_exec e n;
  NsecToTimespec n := (n / 1000000000, n mod 1000000000);
  Major := demo_Major;
  Minor := demo_Minor;
  dir_left f n := (length demo_names - n)%nat;
|}.

Lemma demo_names_safe : names_safe (H := nat) (F := string).
Proof.
  intros f n name n' E. cbn in E. destruct (demo_names !! n) as [x|] eqn:En; [|done].
  injection E as -> _. unfold demo_names in En.
  repeat (destruct n as [|n]; [by injection En as <-|]; cbn [lookup list_lookup] in En). done.
Qed.

(** A listing of a directory below a root that is not clean, with the names in it; a rename
    with its source, its target and the path that changes with it; a name that climbs. *)
Definition local_requests : list message :=
  [Mtversion (mk_tversion 4096 "9P2000.L"); toy_attach 1; Mtwalk (mk_twalk 1 2 ["d"%string]);
   Mtlopen (mk_tlopen 2 ReadOnly); Mtreaddir (mk_treaddir 2 0 2);
   Mtrenameat (mk_trenameat 1 "d" 1 "e"); Mtunlinkat (mk_tunlinkat 1 ".." 0);
   Mtsetattr (mk_tsetattr 2 (SetAttrMask_of_bits 8) (mkSetAttr 0 0 0 5 0 0 0 0))].
Definition local_start : local_world nat string :=
  Attacher "../srv//x/." (mk_lqids ∅ ∅ 0 (2 ^ 63)) 0%nat.
Definition local_state : St (local_world nat string) nat :=
  default (NewServer local_start) (run local_start local_requests).

Lemma local_run : run local_start local_requests = Some local_state.
Proof. vm_compute. reflexivity. Qed.

Definition paths_of_log (w : local_world nat string) : list string :=
  concat (map (fun ev => host_paths (oe_call ev)) (rev (log w))).

Lemma host_paths_confined_witness :
  paths_of_log (State.world local_state)
    = ["../srv//x/."; "../srv/x/d"; "../srv/x/d"; "../srv/x/d"; "../srv/x/d"; "../srv/x/d/a";
       "../srv/x/d/b"; "../srv/x/d"; "../srv/x/e"; "../srv/x/e"]%string /\
  Forall (fun ev => Forall (fun p =>
    p = "../srv//x/."%string \/ exists names, names <> [] /\ Forall path_element names /\
      components p = ([".."; "srv"; "x"]%string ++ names)%list /\ IsAbs p = false /\ Clean p = p)
    (host_paths (oe_call ev))) (log (State.world local_state)).
Proof.
  split; [vm_compute; reflexivity|].
  exact (host_paths_confined "../srv//x/." (mk_lqids ∅ ∅ 0 (2 ^ 63)) 0%nat local_state
    demo_names_safe (run_from host_change local_start local_requests local_state local_run)).
Defined.
