(* ===== verification/PathSync.v ===== *)
(** * The paths of files and the path tree: the invariant

    [Renamed] is called so that a file can keep track of its path. [PathBackend] is an
    interface for backends whose files have one; the invariant says that the path of each
    file in the path tree is that of its parent's file, with its name in the tree. *)
From S2P Require Import Prelude Errno Buffer Types File State PathTree FidRef Handlers.
From S2P Require Import ProgramLogic RefCount RefSteps RefOps.

(** ** Files with paths *)

(** A file that does not exist has no path. The methods that yield a file yield a new one,
    and no method but [Renamed] changes the path of a file. *)
Class PathBackend (W File P : Type) {B : Backend W File} := {
  fpath : W -> File -> option P;
  fjoin : P -> string -> P;
  pl_frame : forall A (e : FileE File A) w f x, fpath w f = Some x ->
    match e with FRenamed f' _ _ => f' <> f | _ => True end ->
    fpath (exec e w).2 f = Some x;
  pl_known : forall A (e : FileE File A) w f, is_Some (fpath w f) -> is_Some (fpath (exec e w).2 f);
  pl_renamed : forall w f d name x y, fpath w f = Some x -> fpath w d = Some y ->
    fpath (exec (FRenamed f d name) w).2 f = Some (fjoin y name);
  pl_walk : forall w f names x qids f', fpath w f = Some x ->
    (exec (FWalk f names) w).1 = inl (qids, f') ->
    fpath w f' = None /\ fpath (exec (FWalk f names) w).2 f' = Some (foldl fjoin x names);
  pl_walkgetattr : forall w f names x qids f' valid attr, fpath w f = Some x ->
    (exec (FWalkGetAttr f names) w).1 = inl (qids, f', valid, attr) ->
    fpath w f' = None /\
    fpath (exec (FWalkGetAttr f names) w).2 f' = Some (foldl fjoin x names);
  pl_create : forall w f name flags perm uid gid x f' qid io, fpath w f = Some x ->
    (exec (FCreate f name flags perm uid gid) w).1 = inl (f', qid, io) ->
    fpath w f' = None /\
    fpath (exec (FCreate f name flags perm uid gid) w).2 f' = Some (fjoin x name);
  pl_attach : forall w f', (exec FAttach w).1 = inl f' ->
    fpath w f' = None /\ is_Some (fpath (exec FAttach w).2 f');
}.

Section invariant.
Context {W File P : Type} {B : Backend W File} {PB : PathBackend W File P}.
Local Notation St := (St W File).
Local Notation M := (M W File).
Implicit Types (s : St) (X L : rid -> Prop) (D : nid -> rid -> Prop) (hole : option (nid * string * nid)).

(** ** What the tree knows of a reference *)

(** Node [n] has it under a name. *)
Definition registered s (n : nid) (r : rid) (name : string) : Prop :=
  exists nd, nodes s !! n = Some nd /\ childRefNames nd !! r = Some name.

Definition removed s (n : nid) : Prop := exists nd, nodes s !! n = Some nd /\ deleted nd = true.

(** A reference is a root, or closed, or of a path that was removed, or in the tree. *)
Definition good s (r : rid) : Prop := exists fr, refHeap s !! r = Some fr /\
  (parent fr = None \/ r ∈ closes (trace s) \/ removed s (fr_pathNode fr) \/
   exists n name, registered s n r name).

Definition synced s (fr pr : fidRef File) (name : string) : Prop :=
  exists x, fpath (world s) (file pr) = Some x /\ fpath (world s) (file fr) = Some (fjoin x name).

(** The two maps of a node agree. *)
Definition tables_agree (nd : pathNode) : Prop := forall r name,
  childRefNames nd !! r = Some name <-> exists m, childRefs nd !! name = Some m /\ r ∈ m.

(** ** The invariant

    It holds up to exceptions while the tree is changed: [X] are new references, which no
    one has counted yet; [L] are on the way out of the tree or to another place; the paths
    of the entries [D] are yet to be set; [hole] is a node that has been taken out, and its
    new place. *)
Record reg_at X L D hole s (n : nid) (children : gmap string nid) (r : rid) (name : string)
    (fr : fidRef File) (p : rid) (pr : fidRef File) : Prop := {
  ra_ref : refHeap s !! r = Some fr;
  ra_parent : parent fr = Some p;
  ra_pr : refHeap s !! p = Some pr;
  ra_node : fr_pathNode pr = n;
  ra_dir : FileMode_IsDir (mode pr) = true;
  ra_refs : 0 < refs fr \/ X r;
  ra_child : children !! name = Some (fr_pathNode fr) \/ hole = Some (n, name, fr_pathNode fr);
  ra_good : good s p \/ L p;
  ra_path : D n r \/ synced s fr pr name;
}.

(** A reference to a file that another one uses too: that of an extended attribute. *)
Definition lone (fr : fidRef File) : Prop :=
  parent fr = None /\ FileMode_IsDir (mode fr) = false.

Definition ref_known s (r : rid) (fr : fidRef File) : Prop :=
  is_Some (nodes s !! fr_pathNode fr) /\ is_Some (fpath (world s) (file fr)) /\
  (r < next_ref s)%nat /\ forall p, parent fr = Some p -> is_Some (refHeap s !! p).

Record PS X L D hole s : Prop := {
  ps_names : forall n nd, nodes s !! n = Some nd -> tables_agree nd;
  ps_child : forall n nd name pn, nodes s !! n = Some nd -> childNodes nd !! name = Some pn ->
    is_Some (nodes s !! pn);
  ps_reg : forall n nd r name, nodes s !! n = Some nd -> childRefNames nd !! r = Some name ->
    exists fr p pr, reg_at X L D hole s n (childNodes nd) r name fr p pr;
  ps_ref : forall r fr, refHeap s !! r = Some fr -> ref_known s r fr;
  ps_share : forall r r' fr fr', r <> r' -> refHeap s !! r = Some fr ->
    refHeap s !! r' = Some fr' -> file fr = file fr' -> lone fr \/ lone fr';
  ps_fid : forall c cs fid r, conns s !! c = Some cs -> fids cs !! fid = Some r ->
    good s r \/ L r;
  ps_next : forall n, is_Some (nodes s !! n) -> (n < next_node s)%nat;
  ps_root : is_Some (nodes s !! pathTree);
}.

Definition nobody : rid -> Prop := fun _ => False.
Definition clean_paths : nid -> rid -> Prop := fun _ _ => False.
Definition sync s : Prop := PS nobody nobody clean_paths None s.

(** What every operation leaves in place. *)
Record sync_ext s s' : Prop := {
  se_good : forall r, good s r -> good s' r;
  se_ref : forall r fr, refHeap s !! r = Some fr -> exists fr', refHeap s' !! r = Some fr' /\
    file fr' = file fr /\ mode fr' = mode fr /\ fr_pathNode fr' = fr_pathNode fr;
  se_nodes : forall n, is_Some (nodes s !! n) -> is_Some (nodes s' !! n);
  se_conns : forall c, is_Some (conns s !! c) -> is_Some (conns s' !! c);
}.

#[export] Instance sync_ext_preorder : PreOrder sync_ext.
Proof.
  split; [intros s; split; by eauto|]. intros s1 s2 s3 [H1 H2 H3 H4] [H1' H2' H3' H4'].
  split; [by auto| |by auto|by auto]. intros r fr Hr. destruct (H2 _ _ Hr) as (fr' & Hr' & ? & ? & ?).
  destruct (H2' _ _ Hr') as (fr'' & ? & ? & ? & ?). exists fr''. split_and!; congruence.
Qed.

(** ** Consequences *)

Lemma reg_unique X L D hole s n n' r name name' :
  PS X L D hole s -> registered s n r name -> registered s n' r name' -> n = n' /\ name = name'.
Proof.
  intros HP (nd & Hn & Hr) (nd' & Hn' & Hr').
  destruct (ps_reg _ _ _ _ _ HP _ _ _ _ Hn Hr) as (fr & p & pr & H).
  destruct (ps_reg _ _ _ _ _ HP _ _ _ _ Hn' Hr') as (fr' & p' & pr' & H').
  destruct H as [Hf Hp Hpr Hnode _ _ _ _ _], H' as [Hf' Hp' Hpr' Hnode' _ _ _ _ _].
  assert (fr' = fr) as -> by congruence. assert (p' = p) as -> by congruence.
  assert (n = n') as <- by congruence. split; [done|congruence].
Qed.

Lemma reg_mem X L D hole s n nd name m r :
  PS X L D hole s -> nodes s !! n = Some nd -> childRefs nd !! name = Some m -> r ∈ m ->
  childRefNames nd !! r = Some name.
Proof. intros HP Hn Hm Hr. apply (ps_names _ _ _ _ _ HP _ _ Hn). eauto. Qed.

(** Exceptions may be added. *)
Lemma PS_weaken X L D hole X' L' D' hole' s :
  PS X L D hole s -> (forall r, X r -> X' r) -> (forall r, L r -> L' r) ->
  (forall n r, D n r -> D' n r) -> (hole = None \/ hole' = hole) -> PS X' L' D' hole' s.
Proof.
  intros [H1 H2 H3 H4 H5 H6 H7 H8] HX HL HD Hh. split; try done.
  - intros n nd r name Hn Hr. destruct (H3 _ _ _ _ Hn Hr) as (fr & p & pr & []).
    exists fr, p, pr. split; try done; naive_solver.
  - intros c cs fid r Hc Hf. destruct (H6 _ _ _ _ Hc Hf); auto.
Qed.

(** ** Changes of a node's tables *)

Lemma tables_agree_new : tables_agree newPathNode.
Proof.
  intros r name. cbn. rewrite lookup_empty. split; [done|]. intros (m & Hm & _).
  by rewrite lookup_empty in Hm.
Qed.

(** An entry goes, and [m'] are those left under its name. *)
Lemma tables_agree_del nd r name refs' :
  tables_agree nd -> childRefNames nd !! r = Some name ->
  (forall name', name' <> name -> refs' !! name' = childRefs nd !! name') ->
  (forall r', (exists m', refs' !! name = Some m' /\ r' ∈ m') <->
     exists m, childRefs nd !! name = Some m /\ r' ∈ m ∖ {[r]}) ->
  tables_agree (set_childRefs (fun _ => refs') (delete r) nd).
Proof.
  intros Hok Hr Hne Hm r' name'. cbn. rewrite lookup_delete_Some.
  destruct (decide (name' = name)) as [->|Hname].
  - rewrite Hm. split.
    + intros [Hne' (m & Hm' & Hin)%Hok]. exists m. set_solver.
    + intros (m & Hm' & Hin). split; [set_solver|]. apply Hok. exists m. set_solver.
  - rewrite Hne by done. split.
    + intros [_ H%Hok]. done.
    + intros H%Hok. split; [congruence|done].
Qed.

Lemma tables_agree_remove nd r name m :
  tables_agree nd -> childRefNames nd !! r = Some name -> childRefs nd !! name = Some m ->
  tables_agree (set_childRefs (if (size (m ∖ {[r]}) =? 0)%nat then delete name
    else <[name := m ∖ {[r]}]>) (delete r) nd).
Proof.
  intros Hok Hr Hm.
  apply (tables_agree_del nd r name ((if (size (m ∖ {[r]}) =? 0)%nat then delete name
    else <[name := m ∖ {[r]}]>) (childRefs nd))); [done..| |].
  - intros name' Hne. destruct (_ =? _)%nat; [by rewrite lookup_delete_ne|by rewrite lookup_insert_ne].
  - intros r'. destruct (Nat.eqb_spec (size (m ∖ {[r]})) 0) as [Hz|Hz].
    + apply size_empty_inv in Hz. rewrite lookup_delete_eq, Hm. split; [by intros (? & ? & _)|].
      intros (m' & [= <-] & Hin). set_solver.
    + rewrite lookup_insert_eq, Hm. split; intros (m' & [= <-] & Hin); eauto.
Qed.

Lemma tables_agree_alter nd r name :
  tables_agree nd -> childRefNames nd !! r = Some name ->
  tables_agree (set_childRefs (alter (fun m => m ∖ {[r]}) name) (delete r) nd).
Proof.
  intros Hok Hr.
  apply (tables_agree_del nd r name (alter (fun m => m ∖ {[r]}) name (childRefs nd))); [done..| |].
  - intros name' Hne. by rewrite lookup_alter_ne.
  - intros r'. rewrite lookup_alter_eq. destruct (childRefs nd !! name) as [m|]; cbn.
    + split; intros (m' & [= <-] & Hin); eauto.
    + split; by intros (? & ? & _).
Qed.

Lemma tables_agree_add nd r name :
  tables_agree nd -> childRefNames nd !! r = None ->
  tables_agree (set_childRefs (<[name := {[r]} ∪ default ∅ (childRefs nd !! name)]>) (<[r := name]>) nd).
Proof.
  intros Hok Hr r' name'. cbn. destruct (decide (r' = r)) as [->|Hne].
  - rewrite lookup_insert_eq. destruct (decide (name' = name)) as [->|Hne'].
    + rewrite lookup_insert_eq. split; [|done]. intros _. eexists. split; [done|set_solver].
    + rewrite lookup_insert_ne by done. split; [congruence|]. intros H%Hok. congruence.
  - rewrite lookup_insert_ne, (Hok r' name') by done.
    destruct (decide (name' = name)) as [->|Hne'].
    + rewrite lookup_insert_eq. destruct (childRefs nd !! name) as [m|]; cbn.
      * split; intros (m' & [= <-] & Hin); eexists; (split; [done|set_solver]).
      * split; intros (m' & ? & Hin); [done|]. simplify_eq. set_solver.
    + by rewrite lookup_insert_ne.
Qed.
End invariant.
