(* ===== verification/SyncSteps.v ===== *)
(** * The paths of files and the path tree: single steps

    What the changes of a reference, of a node and of the world do to the invariant. *)
From S2P Require Import Prelude Errno Buffer Types File State PathTree FidRef Handlers.
From S2P Require Import ProgramLogic RefCount RefSteps RefOps PathSync.

Section steps.
Context {W File P : Type} {B : Backend W File} {RB : Returning B} {PB : PathBackend W File P}.
Local Notation St := (St W File).
Local Notation M := (M W File).
Implicit Types (s : St) (X L : rid -> Prop) (D : nid -> rid -> Prop) (hole : option (nid * string * nid)).

(** ** A reference stays where it is *)

Definition same_place (fr fr' : fidRef File) : Prop :=
  file fr' = file fr /\ mode fr' = mode fr /\ fr_pathNode fr' = fr_pathNode fr /\
  parent fr' = parent fr.

Lemma heap_insert_cases (h : gmap rid (fidRef File)) r fr fr' q fq :
  h !! r = Some fr -> same_place fr fr' -> h !! q = Some fq ->
  exists fq', <[r := fr']> h !! q = Some fq' /\ same_place fq fq' /\ (q = r -> fq' = fr') /\
    (q <> r -> fq' = fq).
Proof.
  intros Hr Hs Hq. destruct (decide (q = r)) as [->|Hne].
  - exists fr'. rewrite lookup_insert_eq. split; [done|]. split; [congruence|done].
  - exists fq. rewrite lookup_insert_ne by done. split; [done|]. by split; [|split].
Qed.

Lemma good_with_heap s r fr fr' q :
  refHeap s !! r = Some fr -> same_place fr fr' -> good s q ->
  good (with_heap s (<[r := fr']> (refHeap s))) q.
Proof.
  intros Hr Hs (fq & Hq & Hg).
  destruct (heap_insert_cases _ _ _ _ _ _ Hr Hs Hq) as (fq' & Hq' & (_ & _ & Hn & Hp) & _).
  exists fq'. split; [exact Hq'|]. rewrite Hp, Hn. exact Hg.
Qed.

Lemma sync_ext_heap s r fr fr' :
  refHeap s !! r = Some fr -> same_place fr fr' ->
  sync_ext s (with_heap s (<[r := fr']> (refHeap s))).
Proof.
  intros Hr Hs. split; [by intros; eapply good_with_heap| |done|done]. intros q fq Hq.
  destruct (heap_insert_cases _ _ _ _ _ _ Hr Hs Hq) as (fq' & Hq' & (? & ? & ? & _) & _).
  by exists fq'.
Qed.

Lemma PS_heap X X' L D hole s r fr fr' :
  PS X L D hole s -> refHeap s !! r = Some fr -> same_place fr fr' ->
  (forall q, q <> r -> X q -> X' q) ->
  (forall n name, registered s n r name -> 0 < refs fr' \/ X' r) ->
  PS X' L D hole (with_heap s (<[r := fr']> (refHeap s))).
Proof.
  intros HP Hr Hs HX Hc. pose proof HP as [H1 H2 H3 H4 H5 H6 H7 H8].
  assert (Hg : forall q, good s q \/ L q -> good (with_heap s (<[r := fr']> (refHeap s))) q \/ L q)
    by (intros q [?|?]; [left; by eapply good_with_heap|by right]).
  split; try done.
  - intros n nd q name Hn Hq. destruct (H3 _ _ _ _ Hn Hq) as (fq & p & pr & [Ha Hb Hc' Hd He Hf Hi Hj Hk]).
    destruct (heap_insert_cases _ _ _ _ _ _ Hr Hs Ha) as (fq' & Hq' & (Hfile & _ & Hnode & Hpar) & Heq & Hne).
    destruct (heap_insert_cases _ _ _ _ _ _ Hr Hs Hc') as (pr' & Hpr' & (Hfile' & Hmode' & Hnode' & _) & _).
    exists fq', p, pr'.
    split; [exact Hq'|congruence|exact Hpr'|congruence|congruence| |by rewrite Hnode|by apply Hg
           |by unfold synced; rewrite Hfile, Hfile'].
    destruct (decide (q = r)) as [->|Hqr].
    + rewrite (Heq eq_refl). eapply Hc. by exists nd.
    + rewrite (Hne Hqr). naive_solver.
  - cbn. intros q fq Hq. assert (Hold : exists fq0, refHeap s !! q = Some fq0 /\ same_place fq0 fq).
    { destruct (decide (q = r)) as [->|Hqr].
      - rewrite lookup_insert_eq in Hq. injection Hq as <-. by exists fr.
      - rewrite lookup_insert_ne in Hq by done. by exists fq. }
    destruct Hold as (fq0 & Hq0 & (Hfile & _ & Hnode & Hpar)).
    destruct (H4 _ _ Hq0) as (Ha & Hb & Hc' & Hd). split; [by rewrite Hnode|].
    split; [by rewrite Hfile|]. split; [done|]. cbn. rewrite Hpar. intros p Hp.
    destruct (Hd p Hp) as [pr Hpr].
    destruct (heap_insert_cases _ _ _ _ _ _ Hr Hs Hpr) as (pr' & Hpr' & _). by exists pr'.
  - cbn. assert (Hold : forall q fq, <[r:=fr']> (refHeap s) !! q = Some fq ->
      exists fq0, refHeap s !! q = Some fq0 /\ same_place fq0 fq).
    { intros q fq Hq. destruct (decide (q = r)) as [->|Hqr].
      - rewrite lookup_insert_eq in Hq. injection Hq as <-. by exists fr.
      - rewrite lookup_insert_ne in Hq by done. by exists fq. }
    intros q q' fq fq' Hne Hq Hq'. destruct (Hold _ _ Hq) as (f0 & Hf0 & (Ha & Hb & _ & Hd)).
    destruct (Hold _ _ Hq') as (f1 & Hf1 & (Ha' & Hb' & _ & Hd')). rewrite Ha, Ha'. intros Hf.
    destruct (H5 _ _ _ _ Hne Hf0 Hf1 Hf) as [[? ?]|[? ?]]; [left|right]; split; congruence.
  - intros c cs fid q Hc' Hf. apply Hg. by eapply H6.
Qed.

(** ** The world and the trace *)

Definition with_event s (w : W) (ev : event File) : St :=
  mk_St w (nodes s) (refHeap s) (conns s) (next_node s) (next_ref s) (ev :: trace s).

Lemma closes_cons (ev : event File) t r : r ∈ closes t -> r ∈ closes (ev :: t).
Proof.
  unfold closes. cbn. destruct (is_close (ev_call ev)); [|done].
  destruct (ev_ref ev); [|done]. by right.
Qed.

Lemma good_event s w ev r : good s r -> good (with_event s w ev) r.
Proof.
  intros (fr & Hr & Hg). exists fr. split; [done|].
  destruct Hg as [?|[?|[?|?]]]; auto. right. left. by apply closes_cons.
Qed.

Lemma sync_ext_event s w ev : sync_ext s (with_event s w ev).
Proof. split; [intros r; apply good_event|by eauto|done|done]. Qed.

(** The paths of the files that are used stay. *)
Definition paths_stay s (w : W) : Prop := forall r fr x, refHeap s !! r = Some fr ->
  fpath (world s) (file fr) = Some x -> fpath w (file fr) = Some x.

Lemma PS_event X L D hole s w ev :
  PS X L D hole s -> paths_stay s w -> PS X L D hole (with_event s w ev).
Proof.
  intros HP Hw. pose proof HP as [H1 H2 H3 H4 H5 H6 H7 H8]. split; try done.
  - intros n nd r name Hn Hr. destruct (H3 _ _ _ _ Hn Hr) as (fr & p & pr & []).
    exists fr, p, pr. split; try done.
    + destruct ra_good as [?|?]; [left; by apply good_event|by right].
    + destruct ra_path as [?|(x & Hx & Hy)]; [by left|right]. exists x.
      split; [by eapply Hw|by eapply Hw].
  - intros r fr Hr. destruct (H4 _ _ Hr) as (? & [x Hx] & ? & ?). split; [done|].
    split; [exists x; by eapply Hw|done].
  - intros c cs fid r Hc Hf. destruct (H6 _ _ _ _ Hc Hf); [left; by apply good_event|by right].
Qed.

(** A call that says nothing of a change of place. *)
Definition not_renamed {A} (e : FileE File A) : bool :=
  match e with FRenamed _ _ _ => false | _ => true end.

Lemma paths_stay_exec {A} (e : FileE File A) s :
  not_renamed e = true -> paths_stay s (exec e (world s)).2.
Proof. intros He r fr x _ Hx. apply pl_frame; [done|]. by destruct e. Qed.

(** The state after a call, and its result. *)
Definition after_call {A} (r : option rid) (e : FileE File A) (h : held) s : St :=
  with_event s (exec e (world s)).2
    (event_of s r e h).

Lemma call_eq {A} r (e : FileE File A) h s :
  call r e h s = Ret (exec e (world s)).1 (after_call r e h s).
Proof. rewrite call_returning. unfold after_call. by destruct (exec e (world s)). Qed.

Lemma PS_call {A} X L D hole s r (e : FileE File A) h :
  PS X L D hole s -> not_renamed e = true -> PS X L D hole (after_call r e h s).
Proof. intros HP He. apply PS_event; [done|by apply paths_stay_exec]. Qed.

(** ** A node's tables *)

Section node.
Context (s : St) (n : nid) (nd nd' : pathNode).
Context (Hn : nodes s !! n = Some nd).
Let s' := with_nodes s (<[n := nd']> (nodes s)) (next_node s).

Lemma removed_node n' :
  (deleted nd = true -> deleted nd' = true) -> removed s n' -> removed s' n'.
Proof.
  intros Hd (nd0 & Hn0 & H0). destruct (decide (n' = n)) as [->|Hne].
  - exists nd'. cbn. rewrite lookup_insert_eq. split; [done|]. apply Hd. congruence.
  - exists nd0. cbn. by rewrite lookup_insert_ne.
Qed.

(** An entry of the node may go. *)
Lemma good_node r :
  (deleted nd = true -> deleted nd' = true) ->
  (forall name, childRefNames nd !! r = Some name ->
     is_Some (childRefNames nd' !! r) \/ r ∈ closes (trace s) \/
     exists fr, refHeap s !! r = Some fr /\ removed s' (fr_pathNode fr)) ->
  good s r -> good s' r.
Proof.
  intros Hd Hkeep (fr & Hr & Hg). exists fr. split; [done|].
  destruct Hg as [?|[?|[?|(n0 & name & nd0 & Hn0 & Hname)]]]; [by auto|by auto|..].
  - right. right. left. by apply removed_node.
  - right. destruct (decide (n0 = n)) as [->|Hne].
    + assert (nd0 = nd) as -> by congruence.
      destruct (Hkeep _ Hname) as [[name' H]|[H|(fr' & Hr' & H)]]; [|by left|].
      * right. right. exists n, name', nd'. cbn. by rewrite lookup_insert_eq.
      * right. left. assert (fr' = fr) as -> by congruence. done.
    + right. right. exists n0, name, nd0. cbn. by rewrite lookup_insert_ne.
Qed.

Lemma sync_ext_node : (forall r, good s r -> good s' r) -> sync_ext s s'.
Proof.
  intros Hg. split; [done|by eauto| |done]. intros n' Hn'. cbn.
  destruct (decide (n' = n)) as [->|Hne]; [rewrite lookup_insert_eq; by eexists|].
  by rewrite lookup_insert_ne.
Qed.

Context (X L L' : rid -> Prop) (D D' : nid -> rid -> Prop) (hole hole' : option (nid * string * nid)).

Lemma reg_at_node n' cn cn' r name fr p pr :
  reg_at X L D hole s n' cn r name fr p pr ->
  (forall q, good s q \/ L q -> good s' q \/ L' q) -> (forall m q, D m q -> D' m q) ->
  (cn !! name = Some (fr_pathNode fr) \/ hole = Some (n', name, fr_pathNode fr) ->
   cn' !! name = Some (fr_pathNode fr) \/ hole' = Some (n', name, fr_pathNode fr)) ->
  reg_at X L' D' hole' s' n' cn' r name fr p pr.
Proof. intros [] Hg HD Hh. split; try done; naive_solver. Qed.

(** The node may change in any way that leaves its own entries right. *)
Lemma PS_node :
  PS X L D hole s ->
  (forall q, good s q \/ L q -> good s' q \/ L' q) ->
  (forall m q, D m q -> D' m q) ->
  (forall n0 name0 pn0, hole = Some (n0, name0, pn0) -> n0 <> n -> hole' = hole) ->
  tables_agree nd' ->
  (forall name pn, childNodes nd' !! name = Some pn -> is_Some (nodes s !! pn)) ->
  (forall r name, childRefNames nd' !! r = Some name ->
     exists fr p pr, reg_at X L' D' hole' s' n (childNodes nd') r name fr p pr) ->
  PS X L' D' hole' s'.
Proof.
  intros HP Hg HD Hh Hok Hch Hreg. pose proof HP as [H1 H2 H3 H4 H5 H6 H7 H8].
  assert (Hdom : forall n', is_Some (nodes s !! n') -> is_Some (nodes s' !! n')).
  { intros n' Hn'. cbn. destruct (decide (n' = n)) as [->|Hne];
      [rewrite lookup_insert_eq; by eexists|by rewrite lookup_insert_ne]. }
  split; try done.
  - intros n' nd0. cbn. rewrite lookup_insert_Some. intros [[<- <-]|[_ Hn0]]; [done|by eapply H1].
  - intros n' nd0 name pn. cbn. rewrite lookup_insert_Some. intros [[<- <-]|[_ Hn0]] Hpn; apply Hdom;
      [by eapply Hch|by eapply H2].
  - intros n' nd0 r name. cbn. rewrite lookup_insert_Some. intros [[<- <-]|[Hne Hn0]] Hr; [by apply Hreg|].
    destruct (H3 _ _ _ _ Hn0 Hr) as (fr & p & pr & Hat). exists fr, p, pr.
    eapply reg_at_node; [exact Hat|done|done|]. intros [?|Hhole]; [by left|right].
    rewrite (Hh _ _ _ Hhole); [done|congruence].
  - intros r fr Hr. destruct (H4 _ _ Hr) as (? & ? & ? & ?). split; [by apply Hdom|done].
  - intros c cs fid r Hc Hf. apply Hg. by eapply H6.
  - intros n'. cbn. destruct (decide (n' = n)) as [->|Hne].
    + intros _. apply H7. by exists nd.
    + rewrite lookup_insert_ne by done. apply H7.
  - by apply Hdom.
Qed.
End node.
End steps.
