(* ===== verification/SyncOps.v ===== *)
(** * The paths of files and the path tree: counting, and leaving the tree

    A reference leaves the tree when it is closed, or when its path is removed. *)
From S2P Require Import Prelude Errno Buffer Types File State PathTree FidRef Handlers.
From S2P Require Import ProgramLogic RefCount RefSteps RefOps PathSync SyncSteps.

Section ops.
Context {W File P : Type} {B : Backend W File} {RB : Returning B} {PB : PathBackend W File P}.
Local Notation St := (St W File).
Local Notation M := (M W File).
Implicit Types (s : St) (X L : rid -> Prop) (D : nid -> rid -> Prop) (hole : option (nid * string * nid)).

(** ** Reading *)

Lemma ok_get_ref_any {C} r (k : fidRef File -> M C) h s Q (Z : St -> Prop) :
  Z s -> (forall fr, refHeap s !! r = Some fr -> ok (k fr h s) Q Z) ->
  ok ((get_ref r ≫= k) h s) Q Z.
Proof.
  intros HZ Hk. apply ok_bind. unfold get_ref. destruct (refHeap s !! r) as [fr|]; [by apply Hk|done].
Qed.

Lemma ok_get_node_any {C} n (k : pathNode -> M C) h s Q (Z : St -> Prop) :
  Z s -> (forall nd, nodes s !! n = Some nd -> ok (k nd h s) Q Z) ->
  ok ((get_node n ≫= k) h s) Q Z.
Proof.
  intros HZ Hk. apply ok_bind. unfold get_node. destruct (nodes s !! n) as [nd|]; [by apply Hk|done].
Qed.

(** ** Counting up *)

Lemma same_place_refs k (fr : fidRef File) : same_place fr (set_refs k fr).
Proof. by split_and!. Qed.

Definition counted s r fr k : St := with_heap s (<[r := set_refs k fr]> (refHeap s)).

Lemma PS_counted X X' L D hole s r fr k :
  PS X L D hole s -> refHeap s !! r = Some fr -> (forall q, q <> r -> X q -> X' q) ->
  (forall n name, registered s n r name -> 0 < k \/ X' r) ->
  PS X' L D hole (counted s r fr k).
Proof. intros HP Hr HX Hc. eapply PS_heap; [done..|apply same_place_refs|done|done]. Qed.

(** A reference in the tree has a count, unless it is new. *)
Lemma registered_refs X L D hole s n r name fr :
  PS X L D hole s -> registered s n r name -> refHeap s !! r = Some fr -> 0 < refs fr \/ X r.
Proof.
  intros HP (nd & Hn & Hname) Hr. destruct (ps_reg _ _ _ _ _ HP _ _ _ _ Hn Hname) as (fr' & p & pr & []).
  assert (fr' = fr) as -> by congruence. done.
Qed.

Lemma PS_IncRef X X' L D hole s r fr :
  PS X L D hole s -> refHeap s !! r = Some fr ->
  (forall q, q <> r -> X q -> X' q) -> (X r -> X' r \/ refs fr = 0) ->
  PS X' L D hole (counted s r fr (refs fr + 1)).
Proof.
  intros HP Hr HX HXr. eapply PS_counted; [done..|]. intros n name Hreg.
  destruct (registered_refs _ _ _ _ _ _ _ _ _ HP Hreg Hr) as [?|H]; [left; lia|].
  destruct (HXr H) as [?|?]; [by right|left; lia].
Qed.

Lemma sync_ext_counted s r fr k : refHeap s !! r = Some fr -> sync_ext s (counted s r fr k).
Proof. intros Hr. exact (sync_ext_heap s r fr _ Hr (same_place_refs k fr)). Qed.

Lemma IncRef_eq r h s fr : refHeap s !! r = Some fr ->
  IncRef r h s = Ret tt (counted s r fr (refs fr + 1)).
Proof. intros Hr. unfold IncRef, mbind, M_bind, get_ref. by rewrite Hr. Qed.

(** ** An entry goes *)

Lemma PS_unregister X L L' D hole s n nd nd' r name :
  PS X L D hole s -> nodes s !! n = Some nd -> childRefNames nd !! r = Some name ->
  tables_agree nd' -> childRefNames nd' = delete r (childRefNames nd) ->
  childNodes nd' = childNodes nd -> deleted nd' = deleted nd ->
  (forall q, L q -> L' q) -> (r ∈ closes (trace s) \/ L' r) ->
  let s' := with_nodes s (<[n := nd']> (nodes s)) (next_node s) in
  PS X L' D hole s' /\ (forall q, q <> r -> good s q -> good s' q) /\
  (r ∈ closes (trace s) -> sync_ext s s') /\ forall n' name', ~ registered s' n' r name'.
Proof.
  intros HP Hn Hname Hok Hnames Hch Hdel HL Hr s'.
  assert (Hg : forall q, (q = r -> r ∈ closes (trace s)) -> good s q -> good s' q).
  { intros q Hq. apply (good_node s n nd nd' Hn); [congruence|]. intros nm Hnm.
    rewrite Hnames. destruct (decide (q = r)) as [->|Hne]; [right; left; by apply Hq|].
    left. by rewrite lookup_delete_ne. }
  assert (Hg' : forall q, good s q \/ L q -> good s' q \/ L' q).
  { intros q [Hq|Hq]; [|by auto]. destruct (decide (q = r)) as [->|Hne]; [|left; by apply Hg].
    destruct Hr as [Hc|Hr]; [left; by apply Hg|by right]. }
  split_and!.
  - apply (PS_node s n nd nd' Hn X L L' D D hole hole); try done.
    + intros nm pn. rewrite Hch. by eapply (ps_child _ _ _ _ _ HP).
    + intros q nm. rewrite Hnames, lookup_delete_Some. intros [_ Hq].
      destruct (ps_reg _ _ _ _ _ HP _ _ _ _ Hn Hq) as (fr & p & pr & Hat). exists fr, p, pr.
      eapply reg_at_node; [exact Hat|done|done|]. by rewrite Hch.
  - intros q Hne. by apply Hg.
  - intros Hc. apply (sync_ext_node s n nd'). intros q. by apply Hg.
  - intros n' name' (nd0 & Hn0 & Hname0). cbn in Hn0. rewrite lookup_insert_Some in Hn0.
    destruct Hn0 as [[<- <-]|[Hne Hn0]].
    + by rewrite Hnames, lookup_delete_eq in Hname0.
    + destruct (reg_unique X L D hole s n n' r name name') as [? _]; [done|by exists nd|by exists nd0|].
      congruence.
Qed.

(** ** What the dropping of a reference changes *)

Record dec_step s s' : Prop := {
  ds_heap : forall r fr, refHeap s !! r = Some fr -> exists k, refHeap s' !! r = Some (set_refs k fr);
  ds_two : forall r fr, refHeap s !! r = Some fr -> 2 <= refs fr ->
    exists fr', refHeap s' !! r = Some fr' /\ 1 <= refs fr';
  ds_nodes : forall n nd, nodes s !! n = Some nd -> exists nd', nodes s' !! n = Some nd' /\
    childNodes nd' = childNodes nd /\ childRefNames nd' ⊆ childRefNames nd;
  ds_paths : forall f x, fpath (world s) f = Some x -> fpath (world s') f = Some x;
  ds_next : next_ref s' = next_ref s;
  ds_old : forall r, refHeap s !! r = None -> refHeap s' !! r = None;
}.

(** The same, but that the counts of [r] are not spoken of. *)
Lemma dec_step_refl s : dec_step s s.
Proof.
  split; try done.
  - intros r fr Hr. exists (refs fr). rewrite Hr. by destruct fr.
  - intros r fr Hr H2. exists fr. split; [done|lia].
  - intros n nd Hn. by exists nd.
Qed.

(** One reference is counted down, and leaves the tree if that was its last holder. *)
Definition dropped s s' r fr : Prop :=
  (forall q, q <> r -> refHeap s' !! q = refHeap s !! q) /\
  refHeap s' !! r = Some (set_refs (refs fr - 1) fr) /\
  (forall n nd, nodes s !! n = Some nd -> exists nd', nodes s' !! n = Some nd' /\
    childNodes nd' = childNodes nd /\ childRefNames nd' ⊆ childRefNames nd) /\
  (forall f x, fpath (world s) f = Some x -> fpath (world s') f = Some x) /\
  next_ref s' = next_ref s.

Lemma dec_step_dropped s s1 s2 r fr :
  refHeap s !! r = Some fr -> dropped s s1 r fr -> s2 = s1 \/ (refs fr = 1 /\ dec_step s1 s2) ->
  dec_step s s2.
Proof.
  intros Hr (Hne & Hr1 & Hnodes & Hpaths & Hnext) Hs.
  assert (H1 : forall q fq, refHeap s !! q = Some fq -> exists k, refHeap s1 !! q = Some (set_refs k fq) /\
    (q <> r -> k = refs fq)).
  { intros q fq Hq. destruct (decide (q = r)) as [->|Hqr].
    - assert (fq = fr) as -> by congruence. by eexists.
    - exists (refs fq). rewrite Hne by done. split; [rewrite Hq; by destruct fq|done]. }
  assert (Hold : forall q, refHeap s !! q = None -> refHeap s1 !! q = None).
  { intros q Hq. rewrite Hne; [done|congruence]. }
  destruct Hs as [->|[Hone [D1 D2 D3 D4 D5 D6]]].
  - split; try done.
    + intros q fq Hq. destruct (H1 _ _ Hq) as (k & Hk & _). by exists k.
    + intros q fq Hq H2. destruct (decide (q = r)) as [->|Hqr].
      * assert (fq = fr) as -> by congruence. eexists. split; [exact Hr1|cbn; lia].
      * exists fq. rewrite Hne by done. split; [done|lia].
  - split.
    + intros q fq Hq. destruct (H1 _ _ Hq) as (k & Hk & _). destruct (D1 _ _ Hk) as (k' & Hk').
      by exists k'.
    + intros q fq Hq H2. assert (q <> r) as Hqr by (intros ->; simplify_eq; lia).
      eapply D2; [|exact H2]. by rewrite Hne.
    + intros n nd Hn. destruct (Hnodes _ _ Hn) as (nd1 & Hn1 & Hc1 & Hs1).
      destruct (D3 _ _ Hn1) as (nd2 & Hn2 & Hc2 & Hs2). exists nd2. split; [done|].
      split; [congruence|by etrans].
    + auto.
    + congruence.
    + auto.
Qed.

Lemma removeChild_sync X L D hole s n nd r h :
  PS X L D hole s -> nodes s !! n = Some nd -> r ∈ closes (trace s) ->
  ok (removeChild n r h s) (fun _ s' => exists nd',
      s' = with_nodes s (<[n := nd']> (nodes s)) (next_node s) /\
      PS X L D hole s' /\ sync_ext s s' /\ childNodes nd' = childNodes nd /\
      childRefNames nd' = delete r (childRefNames nd))
    (fun _ => False).
Proof.
  intros HP Hn Hc. unfold removeChild. apply ok_with_lock. eapply ok_get_node; [exact Hn|].
  pose proof (ps_names _ _ _ _ _ HP _ _ Hn) as Hok.
  destruct (childRefNames nd !! r) as [name|] eqn:E.
  - destruct (proj1 (Hok _ _) E) as (m & Hm & _). rewrite Hm. cbn [ok set_node].
    eexists. split; [reflexivity|]. cbv zeta.
    destruct (PS_unregister X L L D hole s n nd _ r name HP Hn E (tables_agree_remove nd r name m Hok E Hm))
      as (HP' & _ & He & _); [done..|by left|].
    split; [exact HP'|]. split; [by apply He|done].
  - cbn [ok set_node].
    assert (Hsame : set_childRefs (fun m => m) (delete r) nd = nd)
      by (unfold set_childRefs; rewrite delete_id by done; by destruct nd).
    exists nd. rewrite Hsame, delete_id by done. split; [done|].
    assert (Hs : with_nodes s (<[n:=nd]> (nodes s)) (next_node s) = s)
      by (unfold with_nodes; rewrite insert_id by done; by destruct s).
    change (mk_St _ _ _ _ _ _ _) with (with_nodes s (<[n:=nd]> (nodes s)) (next_node s)).
    rewrite Hs. split; [done|]. split; [reflexivity|done].
Qed.

(** A new reference that is in no table is no exception. *)
Lemma PS_drop_X X X' L D hole s :
  PS X L D hole s -> (forall q n name, X q -> registered s n q name -> X' q) -> PS X' L D hole s.
Proof.
  intros [H1 H2 H3 H4 H5 H6 H7 H8] HX. split; try done. intros n nd r name Hn Hr.
  destruct (H3 _ _ _ _ Hn Hr) as (fr & p & pr & []). exists fr, p, pr. split; try done.
  destruct ra_refs as [?|?]; [by left|right]. eapply HX; [done|by exists nd].
Qed.

Lemma DecRef_fuel_sync fuel X L D hole r h s :
  PS X L D hole s -> is_Some (refHeap s !! r) ->
  ok (DecRef_fuel fuel r h s)
    (fun _ s' => PS X L D hole s' /\ dec_step s s' /\ sync_ext s s') (fun _ => False).
Proof.
  revert r s. induction fuel as [|fuel IH]; intros r s HP [fr Hr]; cbn [DecRef_fuel]; [done|].
  eapply ok_get_ref; [exact Hr|]. apply ok_bind. cbn [set_ref ok]. change (mk_St _ _ _ _ _ _ _) with (counted s r fr (refs fr - 1)).
  destruct (Z.eqb_spec (refs fr - 1) 0) as [Hz|Hz].
  2: { cbn. assert (HP1 : PS X L D hole (counted s r fr (refs fr - 1))).
    { eapply PS_counted; [done|done|done|]. intros n name Hreg.
      destruct (registered_refs _ _ _ _ _ _ _ _ _ HP Hreg Hr) as [?|?]; [left; lia|by right]. }
    split; [done|]. split; [|by apply sync_ext_counted].
    eapply (dec_step_dropped s (counted s r fr (refs fr - 1)) _ r fr Hr); [|by left].
    split_and!; [intros q Hq; cbn; by rewrite lookup_insert_ne|apply lookup_insert_eq| |done|done].
    intros n nd Hn. by exists nd. }
  set (X1 := fun q => X q \/ q = r). set (s1 := counted s r fr (refs fr - 1)).
  assert (HP1 : PS X1 L D hole s1).
  { eapply PS_counted; [done|done|by left|]. intros. right. by right. }
  apply ok_bind. rewrite call_eq. cbn [ok].
  set (s2 := after_call (Some r) (FClose (file fr)) h s1).
  assert (HP2 : PS X1 L D hole s2) by by apply PS_call.
  assert (He2 : sync_ext s s2).
  { etrans; [by apply (sync_ext_counted s r fr (refs fr - 1))|apply sync_ext_event]. }
  assert (Hc2 : r ∈ closes (trace s2)) by (cbn; by left).
  assert (Hd2 : dropped s s2 r fr).
  { split_and!; [intros q Hq; cbn; by rewrite lookup_insert_ne|apply lookup_insert_eq| | |done].
    - intros n nd Hn. by exists nd.
    - intros f x Hx. by apply (pl_frame _ (FClose (file fr))). }
  assert (Hout : forall s', PS X1 L D hole s' -> (forall n name, ~ registered s' n r name) -> PS X L D hole s').
  { intros s' HP' Hno. eapply PS_drop_X; [exact HP'|]. intros q n name [?| ->] Hreg; [done|].
    by destruct (Hno n name). }
  assert (Hr2 : refHeap s2 !! r = Some (set_refs (refs fr - 1) fr)) by apply lookup_insert_eq.
  destruct (parent fr) as [p|] eqn:Hp.
  2: { cbn. split; [|split; [eapply dec_step_dropped; [done..|by left]|done]].
    apply Hout; [done|]. intros n name (nd & Hn & Hname).
    destruct (ps_reg _ _ _ _ _ HP2 _ _ _ _ Hn Hname) as (fr' & p & pr & []).
    rewrite Hr2 in ra_ref. injection ra_ref as <-. cbn in ra_parent. congruence. }
  destruct (ps_ref _ _ _ _ _ HP2 _ _ Hr2) as (_ & _ & _ & Hpp). destruct (Hpp p Hp) as [pr Hpr].
  eapply ok_get_ref; [exact Hpr|].
  destruct (ps_ref _ _ _ _ _ HP2 _ _ Hpr) as ([nd Hn] & _).
  eapply ok_seq; [by eapply removeChild_sync| |done]. intros [] s3 (nd' & -> & HP3 & He3 & Hch & Hnames).
  set (s3 := with_nodes s2 _ _) in *.
  assert (Hno : forall n name, ~ registered s3 n r name).
  { intros n name (nd0 & Hn0 & Hname). cbn in Hn0. rewrite lookup_insert_Some in Hn0.
    destruct Hn0 as [[<- <-]|[Hne Hn0]]; [by rewrite Hnames, lookup_delete_eq in Hname|].
    destruct (ps_reg _ _ _ _ _ HP2 _ _ _ _ Hn0 Hname) as (fr' & p' & pr' & []).
    rewrite Hr2 in ra_ref. injection ra_ref as <-. cbn in ra_parent. congruence. }
  assert (HP3' : PS X L D hole s3) by by apply Hout.
  assert (Hd3 : dropped s s3 r fr).
  { destruct Hd2 as (H1 & H2 & H3 & H4 & H5). split_and!; [done|done| |done|done].
    intros n nd0 Hn0. destruct (H3 _ _ Hn0) as (nd1 & Hn1 & Hc1 & Hs1).
    destruct (decide (n = fr_pathNode pr)) as [->|Hne].
    - assert (nd1 = nd) as -> by congruence. exists nd'. cbn. rewrite lookup_insert_eq.
      split; [done|]. split; [congruence|]. rewrite Hnames. etrans; [apply delete_subseteq|done].
    - exists nd1. cbn. by rewrite lookup_insert_ne. }
  assert (Hfin : forall s', PS X L D hole s' /\ dec_step s3 s' /\ sync_ext s3 s' ->
    PS X L D hole s' /\ dec_step s s' /\ sync_ext s s').
  { intros s' (HP' & Hd' & He'). split; [done|]. split.
    - eapply dec_step_dropped; [done|exact Hd3|]. right. split; [lia|done].
    - etrans; [exact He2|]. by etrans. }
  eapply ok_seq; [apply IH; [done|by exists pr]| |done]. intros pErr s4 H4. cbn. by apply Hfin.
Qed.

Lemma DecRef_sync X L D hole r h s :
  PS X L D hole s -> is_Some (refHeap s !! r) ->
  ok (DecRef r h s)
    (fun _ s' => PS X L D hole s' /\ dec_step s s' /\ sync_ext s s') (fun _ => False).
Proof. intros HP Hr. unfold DecRef. apply ok_bind. cbn [count_refs ok]. by apply DecRef_fuel_sync. Qed.
End ops.
