(* ===== verification/SyncRemove.v ===== *)
(** * The paths of files and the path tree: what is removed

    [removeWithName] takes the references of a name out of the tree; [markChildDeleted]
    marks what was below it. *)
From S2P Require Import Prelude Errno Buffer Types File State PathTree FidRef Handlers.
From S2P Require Import ProgramLogic RefCount RefSteps RefOps PathSync SyncSteps SyncOps.

Section remove.
Context {W File P : Type} {B : Backend W File} {RB : Returning B} {PB : PathBackend W File P}.
Local Notation St := (St W File).
Local Notation M := (M W File).
Implicit Types (s : St) (X L : rid -> Prop) (D : nid -> rid -> Prop) (hole : option (nid * string * nid)).

(** ** Loops *)

(** [J] is told the elements to come. *)
Lemma ok_for_each {A} (f : A -> M unit) (J : list A -> St -> Prop) Z h l s :
  (forall x l s, J (x :: l) s -> ok (f x h s) (fun _ => J l) Z) ->
  J l s -> ok (for_each f l h s) (fun _ => J []) Z.
Proof.
  intros Hf. revert s. induction l as [|x l IH]; intros s Hs; cbn [for_each]; [done|].
  eapply ok_seq; [by apply Hf| |done]. intros [] s' Hs'. by apply IH.
Qed.

(** One round of [removeWithName]. *)
Definition visit (p : nid) (name : string) (fn : option (rid -> M unit)) (ref : rid) : M unit :=
  nd ← get_node p;
  if negb (bool_decide (ref ∈ default ∅ (childRefs nd !! name))) then mret tt
  else
    set_node p (set_childRefs (alter (fun m => m ∖ {[ref]}) name) (delete ref) nd);;
    match fn with
    | None => mret tt
    | Some fn =>
        ok ← TryIncRef ref;
        if (ok : bool) then fn ref;; _ ← DecRef ref; mret tt else mret tt
    end.

Lemma removeWithName_sync p name fn h s (J : list rid -> St -> Prop) Q Z :
  (forall rs s, J rs s -> is_Some (nodes s !! p)) ->
  (forall rs, (forall r, registered s p r name -> r ∈ rs) -> J rs s) -> is_Some (nodes s !! p) ->
  (forall nd, nodes s !! p = Some nd -> tables_agree nd) ->
  (forall ref rs h s, J (ref :: rs) s -> ok (visit p name fn ref h s) (fun _ => J rs) Z) ->
  (forall s nd, J [] s -> nodes s !! p = Some nd ->
     Q (childNodes nd !! name) (with_nodes s (<[p := set_childNodes (delete name) nd]> (nodes s)) (next_node s))) ->
  ok (removeWithName p name fn h s) Q Z.
Proof.
  intros Hnode Hinit [nd0 Hn0] Hok Hvisit Hend. apply ok_with_lock. eapply ok_get_node; [exact Hn0|].
  eapply (ok_seq _ _ _ _ _ _ (fun _ => J []) Z); [| |done].
  - destruct (childRefs nd0 !! name) as [m0|] eqn:Em.
    + apply ok_bind. cbn [ok map_range]. eapply (ok_for_each (visit p name fn) J).
      * intros ref rs s' HJ. by apply Hvisit.
      * apply Hinit. intros r (nd & Hn & Hr). assert (nd = nd0) as -> by congruence.
        rewrite range_perm. apply (Hok _ Hn0) in Hr as (m & Hm & Hin).
        assert (m = m0) as -> by congruence. by apply elem_of_elements.
    + apply Hinit. intros r (nd & Hn & Hr). assert (nd = nd0) as -> by congruence.
      apply (Hok _ Hn0) in Hr as (m & Hm & _). congruence.
  - intros [] s1 HJ. destruct (Hnode _ _ HJ) as [nd1 Hn1]. eapply ok_get_node; [exact Hn1|].
    apply ok_bind. cbn [ok set_node mret M_ret]. by apply Hend.
Qed.

(** ** Marking *)

(** The children of the nodes stay. *)
Definition same_kids s s' : Prop := forall n nd, nodes s !! n = Some nd ->
  exists nd', nodes s' !! n = Some nd' /\ childNodes nd' = childNodes nd.

#[export] Instance same_kids_preorder : PreOrder same_kids.
Proof.
  split; [intros s n nd Hn; by exists nd|]. intros s1 s2 s3 H1 H2 n nd Hn.
  destruct (H1 _ _ Hn) as (nd' & Hn' & ?). destruct (H2 _ _ Hn') as (nd'' & ? & ?).
  exists nd''. split; [done|congruence].
Qed.

Lemma same_kids_node s n nd nd' :
  nodes s !! n = Some nd -> childNodes nd' = childNodes nd ->
  same_kids s (with_nodes s (<[n := nd']> (nodes s)) (next_node s)).
Proof.
  intros Hn Hc n' nd0 Hn0. cbn. destruct (decide (n' = n)) as [->|Hne].
  - exists nd'. rewrite lookup_insert_eq. split; [done|congruence].
  - exists nd0. by rewrite lookup_insert_ne.
Qed.

(** What is on the way out is out when its node is marked. *)
Lemma PS_mark X L L' D hole s n nd :
  PS X L D hole s -> nodes s !! n = Some nd ->
  (forall r, L r -> L' r \/ exists fr, refHeap s !! r = Some fr /\ fr_pathNode fr = n) ->
  let s' := with_nodes s (<[n := set_deleted true nd]> (nodes s)) (next_node s) in
  PS X L' D hole s' /\ sync_ext s s' /\ same_kids s s'.
Proof.
  intros HP Hn HL s'.
  assert (Hg : forall r, good s r -> good s' r).
  { intros r. apply (good_node s n nd _ Hn); [done|]. intros name Hname. left. by exists name. }
  assert (Hg' : forall r, good s r \/ L r -> good s' r \/ L' r).
  { intros r [Hr|Hr]; [left; by apply Hg|]. destruct (HL r Hr) as [?|(fr & Hfr & Hpn)]; [by right|left].
    exists fr. split; [done|]. right. right. left. exists (set_deleted true nd). rewrite Hpn. cbn.
    by rewrite lookup_insert_eq. }
  split; [|split; [by eapply sync_ext_node|by apply (same_kids_node s n nd)]].
  apply (PS_node s n nd (set_deleted true nd) Hn X L L' D D hole hole); try done.
  - exact (ps_names _ _ _ _ _ HP n nd Hn).
  - intros name pn. exact (ps_child _ _ _ _ _ HP n nd name pn Hn).
  - intros r name Hname. destruct (ps_reg _ _ _ _ _ HP _ _ _ _ Hn Hname) as (fr & p & pr & Hat).
    exists fr, p, pr. by eapply reg_at_node.
Qed.

(** The state is all right, and nothing was lost. *)
Definition after s s' : Prop := sync s' /\ sync_ext s s' /\ same_kids s s'.

Lemma notifyDelete_fuel_sync fuel pn h s :
  sync s -> ok (notifyDelete_fuel fuel pn h s) (fun _ => after s) (after s).
Proof.
  revert pn h s. induction fuel as [|fuel IH]; intros pn h s Hs; cbn [notifyDelete_fuel]; [done|].
  apply ok_get_node_any; [by split_and!|]. intros nd Hn. apply ok_bind. cbn [ok set_node].
  destruct (PS_mark _ _ nobody _ _ _ _ _ Hs Hn) as (Hs1 & He1 & Hk1); [by left|].
  apply ok_with_lock. set (s1 := with_nodes _ _ _) in *.
  change (mk_St _ _ _ _ _ _ _) with s1.
  apply ok_get_node_any; [by split_and!|]. intros nd1 Hn1. apply ok_bind. cbn [ok map_range].
  eapply (ok_for_each _ (fun _ => after s)); [|by split_and!].
  intros [name pn'] l s2 (Hs2 & He2 & Hk2).
  assert (Ht : forall s3, after s2 s3 -> after s s3).
  { intros s3 (H1 & H2 & H3). split; [done|]. split; by etrans. }
  eapply ok_conseq; [by apply IH|intros ? ?; apply Ht|apply Ht].
Qed.

(** The references at a node, in a given state. *)
Definition at_path s (pn : option nid) (r : rid) : Prop :=
  exists fr, refHeap s !! r = Some fr /\ Some (fr_pathNode fr) = pn.

Lemma PS_no_limbo X L L' D hole s :
  PS X L D hole s -> (forall r, L r -> L' r \/ good s r) -> PS X L' D hole s.
Proof.
  intros [H1 H2 H3 H4 H5 H6 H7 H8] HL. split; try done.
  - intros n nd r name Hn Hr. destruct (H3 _ _ _ _ Hn Hr) as (fr & p & pr & []).
    exists fr, p, pr. split; try done. destruct ra_good as [?|H]; [by left|].
    destruct (HL _ H); auto.
  - intros c cs fid r Hc Hf. destruct (H6 _ _ _ _ Hc Hf) as [?|H]; [by left|]. destruct (HL _ H); auto.
Qed.

(** The child node of a name is taken out of its parent's table. *)
Lemma PS_cut X L D hole s n nd name :
  PS X L D hole s -> nodes s !! n = Some nd -> (forall r, ~ registered s n r name) ->
  let s' := with_nodes s (<[n := set_childNodes (delete name) nd]> (nodes s)) (next_node s) in
  PS X L D hole s' /\ sync_ext s s'.
Proof.
  intros HP Hn Hno s'.
  assert (Hg : forall r, good s r -> good s' r).
  { intros r. apply (good_node s n nd _ Hn); [done|]. intros nm Hnm. left. by exists nm. }
  split; [|by eapply sync_ext_node].
  apply (PS_node s n nd _ Hn X L L D D hole hole); try done.
  - intros q [?|?]; [left; by apply Hg|by right].
  - exact (ps_names _ _ _ _ _ HP n nd Hn).
  - intros nm pn. cbn. rewrite lookup_delete_Some. intros [_ H]. by apply (ps_child _ _ _ _ _ HP n nd nm).
  - intros r nm Hnm. destruct (ps_reg _ _ _ _ _ HP _ _ _ _ Hn Hnm) as (fr & p & pr & Hat).
    assert (name <> nm) by (intros ->; apply (Hno r); by exists nd).
    exists fr, p, pr. eapply reg_at_node; [exact Hat| |done|].
    + intros q [?|?]; [left; by apply Hg|by right].
    + cbn. by rewrite lookup_delete_ne.
Qed.

Lemma markChildDeleted_sync f fr name h s :
  sync s -> refHeap s !! f = Some fr ->
  ok (markChildDeleted f name h s)
    (fun _ s' => sync s' /\ sync_ext s s' /\ exists nd, nodes s' !! fr_pathNode fr = Some nd /\
       childNodes nd !! name = None)
    (fun s' => sync s' /\ sync_ext s s').
Proof.
  intros Hs Hr. unfold markChildDeleted. eapply ok_get_ref; [exact Hr|].
  set (n := fr_pathNode fr). destruct (ps_ref _ _ _ _ _ Hs _ _ Hr) as ([nd0 Hn0] & _).
  fold n in Hn0. set (pn := childNodes nd0 !! name). set (L := at_path s pn).
  set (J := fun (rs : list rid) s' => PS nobody L clean_paths None s' /\
    (forall r, good s r -> good s' r \/ L r) /\ refHeap s' = refHeap s /\ conns s' = conns s /\
    same_kids s s' /\ forall r, registered s' n r name -> r ∈ rs).
  eapply (ok_seq _ _ _ _ _ _ (fun o s' => o = pn /\ PS nobody L clean_paths None s' /\
    (forall r, good s r -> good s' r \/ L r) /\ refHeap s' = refHeap s /\ conns s' = conns s /\
    (forall m, is_Some (nodes s !! m) -> is_Some (nodes s' !! m)) /\
    exists nd, nodes s' !! n = Some nd /\ childNodes nd !! name = None) (fun _ => False)); [| |done].
  - apply (removeWithName_sync _ _ _ _ _ J).
    + intros rs s' (_ & _ & _ & _ & Hk & _). destruct (Hk _ _ Hn0) as (nd & ? & _). by exists nd.
    + intros rs Hrs. split_and!; [eapply PS_weaken; [exact Hs|done|done|done|by left]|by left|done|done|done|done].
    + by exists nd0.
    + by apply (ps_names _ _ _ _ _ Hs).
    + intros ref rs h' s1 (HP1 & Hg1 & Hh1 & Hc1 & Hk1 & Hreg1). unfold visit.
      destruct (Hk1 _ _ Hn0) as (nd & Hn & Hch). eapply ok_get_node; [exact Hn|].
      case_bool_decide as Hin; cbn [negb].
      2: { split_and!; try done. intros r Hrr. pose proof (Hreg1 r Hrr) as Hr1.
        apply elem_of_cons in Hr1 as [->|?]; [|done]. destruct Hin. destruct Hrr as (nd' & Hn' & Hname).
        assert (nd' = nd) as -> by congruence.
        apply (ps_names _ _ _ _ _ HP1 _ _ Hn) in Hname as (m & -> & ?). done. }
      destruct (childRefs nd !! name) as [m|] eqn:Em; cbn [default] in Hin; [|set_solver].
      pose proof (reg_mem _ _ _ _ _ _ _ _ _ _ HP1 Hn Em Hin) as Hname.
      destruct (ps_reg _ _ _ _ _ HP1 _ _ _ _ Hn Hname) as (fref & q & qr & Hat).
      assert (HL : L ref).
      { exists fref. split; [rewrite <- Hh1; apply Hat|].
        destruct (ra_child _ _ _ _ _ _ _ _ _ _ _ _ Hat) as [<-|?]; [|done]. unfold pn. by rewrite Hch. }
      apply ok_bind. cbn [ok set_node mret M_ret].
      destruct (PS_unregister _ _ L _ _ _ _ _ _ _ _ HP1 Hn Hname
        (tables_agree_alter nd ref name (ps_names _ _ _ _ _ HP1 _ _ Hn) Hname)) as (HP2 & Hg2 & _ & Hno);
        [done|done|done|done|by right|].
      change (mk_St _ _ _ _ _ _ _) with (with_nodes s1 (<[n:=set_childRefs
        (alter (fun m0 => m0 ∖ {[ref]}) name) (delete ref) nd]> (nodes s1)) (next_node s1)).
      cbv zeta in HP2, Hg2, Hno. set (s2 := with_nodes _ _ _) in *.
      split_and!; [done| |done|done|etrans; [exact Hk1|by apply (same_kids_node s1 n nd)]|].
      * intros r Hgr. destruct (Hg1 r Hgr) as [H|H]; [|by right].
        destruct (decide (r = ref)) as [->|Hne]; [by right|left; by apply Hg2].
      * intros r (nd' & Hn' & Hname'). cbn in Hn'. rewrite lookup_insert_eq in Hn'. injection Hn' as <-.
        cbn in Hname'. apply lookup_delete_Some in Hname' as [Hne Hname'].
        assert (Hr1 : r ∈ ref :: rs) by (apply Hreg1; by exists nd).
        apply elem_of_cons in Hr1 as [?|?]; [congruence|done].
    + intros s1 nd (HP1 & Hg1 & Hh1 & Hc1 & Hk1 & Hreg1) Hn. destruct (Hk1 _ _ Hn0) as (nd' & Hn' & Hch).
      assert (nd' = nd) as -> by congruence. split; [by rewrite Hch|].
      destruct (PS_cut _ _ _ _ _ _ _ name HP1 Hn) as (HP2 & He2).
      { intros r Hrr. by apply Hreg1, not_elem_of_nil in Hrr. }
      split_and!; [exact HP2| |done|done| |].
      * intros r Hgr. destruct (Hg1 r Hgr) as [?|?]; [left; by apply (se_good _ _ He2)|by right].
      * intros m [ndm Hm]. destruct (Hk1 _ _ Hm) as (ndm' & Hm' & _).
        apply (se_nodes _ _ He2). by exists ndm'.
      * eexists. cbn. rewrite lookup_insert_eq. split; [done|]. cbn. by rewrite lookup_delete_eq.
  - intros o s1 (-> & HP1 & Hg1 & Hh1 & Hc1 & Hnd1 & Hcut).
    assert (Hext : (forall r, L r -> good s1 r) -> sync s1 /\ sync_ext s s1).
    { intros HL. split.
      - eapply PS_no_limbo; [exact HP1|]. intros r Hl. right. by apply HL.
      - split; [|rewrite Hh1; by eauto|done|by rewrite Hc1].
        intros r Hgr. destruct (Hg1 r Hgr) as [?|?]; [done|by apply HL]. }
    destruct pn as [pn0|] eqn:Epn.
    2: { destruct Hext as [? ?]; [|by split]. intros r (fr' & _ & ?). done. }
    unfold notifyDelete. apply ok_bind. cbn [ok count_nodes]. cbn [notifyDelete_fuel].
    assert (Hpn1 : is_Some (nodes s1 !! pn0)) by (apply Hnd1; by eapply (ps_child _ _ _ _ _ Hs)).
    destruct Hpn1 as [ndp Hpn1]. eapply ok_get_node; [exact Hpn1|]. apply ok_bind. cbn [ok set_node].
    destruct (PS_mark _ _ nobody _ _ _ _ _ HP1 Hpn1) as (Hs2 & He2 & Hk2).
    { intros r (fr' & Hr' & [= Hpn']). right. exists fr'. by rewrite Hh1. }
    set (s2 := with_nodes _ _ _) in *. change (mk_St _ _ _ _ _ _ _) with s2.
    assert (Hse : sync_ext s s2).
    { split.
      - intros r Hgr. destruct (Hg1 r Hgr) as [H|(fr' & Hr' & [= Hpn'])]; [by apply (se_good _ _ He2)|].
        exists fr'. cbn. rewrite Hh1. split; [done|]. right. right. left.
        exists (set_deleted true ndp). cbn. by rewrite Hpn', lookup_insert_eq.
      - intros r fr' Hr'. cbn. rewrite Hh1. by eauto.
      - intros m Hm. apply (se_nodes _ _ He2). by apply Hnd1.
      - intros c Hc. cbn. by rewrite Hc1. }
    destruct Hcut as (ndc & Hnc & Hcut).
    assert (Hfin : forall s3, after s2 s3 -> sync s3 /\ sync_ext s s3 /\
      exists nd, nodes s3 !! n = Some nd /\ childNodes nd !! name = None).
    { intros s3 (Hs3 & He3 & Hk3). split; [done|]. split; [by etrans|].
      destruct (Hk2 _ _ Hnc) as (nd2 & Hn2 & Hc2). destruct (Hk3 _ _ Hn2) as (nd3 & Hn3 & Hc3).
      exists nd3. split; [done|congruence]. }
    apply ok_with_lock. apply ok_get_node_any; [by split|]. intros nd2 Hn2. apply ok_bind. cbn [ok map_range].
    eapply ok_conseq; [eapply (ok_for_each _ (fun _ => after s2)); [|by split_and!]| |].
    + intros [nm pn'] l s3 (Hs3 & He3 & Hk3).
      assert (Ht : forall s4, after s3 s4 -> after s2 s4).
      { intros s4 (H1 & H2 & H3). split; [done|]. split; by etrans. }
      eapply ok_conseq; [by apply notifyDelete_fuel_sync|intros ? ?; apply Ht|apply Ht].
    + intros ? ?. apply Hfin.
    + intros s3 H3. apply Hfin in H3 as (? & ? & _). done.
Qed.
End remove.
