(* ===== verification/SyncNotify.v ===== *)
(** * The paths of files and the path tree: the news of a new path

    [Renamed] sets a file's path; then those of its children are to be set, and so on down:
    [notifyNameChange]. *)
From S2P Require Import Prelude Errno Buffer Types File State PathTree FidRef Handlers.
From S2P Require Import ProgramLogic RefCount RefSteps RefOps PathSync SyncSteps SyncOps SyncRemove.

Section notify.
Context {W File P : Type} {B : Backend W File} {RB : Returning B} {PB : PathBackend W File P}.
Local Notation St := (St W File).
Local Notation M := (M W File).
Implicit Types (s : St) (X L : rid -> Prop) (D : nid -> rid -> Prop) (hole : option (nid * string * nid)).

(** Only the entries of the tree can be out of date. *)
Lemma PS_change_D X L D D' hole s :
  PS X L D hole s -> (forall n r name, registered s n r name -> D n r -> D' n r) -> PS X L D' hole s.
Proof.
  intros [H1 H2 H3 H4 H5 H6 H7 H8] HD. split; try done. intros n nd r name Hn Hr.
  destruct (H3 _ _ _ _ Hn Hr) as (fr & p & pr & []). exists fr, p, pr. split; try done.
  destruct ra_path as [?|?]; [left|by right]. eapply HD; [by exists nd|done].
Qed.

(** Two references that are used share no file, a directory and one below it neither. *)
Lemma other_file X L D hole s r r' fr fr' :
  PS X L D hole s -> refHeap s !! r = Some fr -> refHeap s !! r' = Some fr' -> r <> r' ->
  is_Some (parent fr) -> is_Some (parent fr') \/ FileMode_IsDir (mode fr') = true ->
  file fr' <> file fr.
Proof.
  intros HP Hr Hr' Hne [p Hp] Hp' Heq.
  destruct (ps_share _ _ _ _ _ HP _ _ _ _ Hne Hr Hr' (eq_sym Heq)) as [[? ?]|[? ?]]; [congruence|].
  destruct Hp' as [[p' ?]|?]; congruence.
Qed.

Section renamed.
Context (X L : rid -> Prop) (D D' : nid -> rid -> Prop) (hole : option (nid * string * nid)).
Context (s : St) (ref : rid) (rr : fidRef File) (g : File) (y : P) (name : string) (h : held).
Context (HP : PS X L D hole s) (Hr : refHeap s !! ref = Some rr) (Hpar : is_Some (parent rr)).
Context (Hg : fpath (world s) g = Some y).
Let e := FRenamed (file rr) g name.

Lemma renamed_self : fpath (exec e (world s)).2 (file rr) = Some (fjoin y name).
Proof.
  destruct (ps_ref _ _ _ _ _ HP _ _ Hr) as (_ & [x Hx] & _). by eapply pl_renamed.
Qed.

Lemma renamed_other f x : f <> file rr -> fpath (world s) f = Some x ->
  fpath (exec e (world s)).2 f = Some x.
Proof. intros Hf Hx. apply pl_frame; [done|]. cbn. congruence. Qed.

Lemma PS_renamed r0 :
  (forall n q nm, registered s n q nm -> q <> ref -> D n q -> D' n q) ->
  (forall n q nm fq, registered s n q nm -> refHeap s !! q = Some fq -> parent fq = Some ref -> D' n q) ->
  (forall n nm, registered s n ref nm -> D' n ref \/
     (nm = name /\ exists d dr, parent rr = Some d /\ refHeap s !! d = Some dr /\ file dr = g /\ d <> ref)) ->
  PS X L D' hole (after_call r0 e h s).
Proof.
  intros H1 H2 H3. pose proof HP as [P1 P2 P3 P4 P5 P6 P7 P8]. split; try done.
  - intros n nd q nm Hn Hq. destruct (P3 _ _ _ _ Hn Hq) as (fq & p & pr & []).
    assert (Hreg : registered s n q nm) by (by exists nd).
    exists fq, p, pr.
    assert (Hgp : good (after_call r0 e h s) p \/ L p)
      by (destruct ra_good as [?|?]; [left; by apply good_event|by right]).
    split; try done.
    destruct (decide (p = ref)) as [->|Hpr]; [left; by apply (H2 n q nm fq)|].
    assert (Hpf : file pr <> file rr).
    { apply (other_file X L D hole s ref p rr pr); auto. }
    destruct (decide (q = ref)) as [->|Hqr].
    + assert (fq = rr) as -> by congruence. destruct (H3 _ _ Hreg) as [?|(-> & d & dr & Hd & Hdr & Hgd & _)]; [by left|].
      right. assert (d = p) as -> by congruence. assert (dr = pr) as -> by congruence.
      exists y. split; [apply renamed_other; [done|rewrite <- Hgd in Hg; congruence]|apply renamed_self].
    + destruct ra_path as [?|(x & Hx & Hy)]; [left; by eapply H1|right]. exists x.
      split; [by apply renamed_other|]. apply renamed_other; [|done].
      apply (other_file X L D hole s ref q rr fq); [done|done|done|congruence|done|left; by eexists].
  - intros q fq Hq. destruct (P4 _ _ Hq) as (? & Hx & ? & ?). split; [done|]. split; [|done].
    by apply pl_known.
Qed.
End renamed.

(** ** [notifyNameChange] *)

(** The entries that are out of date while the references of [pn] are visited: [todo] are
    those to come. *)
Definition dirty_at (D : nid -> rid -> Prop) (pn : nid) (nd : pathNode) (todo : rid -> Prop) : nid -> rid -> Prop :=
  fun n r => (D n r /\ n <> pn) \/ (exists name, childNodes nd !! name = Some n) \/ (n = pn /\ todo r).

Definition told s s' : Prop := nodes s' = nodes s /\ refHeap s' = refHeap s /\ sync_ext s s'.

Lemma told_trans s1 s2 s3 : told s1 s2 -> told s2 s3 -> told s1 s3.
Proof. intros (? & ? & ?) (? & ? & ?). split; [congruence|]. split; [congruence|by etrans]. Qed.

Definition tell (ref : rid) (name : string) : M unit :=
  fr ← get_ref ref;
  p ← parent_of ref;
  pr ← get_ref p;
  call (Some ref) (FRenamed (file fr) (file pr) name).

Lemma tell_sync D pn nd ref name (todo : rid -> Prop) h s :
  PS nobody nobody (dirty_at D pn nd (fun r => r = ref \/ todo r)) None s ->
  nodes s !! pn = Some nd -> childRefNames nd !! ref = Some name ->
  ok (tell ref name h s)
    (fun _ s' => PS nobody nobody (dirty_at D pn nd todo) None s' /\ told s s') (fun _ => False).
Proof.
  intros HP Hn Hname. destruct (ps_reg _ _ _ _ _ HP _ _ _ _ Hn Hname) as (fr & p & pr & []).
  assert (Hchild : childNodes nd !! name = Some (fr_pathNode fr)) by (by destruct ra_child).
  unfold tell. eapply ok_get_ref; [exact ra_ref|].
  apply ok_bind. unfold parent_of. eapply ok_get_ref; [exact ra_ref|]. rewrite ra_parent. cbn [ok mret M_ret].
  eapply ok_get_ref; [exact ra_pr|]. rewrite call_eq. cbn [ok].
  destruct (ps_ref _ _ _ _ _ HP _ _ ra_pr) as (_ & [y Hy] & _).
  split; [|split; [done|split; [done|apply sync_ext_event]]].
  eapply PS_renamed; [exact HP|exact ra_ref|by eexists|exact Hy|..].
  - intros n q nm Hreg Hne [H|[H|[-> [?|?]]]]; [by left|by right; left|done|by right; right].
  - intros n q nm fq (nd0 & Hn0 & Hq0) Hq Hpq. destruct (ps_reg _ _ _ _ _ HP _ _ _ _ Hn0 Hq0) as (fq' & p' & pr' & Hat).
    destruct Hat as [Ha Hb Hc Hd _ _ _ _ _]. assert (fq' = fq) as -> by congruence.
    assert (p' = ref) as -> by congruence. assert (pr' = fr) as -> by congruence.
    right. left. exists name. congruence.
  - intros n nm Hreg. destruct (reg_unique _ _ _ _ _ _ _ _ _ _ HP Hreg (ex_intro _ nd (conj Hn Hname))) as [-> ->].
    destruct (decide (p = ref)) as [->|Hne].
    + left. right. left. exists name. congruence.
    + right. split; [done|]. by exists p, pr.
Qed.

Lemma notifyNameChange_fuel_sync fuel pn D h s :
  PS nobody nobody D None s -> is_Some (nodes s !! pn) ->
  ok (notifyNameChange_fuel fuel pn h s)
    (fun _ s' => PS nobody nobody (fun n r => D n r /\ n <> pn) None s' /\ told s s') (fun _ => False).
Proof.
  revert pn D h s. induction fuel as [|fuel IH]; intros pn D h s HP [nd Hn];
    cbn [notifyNameChange_fuel]; [done|].
  eapply (ok_seq _ _ _ _ _ _ (fun _ s' => PS nobody nobody (dirty_at D pn nd (fun _ => False)) None s' /\
    told s s') (fun _ => False)); [| |done].
  - apply ok_with_lock. eapply ok_get_node; [exact Hn|]. apply ok_bind. cbn [ok map_range].
    set (todo := fun (l : list (string * gset rid)) r => exists name m, (name, m) ∈ l /\ r ∈ m).
    set (J := fun (l : list (string * gset rid)) s' =>
      PS nobody nobody (dirty_at D pn nd (todo l)) None s' /\ told s s' /\
      forall name m, (name, m) ∈ l -> childRefs nd !! name = Some m).
    eapply ok_conseq; [apply (ok_for_each _ J (fun _ => False))| |done].
    + intros [name m] l s1 (HP1 & Ht1 & Hl). pose proof Ht1 as (Hn1 & _ & _).
      assert (Hm : childRefs nd !! name = Some m) by (apply Hl; by left).
      apply ok_bind. cbn [ok map_range].
      set (J' := fun (rs : list rid) s' => PS nobody nobody (dirty_at D pn nd (fun r => r ∈ rs \/ todo l r)) None s' /\
        told s s' /\ forall r, r ∈ rs -> r ∈ m).
      eapply ok_conseq; [apply (ok_for_each (fun ref => tell ref name) J' (fun _ => False))| |done].
      * intros ref rs s2 (HP2 & Ht2 & Hrs). pose proof Ht2 as (Hn2 & _ & _).
        assert (Hname : childRefNames nd !! ref = Some name).
        { eapply (reg_mem _ _ _ _ s); [exact HP|exact Hn|exact Hm|]. apply Hrs. by left. }
        eapply ok_conseq; [eapply (tell_sync D pn nd ref name (fun r => r ∈ rs \/ todo l r))| |done].
        -- eapply PS_weaken; [exact HP2|done|done| |by left]. intros n r [?|[?|[-> [H|?]]]];
             [by left|by right; left|..]; right; right; (split; [done|]).
           ++ apply elem_of_cons in H as [?|?]; auto.
           ++ auto.
        -- by rewrite Hn2.
        -- done.
        -- intros ? s3 [HP3 Ht3]. split; [done|]. split; [by eapply told_trans|].
           intros r Hr. apply Hrs. by right.
      * split_and!; [|done|].
        -- eapply PS_weaken; [exact HP1|done|done| |by left]. intros n r [?|[?|[-> (nm & m' & Hin & Hr)]]];
             [by left|by right; left|]. right. right. split; [done|].
           apply elem_of_cons in Hin as [[= -> ->]|Hin]; [|right; by exists nm, m'].
           left. rewrite range_perm. by apply elem_of_elements.
        -- intros r. rewrite range_perm. by rewrite elem_of_elements.
      * intros ? s2 (HP2 & Ht2 & _). split_and!; [|done|intros nm m' Hin; apply Hl; by right].
        eapply PS_weaken; [exact HP2|done|done| |by left]. intros n r [?|[?|[-> [H|?]]]];
          [by left|by right; left|by apply not_elem_of_nil in H|by right; right].
    + split_and!; [|by split_and!|].
      * eapply PS_change_D; [exact HP|]. intros n r name (nd0 & Hn0 & Hname) HD.
        destruct (decide (n = pn)) as [->|Hne]; [|by left]. right. right. split; [done|].
        assert (nd0 = nd) as -> by congruence.
        apply (ps_names _ _ _ _ _ HP _ _ Hn) in Hname as (m & Hm & Hin). exists name, m.
        split; [|done]. rewrite range_perm. by apply elem_of_map_to_list.
      * intros name m. rewrite range_perm. by rewrite elem_of_map_to_list.
    + intros ? s1 (HP1 & Ht1 & _). split; [|done]. eapply PS_weaken; [exact HP1|done|done| |by left].
      intros n r [?|[?|[-> (nm & m & Hin & _)]]]; [by left|by right; left|by apply not_elem_of_nil in Hin].
  - intros ? s1 [HP1 Ht1]. pose proof Ht1 as (Hn1 & _ & _). apply ok_with_lock.
    eapply ok_get_node; [by rewrite Hn1|]. apply ok_bind. cbn [ok map_range].
    set (J := fun (l : list (string * nid)) s' =>
      PS nobody nobody (fun n r => (D n r /\ n <> pn) \/ exists name, (name, n) ∈ l) None s' /\ told s s' /\
      forall name n, (name, n) ∈ l -> childNodes nd !! name = Some n).
    eapply ok_conseq; [apply (ok_for_each _ J (fun _ => False))| |done].
    + intros [name c] l s2 (HP2 & Ht2 & Hl). pose proof Ht2 as (Hn2 & _ & _).
      assert (Hc : is_Some (nodes s2 !! c)).
      { rewrite Hn2. eapply (ps_child _ _ _ _ _ HP _ _ name); [exact Hn|]. apply Hl. by left. }
      eapply ok_conseq; [by apply (IH c)| |done]. intros ? s3 [HP3 Ht3].
      split_and!; [|by eapply told_trans|intros nm n Hin; apply Hl; by right].
      eapply PS_weaken; [exact HP3|done|done| |by left]. intros n r [[?|(nm & Hin)] Hne]; [by left|right].
      apply elem_of_cons in Hin as [[= -> ->]|Hin]; [done|by exists nm].
    + split_and!; [|done|].
      * eapply PS_weaken; [exact HP1|done|done| |by left]. intros n r [?|[(nm & Hnm)|[_ []]]]; [by left|right].
        exists nm. rewrite range_perm. by apply elem_of_map_to_list.
      * intros nm n. rewrite range_perm. by rewrite elem_of_map_to_list.
    + intros ? s2 (HP2 & Ht2 & _). split; [|done]. eapply PS_weaken; [exact HP2|done|done| |by left].
      intros n r [?|(nm & Hin)]; [done|by apply not_elem_of_nil in Hin].
Qed.
End notify.
