(* ===== verification/SyncRename.v ===== *)
(** * The paths of files and the path tree: a new place

    A reference gets into the tree by [addChild], and to another place of it by the
    callback of [renameChildTo]. *)
From S2P Require Import Prelude Errno Buffer Types File State PathTree FidRef Handlers.
From S2P Require Import ProgramLogic RefCount RefSteps RefOps PathSync SyncSteps SyncOps SyncRemove SyncNotify.

Section rename.
Context {W File P : Type} {B : Backend W File} {RB : Returning B} {PB : PathBackend W File P}.
Local Notation St := (St W File).
Local Notation M := (M W File).
Implicit Types (s : St) (X L : rid -> Prop) (D : nid -> rid -> Prop) (hole : option (nid * string * nid)).

(** ** An entry is made *)

Definition enter (nd : pathNode) (r : rid) (name : string) : pathNode :=
  set_childRefs (<[name := {[r]} ∪ default ∅ (childRefs nd !! name)]>) (<[r := name]>) nd.

Definition entered s n nd r name : St :=
  with_nodes s (<[n := enter nd r name]> (nodes s)) (next_node s).

Lemma registered_entered s n nd r name : registered (entered s n nd r name) n r name.
Proof.
  exists (enter nd r name). cbn. rewrite lookup_insert_eq. split; [done|]. apply lookup_insert_eq.
Qed.

Lemma PS_enter X L D hole s n nd r name fr p pr :
  PS X L D hole s -> nodes s !! n = Some nd -> childRefNames nd !! r = None ->
  reg_at X L D hole s n (childNodes nd) r name fr p pr ->
  PS X L D hole (entered s n nd r name) /\ sync_ext s (entered s n nd r name) /\
  same_kids s (entered s n nd r name).
Proof.
  intros HP Hn Hnone Hat.
  assert (Hg : forall q, good s q -> good (entered s n nd r name) q).
  { intros q. apply (good_node s n nd _ Hn); [done|]. intros nm Hnm. left. cbn.
    destruct (decide (q = r)) as [->|Hne]; [rewrite lookup_insert_eq; by eexists|].
    rewrite lookup_insert_ne by done. by eexists. }
  assert (Hg' : forall q, good s q \/ L q -> good (entered s n nd r name) q \/ L q).
  { intros q [?|?]; [left; by apply Hg|by right]. }
  split; [|split; [by eapply sync_ext_node|by apply (same_kids_node s n nd)]].
  apply (PS_node s n nd (enter nd r name) Hn X L L D D hole hole); try done.
  - apply tables_agree_add; [by apply (ps_names _ _ _ _ _ HP n)|done].
  - intros nm pn. exact (ps_child _ _ _ _ _ HP n nd nm pn Hn).
  - intros q nm. cbn. rewrite lookup_insert_Some. intros [[<- <-]|[_ Hq]].
    + exists fr, p, pr. by eapply reg_at_node.
    + destruct (ps_reg _ _ _ _ _ HP _ _ _ _ Hn Hq) as (fq & p' & pr' & Hq').
      exists fq, p', pr'. by eapply reg_at_node.
Qed.

(** ** All is kept but the standing of one reference *)

Record ext_but (ref : rid) s s' : Prop := {
  eb_good : forall r, r <> ref -> good s r -> good s' r;
  eb_ref : forall r fr, refHeap s !! r = Some fr -> exists fr', refHeap s' !! r = Some fr' /\
    file fr' = file fr /\ mode fr' = mode fr /\ fr_pathNode fr' = fr_pathNode fr;
  eb_nodes : forall n, is_Some (nodes s !! n) -> is_Some (nodes s' !! n);
  eb_conns : forall c, is_Some (conns s !! c) -> is_Some (conns s' !! c);
}.

#[export] Instance ext_but_preorder ref : PreOrder (ext_but ref).
Proof.
  split; [intros s; split; by eauto|]. intros s1 s2 s3 [H1 H2 H3 H4] [H1' H2' H3' H4'].
  split; [by auto| |by auto|by auto]. intros r fr Hr. destruct (H2 _ _ Hr) as (fr' & Hr' & ? & ? & ?).
  destruct (H2' _ _ Hr') as (fr'' & ? & ? & ? & ?). exists fr''. split_and!; congruence.
Qed.

Lemma ext_but_of ref s s' : sync_ext s s' -> ext_but ref s s'.
Proof. intros []. split; auto. Qed.

Lemma ext_but_close ref s s' : ext_but ref s s' -> good s' ref -> sync_ext s s'.
Proof.
  intros [] Hr. split; auto. intros r Hg. destruct (decide (r = ref)) as [->|Hne]; auto.
Qed.

(** ** Another parent *)

Definition moved s r (fr : fidRef File) t : St :=
  with_heap s (<[r := set_parent (Some t) fr]> (refHeap s)).

Lemma PS_moved X L D hole s r fr t :
  PS X L D hole s -> refHeap s !! r = Some fr -> is_Some (parent fr) -> L r ->
  is_Some (refHeap s !! t) -> (forall n name, ~ registered s n r name) ->
  PS X L D hole (moved s r fr t) /\ ext_but r s (moved s r fr t).
Proof.
  intros HP Hr Hpar HL Ht Hno.
  assert (Hlook : forall q fq, refHeap s !! q = Some fq -> exists fq', refHeap (moved s r fr t) !! q = Some fq' /\
    file fq' = file fq /\ mode fq' = mode fq /\ fr_pathNode fq' = fr_pathNode fq /\ (q <> r -> fq' = fq)).
  { intros q fq Hq. cbn. destruct (decide (q = r)) as [->|Hne].
    - rewrite lookup_insert_eq. eexists. split; [done|]. by simplify_eq.
    - rewrite lookup_insert_ne by done. by eexists. }
  assert (Hback : forall q fq', refHeap (moved s r fr t) !! q = Some fq' -> exists fq, refHeap s !! q = Some fq /\
    file fq' = file fq /\ mode fq' = mode fq /\ fr_pathNode fq' = fr_pathNode fq /\
    (parent fq' = parent fq \/ (parent fq' = Some t /\ is_Some (parent fq)))).
  { intros q fq'. cbn. destruct (decide (q = r)) as [->|Hne].
    - rewrite lookup_insert_eq. intros [= <-]. exists fr. split_and!; auto.
    - rewrite lookup_insert_ne by done. intros Hq. exists fq'. split_and!; auto. }
  assert (Hg : forall q, q <> r -> good s q -> good (moved s r fr t) q).
  { intros q Hne (fq & Hq & H). destruct (Hlook _ _ Hq) as (fq' & Hq' & _ & _ & _ & Heq).
    exists fq'. split; [done|]. by rewrite (Heq Hne). }
  assert (Hg' : forall q, good s q \/ L q -> good (moved s r fr t) q \/ L q).
  { intros q [Hq|Hq]; [|by right]. destruct (decide (q = r)) as [->|Hne]; [by right|left; by apply Hg]. }
  split.
  2: { split; [done| |done|done]. intros q fq Hq.
    destruct (Hlook _ _ Hq) as (fq' & Hq' & ? & ? & ? & _). by exists fq'. }
  pose proof HP as [H1 H2 H3 H4 H5 H6 H7 H8]. split; try done.
  - intros n nd q name Hn Hq. destruct (H3 _ _ _ _ Hn Hq) as (fq & p & pr & [Ha Hb Hc Hd He Hf Hi Hj Hk]).
    assert (Hne : q <> r) by (intros ->; apply (Hno n name); by exists nd).
    destruct (Hlook _ _ Ha) as (fq' & Hq' & _ & _ & _ & Heq). rewrite (Heq Hne) in Hq'.
    destruct (Hlook _ _ Hc) as (pr' & Hpr' & Hfile & Hmode & Hnode & _).
    exists fq, p, pr'. split; [done..|congruence|congruence|done|done|by apply Hg'|].
    unfold synced. by rewrite Hfile.
  - intros q fq' Hq'. destruct (Hback _ _ Hq') as (fq & Hq & Hfile & _ & Hnode & Hp).
    destruct (H4 _ _ Hq) as (Ha & Hb & Hc & Hd). unfold ref_known. rewrite Hnode, Hfile.
    split; [done|]. split; [done|]. split; [done|]. intros p Hpp.
    assert (Hps : is_Some (refHeap s !! p)) by (destruct Hp as [Hp|[Hp _]]; [apply Hd|]; congruence).
    destruct Hps as [pr Hpr]. destruct (Hlook _ _ Hpr) as (pr' & Hpr' & _). by exists pr'.
  - intros q q' fq fq' Hne Hq Hq'. destruct (Hback _ _ Hq) as (f0 & Hf0 & Ea & Eb & _ & Ec).
    destruct (Hback _ _ Hq') as (f1 & Hf1 & Ea' & Eb' & _ & Ec'). rewrite Ea, Ea'. intros Hf.
    destruct (H5 _ _ _ _ Hne Hf0 Hf1 Hf) as [[Hn0 ?]|[Hn0 ?]]; [left|right]; split; try congruence.
    + destruct Ec as [?|[_ [? ?]]]; congruence.
    + destruct Ec' as [?|[_ [? ?]]]; congruence.
  - intros c cs fid q Hc Hf. apply Hg'. by eapply H6.
Qed.

(** ** A node takes the free place *)

Lemma PS_fill X L D s n nd name pn :
  PS X L D (Some (n, name, pn)) s -> nodes s !! n = Some nd -> childNodes nd !! name = None ->
  is_Some (nodes s !! pn) ->
  let s' := with_nodes s (<[n := set_childNodes (<[name := pn]>) nd]> (nodes s)) (next_node s) in
  PS X L D None s' /\ sync_ext s s'.
Proof.
  intros HP Hn Hnone Hpn s'.
  assert (Hg : forall r, good s r -> good s' r).
  { intros r. apply (good_node s n nd _ Hn); [done|]. intros nm Hnm. left. by exists nm. }
  assert (Hg' : forall q, good s q \/ L q -> good s' q \/ L q).
  { intros q [?|?]; [left; by apply Hg|by right]. }
  split; [|by eapply sync_ext_node].
  apply (PS_node s n nd _ Hn X L L D D (Some (n, name, pn)) None); try done.
  - intros n0 name0 pn0 [= -> -> ->]. done.
  - exact (ps_names _ _ _ _ _ HP n nd Hn).
  - intros nm q. cbn. rewrite lookup_insert_Some. intros [[_ <-]|[_ H]]; [done|].
    exact (ps_child _ _ _ _ _ HP n nd nm q Hn H).
  - intros r nm Hnm. destruct (ps_reg _ _ _ _ _ HP _ _ _ _ Hn Hnm) as (fr & p & pr & Hat).
    exists fr, p, pr. eapply reg_at_node; [exact Hat|done|done|]. intros Hc. left. cbn.
    destruct (decide (nm = name)) as [->|Hne].
    + rewrite lookup_insert_eq. destruct Hc as [?|?]; congruence.
    + rewrite lookup_insert_ne by done. destruct Hc as [?|?]; congruence.
Qed.

(** ** The callback of [renameChildTo] *)

Lemma same_kids_nodes s s' : nodes s' = nodes s -> same_kids s s'.
Proof. intros H n nd Hn. exists nd. by rewrite H. Qed.

Lemma dec_same_kids s s' : dec_step s s' -> same_kids s s'.
Proof.
  intros Hd n nd Hn. destruct (ds_nodes _ _ Hd _ _ Hn) as (nd' & ? & ? & _). by exists nd'.
Qed.

Lemma dec_registered X L D hole s s' n r name :
  PS X L D hole s -> PS X L D hole s' -> dec_step s s' -> registered s' n r name -> registered s n r name.
Proof.
  intros HP HP' Hd (nd' & Hn' & Hname).
  destruct (ps_reg _ _ _ _ _ HP' _ _ _ _ Hn' Hname) as (fr & p & pr' & [_ _ Hpr' Hnode _ _ _ _ _]).
  destruct (refHeap s !! p) as [pr|] eqn:Hpr; [|rewrite (ds_old _ _ Hd _ Hpr) in Hpr'; done].
  destruct (ds_heap _ _ Hd _ _ Hpr) as (k & Hk). assert (pr' = set_refs k pr) as -> by congruence.
  destruct (ps_ref _ _ _ _ _ HP _ _ Hpr) as ([nd Hn] & _). cbn in Hnode. rewrite Hnode in Hn.
  destruct (ds_nodes _ _ Hd _ _ Hn) as (nd1 & Hn1 & _ & Hsub). assert (nd1 = nd') as -> by congruence.
  exists nd. split; [done|]. by eapply lookup_weaken.
Qed.

Lemma registered_entered_inv s n nd r name n' r' name' :
  nodes s !! n = Some nd -> registered (entered s n nd r name) n' r' name' ->
  (n' = n /\ r' = r /\ name' = name) \/ registered s n' r' name'.
Proof.
  intros Hn (nd' & Hn' & Hname). cbn in Hn'. rewrite lookup_insert_Some in Hn'.
  destruct Hn' as [[<- <-]|[_ Hn']]; [|right; by exists nd'].
  cbn in Hname. rewrite lookup_insert_Some in Hname. destruct Hname as [[<- <-]|[_ Hname]]; [by left|].
  right. by exists nd.
Qed.

Lemma addChildLocked_eq n r name h s nd :
  nodes s !! n = Some nd -> childRefNames nd !! r = None ->
  addChildLocked n r name h s = Ret tt (entered s n nd r name).
Proof.
  intros Hn Hr. unfold addChildLocked, mbind, M_bind, get_node. rewrite Hn. cbn. by rewrite Hr.
Qed.

(** The callback, in terms of the nodes [fn], [tn] and the file [tfile] of the target. *)
Definition move (fn tn : nid) (tfile : File) (target : rid) (new : string) (ref : rid) : M unit :=
  p ← parent_of ref;
  _ ← DecRef p;
  rr ← get_ref ref;
  set_ref ref (set_parent (Some target) rr);;
  IncRef target;;
  (if bool_decide (fn = tn) then addChildLocked tn ref new else addChild tn ref new);;
  call (Some ref) (FRenamed (file rr) tfile new).

Section move.
Context (fn tn pn : nid) (old new : string) (target : rid) (tfile : File).
Context (Hdiff : fn <> tn \/ old <> new).
Let D : nid -> rid -> Prop := fun n _ => n = pn.
Let hole := Some (tn, new, pn).

(** What is said of the target. *)
Definition is_target s : Prop := exists tr, refHeap s !! target = Some tr /\ file tr = tfile /\
  FileMode_IsDir (mode tr) = true /\ fr_pathNode tr = tn.

Lemma is_target_ext ref s s' : ext_but ref s s' -> is_target s -> is_target s'.
Proof.
  intros He (tr & Hr & ? & ? & ?). destruct (eb_ref _ _ _ He _ _ Hr) as (tr' & ? & ? & ? & ?).
  exists tr'. split_and!; congruence.
Qed.

(** The last two steps: the entry, and the news. *)
Lemma settle_sync ref rr h s :
  PS nobody (eq ref) D hole s -> (forall n nm, ~ registered s n ref nm) ->
  refHeap s !! ref = Some rr -> parent rr = Some target -> fr_pathNode rr = pn -> 0 < refs rr ->
  is_target s -> good s target \/ target = ref ->
  ok (((if bool_decide (fn = tn) then addChildLocked tn ref new else addChild tn ref new);;
       call (Some ref) (FRenamed (file rr) tfile new)) h s)
    (fun _ s' => PS nobody nobody D hole s' /\ ext_but ref s s' /\ good s' ref /\ same_kids s s' /\
       forall r, registered s' fn r old -> registered s fn r old)
    (fun _ => False).
Proof.
  intros HP Hno Hr Hpar Hpn Hk (tr & Ht & Htf & Htd & Htn) Hg.
  destruct (ps_ref _ _ _ _ _ HP _ _ Ht) as ([nd Hn] & [y Hy] & _). rewrite Htn in Hn. rewrite Htf in Hy.
  assert (Hnone : childRefNames nd !! ref = None).
  { apply eq_None_not_Some. intros [nm Hnm]. apply (Hno tn nm). by exists nd. }
  set (s1 := entered s tn nd ref new).
  apply ok_bind. assert (Hadd : ok ((if bool_decide (fn = tn) then addChildLocked tn ref new
      else addChild tn ref new) h s) (fun _ s' => s' = s1) (fun _ => False)).
  { case_bool_decide; [|apply ok_with_lock]; by rewrite (addChildLocked_eq _ _ _ _ _ nd). }
  eapply ok_conseq; [exact Hadd| |done]. intros [] s' ->. rewrite call_eq. cbn [ok].
  set (Dm := fun n r => D n r \/ r = ref).
  assert (HPm : PS nobody (eq ref) Dm hole s).
  { eapply PS_weaken; [exact HP|done|done|by left|by right]. }
  destruct (PS_enter _ _ _ _ s tn nd ref new rr target tr HPm Hn Hnone) as (HP1 & He1 & Hk1).
  { split; try done; [by left|right; by rewrite Hpn|destruct Hg as [?| ->]; [by left|by right]|left; by right]. }
  assert (Hreg : registered s1 tn ref new) by apply registered_entered.
  assert (HP2 : PS nobody (eq ref) D hole
    (after_call (Some ref) (FRenamed (file rr) tfile new) h s1)).
  { apply (PS_renamed nobody (eq ref) Dm D hole s1 ref rr tfile y new h); [exact HP1|exact Hr|by eexists|exact Hy|..].
    - intros n q nm _ Hne [?|?]; done.
    - intros n q nm fq (ndq & Hnq & Hq) Hfq Hpq.
      destruct (ps_reg _ _ _ _ _ HP1 _ _ _ _ Hnq Hq) as (fq' & p' & pr' & [Ha Hb Hc Hd _ _ _ _ _]).
      cbn in Ha, Hc, Hfq. assert (fq' = fq) as -> by congruence. assert (p' = ref) as -> by congruence.
      assert (pr' = rr) as -> by congruence. unfold D. congruence.
    - intros n nm Hreg'. destruct (reg_unique _ _ _ _ _ _ _ _ _ _ HP1 Hreg' Hreg) as [-> ->].
      destruct (decide (target = ref)) as [->|Hne].
      + left. unfold D. assert (tr = rr) as -> by congruence. congruence.
      + right. split; [done|]. by exists target, tr. }
  set (s2 := after_call _ _ _ _) in *.
  assert (Hgr : good s2 ref).
  { exists rr. split; [exact Hr|]. right. right. right. by exists tn, new. }
  split; [|split; [|split; [done|split]]].
  - eapply PS_no_limbo; [exact HP2|]. intros r <-. by right.
  - apply ext_but_of. etrans; [exact He1|apply sync_ext_event].
  - exact Hk1.
  - intros r Hreg'. destruct (registered_entered_inv _ _ _ _ _ _ _ _ Hn Hreg') as [(-> & _ & ->)|?]; [|done].
    destruct Hdiff; done.
Qed.

Lemma move_sync ref rr h s :
  PS nobody (eq ref) D hole s -> (forall n nm, ~ registered s n ref nm) ->
  refHeap s !! ref = Some rr -> is_Some (parent rr) -> fr_pathNode rr = pn -> 2 <= refs rr ->
  is_target s -> good s target \/ target = ref ->
  ok (move fn tn tfile target new ref h s)
    (fun _ s' => PS nobody nobody D hole s' /\ ext_but ref s s' /\ good s' ref /\ same_kids s s' /\
       forall r, registered s' fn r old -> registered s fn r old)
    (fun _ => False).
Proof.
  intros HP Hno Hr [q Hq] Hpn Hk Ht Hg. unfold move.
  apply ok_bind. unfold parent_of. eapply ok_get_ref; [exact Hr|]. rewrite Hq. cbn [ok mret M_ret].
  destruct (ps_ref _ _ _ _ _ HP _ _ Hr) as (_ & _ & _ & Hqq).
  eapply ok_seq; [by apply DecRef_sync; [exact HP|apply Hqq]| |done].
  intros ? s1 (HP1 & Hd1 & He1). destruct (ds_two _ _ Hd1 _ _ Hr Hk) as (rr1 & Hr1 & Hk1).
  assert (Hrr1 : parent rr1 = Some q /\ fr_pathNode rr1 = pn).
  { destruct (ds_heap _ _ Hd1 _ _ Hr) as (k & Hk'). assert (rr1 = set_refs k rr) as -> by congruence. done. }
  destruct Hrr1 as [Hq1 Hpn1].
  assert (Hno1 : forall n nm, ~ registered s1 n ref nm).
  { intros n nm Hreg. eapply (Hno n nm), dec_registered; [exact HP|exact HP1|done|done]. }
  eapply ok_get_ref; [exact Hr1|]. apply ok_bind. cbn [ok set_ref].
  change (mk_St _ _ _ _ _ _ _) with (moved s1 ref rr1 target).
  apply (is_target_ext ref _ _ (ext_but_of ref _ _ He1)) in Ht.
  destruct (PS_moved _ _ _ _ s1 ref rr1 target HP1 Hr1) as [HP2 He2];
    [by eexists|done|destruct Ht as (tr & ? & _); by eexists|done|].
  apply (is_target_ext ref _ _ He2) in Ht. set (s2 := moved s1 ref rr1 target) in *.
  assert (Hg2 : good s2 target \/ target = ref).
  { destruct (decide (target = ref)) as [?|Hne]; [by right|left]. destruct Hg as [Hg|?]; [|done].
    apply (eb_good _ _ _ He2); [done|]. by apply (se_good _ _ He1). }
  pose proof Ht as (tr2 & Ht2 & _). apply ok_bind. rewrite (IncRef_eq _ _ _ _ Ht2). cbn [ok].
  set (s3 := counted s2 target tr2 (refs tr2 + 1)).
  assert (HP3 : PS nobody (eq ref) D hole s3) by (by apply (PS_IncRef nobody)).
  assert (He3 : sync_ext s2 s3) by (by apply sync_ext_counted).
  assert (Hr3 : exists rr3, refHeap s3 !! ref = Some rr3 /\ file rr3 = file rr1 /\
    parent rr3 = Some target /\ fr_pathNode rr3 = pn /\ 0 < refs rr3).
  { assert (Hr2 : refHeap s2 !! ref = Some (set_parent (Some target) rr1)) by apply lookup_insert_eq.
    cbn. destruct (decide (ref = target)) as [Heq|Hne].
    - rewrite <- Heq, lookup_insert_eq. rewrite <- Heq, Hr2 in Ht2. injection Ht2 as <-.
      eexists. split; [done|]. cbn. split_and!; [done|congruence|done|lia].
    - rewrite lookup_insert_ne by done. eexists. split; [exact Hr2|]. cbn. split_and!; [done..|lia]. }
  destruct Hr3 as (rr3 & Hr3 & Hf3 & Hp3 & Hpn3 & Hk3). rewrite <- Hf3.
  eapply ok_conseq; [apply (settle_sync ref rr3)| |done].
  - exact HP3.
  - exact Hno1.
  - done.
  - done.
  - done.
  - done.
  - by apply (is_target_ext ref _ _ (ext_but_of ref _ _ He3)).
  - destruct Hg2; [left; by apply (se_good _ _ He3)|by right].
  - intros ? s4 (HP4 & He4 & Hg4 & Hk4 & Hreg4). split; [done|]. split; [|split; [done|split]].
    + etrans; [by apply ext_but_of|]. etrans; [exact He2|]. etrans; [by apply ext_but_of|done].
    + etrans; [by apply dec_same_kids|]. etrans; [|exact Hk4]. by apply same_kids_nodes.
    + intros r Hreg. eapply dec_registered; [exact HP|exact HP1|done|]. by apply Hreg4.
Qed.
End move.
End rename.

(** ** [renameChildTo]

    All references of a name move to another place, with what is below them, and their files
    are told: none is out of date at the end. *)

Section place.
Context {W File P : Type} {B : Backend W File} {RB : Returning B} {PB : PathBackend W File P}.
Local Notation St := (St W File).
Local Notation M := (M W File).
Implicit Types (s : St) (X L : rid -> Prop) (D : nid -> rid -> Prop) (hole : option (nid * string * nid)).

(** The child of a node under a name, if it has one. *)
Definition kid s (n : nid) (name : string) (c : option nid) : Prop :=
  exists nd, nodes s !! n = Some nd /\ childNodes nd !! name = c.

Lemma kid_same s s' n name c : same_kids s s' -> kid s n name c -> kid s' n name c.
Proof. intros Hk (nd & Hn & <-). destruct (Hk _ _ Hn) as (nd' & ? & Hc). exists nd'. by rewrite Hc. Qed.

Section visit.
Context (s0 : St) (fn tn : nid) (pn : option nid) (old new : string) (target : rid) (tfile : File).
Context (Hdiff : fn <> tn \/ old <> new).
Let D : nid -> rid -> Prop := fun n _ => Some n = pn.
Let hole := (fun c => (tn, new, c)) <$> pn.

(** [rs] are the references to come. *)
Definition moving (rs : list rid) s : Prop :=
  PS nobody nobody D hole s /\ sync_ext s0 s /\ kid s fn old pn /\ kid s tn new None /\
  is_target tn target tfile s /\ good s target /\ forall r, registered s fn r old -> r ∈ rs.

Lemma visit_sync ref rs h s :
  moving (ref :: rs) s ->
  ok (visit fn old (Some (move fn tn tfile target new)) ref h s) (fun _ => moving rs) (fun _ => False).
Proof.
  intros (HP & He & Hkid & Hfree & Htgt & Hgood & Hreg). pose proof Hkid as (nd & Hn & Hch).
  unfold visit. eapply ok_get_node; [exact Hn|]. case_bool_decide as Hin; cbn [negb].
  2: { split; [done|]. split; [done|]. split; [done|]. split; [done|]. split; [done|]. split; [done|].
    intros r Hr. pose proof (Hreg r Hr) as Hr1. apply elem_of_cons in Hr1 as [->|?]; [|done].
    destruct Hin. destruct Hr as (nd' & Hn' & Hname). assert (nd' = nd) as -> by congruence.
    apply (ps_names _ _ _ _ _ HP _ _ Hn) in Hname as (m & -> & ?). done. }
  destruct (childRefs nd !! old) as [m|] eqn:Em; cbn [default] in Hin; [|set_solver].
  pose proof (reg_mem _ _ _ _ _ _ _ _ _ _ HP Hn Em Hin) as Hname.
  destruct (ps_reg _ _ _ _ _ HP _ _ _ _ Hn Hname) as (fr & q & qr & [Hr Hq _ _ _ Hrefs Hc _ _]).
  assert (Hpn : pn = Some (fr_pathNode fr)).
  { destruct Hc as [Hc|Hc]; [congruence|]. unfold hole in Hc. destruct pn; cbn in Hc; [|done].
    injection Hc as -> -> ->. destruct Hdiff; done. }
  assert (Hk : 0 < refs fr) by (by destruct Hrefs).
  apply ok_bind. cbn [ok set_node]. set (nd1 := set_childRefs _ _ nd).
  change (mk_St _ _ _ _ _ _ _) with (with_nodes s (<[fn := nd1]> (nodes s)) (next_node s)).
  set (s1 := with_nodes s _ _).
  destruct (PS_unregister nobody nobody (eq ref) D hole s fn nd nd1 ref old HP Hn Hname) as (HP1 & Hg1 & _ & Hno1);
    [by apply tables_agree_alter; [by apply (ps_names _ _ _ _ _ HP fn)|]|done..|by right|].
  fold s1 in HP1, Hg1, Hno1.
  assert (Hk1 : same_kids s s1) by (by apply (same_kids_node s fn nd)).
  assert (He1 : ext_but ref s s1).
  { split; [done|by eauto| |done]. intros n [ndn Hndn]. destruct (Hk1 _ _ Hndn) as (nd' & ? & _). by exists nd'. }
  assert (Hreg1 : forall r, registered s1 fn r old -> r ∈ rs).
  { intros r Hr1. assert (r <> ref) by (intros ->; by apply (Hno1 fn old)).
    destruct Hr1 as (nd' & Hn' & Hname'). cbn in Hn'. rewrite lookup_insert_eq in Hn'. injection Hn' as <-.
    cbn in Hname'. apply lookup_delete_Some in Hname' as [_ Hname'].
    assert (Hr1 : r ∈ ref :: rs) by (apply Hreg; by exists nd).
    apply elem_of_cons in Hr1 as [?|?]; done. }
  assert (Hr1 : refHeap s1 !! ref = Some fr) by done.
  apply ok_bind. unfold TryIncRef. eapply ok_get_ref; [exact Hr1|].
  destruct (Z.leb_spec (refs fr) 0) as [?|_]; [lia|]. apply ok_bind. cbn [ok set_ref mret M_ret].
  change (mk_St _ _ _ _ _ _ _) with (counted s1 ref fr (refs fr + 1)).
  set (s2 := counted s1 ref fr (refs fr + 1)).
  assert (HP2 : PS nobody (eq ref) D hole s2) by (by apply (PS_IncRef nobody)).
  assert (He2 : ext_but ref s s2).
  { etrans; [exact He1|]. apply ext_but_of. by apply sync_ext_counted. }
  eapply ok_seq; [eapply (move_sync fn tn (fr_pathNode fr) old new target tfile Hdiff ref)| |done].
  - eapply PS_weaken; [exact HP2|done|done| |].
    + unfold D. rewrite Hpn. by intros n r [= ->].
    + right. unfold hole. by rewrite Hpn.
  - exact Hno1.
  - apply lookup_insert_eq.
  - by eexists.
  - done.
  - cbn. lia.
  - by eapply is_target_ext.
  - destruct (decide (target = ref)) as [?|Hne]; [by right|left]. by apply (eb_good _ _ _ He2).
  - intros ? s3 (HP3 & He3 & Hg3 & Hk3 & Hreg3).
    assert (Hs3 : sync_ext s s3) by (eapply ext_but_close; [etrans; [exact He2|exact He3]|exact Hg3]).
    destruct (se_ref _ _ Hs3 _ _ Hr) as (fr3 & Hr3 & _).
    eapply ok_seq; [apply DecRef_sync; [exact HP3|by eexists]| |done].
    intros ? s4 (HP4 & Hd4 & He4). cbn [ok mret M_ret].
    assert (HP4' : PS nobody nobody D hole s4).
    { eapply PS_weaken; [exact HP4|done|done| |].
      + unfold D. rewrite Hpn. by intros n r ->.
      + right. unfold hole. by rewrite Hpn. }
    assert (Hk4 : same_kids s s4).
    { etrans; [exact Hk1|]. etrans; [by apply (same_kids_nodes s1 s2)|]. etrans; [exact Hk3|by apply dec_same_kids]. }
    assert (He' : sync_ext s s4) by (by etrans).
    split; [done|]. split; [by etrans|]. split; [by eapply kid_same|]. split; [by eapply kid_same|].
    split; [eapply (is_target_ext _ _ _ ref); [by apply ext_but_of|done]|].
    split; [by apply (se_good _ _ He')|].
    intros r Hr4. apply Hreg1. apply (dec_registered _ _ _ _ _ _ _ _ _ HP3 HP4 Hd4) in Hr4.
    by apply Hreg3 in Hr4.
Qed.
End visit.

(** ** The whole *)

Lemma addPathNodeFor_sync L D n name pn h s :
  PS nobody L D (Some (n, name, pn)) s -> kid s n name None -> is_Some (nodes s !! pn) ->
  ok (addPathNodeFor n name pn h s) (fun _ s' => PS nobody L D None s' /\ sync_ext s s') (fun _ => False).
Proof.
  intros HP (nd & Hn & Hnone) Hpn. unfold addPathNodeFor. apply ok_with_lock.
  eapply ok_get_node; [exact Hn|]. rewrite Hnone. cbn [ok set_node]. by apply PS_fill.
Qed.

Lemma renameChildTo_sync f old target new fr tr h s :
  sync s -> refHeap s !! f = Some fr -> refHeap s !! target = Some tr ->
  FileMode_IsDir (mode tr) = true -> good s target ->
  fr_pathNode fr <> fr_pathNode tr \/ old <> new ->
  ok (renameChildTo f old target new h s)
    (fun _ s' => sync s' /\ sync_ext s s') (fun s' => sync s' /\ sync_ext s s').
Proof.
  intros Hs Hf Ht Hdir Hgood Hdiff. unfold renameChildTo.
  eapply ok_seq; [by eapply markChildDeleted_sync| |by auto].
  intros ? s1 (Hs1 & He1 & Hfree). change (kid s1 (fr_pathNode tr) new None) in Hfree.
  destruct (se_ref _ _ He1 _ _ Hf) as (fr1 & Hf1 & _ & _ & Hfn).
  destruct (se_ref _ _ He1 _ _ Ht) as (tr1 & Ht1 & Htf & Htm & Htn).
  eapply ok_get_ref; [exact Hf1|]. eapply ok_get_ref; [exact Ht1|].
  rewrite <- Hfn, <- Htn in Hdiff. rewrite <- Htn in Hfree. rewrite <- Htm in Hdir.
  set (fn := fr_pathNode fr1) in *. set (tn := fr_pathNode tr1) in *.
  destruct (ps_ref _ _ _ _ _ Hs1 _ _ Hf1) as ([nd0 Hn0] & _). fold fn in Hn0.
  set (pn := childNodes nd0 !! old). set (J := moving s1 fn tn pn old new target (file tr1)).
  set (D := fun (n : nid) (_ : rid) => Some n = pn). set (hole := (fun c => (tn, new, c)) <$> pn).
  eapply (ok_seq _ _ _ _ _ _ (fun o s' => o = pn /\ PS nobody nobody D hole s' /\ sync_ext s1 s' /\
    kid s' tn new None) (fun _ => False)); [| |done].
  - apply (removeWithName_sync fn old (Some (move fn tn (file tr1) target new)) h s1 J).
    + intros rs s' (_ & _ & (nd & Hn & _) & _). by exists nd.
    + intros rs Hrs. split; [|split; [done|split; [by exists nd0|split; [done|split; [|split; [|done]]]]]].
      * eapply PS_weaken; [exact Hs1|done|done|done|by left].
      * by exists tr1.
      * by apply (se_good _ _ He1).
    + by exists nd0.
    + intros nd. apply (ps_names _ _ _ _ _ Hs1).
    + intros ref rs h' s'. by apply visit_sync.
    + intros s' nd (HP & He & (nd' & Hn' & Hc) & Hk & _ & _ & Hreg) Hn. assert (nd' = nd) as -> by congruence.
      split; [done|]. destruct (PS_cut _ _ _ _ _ _ _ old HP Hn) as [HP2 He2].
      { intros r Hr. by apply Hreg, not_elem_of_nil in Hr. }
      split; [done|]. split; [by etrans|]. destruct Hk as (ndt & Hnt & Hct).
      destruct (decide (tn = fn)) as [Heq|Hne].
      * eexists. cbn. rewrite Heq, lookup_insert_eq. split; [done|]. cbn. rewrite lookup_delete_None.
        right. congruence.
      * exists ndt. cbn. by rewrite lookup_insert_ne.
  - intros o s2 (-> & HP2 & He2 & Hk2). destruct pn as [pn0|] eqn:Epn.
    2: { cbn. split; [|by etrans]. eapply PS_weaken; [exact HP2|done|done|done|by left]. }
    assert (Hpn : is_Some (nodes s2 !! pn0)).
    { apply (se_nodes _ _ He2). by eapply (ps_child _ _ _ _ _ Hs1). }
    eapply ok_seq; [by apply addPathNodeFor_sync| |done].
    intros ? s3 (HP3 & He3). unfold notifyNameChange. apply ok_bind. cbn [ok count_nodes].
    eapply ok_conseq; [apply (notifyNameChange_fuel_sync _ _ D); [exact HP3|by apply (se_nodes _ _ He3)]| |done].
    intros ? s4 (HP4 & _ & _ & He4). split.
    + eapply PS_weaken; [exact HP4|done|done| |by left]. intros n r [[= ->] Hne]. done.
    + etrans; [exact He1|]. etrans; [exact He2|]. by etrans.
Qed.
End place.
