(* ===== verification/SyncWalk.v ===== *)
(** * The paths of files and the path tree: walks

    A walk yields a file whose path is that of the file it started from with the names; the
    reference made for it gets into the tree under the last of them. *)
From S2P Require Import Prelude Errno Buffer Types File State PathTree FidRef Handlers.
From S2P Require Import ProgramLogic RefCount RefSteps RefOps PathSync SyncSteps SyncOps SyncRemove SyncNotify SyncRename.

Section walk.
Context {W File P : Type} {B : Backend W File} {RB : Returning B} {PB : PathBackend W File P}.
Local Notation St := (St W File).
Local Notation M := (M W File).
Implicit Types (s : St) (X L : rid -> Prop) (D : nid -> rid -> Prop) (hole : option (nid * string * nid)).

(** ** Only the world changes *)

Record calls_only s s' : Prop := {
  co_nodes : nodes s' = nodes s;
  co_heap : refHeap s' = refHeap s;
  co_conns : conns s' = conns s;
  co_paths : forall f x, fpath (world s) f = Some x -> fpath (world s') f = Some x;
  co_ext : sync_ext s s';
  co_sync : sync s -> sync s';
}.

#[export] Instance calls_only_preorder : PreOrder calls_only.
Proof.
  split; [intros s; split; done|]. intros s1 s2 s3 [] [].
  split; [congruence|congruence|congruence|by auto|by etrans|by auto].
Qed.

Lemma calls_only_call {A} r (e : FileE File A) h s :
  not_renamed e = true -> calls_only s (after_call r e h s).
Proof.
  intros He. split; [done|done|done| |apply sync_ext_event|intros Hs; by apply PS_call].
  intros f x Hx. apply pl_frame; [done|by destruct e].
Qed.

Lemma ok_call_only {A C} r (e : FileE File A) (k : A -> M C) h s Q Z :
  not_renamed e = true ->
  (forall s', calls_only s s' -> ok (k (exec e (world s)).1 h s') Q Z) -> ok ((call r e ≫= k) h s) Q Z.
Proof. intros He Hk. apply ok_bind. rewrite call_eq. cbn [ok]. by apply Hk, calls_only_call. Qed.

(** ** [walkOne] *)

(** A file that no reference has, of path [x]. *)
Definition new_file s (f : File) (x : P) : Prop :=
  fpath (world s) f = Some x /\ forall r fr, refHeap s !! r = Some fr -> file fr <> f.

Lemma new_file_only s s' f x : calls_only s s' -> new_file s f x -> new_file s' f x.
Proof. intros [H1 H2 H3 H4 _ _] [Hx Hf]. split; [by apply H4|by rewrite H2]. Qed.

Lemma fresh_file s s' f x :
  sync s -> calls_only s s' -> fpath (world s) f = None -> fpath (world s') f = Some x -> new_file s' f x.
Proof.
  intros Hs Hc Hn Hx. split; [done|]. intros r fr Hr <-. rewrite (co_heap _ _ Hc) in Hr.
  destruct (ps_ref _ _ _ _ _ Hs _ _ Hr) as (_ & [y Hy] & _). congruence.
Qed.

Definition walked s (x : P) (names : list string) (res : list QID * File * AttrMask * Attr + error) s' : Prop :=
  calls_only s s' /\
  match res with inl (_, sf, _, _) => new_file s' sf (foldl fjoin x names) | inr _ => True end.

Lemma ok_walked s s1 x names o Z :
  calls_only s s1 -> ok o (walked s1 x names) Z -> ok o (walked s x names) Z.
Proof.
  intros Hc Ho. eapply ok_conseq; [exact Ho| |done]. intros res s2 [H1 H2]. split; [by etrans|done].
Qed.

Lemma walked_error s x names err : walked s x names (inr err) s.
Proof. by split. Qed.

Lemma walked_close s x names f err h Z :
  ok ((_ ← call None (FClose f); (mret (inr err) : M _)) h s) (walked s x names) Z.
Proof. apply ok_call_only; [done|]. intros s' Hs'. by split. Qed.

Lemma walkOne_sync qids r from names getattr h s x Z :
  sync s -> fpath (world s) from = Some x ->
  ok (walkOne qids r from names getattr h s) (walked s x names) Z.
Proof.
  intros Hs Hx. unfold walkOne, reject_if. destruct (_ <? _)%nat; [apply walked_error|].
  cbv zeta. set (walk := bind_err (call (Some r) (FWalk from names)) _).
  assert (Hwalk : forall s1, calls_only s s1 -> sync s1 -> ok (walk h s1) (walked s1 x names) Z).
  { intros s1 Hc1 Hs1. apply (co_paths _ _ Hc1) in Hx. unfold walk, bind_err. apply ok_bind. rewrite call_eq. cbn [ok].
    pose proof (calls_only_call (Some r) (FWalk from names) h s1 eq_refl) as Hc2.
    set (s2 := after_call _ _ _ _) in *.
    destruct (exec (FWalk from names) (world s1)).1 as [[lq sf]|err] eqn:E; [|by split].
    destruct (pl_walk _ _ _ _ _ _ Hx E) as [Hnone Hsome].
    assert (Hnew : new_file s2 sf (foldl fjoin x names)) by (by apply (fresh_file s1)).
    destruct getattr; [|by split]. eapply ok_walked; [exact Hc2|].
    apply ok_call_only; [done|]. intros s3 Hc3. eapply ok_walked; [exact Hc3|].
    destruct (exec (FGetAttr sf AttrMaskAll) (world s2)).1 as [[[q valid] attr]|err]; [|apply walked_close].
    split; [done|]. by apply (new_file_only s2). }
  set (walk' := if getattr then _ else _ : M _).
  assert (Hwalk' : ok (walk' h s) (walked s x names) Z).
  { unfold walk'. destruct getattr; [|by apply Hwalk]. apply ok_bind. rewrite call_eq. cbn [ok].
    pose proof (calls_only_call (Some r) (FWalkGetAttr from names) h s eq_refl) as Hc2.
    set (s2 := after_call _ _ _ _) in *.
    destruct (exec (FWalkGetAttr from names) (world s)).1 as [[[[lq sf] valid] attr]|err] eqn:E.
    - split; [done|]. destruct (pl_walkgetattr _ _ _ _ _ _ _ _ Hx E) as [Hnone Hsome]. by apply (fresh_file s).
    - destruct (Is _ _); [|by split]. eapply ok_walked; [exact Hc2|]. apply Hwalk; [done|].
      by apply (co_sync _ _ Hc2). }
  unfold bind_err at 1. eapply ok_seq; [exact Hwalk'| |done].
  intros [[[[lq sf] valid] attr]|err] s1 [Hc1 Hnew]; [|by split]. eapply ok_walked; [exact Hc1|].
  destruct (_ && _); [apply walked_close|by split].
Qed.

(** ** New references and nodes *)

Definition with_ref s (fr : fidRef File) : St :=
  mk_St (world s) (nodes s) (<[next_ref s := fr]> (refHeap s)) (conns s) (next_node s)
    (S (next_ref s)) (trace s).

Lemma PS_with_ref X L D hole s fr :
  PS X L D hole s -> is_Some (nodes s !! fr_pathNode fr) -> is_Some (fpath (world s) (file fr)) ->
  (forall p, parent fr = Some p -> is_Some (refHeap s !! p)) ->
  (forall r' fr', refHeap s !! r' = Some fr' -> file fr' = file fr -> lone fr) ->
  PS X L D hole (with_ref s fr) /\ sync_ext s (with_ref s fr).
Proof.
  intros HP Hnode Hfile Hpar Hshare. pose proof HP as [H1 H2 H3 H4 H5 H6 H7 H8].
  assert (Hnew : refHeap s !! next_ref s = None).
  { apply eq_None_not_Some. intros [fr' Hr]. destruct (H4 _ _ Hr) as (_ & _ & Hlt & _). lia. }
  assert (Hlook : forall q fq, refHeap s !! q = Some fq -> refHeap (with_ref s fr) !! q = Some fq).
  { intros q fq Hq. cbn. rewrite lookup_insert_ne; [done|congruence]. }
  assert (Hback : forall q fq, refHeap (with_ref s fr) !! q = Some fq ->
    (q = next_ref s /\ fq = fr) \/ (q <> next_ref s /\ refHeap s !! q = Some fq)).
  { intros q fq. cbn. rewrite lookup_insert_Some. naive_solver. }
  assert (Hg : forall q, good s q -> good (with_ref s fr) q).
  { intros q (fq & Hq & H). exists fq. split; [by apply Hlook|done]. }
  split; [|split; [done|intros q fq Hq; exists fq; split; [by apply Hlook|done]|done|done]].
  split; try done.
  - intros n nd q name Hn Hq. destruct (H3 _ _ _ _ Hn Hq) as (fq & p & pr & [Ha Hb Hc Hd He Hf Hi Hj Hk]).
    exists fq, p, pr. split; [by apply Hlook|done|by apply Hlook|done..| |done].
    destruct Hj as [?|?]; [left; by apply Hg|by right].
  - intros q fq Hq. destruct (Hback _ _ Hq) as [[-> ->]|[_ Hq']].
    + split; [done|]. split; [done|]. cbn. split; [lia|]. intros p Hp. destruct (Hpar p Hp) as [pr Hpr].
      exists pr. by apply Hlook.
    + destruct (H4 _ _ Hq') as (? & ? & ? & Hp). split; [done|]. split; [done|]. cbn. split; [lia|].
      intros p Hpp. destruct (Hp p Hpp) as [pr Hpr]. exists pr. by apply Hlook.
  - intros q q' fq fq' Hne Hq Hq' Hf. destruct (Hback _ _ Hq) as [[-> ->]|[_ Ha]], (Hback _ _ Hq') as [[-> ->]|[_ Hb]].
    + done.
    + left. by eapply Hshare.
    + right. by eapply Hshare.
    + by eapply H5.
  - intros c cs fid q Hc Hf. destruct (H6 _ _ _ _ Hc Hf); [left; by apply Hg|by right].
Qed.

Definition with_node s (nd : pathNode) : St :=
  mk_St (world s) (<[next_node s := nd]> (nodes s)) (refHeap s) (conns s) (S (next_node s))
    (next_ref s) (trace s).

Lemma PS_with_node X L D hole s :
  PS X L D hole s -> PS X L D hole (with_node s newPathNode) /\ sync_ext s (with_node s newPathNode).
Proof.
  intros HP. pose proof HP as [H1 H2 H3 H4 H5 H6 H7 H8].
  assert (Hnew : nodes s !! next_node s = None).
  { apply eq_None_not_Some. intros Hn. apply H7 in Hn. lia. }
  assert (Hlook : forall n nd, nodes s !! n = Some nd -> nodes (with_node s newPathNode) !! n = Some nd).
  { intros n nd Hn. cbn. rewrite lookup_insert_ne; [done|congruence]. }
  assert (Hdom : forall n, is_Some (nodes s !! n) -> is_Some (nodes (with_node s newPathNode) !! n)).
  { intros n [nd Hn]. exists nd. by apply Hlook. }
  assert (Hback : forall n nd, nodes (with_node s newPathNode) !! n = Some nd ->
    (n = next_node s /\ nd = newPathNode) \/ nodes s !! n = Some nd).
  { intros n nd. cbn. rewrite lookup_insert_Some. naive_solver. }
  assert (Hg : forall q, good s q -> good (with_node s newPathNode) q).
  { intros q (fq & Hq & H). exists fq. split; [done|].
    destruct H as [?|[?|[(nd & Hn & ?)|(n & name & nd & Hn & ?)]]]; auto.
    - right. right. left. exists nd. split; [by apply Hlook|done].
    - right. right. right. exists n, name, nd. split; [by apply Hlook|done]. }
  split; [|split; [done|by eauto|done|done]]. split; try done.
  - intros n nd Hn. destruct (Hback _ _ Hn) as [[_ ->]|?]; [apply tables_agree_new|by eapply H1].
  - intros n nd name pn Hn Hpn. apply Hdom. destruct (Hback _ _ Hn) as [[_ ->]|?]; [|by eapply H2].
    cbn in Hpn. by rewrite lookup_empty in Hpn.
  - intros n nd r name Hn Hr. destruct (Hback _ _ Hn) as [[_ ->]|Hn']; [cbn in Hr; by rewrite lookup_empty in Hr|].
    destruct (H3 _ _ _ _ Hn' Hr) as (fr & p & pr & []). exists fr, p, pr. split; try done.
    destruct ra_good as [?|?]; [left; by apply Hg|by right].
  - intros r fr Hr. destruct (H4 _ _ Hr) as (? & ? & ? & ?). split; [by apply Hdom|done].
  - intros c cs fid q Hc Hf. destruct (H6 _ _ _ _ Hc Hf); [left; by apply Hg|by right].
  - intros n. cbn. destruct (decide (n = next_node s)) as [->|Hne]; [lia|].
    rewrite lookup_insert_ne by done. intros Hn. apply H7 in Hn. lia.
  - by apply Hdom.
Qed.

(** Only the tree changes. *)
Record nodes_only s s' : Prop := {
  no_heap : refHeap s' = refHeap s;
  no_world : world s' = world s;
  no_ext : sync_ext s s';
}.

Lemma pathNodeFor_sync n name h s :
  sync s -> is_Some (nodes s !! n) ->
  ok (pathNodeFor n name h s) (fun pn s' => sync s' /\ nodes_only s s' /\ is_Some (nodes s' !! pn) /\
    kid s' n name (Some pn)) (fun _ => False).
Proof.
  intros Hs [nd Hn]. unfold pathNodeFor. apply ok_bind, ok_with_lock. unfold get_node at 1. rewrite Hn. cbn [ok].
  assert (Hfound : forall pn, childNodes nd !! name = Some pn ->
    sync s /\ nodes_only s s /\ is_Some (nodes s !! pn) /\ kid s n name (Some pn)).
  { intros pn Hpn. split; [done|]. split; [by split|]. split; [|by exists nd].
    by eapply (ps_child _ _ _ _ _ Hs). }
  destruct (childNodes nd !! name) as [pn|] eqn:E; [by apply Hfound|].
  apply ok_with_lock. eapply ok_get_node; [exact Hn|]. rewrite E. apply ok_bind. cbn [new_node ok].
  change (mk_St _ _ _ _ _ _ _) with (with_node s newPathNode).
  destruct (PS_with_node _ _ _ _ _ Hs) as [Hs1 He1]. set (s1 := with_node s newPathNode) in *.
  assert (Hne : n <> next_node s) by (intros ->; pose proof (ps_next _ _ _ _ _ Hs _ (ex_intro _ _ Hn)); lia).
  assert (Hn1 : nodes s1 !! n = Some nd) by (cbn; by rewrite lookup_insert_ne).
  apply ok_bind. cbn [ok set_node mret M_ret].
  change (mk_St _ _ _ _ _ _ _) with (with_nodes s1 (<[n := set_childNodes (<[name := next_node s]>) nd]> (nodes s1)) (next_node s1)).
  destruct (PS_fill nobody nobody clean_paths s1 n nd name (next_node s)) as [Hs2 He2]; [|done|done| |].
  - eapply PS_weaken; [exact Hs1|done|done|done|by left].
  - cbn. rewrite lookup_insert_eq. by eexists.
  - split; [done|]. split; [split; [done|done|by etrans]|]. split.
    + apply (se_nodes _ _ He2). cbn. rewrite lookup_insert_eq. by eexists.
    + eexists. cbn. rewrite lookup_insert_eq. split; [done|]. apply lookup_insert_eq.
Qed.
End walk.
