(* ===== verification/SyncTree.v ===== *)
(** * The paths of files and the path tree: [doWalk]

    The reference that a walk makes is entered into the tree, where its file's path is as its
    place says. *)
From S2P Require Import Prelude Errno Buffer Types File State PathTree FidRef Handlers.
From S2P Require Import ProgramLogic RefCount RefSteps RefOps PathSync SyncSteps SyncOps SyncRemove SyncNotify SyncRename SyncWalk.

Section tree.
Context {W File P : Type} {B : Backend W File} {RB : Returning B} {PB : PathBackend W File P}.
Local Notation St := (St W File).
Local Notation M := (M W File).
Implicit Types (s : St) (X L : rid -> Prop) (D : nid -> rid -> Prop) (hole : option (nid * string * nid)).

(** All is right, and nothing is lost. *)
Definition kept s s' : Prop := sync s' /\ sync_ext s s'.

Lemma kept_trans s1 s2 s3 : kept s1 s2 -> kept s2 s3 -> kept s1 s3.
Proof. intros [_ H1] [? H2]. split; [done|by etrans]. Qed.

Lemma kept_refl s : sync s -> kept s s.
Proof. by split. Qed.

Lemma kept_calls s s' : sync s -> calls_only s s' -> kept s s'.
Proof. intros Hs Hc. split; [by apply (co_sync _ _ Hc)|apply (co_ext _ _ Hc)]. Qed.

(** ** A new reference and its entry *)

(** What is known of a reference while its first holder is to come. *)
Definition uncounted s s' (r : rid) : Prop :=
  PS (eq r) nobody clean_paths None s' /\ sync_ext s s' /\ good s' r /\ refHeap s !! r = None /\
  exists fr, refHeap s' !! r = Some fr /\ refs fr = 0.

Lemma addChild_new X D hole s n r name fr p pr h :
  PS X nobody D hole s -> (forall n nm, ~ registered s n r nm) ->
  (forall nd, nodes s !! n = Some nd -> reg_at X nobody D hole s n (childNodes nd) r name fr p pr) ->
  is_Some (nodes s !! n) ->
  ok (addChild n r name h s) (fun _ s' => PS X nobody D hole s' /\ sync_ext s s' /\ good s' r /\
    refHeap s' = refHeap s) (fun _ => False).
Proof.
  intros HP Hno Hat [nd Hn]. specialize (Hat _ Hn). unfold addChild. apply ok_with_lock.
  assert (Hnone : childRefNames nd !! r = None).
  { apply eq_None_not_Some. intros [nm Hnm]. apply (Hno n nm). by exists nd. }
  rewrite (addChildLocked_eq _ _ _ _ _ _ Hn Hnone). cbn [ok].
  destruct (PS_enter _ _ _ _ _ _ _ _ _ _ _ _ HP Hn Hnone Hat) as (HP1 & He1 & _).
  split; [done|]. split; [done|]. split; [|done]. exists fr. split; [by destruct Hat|].
  right. right. right. exists n, name. apply registered_entered.
Qed.

Lemma not_registered_next X L D hole s n nm : PS X L D hole s -> ~ registered s n (next_ref s) nm.
Proof.
  intros HP (nd & Hn & Hnm). destruct (ps_reg _ _ _ _ _ HP _ _ _ _ Hn Hnm) as (fr & p & pr & [Hr _ _ _ _ _ _ _ _]).
  destruct (ps_ref _ _ _ _ _ HP _ _ Hr) as (_ & _ & Hlt & _). lia.
Qed.

Lemma ok_new_ref {C} fr (k : rid -> M C) h s Q Z :
  ok (k (next_ref s) h (with_ref s fr)) Q Z -> ok ((new_ref fr ≫= k) h s) Q Z.
Proof. intros Hk. apply ok_bind. exact Hk. Qed.

Lemma ok_new_child {C} p pr x sf (fr : nid -> fidRef File) name (k : rid -> M C) h s Q Z :
  sync s -> refHeap s !! p = Some pr -> good s p -> FileMode_IsDir (mode pr) = true ->
  fpath (world s) (file pr) = Some x -> new_file s sf (fjoin x name) ->
  (forall pn, file (fr pn) = sf /\ refs (fr pn) = 0 /\ parent (fr pn) = Some p /\ fr_pathNode (fr pn) = pn) ->
  (forall r s', uncounted s s' r -> ok (k r h s') Q Z) ->
  ok ((pn ← pathNodeFor (fr_pathNode pr) name; newRef ← new_ref (fr pn);
       addChild (fr_pathNode pr) newRef name;; k newRef) h s) Q Z.
Proof.
  intros Hs Hp Hg Hdir Hx [Hsf Hnew] Hfr Hk. destruct (ps_ref _ _ _ _ _ Hs _ _ Hp) as (Hn & _).
  eapply ok_seq; [by apply pathNodeFor_sync| |done].
  intros pn s1 (Hs1 & [Hh1 Hw1 He1] & Hpn & Hkid). destruct (Hfr pn) as (Ffile & Frefs & Fpar & Fnode).
  apply ok_new_ref. set (r := next_ref s1).
  destruct (PS_with_ref _ _ _ _ s1 (fr pn) Hs1) as [Hs2 He2].
  { by rewrite Fnode. }
  { rewrite Ffile, Hw1, Hsf. by eexists. }
  { rewrite Fpar. intros ? [= <-]. rewrite Hh1, Hp. by eexists. }
  { intros r' fr'. rewrite Ffile, Hh1. intros Hr' Hf. by destruct (Hnew _ _ Hr'). }
  set (s2 := with_ref s1 (fr pn)) in *.
  assert (Hs2' : PS (eq r) nobody clean_paths None s2) by (by eapply PS_weaken; [exact Hs2|done..|by left]).
  assert (Hr2 : refHeap s2 !! r = Some (fr pn)) by apply lookup_insert_eq.
  eapply ok_seq; [eapply (addChild_new (eq r) _ _ s2 (fr_pathNode pr) r name (fr pn) p pr)| |done].
  - exact Hs2'.
  - intros n nm. exact (not_registered_next _ _ _ _ s1 n nm Hs1).
  - intros nd Hnd. destruct Hkid as (nd' & Hnd' & Hc). assert (nd' = nd) as -> by (cbn in Hnd; congruence).
    assert (Hp2 : refHeap s2 !! p = Some pr).
    { cbn. rewrite lookup_insert_ne, Hh1; [done|]. intros <-.
      destruct (ps_ref _ _ _ _ _ Hs1 r pr) as (_ & _ & Hlt & _); [by rewrite Hh1|]. unfold r in Hlt. lia. }
    split; [exact Hr2|done|exact Hp2|done|done|by right|left; by rewrite Fnode| |].
    + left. apply (se_good _ _ He2). by apply (se_good _ _ He1).
    + right. exists x. cbn. by rewrite Hw1, Ffile.
  - apply (se_nodes _ _ He2). by apply (se_nodes _ _ He1).
  - intros ? s3 (HP3 & He3 & Hg3 & Hh3). apply Hk. split; [done|].
    split; [etrans; [exact He1|]; by etrans|]. split; [done|]. split; [|exists (fr pn); by rewrite Hh3].
    apply eq_None_not_Some. rewrite <- Hh1. intros [f Hf].
    destruct (ps_ref _ _ _ _ _ Hs1 _ _ Hf) as (_ & _ & Hlt & _). unfold r in Hlt. lia.
Qed.

(** The first holder. *)
Lemma IncRef_first s0 s r h :
  uncounted s0 s r -> ok (IncRef r h s) (fun _ s' => kept s0 s' /\ good s' r) (fun _ => False).
Proof.
  intros (HP & He & Hg & _ & fr & Hr & H0). rewrite (IncRef_eq _ _ _ _ Hr). cbn [ok].
  assert (He' : sync_ext s (counted s r fr (refs fr + 1))) by (by apply sync_ext_counted).
  split; [|by apply (se_good _ _ He')]. split; [|by etrans].
  eapply PS_IncRef; [exact HP|done|congruence|by right].
Qed.

Lemma IncRef_sync X r h s :
  PS X nobody clean_paths None s ->
  ok (IncRef r h s) (fun _ s' => PS X nobody clean_paths None s' /\ sync_ext s s' /\
       forall q, q <> r -> refHeap s' !! q = refHeap s !! q) (fun s' => s' = s).
Proof.
  intros HP. destruct (refHeap s !! r) as [fr|] eqn:Hr.
  - rewrite (IncRef_eq _ _ _ _ Hr). cbn [ok]. split; [eapply PS_IncRef; [exact HP|done|done|by left]|].
    split; [by apply sync_ext_counted|]. intros q Hq. cbn. by rewrite lookup_insert_ne.
  - unfold IncRef, mbind, M_bind, get_ref. by rewrite Hr.
Qed.

(** Another reference gets a holder. *)
Lemma uncounted_IncRef s0 s r p h :
  uncounted s0 s r -> is_Some (refHeap s0 !! p) ->
  ok (IncRef p h s) (fun _ s' => uncounted s0 s' r) (fun _ => False).
Proof.
  intros (HP & He & Hg & Hn & fr & Hr & H0) [pr Hp]. destruct (se_ref _ _ He _ _ Hp) as (pr' & Hp' & _).
  rewrite (IncRef_eq _ _ _ _ Hp'). cbn [ok].
  assert (He' : sync_ext s (counted s p pr' (refs pr' + 1))) by (by apply sync_ext_counted).
  split; [eapply PS_IncRef; [exact HP|done|done|by left]|]. split; [by etrans|].
  split; [by apply (se_good _ _ He')|]. split; [done|]. exists fr. cbn.
  rewrite lookup_insert_ne; [done|congruence].
Qed.

(** ** Walks of some names *)

(** Where a walk ends: the reference that it yields. *)
Definition arrived s (res : list QID * rid * AttrMask * Attr + error) s' : Prop :=
  kept s s' /\ match res with inl (_, r, _, _) => good s' r | inr _ => True end.

Lemma DecRef_kept r h s : sync s -> is_Some (refHeap s !! r) ->
  ok (DecRef r h s) (fun _ s' => kept s s') (fun _ => False).
Proof.
  intros Hs Hr. eapply ok_conseq; [by apply (DecRef_sync _ _ _ _ r h s Hs)| |done].
  intros ? s' (? & _ & ?). by split.
Qed.

Lemma good_ref s r : good s r -> is_Some (refHeap s !! r).
Proof. intros (fr & Hr & _). by exists fr. Qed.

Lemma isDeleted_reads {C} r (k : bool -> M C) h s Q (Z : St -> Prop) :
  Z s -> (forall d, ok (k d h s) Q Z) -> ok ((isDeleted r ≫= k) h s) Q Z.
Proof.
  intros HZ Hk. apply ok_bind. unfold isDeleted. apply ok_get_ref_any; [done|]. intros fr _.
  apply ok_get_node_any; [done|]. intros nd _. apply Hk.
Qed.

Lemma doWalk_loop_sync qids r valid attr names h s :
  sync s -> good s r -> ok (doWalk_loop qids r valid attr names h s) (arrived s) (kept s).
Proof.
  revert qids r valid attr s. induction names as [|name names IH]; intros qids r valid attr s Hs Hg;
    cbn [doWalk_loop]; [by split|].
  destruct (good_ref _ _ Hg) as [wr Hr]. eapply ok_get_ref; [exact Hr|].
  assert (Hgive : forall s1 err, kept s s1 ->
    ok ((_ ← DecRef r; (mret (inr err) : M _)) h s1) (arrived s) (kept s)).
  { intros s1 err [Hs1 He1]. eapply ok_seq; [apply DecRef_kept; [done|]| |done].
    - apply good_ref. by apply (se_good _ _ He1).
    - intros ? s2 H2. split; [|done]. by apply (kept_trans s s1). }
  destruct (FileMode_IsDir (mode wr)) eqn:Hdir; cbn [negb]; [|by apply Hgive, kept_refl].
  eapply (ok_seq _ _ _ _ _ _ (arrived s) (kept s)); [| |done].
  - unfold safelyRead. apply ok_with_lock. eapply ok_get_ref; [exact Hr|]. apply ok_with_lock.
    apply isDeleted_reads; [by apply kept_refl|]. intros d. unfold reject_if.
    destruct d; [split; [by apply kept_refl|done]|].
    destruct (ps_ref _ _ _ _ _ Hs _ _ Hr) as (_ & [x Hx] & _).
    unfold bind_err. eapply ok_seq; [by apply (walkOne_sync qids r (file wr) [name] true _ s x (fun _ => False))| |done].
    intros [[[[qids1 sf] valid1] attr1]|err] s1 [Hc1 Hnew]; [|by split; [apply kept_calls|]].
    destruct (kept_calls _ _ Hs Hc1) as [Hs1 He1].
    eapply (ok_new_child r wr x sf); [exact Hs1|by rewrite (co_heap _ _ Hc1)|by apply (se_good _ _ He1)|done
      |by apply (co_paths _ _ Hc1)|exact Hnew|intros pn; by split_and!|].
    intros r2 s2 Hu. eapply ok_seq; [by apply IncRef_first| |done]. intros ? s3 [Hk3 Hg3].
    split; [|done]. by apply (kept_trans s s1); [apply kept_calls|].
  - intros [[[[qids1 r1] valid1] attr1]|err] s1 [Hk1 Hg1]; [|by apply Hgive].
    eapply ok_conseq; [apply IH; [apply Hk1|done]|..].
    + intros res s2 [Hk2 Hg2]. split; [by apply (kept_trans s s1)|done].
    + intros s2 Hk2. by apply (kept_trans s s1).
Qed.

(** ** Clones *)

(** What [doWalk] does to a reference of its own that has another's place. *)
Definition settle (ref : rid) (fr : fidRef File) (newRef : rid) : M unit :=
  match parent fr with
  | Some p =>
      d ← isDeleted newRef;
      pr ← get_ref p;
      (if (d : bool) then mret tt
       else name ← nameFor (fr_pathNode pr) ref; addChild (fr_pathNode pr) newRef name);;
      IncRef p
  | None => mret tt
  end.

Lemma ok_settle {C} ref fr sf fl px x (k : rid -> M C) h s Q Z :
  sync s -> refHeap s !! ref = Some fr -> fpath (world s) (file fr) = Some x -> new_file s sf x ->
  (forall r s', kept s s' -> good s' r -> ok (k r h s') Q Z) -> (forall s', kept s s' -> Z s') ->
  ok ((newRef ← new_ref (mk_fidRef _ sf px 0 false (mode fr) fl (fr_pathNode fr) (parent fr));
       settle ref fr newRef;; IncRef newRef;; k newRef) h s) Q Z.
Proof.
  intros Hs Hr Hx [Hsf Hnew] Hk HZ. destruct (ps_ref _ _ _ _ _ Hs _ _ Hr) as (Hnode & _ & _ & Hpar).
  apply ok_new_ref. set (nr := mk_fidRef _ sf px 0 false _ _ _ _).
  destruct (PS_with_ref _ _ _ _ s nr Hs Hnode) as [Hs1 He1]; [cbn; by eexists|exact Hpar| |].
  { intros r' fr' Hr' Hf. by destruct (Hnew _ _ Hr'). }
  set (s1 := with_ref s nr) in *. set (r := next_ref s).
  assert (Hr1 : refHeap s1 !! r = Some nr) by apply lookup_insert_eq.
  assert (Hold : forall q fq, refHeap s !! q = Some fq -> q <> r /\ refHeap s1 !! q = Some fq).
  { intros q fq Hq. assert (q <> r).
    { intros ->. destruct (ps_ref _ _ _ _ _ Hs _ _ Hq) as (_ & _ & Hlt & _). unfold r in Hlt. lia. }
    split; [done|]. cbn. by rewrite lookup_insert_ne. }
  assert (Hlast : forall s2, PS (eq r) nobody clean_paths None s2 -> sync_ext s1 s2 -> good s2 r ->
    refHeap s2 !! r = Some nr ->
    ok ((IncRef r;; k r) h s2) Q Z).
  { intros s2 HP2 He2 Hg2 Hr2. eapply ok_seq; [apply (IncRef_first s)| |done].
    - split; [done|]. split; [by etrans|]. split; [done|]. split; [|by exists nr].
      apply eq_None_not_Some. intros [f Hf]. by destruct (Hold _ _ Hf).
    - intros ? s3 [H3 Hg3]. by apply Hk. }
  assert (HP1 : PS (eq r) nobody clean_paths None s1) by (by eapply PS_weaken; [exact Hs1|done..|by left]).
  unfold settle. destruct (parent fr) as [p|] eqn:Hp.
  2: { apply ok_bind. cbn [ok mret M_ret]. apply Hlast; [done|done| |done]. exists nr. split; [done|by left]. }
  destruct (Hpar p eq_refl) as [pr Hpr]. destruct (Hold _ _ Hpr) as [Hpne Hpr1].
  eapply (ok_seq _ _ _ _ _ _ (fun _ s2 => PS (eq r) nobody clean_paths None s2 /\ sync_ext s1 s2 /\
    good s2 r /\ refHeap s2 !! r = Some nr) (kept s)); [| |exact HZ].
  2: { intros ? s2 (HP2 & He2 & Hg2 & Hr2). by apply Hlast. }
  unfold isDeleted. apply ok_bind. eapply ok_get_ref; [exact Hr1|]. destruct Hnode as [nd Hnd].
  eapply ok_get_node; [exact Hnd|]. cbn [ok mret M_ret]. eapply ok_get_ref; [exact Hpr1|].
  eapply (ok_seq _ _ _ _ _ _ (fun _ s2 => PS (eq r) nobody clean_paths None s2 /\ sync_ext s1 s2 /\
    good s2 r /\ refHeap s2 = refHeap s1) (kept s)); [| |done].
  - destruct (deleted nd) eqn:Ed.
    { split; [done|]. split; [done|]. split; [|done]. exists nr. split; [done|]. right. right. left. by exists nd. }
    unfold nameFor. apply ok_bind, ok_bind, ok_with_lock. unfold get_node.
    destruct (nodes s1 !! fr_pathNode pr) as [nd1|] eqn:Hnd1; cbn [ok]; [|by split]. destruct (childRefNames nd1 !! ref) as [name|] eqn:Ename; [|by split].
    cbn [ok mret M_ret]. destruct (ps_reg _ _ _ _ _ Hs _ _ _ _ Hnd1 Ename) as (fr' & p' & pr' & Hat).
    destruct Hat as [Ha Hb Hc Hd He Hf Hi Hj Hl].
    assert (fr' = fr) as -> by congruence. assert (p' = p) as -> by congruence. assert (pr' = pr) as -> by congruence.
    eapply ok_conseq; [apply (addChild_new (eq r) clean_paths None s1 (fr_pathNode pr) r name nr p pr)| |done].
    + exact HP1.
    + intros n nm. exact (not_registered_next _ _ _ _ s n nm Hs).
    + intros nd' Hnd'. assert (nd' = nd1) as -> by (cbn in Hnd', Hnd1; congruence).
      split; [exact Hr1|done|exact Hpr1|done|done|by right|by destruct Hi; left| |].
      * left. apply (se_good _ _ He1). by destruct Hj.
      * right. destruct Hl as [[]|(y & Hy & Hz)]. exists y. split; [exact Hy|]. cbn. congruence.
    + by eexists.
    + intros ? s2 (H1 & H2 & H3 & H4). done.
  - intros ? s2 (HP2 & He2 & Hg2 & Hh2). destruct (refHeap s2 !! p) as [pr2|] eqn:Hpr2; [|congruence].
    rewrite (IncRef_eq _ _ _ _ Hpr2). cbn [ok].
    assert (He3 : sync_ext s2 (counted s2 p pr2 (refs pr2 + 1))) by (by apply sync_ext_counted).
    split; [eapply PS_IncRef; [exact HP2|done|done|by left]|]. split; [by etrans|].
    split; [by apply (se_good _ _ He3)|]. cbn. rewrite lookup_insert_ne by done. by rewrite Hh2.
Qed.

Lemma maybeParent_reads {C} r (k : rid -> M C) h s Q (Z : St -> Prop) :
  Z s -> (forall d, ok (k d h s) Q Z) -> ok ((maybeParent r ≫= k) h s) Q Z.
Proof.
  intros HZ Hk. apply ok_bind. unfold maybeParent. apply ok_get_ref_any; [done|]. intros fr _. apply Hk.
Qed.

Lemma doWalk_sync ref names getattr h s :
  sync s -> good s ref -> ok (doWalk ref names getattr h s) (arrived s) (kept s).
Proof.
  intros Hs Hg. pose proof (kept_refl s Hs) as H0. unfold doWalk.
  destruct (checkSafeNames names); [by split|]. destruct names as [|name names].
  2: { destruct (good_ref _ _ Hg) as [fr Hr]. apply ok_bind. rewrite (IncRef_eq _ _ _ _ Hr). cbn [ok].
    assert (Hk : kept s (counted s ref fr (refs fr + 1))).
    { split; [|by apply sync_ext_counted]. by apply (PS_IncRef nobody). }
    eapply ok_conseq; [apply doWalk_loop_sync; [apply Hk|by apply (se_good _ _ (proj2 Hk))]|..].
    - intros res s2 [H2 ?]. split; [by eapply kept_trans|done].
    - intros s2 H2. by eapply kept_trans. }
  apply maybeParent_reads; [done|]. intros mp.
  eapply (ok_seq _ _ _ _ _ _ (fun (res : rid * AttrMask * Attr + error) s' => kept s s' /\
    match res with inl (r, _, _) => good s' r | inr _ => True end) (kept s)); [| |done].
  2: { intros [[[r valid] attr]|err] s1 H1; exact H1. }
  unfold safelyRead. apply ok_with_lock. apply ok_get_ref_any; [done|]. intros mr _. apply ok_with_lock.
  destruct (good_ref _ _ Hg) as [fr Hr]. eapply ok_get_ref; [exact Hr|].
  destruct (ps_ref _ _ _ _ _ Hs _ _ Hr) as (_ & [x Hx] & _).
  unfold bind_err. eapply ok_seq; [by apply (walkOne_sync [] ref (file fr) [] getattr _ s x (fun _ => False))| |done].
  intros [[[[qids sf] valid] attr]|err] s1 [Hc1 Hnew]; [|by split; [apply kept_calls|]].
  pose proof (kept_calls _ _ Hs Hc1) as Hk1.
  eapply (ok_settle ref fr sf 0 pendingXattr_zero x); [apply Hk1|by rewrite (co_heap _ _ Hc1)|by apply (co_paths _ _ Hc1)|exact Hnew|..].
  - intros r s2 Hk2 Hg2. split; [by apply (kept_trans s s1)|done].
  - intros s2 Hk2. by apply (kept_trans s s1).
Qed.
End tree.
