(* ===== verification/SyncLogic.v ===== *)
(** * The paths of files and the path tree: the logic

    The invariant as an instance of the program logic, and what the server's functions do to
    it: those on references, on the tables of a connection, and the moves in the tree. *)
From S2P Require Import Prelude Errno Buffer Types Messages Message Transport Version.
From S2P Require Import File State PathTree FidRef Handlers Server Reach ProgramLogic TreeLogic RefCount RefSteps RefOps.
From S2P Require Import PathSync SyncSteps SyncOps SyncRemove SyncNotify SyncRename SyncWalk SyncTree.

Section logic.
Context {W File P : Type} {B : Backend W File} {RB : Returning B} {PB : PathBackend W File P}.
Local Notation St := (St W File).
Local Notation M := (M W File).
Implicit Types (s : St) (h : held) (F : St -> Prop).

Definition sync_inv : Inv W File := {| I := sync; ext := sync_ext |}.
#[local] Existing Instance sync_inv.

(** ** Facts that last *)

#[export] Instance stable_good r : Stable (inv := sync_inv) (fun s => good s r).
Proof. intros s s' He. by apply (se_good _ _ He). Qed.

#[export] Instance stable_conn c : Stable (inv := sync_inv) (fun s => is_Some (conns s !! c)).
Proof. intros s s' He. by apply (se_conns _ _ He). Qed.

(** [fr] was read from [r]: its file, its mode and its node do not change. *)
Definition known (r : rid) (fr : fidRef File) s : Prop := exists fr', refHeap s !! r = Some fr' /\
  file fr' = file fr /\ mode fr' = mode fr /\ fr_pathNode fr' = fr_pathNode fr.

#[export] Instance stable_known r fr : Stable (inv := sync_inv) (known r fr).
Proof.
  intros s s' He (f1 & Hr & ? & ? & ?). destruct (se_ref _ _ He _ _ Hr) as (f2 & ? & ? & ? & ?).
  exists f2. split_and!; congruence.
Qed.

#[export] Instance stable_pure (p : Prop) : Stable (inv := sync_inv) (fun _ => p).
Proof. by intros s s' _. Qed.

(** ** From [ok] *)

Lemma wp_kept {A} s (o : outcome W File A) (Q : A -> St -> Prop) :
  (sync s -> ok o (fun a s' => kept s s' /\ Q a s') (kept s)) -> wp s o Q.
Proof. intros Ho HI. specialize (Ho HI). destruct o; [|done..]. destruct Ho as [[? ?] ?]. done. Qed.

Lemma keeps_kept {A} h F (m : M A) :
  (forall s, F s -> sync s -> ok (m h s) (fun _ => kept s) (kept s)) -> keeps h F m.
Proof.
  intros Hm s Hs. apply wp_kept. intros HI. eapply ok_conseq; [by apply Hm|by split|done].
Qed.

(** What is read of a reference. *)
Lemma sync_get_ref {A} h F r (k : fidRef File -> M A) :
  (forall fr, keeps h (fun s => F s /\ known r fr s) (k fr)) -> keeps h F (get_ref r ≫= k).
Proof.
  intros Hk. apply keeps_get_exact. intros fr s Hs Hr. apply Hk. split; [done|]. by exists fr.
Qed.

(** ** Calls, counts *)

Lemma sync_call {A} h F r (e : FileE File A) : not_renamed e = true -> keeps h F (call r e : M _).
Proof.
  intros He. apply keeps_kept. intros s _ HI. rewrite call_eq. cbn [ok].
  apply kept_calls; [done|]. by apply calls_only_call.
Qed.

Lemma sync_IncRef h F r : keeps h F (IncRef r : M _).
Proof.
  apply keeps_kept. intros s _ HI. eapply ok_conseq; [by apply (IncRef_sync nobody)|..].
  - intros ? s' (? & ? & _). by split.
  - intros s' ->. by apply kept_refl.
Qed.

Lemma sync_DecRef h F r : keeps h F (DecRef r : M _).
Proof.
  apply keeps_kept. intros s _ HI. destruct (refHeap s !! r) as [fr|] eqn:Hr.
  - eapply ok_conseq; [apply DecRef_kept; [done|by eexists]|done|done].
  - unfold DecRef. apply ok_bind. cbn [count_refs ok DecRef_fuel].
    unfold mbind, M_bind, get_ref. rewrite Hr. cbn. by apply kept_refl.
Qed.

(** [fr ← get_ref r; set_ref r (f fr); ...], the place being the same. *)
Lemma sync_set_ref h s r fr fr' :
  refHeap s !! r = Some fr -> same_place fr fr' -> refs fr' = refs fr ->
  wp s ((set_ref r fr' : M _) h s) (fun _ _ => True).
Proof.
  intros Hr Hp Hk. apply wp_kept. intros HI. cbn [ok set_ref]. split; [|done].
  split; [|by eapply (sync_ext_heap s r fr)]. eapply (PS_heap nobody); [exact HI|done..|].
  intros n name Hreg. rewrite Hk. by eapply registered_refs.
Qed.

Lemma sync_update {A} h F `{!Stable F} r f (k : fidRef File -> M A) :
  (forall fr, same_place fr (f fr) /\ refs (f fr) = refs fr) -> (forall fr, keeps h F (k fr)) ->
  keeps h F (fr ← get_ref r; set_ref r (f fr);; k fr).
Proof.
  intros Hf Hk. apply keeps_get_exact. intros fr s Hs Hr. destruct (Hf fr).
  eapply wp_seq; [by eapply sync_set_ref|]. intros ? s' _ He _. apply Hk. by eapply stable.
Qed.

(** ** Connections *)

Definition with_conn s c cs : St :=
  mk_St (world s) (nodes s) (refHeap s) (<[c := cs]> (conns s)) (next_node s) (next_ref s) (trace s).

Lemma PS_with_conn s c cs :
  sync s -> (forall fid r, fids cs !! fid = Some r -> good s r) -> kept s (with_conn s c cs).
Proof.
  intros [H1 H2 H3 H4 H5 H6 H7 H8] Hfids. split.
  - split; try done.
    { intros n nd r name Hn Hr. destruct (H3 _ _ _ _ Hn Hr) as (fr & p & pr & []).
      exists fr, p, pr. by split. }
    intros c' cs' fid r Hc Hf. cbn in Hc. rewrite lookup_insert_Some in Hc.
    destruct Hc as [[<- <-]|[_ Hc]]; [left; by eapply Hfids|by eapply H6].
  - split; [done|by eauto|done|]. intros c' Hc. cbn. destruct (decide (c' = c)) as [->|Hne].
    + rewrite lookup_insert_eq. by eexists.
    + by rewrite lookup_insert_ne.
Qed.

Lemma fid_good s c cs fid r : sync s -> conns s !! c = Some cs -> fids cs !! fid = Some r -> good s r.
Proof. intros HI Hc Hf. by destruct (ps_fid _ _ _ _ _ HI _ _ _ _ Hc Hf). Qed.

Lemma sync_set_conn h s c cs cs' :
  conns s !! c = Some cs -> (forall fid r, fids cs' !! fid = Some r -> fids cs !! fid = Some r) ->
  wp s ((set_conn c cs' : M _) h s) (fun _ _ => True).
Proof.
  intros Hc Hf. apply wp_kept. intros HI. cbn [ok set_conn]. split; [|done].
  apply (PS_with_conn s c cs' HI). intros fid r Hr. by eapply fid_good; [..|apply Hf].
Qed.

Lemma keeps_get_conn_exact {A} h F c (k : connState -> M A) :
  (forall cs s, F s -> conns s !! c = Some cs -> wp s (k cs h s) (fun _ _ => True)) ->
  keeps h F (get_conn c ≫= k).
Proof.
  intros Hk s Hs. unfold mbind, M_bind, get_conn.
  destruct (conns s !! c) as [cs|] eqn:E; [by apply Hk|]. intros HI. by split.
Qed.

Lemma wp_set_conn_then {A} h F `{!Stable F} s c cs cs' (k : M A) :
  F s -> conns s !! c = Some cs -> fids cs' = fids cs -> keeps h F k ->
  wp s ((set_conn c cs';; k) h s) (fun _ _ => True).
Proof.
  intros Hs Hc Hf Hk. eapply wp_seq; [eapply sync_set_conn; [exact Hc|by rewrite Hf]|].
  intros ? s' _ He _. apply Hk. by eapply stable.
Qed.

Lemma sync_LookupFID h s c fid :
  wp s ((LookupFID c fid : M _) h s)
    (fun o s' => match o with Some r => good s' r /\ is_Some (conns s' !! c) | None => True end).
Proof.
  apply wp_kept. intros HI. unfold LookupFID. apply ok_with_lock. unfold mbind at 1, M_bind at 1, get_conn.
  destruct (conns s !! c) as [cs|] eqn:Hc; [|by apply kept_refl].
  destruct (fids cs !! fid) as [r|] eqn:Hf; [|split; [by apply kept_refl|done]].
  pose proof (fid_good _ _ _ _ _ HI Hc Hf) as Hg. eapply ok_seq; [by apply (IncRef_sync nobody)|..].
  - intros ? s' (HI' & He & _). cbn [ok mret M_ret]. split; [by split|].
    split; [by apply (se_good _ _ He)|apply (se_conns _ _ He); by eexists].
  - intros s' ->. by apply kept_refl.
Qed.

(** The table gets a reference, of which it may be the first holder. *)
Lemma InsertFID_kept s0 c fid r h s :
  sync_ext s0 s -> good s r -> is_Some (conns s !! c) ->
  (forall fr, refHeap s !! r = Some fr -> sync (counted s r fr (refs fr + 1))) ->
  ok (InsertFID c fid r h s) (fun _ => kept s0) (kept s0).
Proof.
  intros He Hg [cs Hc] Hcnt. unfold InsertFID. apply ok_with_lock.
  unfold mbind at 1, M_bind at 1, get_conn. rewrite Hc.
  assert (Hins : ok ((IncRef r;; (set_conn c (set_fids (<[fid := r]>) cs) : M _)) ((fidMu c, true) :: h) s)
    (fun _ s' => kept s0 s' /\ forall o, fids cs !! fid = Some o -> is_Some (refHeap s' !! o)) (fun _ => False)).
  { destruct (good_ref _ _ Hg) as [fr Hr]. apply ok_bind. rewrite (IncRef_eq _ _ _ _ Hr). cbn [ok set_conn].
    pose proof (Hcnt _ Hr) as HI1. set (s1 := counted s r fr (refs fr + 1)) in *.
    assert (He1 : sync_ext s s1) by by apply sync_ext_counted.
    assert (Hold : forall fid' o, fids cs !! fid' = Some o -> good s1 o).
    { intros fid' o Ho. exact (fid_good s1 c cs fid' o HI1 Hc Ho). }
    destruct (PS_with_conn s1 c (set_fids (<[fid := r]>) cs) HI1) as [HI2 He2].
    { intros fid' o. cbn. rewrite lookup_insert_Some. intros [[_ <-]|[_ Ho]]; [by apply (se_good _ _ He1)|by eapply Hold]. }
    split; [split; [exact HI2|]|].
    - etrans; [exact He|]. by etrans.
    - intros o Ho. apply good_ref. apply (se_good _ _ He2). by eapply Hold. }
  destruct (fids cs !! fid) as [o|] eqn:Ho.
  - eapply ok_defer; [exact Hins| |done]. intros ? s1 [Hk1 Hor].
    eapply ok_conseq; [apply DecRef_kept; [apply Hk1|by apply Hor]| |done].
    intros ? s2 Hk2. by apply (kept_trans s0 s1).
  - eapply ok_conseq; [exact Hins| |done]. by intros ? s1 [? _].
Qed.

Lemma sync_InsertFID h F c fid r :
  (forall s, F s -> good s r) -> keeps h F (InsertFID c fid r : M _).
Proof.
  intros HF. apply keeps_kept. intros s Hs HI. destruct (conns s !! c) as [cs|] eqn:Hc.
  - apply InsertFID_kept; [reflexivity|by apply HF|by eexists|]. intros fr Hr. by apply (PS_IncRef nobody).
  - unfold InsertFID. apply ok_with_lock. unfold mbind at 1, M_bind at 1, get_conn. rewrite Hc.
    by apply kept_refl.
Qed.

Lemma InsertFID_first s0 c fid r h s :
  uncounted s0 s r -> is_Some (conns s !! c) ->
  ok (InsertFID c fid r h s) (fun _ => kept s0) (kept s0).
Proof.
  intros (HP & He & Hg & _ & fr & Hr & H0) Hc. apply InsertFID_kept; [done..|]. intros fr' Hr'.
  assert (fr' = fr) as -> by congruence. eapply PS_IncRef; [exact HP|done|congruence|by right].
Qed.

Lemma sync_DeleteFID h F c fid : keeps h F (DeleteFID c fid : M _).
Proof.
  unfold DeleteFID. apply keeps_with_lock, keeps_get_conn_exact. intros cs s _ Hc.
  destruct (fids cs !! fid) as [r|]; [|by apply wp_ret].
  eapply wp_seq; [eapply sync_set_conn; [exact Hc|]|].
  - intros fid' o. cbn. rewrite lookup_delete_Some. by intros [_ ?].
  - intros ? s' _ _ _. by apply (sync_DecRef _ (fun _ => True)).
Qed.

Lemma sync_with_fid {A} h F `{!Stable F} c fid (bad : A) (k : rid -> M A) :
  (forall r, keeps h (fun s => F s /\ good s r /\ is_Some (conns s !! c)) (k r)) ->
  keeps h F (with_fid c fid bad k).
Proof.
  intros Hk s Hs. unfold with_fid. eapply wp_seq; [apply sync_LookupFID|].
  intros [r|] s1 _ He1 H1; [|by apply wp_ret]. apply wp_defer.
  - apply Hk. split; [by eapply stable|done].
  - intros s2 _. by apply (sync_DecRef _ (fun _ => True)).
  - done.
Qed.

(** ** The tree *)

Lemma sync_markChildDeleted h F r name : keeps h F (markChildDeleted r name : M _).
Proof.
  apply keeps_kept. intros s _ HI. destruct (refHeap s !! r) as [fr|] eqn:Hr.
  - eapply ok_conseq; [by eapply markChildDeleted_sync|by intros ? s' (? & ? & _)|by intros s' [? ?]].
  - unfold markChildDeleted, mbind, M_bind, get_ref. rewrite Hr. by apply kept_refl.
Qed.

Lemma sync_pathNodeFor h F n name : keeps h F (pathNodeFor n name : M _).
Proof.
  apply keeps_kept. intros s _ HI. destruct (nodes s !! n) as [nd|] eqn:Hn.
  - eapply ok_conseq; [apply pathNodeFor_sync; [done|by eexists]| |done].
    intros ? s' (? & [_ _ ?] & _). by split.
  - unfold pathNodeFor. apply ok_bind, ok_with_lock. unfold get_node. rewrite Hn. by apply kept_refl.
Qed.

Lemma sync_reply {A} h F `{!Stable F} (e : M (A + error)) (k : A -> M message) :
  keeps h F e -> (forall x, keeps h F (k x)) -> keeps h F (reply e k).
Proof.
  intros He Hk. rule keeps_bind; [done|]. intros [x|err]; [apply Hk|apply keeps_ret].
Qed.

Lemma sync_renameChildTo h F f old target new fr tr :
  (forall s, F s -> known f fr s /\ known target tr s /\ good s target) ->
  FileMode_IsDir (mode tr) = true -> fr_pathNode fr <> fr_pathNode tr \/ old <> new ->
  keeps h F (renameChildTo f old target new : M _).
Proof.
  intros HF Hdir Hdiff. apply keeps_kept. intros s Hs HI.
  destruct (HF s Hs) as ((f1 & Hf1 & _ & _ & Hn1) & (t1 & Ht1 & _ & Hm1 & Hn2) & Hg).
  eapply ok_conseq; [eapply (renameChildTo_sync f old target new f1 t1); [done..| |done|]|done|done].
  - congruence.
  - by rewrite Hn1, Hn2.
Qed.

Lemma sync_doWalk h F `{!Stable F} ref names getattr
    (k : list QID * rid * AttrMask * Attr -> M message) :
  (forall s, F s -> good s ref) ->
  (forall qids r valid attr, keeps h (fun s => F s /\ good s r) (k (qids, r, valid, attr))) ->
  keeps h F (reply (doWalk ref names getattr) k).
Proof.
  intros Hg Hk s Hs. unfold reply. eapply wp_seq.
  - apply wp_kept. intros HI. eapply ok_conseq; [by apply doWalk_sync; [|apply Hg]|intros ? s' H; exact H|done].
  - intros [[[[qids r] valid] attr]|err] s' _ He H; [|by apply wp_ret]. apply Hk.
    split; [by eapply stable|done].
Qed.
End logic.
