(* ===== verification/SyncHandlers.v ===== *)
(** * The paths of files and the path tree: the handlers

    Every handler keeps the invariant, and so does every step of a server. *)
From S2P Require Import Prelude Errno Buffer Types Messages Message Transport Version.
From S2P Require Import File State PathTree FidRef Handlers Server Reach ProgramLogic TreeLogic RefCount RefSteps RefOps.
From S2P Require Import PathSync SyncSteps SyncOps SyncRemove SyncNotify SyncRename SyncWalk SyncTree SyncLogic.

#[local] Existing Instance sync_inv.

#[local] Hint Extern 1 (keeps _ _ (call _ _)) => (apply sync_call; reflexivity) : keeps.
#[local] Hint Resolve sync_IncRef sync_DecRef sync_DeleteFID sync_markChildDeleted sync_pathNodeFor : keeps.
#[local] Hint Extern 1 (keeps _ _ (InsertFID _ _ _)) => (apply sync_InsertFID; solve_fact) : keeps.

(** One step through a handler. *)
Ltac sync_step :=
  intros; lazymatch goal with
  | |- keeps _ _ (with_fid _ _ _ _) => rule sync_with_fid
  | |- keeps _ _ (reply (doWalk _ _ _) _) => rule sync_doWalk; [solve_fact|]
  | |- keeps _ _ (reply _ _) => rule sync_reply
  | |- keeps _ _ (check_dir _ _) => unfold check_dir
  | |- keeps _ _ (call_err _ _) => unfold call_err
  | |- keeps _ _ (isDeleted _) => unfold isDeleted
  | |- keeps _ _ (hasParent _) => unfold hasParent
  | |- keeps _ _ (parent_of _) => unfold parent_of
  | |- keeps _ _ (nameFor _ _) => unfold nameFor
  | |- keeps _ _ (safelyRead _ _) => unfold safelyRead
  | |- keeps _ _ (safelyWrite _ _) => unfold safelyWrite
  | |- keeps _ _ (safelyGlobal _ _) => unfold safelyGlobal
  | |- keeps _ _ (mbind (fun fr => set_ref ?r (_ fr);; _) (get_ref ?r)) =>
      rule sync_update; [intros; by split_and!|]
  | |- _ => keeps_step
  end.
Ltac sync_code := repeat (first [solve [eauto 3 with keeps] | sync_step]).

Section handlers.
Context {W File P : Type} {B : Backend W File} {RB : Returning B} {PB : PathBackend W File P}.
Local Notation St := (St W File).
Local Notation M := (M W File).
Implicit Types (s : St) (h : held) (F : St -> Prop).

(** ** Connections *)

Lemma sync_handle_tversion h t c : keeps h (fun _ => True) (handle_tversion t c : M _).
Proof.
  unfold handle_tversion. destruct (_ =? 0); [sync_code|]. destruct (parseVersion _) as [[b v]|]; [|sync_code].
  destruct (_ || _); [sync_code|]. apply keeps_get_conn_exact. intros cs s Hs Hc.
  eapply (wp_set_conn_then _ (fun _ => True)); [done|exact Hc|done|]. sync_code.
Qed.

Lemma sync_readBufPool_Get h F `{!Stable F} c : keeps h F (readBufPool_Get c : M _).
Proof.
  apply keeps_get_conn_exact. intros cs s Hs Hc.
  destruct (readBufPool cs) as [[msize [|b bs]]|]; [by apply wp_ret| |by apply wp_panic].
  eapply (wp_set_conn_then _ F); [done|exact Hc|done|]. apply keeps_ret.
Qed.
#[local] Hint Resolve sync_readBufPool_Get : keeps.

Lemma sync_StartTag h F `{!Stable F} c t : keeps h F (StartTag c t : M _).
Proof.
  apply keeps_with_lock, keeps_get_conn_exact. intros cs s Hs Hc.
  destruct (bool_decide _); [by apply wp_ret|].
  eapply (wp_set_conn_then _ F); [done|exact Hc|done|]. apply keeps_ret.
Qed.

Lemma sync_ClearTag h F c t : keeps h F (ClearTag c t : M _).
Proof.
  apply keeps_with_lock, keeps_get_conn_exact. intros cs s Hs Hc.
  destruct (bool_decide _); [by eapply sync_set_conn; [exact Hc|]|by apply wp_panic].
Qed.

Lemma sync_PayloadCleanup h F `{!Stable F} c r : keeps h F (PayloadCleanup c r : M _).
Proof.
  destruct r; try apply keeps_ret. apply keeps_get_conn_exact. intros cs s Hs Hc. cbv zeta.
  destruct (readBufPool cs) as [[msize bs]|]; [by eapply sync_set_conn; [exact Hc|]|by apply wp_ret].
Qed.

(** ** New references *)

(** One to a file that another one has: that of an extended attribute. *)
Lemma sync_new_lone h F ref fr px fl (k : rid -> M (Z + error)) `{!Stable F} :
  (forall s, F s -> known ref fr s) ->
  (forall r, keeps h (fun s => F s /\ good s r) (k r)) ->
  keeps h F (r ← new_ref (mk_fidRef _ (file fr) px 0 false 0 fl (fr_pathNode fr) None); k r).
Proof.
  intros HF Hk. apply (keeps_bind_fact _ _ _ (fun r s => good s r)); [apply _| |done].
  intros s Hs. apply wp_kept. intros HI. cbn [ok new_ref].
  destruct (HF s Hs) as (fr' & Hr & Hf & _ & Hn). destruct (ps_ref _ _ _ _ _ HI _ _ Hr) as (Hnode & Hpath & _).
  rewrite Hf in Hpath. rewrite Hn in Hnode. set (nr := mk_fidRef _ _ _ _ _ _ _ _ _).
  destruct (PS_with_ref _ _ _ _ s nr HI Hnode Hpath) as [HI' He]; [done|by split|].
  split; [by split|]. exists nr. split; [apply lookup_insert_eq|by left].
Qed.

Lemma sync_handle_txattrwalk h t c : keeps h (fun _ => True) (handle_txattrwalk t c : M _).
Proof.
  unfold handle_txattrwalk. rule sync_with_fid. intros ref. rule sync_reply; [|sync_code].
  sync_step. apply keeps_with_lock. sync_step; [sync_code|]. sync_step. sync_step; [sync_code|].
  sync_step. intros _. apply sync_get_ref. intros fr. sync_step; [sync_code|]. sync_step. intros _.
  rule (sync_new_lone _ _ ref fr); [solve_fact|]. intros nr. sync_code.
Qed.

(** The root of an attachment. *)
Lemma sync_handle_tattach h t c : keeps h (fun _ => True) (handle_tattach t c : M _).
Proof.
  unfold handle_tattach. destruct (negb _); [sync_code|]. cbv zeta. set (attachName := if IsAbs _ then _ else _).
  intros s _. unfold reply at 1. apply wp_bind, wp_kept. intros HI. rewrite call_eq. cbn [ok].
  pose proof (calls_only_call None FAttach h s eq_refl) as Hc1. pose proof (kept_calls _ _ HI Hc1) as Hk1.
  set (s1 := after_call _ _ _ _) in *.
  destruct (exec FAttach (world s)).1 as [sf|err] eqn:E; [|split; [done|by apply wp_ret]].
  destruct (pl_attach _ _ E) as [Hnone [x Hsome]]. assert (Hnew : new_file s1 sf x) by (by apply (fresh_file s)).
  split; [done|]. apply wp_bind, wp_kept. intros HI1. rewrite call_eq. cbn [ok].
  pose proof (calls_only_call None (FGetAttr sf AttrMaskAll) h s1 eq_refl) as Hc2.
  pose proof (kept_calls _ _ HI1 Hc2) as Hk2. apply (new_file_only _ _ _ _ Hc2) in Hnew.
  split; [done|]. set (s2 := after_call None (FGetAttr sf AttrMaskAll) h s1) in *.
  destruct (exec (FGetAttr sf AttrMaskAll) (world s1)).1 as [[[qid valid] attr]|err].
  2: { apply (keeps_bind (F := fun _ => True)); [sync_code|sync_code|done]. }
  destruct (negb _). { apply (keeps_bind (F := fun _ => True)); [sync_code|sync_code|done]. }
  eapply (wp_seq _ _ _ _ _ (fun r s' => good s' r)).
  - apply wp_kept. intros HI2. cbn [ok new_ref]. set (nr := mk_fidRef _ _ _ _ _ _ _ _ _).
    destruct Hnew as [Hx Hno].
    destruct (PS_with_ref _ _ _ _ s2 nr HI2) as [HI3 He3]; [by apply (ps_root _ _ _ _ _ HI2)|by eexists|done| |].
    { intros r' fr' Hr' Hf. by destruct (Hno _ _ Hr'). }
    split; [by split|]. exists nr. split; [apply lookup_insert_eq|by left].
  - intros root s3 _ _ Hg. assert (Hrest : forall m : M message, keeps h (fun s => good s root) m ->
      wp s3 (m h s3) (fun _ _ => True)) by (intros m Hm; by apply Hm).
    apply Hrest. apply keeps_defer; [sync_code|]. destruct attachName as [|a rest]; [sync_code|].
    sync_step. sync_code.
Qed.

(** The file that is created. *)
Lemma sync_tlcreate_do h F `{!Stable F} t c uid : keeps h F (tlcreate_do t c uid : M _).
Proof.
  unfold tlcreate_do. destruct (checkSafeName _); [sync_code|]. rule sync_with_fid. intros ref.
  apply keeps_kept. intros s (Hs & Hg & Hconn) HI. pose proof (kept_refl s HI) as H0.
  unfold bind_err at 1.
  eapply (ok_seq _ _ _ _ _ _ (fun (res : rid * QID * Z + error) s' =>
    match res with inl (r, _, _) => uncounted s s' r | inr _ => kept s s' end) (kept s)); [| |done].
  2: { intros [[[r qid] io]|err] s1 H1; [|done]. eapply ok_seq; [apply (InsertFID_first s); [done|]| |done].
    - destruct H1 as (_ & He & _). by apply (se_conns _ _ He).
    - by intros ? s2 H2. }
  unfold safelyWrite. apply ok_with_lock. apply ok_get_ref_any; [done|]. intros fr0 _. apply ok_with_lock.
  apply isDeleted_reads; [done|]. intros d. apply ok_get_ref_any; [done|]. intros fr Hr. unfold reject_if.
  destruct (d || negb (FileMode_IsDir (mode fr))) eqn:Ed; [done|]. destruct (opened fr); [done|].
  apply orb_false_iff in Ed as [_ Ed]. apply negb_false_iff in Ed.
  destruct (ps_ref _ _ _ _ _ HI _ _ Hr) as (_ & [x Hx] & _).
  set (e := FCreate _ _ _ _ _ _). unfold bind_err. apply ok_bind. rewrite call_eq. cbn [ok].
  match goal with |- context [after_call _ _ ?h' _] =>
    pose proof (calls_only_call (Some ref) e h' s eq_refl) as Hc1; set (s1 := after_call (Some ref) e h' s) in * end.
  destruct (exec e (world s)).1 as [[[nsf qid] io]|err] eqn:E; [|by apply kept_calls].
  destruct (pl_create _ _ _ _ _ _ _ _ _ _ _ Hx E) as [Hnone Hsome].
  pose proof (kept_calls _ _ HI Hc1) as [HI1 He1].
  eapply (ok_new_child ref fr x nsf); [exact HI1|by rewrite (co_heap _ _ Hc1)|by apply (se_good _ _ He1)|done
    |by apply (co_paths _ _ Hc1)|by apply (fresh_file s)|intros pn; by split_and!|].
  intros r s2 (HP2 & He2 & Hg2 & Hn2 & Hr2). eapply ok_seq; [apply (uncounted_IncRef s s2 r ref)| |done].
  - split; [done|]. split; [by etrans|]. split; [done|]. split; [|done]. by rewrite <- (co_heap _ _ Hc1).
  - by eexists.
  - by intros ? s3 H3.
Qed.
#[local] Hint Resolve sync_tlcreate_do : keeps.

(** ** Renaming *)

Lemma same_place_or (a b' : nid) (x y : string) :
  bool_decide (a = b') && String.eqb x y = false -> a <> b' \/ x <> y.
Proof. intros [H|H]%andb_false_iff; [left; by apply bool_decide_eq_false in H|right; by apply String.eqb_neq]. Qed.

Lemma sync_handle_trenameat h t c : keeps h (fun _ => True) (handle_trenameat t c : M _).
Proof.
  unfold handle_trenameat. destruct (checkSafeName _); [sync_code|]. destruct (checkSafeName _); [sync_code|].
  rule sync_with_fid. intros ref. rule sync_with_fid. intros target. rule sync_reply; [|sync_code].
  sync_step. apply keeps_with_lock. sync_step; [sync_code|]. intros d. apply sync_get_ref. intros fr.
  sync_step; [sync_code|]. intros td. apply sync_get_ref. intros tr. apply keeps_reject_if.
  intros [_ Hdir]%orb_false_iff. apply negb_false_iff in Hdir. sync_step. intros _.
  destruct (_ && _) eqn:Ediff; [sync_code|]. apply same_place_or in Ediff.
  sync_step; [sync_code|]. intros []. apply keeps_bind; [|sync_code].
  eapply sync_renameChildTo; [|exact Hdir|exact Ediff]. intros s Hs. destruct_and?. done.
Qed.

Lemma sync_handle_trename h t c : keeps h (fun _ => True) (handle_trename t c : M _).
Proof.
  unfold handle_trename. destruct (checkSafeName _); [sync_code|].
  rule sync_with_fid. intros ref. rule sync_with_fid. intros target. rule sync_reply; [|sync_code].
  sync_step. apply keeps_with_lock. sync_step; [sync_code|]. sync_step. sync_step; [sync_code|].
  sync_step; [sync_code|]. intros td. apply sync_get_ref. intros tr. apply keeps_reject_if.
  intros [_ Hdir]%orb_false_iff. apply negb_false_iff in Hdir.
  sync_step; [sync_code|]. sync_step; [sync_code|]. intros [|]; [sync_code|].
  apply sync_get_ref. intros pr. sync_step; [sync_code|]. intros oldName.
  destruct (_ && _) eqn:Ediff; [sync_code|]. apply same_place_or in Ediff.
  sync_step; [sync_code|]. intros []. apply keeps_bind; [|sync_code].
  eapply sync_renameChildTo; [|exact Hdir|exact Ediff]. intros s Hs. destruct_and?. done.
Qed.

(** ** The others *)

Lemma sync_handle_twrite h t c : keeps h (fun _ => True) (handle_twrite t c : M _).
Proof.
  unfold handle_twrite. rule sync_with_fid. intros ref. rule sync_reply; [|sync_code].
  sync_step. apply keeps_with_lock. sync_step; [sync_code|]. sync_step.
  match goal with |- keeps ?x _ _ => set (h' := x) end.
  apply keeps_get_exact. intros fr s Hs Hr. cbv zeta. destruct (px_op _).
  - assert (Hk : forall m : M (Z + error), keeps h' (fun _ => True) m -> wp s (m h' s) (fun _ _ => True))
      by (intros m Hm; by apply Hm).
    apply Hk. sync_code.
  - unfold reject_if. destruct (negb _); [by apply wp_ret|]. destruct (_ <? _); [by apply wp_ret|].
    eapply wp_seq; [eapply sync_set_ref; [exact Hr|by split_and!|done]|]. intros. by apply wp_ret.
  - by apply wp_ret.
Qed.

Lemma sync_handler m f c : handler m = Some f -> keeps [] (fun _ => True) (f c : M _).
Proof.
  destruct m; try discriminate; intros [= <-];
    first [apply sync_handle_tversion|apply sync_handle_tattach|apply sync_handle_trenameat
      |apply sync_handle_trename|apply sync_handle_txattrwalk|apply sync_handle_twrite|idtac];
    unfold handle_tflush, handle_tauth, handle_tclunk, handle_tread,
              handle_tremove, handle_tlopen, handle_tlcreate, handle_tsymlink,
              handle_tlink, handle_tunlinkat, handle_treadlink,
              handle_tmknod, handle_tmkdir, handle_tgetattr, handle_tsetattr,
              handle_txattrcreate, handle_treaddir, handle_tfsync,
              handle_tstatfs, handle_tlock, handle_twalk, handle_twalkgetattr,
              handle_tucreate, handle_tumkdir, handle_tusymlink, handle_tumknod,
              clunkHandleXattr, tsymlink_do, tmknod_do, tmkdir_do,
              check_walk_busy, tread_fn, slice_to, slice_from, WaitTag;
    sync_code.
Qed.

(** ** Steps of the server *)

Lemma sync_respond c tag m : keeps [] (fun _ => True) (respond c tag m : M _).
Proof.
  unfold respond. apply keeps_bind; [by rule sync_StartTag|]. intros [|]; cbn [negb]; [|sync_code].
  apply keeps_bind.
  - apply logic_recover. destruct (handler m) eqn:E; [by eapply sync_handler|sync_code].
  - intros r. apply keeps_bind; [apply sync_ClearTag|]. intros _.
    apply keeps_bind; [by rule sync_PayloadCleanup|]. sync_code.
Qed.

Lemma sync_connect h F c : keeps h F (set_conn c new_connState : M _).
Proof.
  apply keeps_kept. intros s _ HI. cbn [ok set_conn]. apply (PS_with_conn s c new_connState HI).
  intros fid r. cbn. by rewrite lookup_empty.
Qed.

Lemma sync_stop c : keeps [] (fun _ => True) (stop c : M _).
Proof. unfold stop. sync_code. Qed.

(** The paths of files do not change by themselves. *)
Definition paths_kept (w w' : W) : Prop := forall f x, fpath w f = Some x -> fpath w' f = Some x.

Lemma sync_set_world s w : sync s -> paths_kept (world s) w -> sync (set_world w s).
Proof.
  intros [H1 H2 H3 H4 H5 H6 H7 H8] Hw. split; try done.
  - intros n nd r name Hn Hr. destruct (H3 _ _ _ _ Hn Hr) as (fr & p & pr & []).
    exists fr, p, pr. split; try done. destruct ra_path as [?|(x & Hx & Hy)]; [by left|right].
    exists x. split; by apply Hw.
  - intros r fr Hr. destruct (H4 _ _ Hr) as (? & [x Hx] & ? & ?). split; [done|].
    split; [exists x; by apply Hw|done].
Qed.

Lemma sync_server_step R s s' :
  (forall w w', R w w' -> paths_kept w w') -> sync s -> server_step_by R s s' -> sync s'.
Proof.
  intros HR HI Hst. revert HI.
  destruct Hst as [s s' c _ Hs|s s' c tag m Hs|s s' c Hs|s w Hw]; intros HI;
    [..|apply sync_set_world; [done|by apply HR]].
  - eapply (logic_final (inv := sync_inv)); [apply sync_connect|exact HI|exact Hs].
  - eapply (logic_final (inv := sync_inv)); [apply sync_respond|exact HI|exact Hs].
  - eapply (logic_final (inv := sync_inv)); [|exact HI|exact Hs].
    apply keeps_bind; [apply sync_stop|]. intros _. apply sync_connect.
Qed.

Lemma nodes_start (w : W) n nd : nodes (NewServer w : St) !! n = Some nd -> pathTree = n /\ newPathNode = nd.
Proof. cbn. by intros [? ?]%lookup_singleton_Some. Qed.

Lemma sync_start w : sync (NewServer w).
Proof.
  split.
  - intros n nd [<- <-]%nodes_start. apply tables_agree_new.
  - intros n nd name pn [<- <-]%nodes_start. cbn. by rewrite lookup_empty.
  - intros n nd r name [<- <-]%nodes_start. cbn. by rewrite lookup_empty.
  - intros r fr. cbn. by rewrite lookup_empty.
  - intros r r' fr fr' _. cbn. by rewrite lookup_empty.
  - intros c cs fid r. cbn. by rewrite lookup_empty.
  - intros n [nd [<- <-]%nodes_start]. cbn. unfold pathTree. lia.
  - exists newPathNode. apply lookup_singleton_eq.
Qed.

Lemma reachable_sync R w s :
  (forall w w', R w w' -> paths_kept w w') -> reachable_from R w s -> sync s.
Proof.
  intros HR Hs. unfold reachable_from in Hs. remember (NewServer w) as s0 eqn:E.
  assert (H0 : sync s0) by (subst; apply sync_start). clear E. induction Hs as [|s1 s2 s3 Hst _ IH]; [done|].
  apply IH. by eapply sync_server_step.
Qed.
End handlers.
