(* ===== verification/TreePaths.v ===== *)
(** * The paths of files and the path tree: places

    What the invariant says of the states that a server reaches: on the way from a reference
    up to the root of its attachment, the tree has the names that the paths of files have. *)
From stdpp Require Import gmultiset.
From S2P Require Import Prelude Errno Buffer Types Messages Message Transport Version.
From S2P Require Import File State PathTree FidRef Handlers Server Reach ProgramLogic RefCount RefQuiet RefHandlers Lifetimes.
From S2P Require Import PathSync SyncSteps SyncHandlers.

(** ** Places in the tree *)

Section places.
Context {W File : Type}.
Local Notation St := (St W File).
Implicit Types s : St.

(** The names on the way from the root of an attachment, which is the first result, down to a
    reference. *)
Fixpoint tree_path (fuel : nat) s (r : rid) : option (rid * list string) :=
  match fuel with
  | O => None
  | S fuel =>
      fr ← refHeap s !! r;
      match parent fr with
      | None => Some (r, [])
      | Some p =>
          pr ← refHeap s !! p;
          nd ← nodes s !! fr_pathNode pr;
          name ← childRefNames nd !! r;
          '(a, names) ← tree_path fuel s p;
          Some (a, names ++ [name])
      end
  end.

(** The tree has [r] below [p], at a name whose node is that of [r]. *)
Definition above s (r p : rid) : Prop := exists fr pr nd name,
  refHeap s !! r = Some fr /\ parent fr = Some p /\ refHeap s !! p = Some pr /\
  nodes s !! fr_pathNode pr = Some nd /\ childRefNames nd !! r = Some name /\
  childNodes nd !! name = Some (fr_pathNode fr).

(** The node that names lead to. *)
Fixpoint node_at s (n : nid) (names : list string) : option nid :=
  match names with
  | [] => Some n
  | name :: names => nd ← nodes s !! n; c ← childNodes nd !! name; node_at s c names
  end.

Lemma node_at_snoc s n names name c nd c' :
  node_at s n names = Some c -> nodes s !! c = Some nd -> childNodes nd !! name = Some c' ->
  node_at s n (names ++ [name]) = Some c'.
Proof.
  revert n. induction names as [|x names IH]; intros n; cbn; [|].
  - intros [= ->] -> Hc. cbn. by rewrite Hc.
  - destruct (nodes s !! n) as [nd0|]; [|done]. cbn. destruct (childNodes nd0 !! x); [|done]. cbn. apply IH.
Qed.
End places.

Section tree.
Context {W File P : Type} {B : Backend W File} {RB : Returning B} {PB : PathBackend W File P}.
Local Notation St := (St W File).
Implicit Types s : St.

Lemma sync_tree_path fuel s r a names :
  sync s -> tree_path fuel s r = Some (a, names) ->
  exists fr ar x, refHeap s !! r = Some fr /\ refHeap s !! a = Some ar /\ parent ar = None /\
    fpath (world s) (file ar) = Some x /\ fpath (world s) (file fr) = Some (foldl fjoin x names) /\
    node_at s (fr_pathNode ar) names = Some (fr_pathNode fr).
Proof.
  intros HI. revert r a names. induction fuel as [|fuel IH]; intros r a names; cbn [tree_path]; [done|].
  destruct (refHeap s !! r) as [fr|] eqn:Hr; [|done]. cbn. destruct (parent fr) as [p|] eqn:Hp.
  2: { intros [= <- <-]. destruct (ps_ref _ _ _ _ _ HI _ _ Hr) as (_ & [x Hx] & _).
    by exists fr, fr, x. }
  destruct (refHeap s !! p) as [pr|] eqn:Hpr; [|done]. cbn.
  destruct (nodes s !! fr_pathNode pr) as [nd|] eqn:Hnd; [|done]. cbn.
  destruct (childRefNames nd !! r) as [name|] eqn:Hname; [|done]. cbn.
  destruct (tree_path fuel s p) as [[a' names']|] eqn:Ep; [|done]. intros [= <- <-].
  destruct (IH _ _ _ Ep) as (pr' & ar & x & Hpr' & Ha & Hapar & Hx & Hpx & Hnode).
  assert (pr' = pr) as -> by congruence.
  destruct (ps_reg _ _ _ _ _ HI _ _ _ _ Hnd Hname) as (fr' & p' & pr' & [Hr1 Hp1 Hpr1 _ _ _ Hc _ Hk]).
  assert (fr' = fr) as -> by congruence. assert (p' = p) as -> by congruence. assert (pr' = pr) as -> by congruence.
  exists fr, ar, x. split; [done|]. split; [done|]. split; [done|]. split; [done|].
  destruct Hk as [[]|(y & Hy & Hz)], Hc as [Hc|[=]]. split; [rewrite foldl_snoc; congruence|].
  by eapply node_at_snoc.
Qed.

(** ** Open references *)

Lemma held_parent fresh s r fr p :
  RC ∅ fresh ∅ s -> r ∈ tokens ∅ fresh ∅ s -> refHeap s !! r = Some fr -> parent fr = Some p ->
  p ∈ tokens ∅ fresh ∅ s.
Proof.
  intros HR Hr Hfr Hp. eapply parent_token; [exact Hfr|exact Hp|].
  intros [H|[H|H]]; [by eapply RC_open|by eapply RC_not_fresh|multiset_solver].
Qed.

Lemma sync_above fresh s r p :
  sync s -> RC ∅ fresh ∅ s -> good s r /\ r ∈ tokens ∅ fresh ∅ s -> above s r p ->
  good s p /\ p ∈ tokens ∅ fresh ∅ s.
Proof.
  intros HI HR [_ Hr] (fr & pr & nd & name & Hfr & Hp & Hpr & Hnd & Hname & _).
  split; [|by eapply held_parent].
  destruct (ps_reg _ _ _ _ _ HI _ _ _ _ Hnd Hname) as (fr' & p' & pr' & [Hr1 Hp1 _ _ _ _ _ Hg _]).
  assert (fr' = fr) as -> by congruence. assert (p' = p) as -> by congruence. by destruct Hg.
Qed.

Lemma good_placed fresh s r :
  sync s -> RC ∅ fresh ∅ s -> good s r /\ r ∈ tokens ∅ fresh ∅ s ->
  exists fr, refHeap s !! r = Some fr /\
    (parent fr = None \/ removed s (fr_pathNode fr) \/ exists p, above s r p).
Proof.
  intros HI HR [(fr & Hfr & Hg) Hr]. exists fr. split; [done|].
  destruct Hg as [?|[Hc|[?|(n & name & nd & Hnd & Hname)]]]; [by left| |by right; left|].
  { by destruct (RC_open _ _ _ _ _ HR Hr). }
  right. right. destruct (ps_reg _ _ _ _ _ HI _ _ _ _ Hnd Hname) as (fr' & p & pr & [Hr1 Hp Hpr Hn _ _ Hc _ _]).
  assert (fr' = fr) as -> by congruence. exists p, fr, pr, nd, name. rewrite Hn.
  by destruct Hc.
Qed.
End tree.
