(* ===== verification/LocalTree.v ===== *)
(** * Local files and the path tree of a server

    [localfs] keeps the path of each of its files, and [Renamed] sets it: an instance of
    [PathBackend]. *)
From S2P Require Import Prelude Errno Buffer Types Messages Message Transport Version.
From S2P Require Import File State PathTree FidRef Handlers Server Reach ProgramLogic RefCount RefHandlers Lifetimes Guarantees Promises.
From S2P Require Import PathSync SyncSteps SyncHandlers TreePaths.
From S2P Require Import Templates LocalQids HostPath LocalFS LocalPaths.

Section local.
Context {H F : Type} {os : OS H F}.
Local Notation world := (local_world H F).
Local Notation L := (L H F).
Implicit Types (w : world) (l : Local F).

(** ** What the methods do to the paths *)

Definition local_path w (p : nat) : option string := path <$> locals w !! p.

(** The code makes no file, and changes none. *)
Definition still {A} (m : L A) : Prop := forall w, locals (m w).2 = locals w.

(** Files keep their paths; there may be new ones. *)
Definition grows {A} (m : L A) : Prop := forall w p x,
  local_path w p = Some x -> local_path (m w).2 p = Some x.

Lemma still_ret {A} (a : A) : still (mret a).
Proof. done. Qed.

Lemma still_bind {A C} (m : L A) (k : A -> L C) : still m -> (forall a, still (k a)) -> still (m ≫= k).
Proof.
  intros Hm Hk w. unfold mbind, L_bind. specialize (Hm w). destruct (m w) as [a w']. by rewrite Hk.
Qed.

Lemma still_bind_err {A C} (m : L (A + error)) (k : A -> L (C + error)) :
  still m -> (forall a, still (k a)) -> still (L_bind_err m k).
Proof. intros Hm Hk. apply still_bind; [done|]. by intros [a|err]. Qed.

Lemma still_sys {A} (e : OSE F A) : still (sys e).
Proof. intros w. unfold sys. by destruct (os_exec e (host w)). Qed.

Lemma still_to_qid fi : still (to_qid fi).
Proof. intros w. unfold to_qid. by destruct (localToQid Major Minor fi (lqs w)). Qed.

Lemma still_get p : still (get_local p).
Proof. done. Qed.

Lemma still_fuel f : still (dir_fuel f).
Proof. done. Qed.

Lemma still_grows {A} (m : L A) : still m -> grows m.
Proof. intros Hm w p x. unfold local_path. by rewrite Hm. Qed.

Lemma grows_bind {A C} (m : L A) (k : A -> L C) : grows m -> (forall a, grows (k a)) -> grows (m ≫= k).
Proof.
  intros Hm Hk w p x Hx. unfold mbind, L_bind. specialize (Hm w p x Hx). destruct (m w) as [a w'].
  by apply Hk.
Qed.

Lemma grows_new l : grows (new_local l).
Proof.
  intros w p x. unfold local_path. cbn. destruct (locals w !! p) as [l'|] eqn:E; [|done].
  by rewrite (lookup_app_l_Some _ _ _ _ E).
Qed.
End local.

Create HintDb still.
#[export] Hint Resolve still_ret still_sys still_to_qid still_get still_fuel : still.

(** One step through a method that makes no file. *)
Ltac still_step :=
  intros; lazymatch goal with
  | |- still (mbind _ _) => apply still_bind
  | |- still (L_bind_err _ _) => apply still_bind_err
  | |- still (sys_err _) => unfold sys_err
  | |- still (on_file ?l _ _) => unfold on_file; destruct (local_file l)
  | |- still (match ?x with _ => _ end) => destruct x
  end.
Ltac still_code := repeat (first [solve [eauto 2 with still] | still_step]).

Section methods.
Context {H F : Type} {os : OS H F}.
Local Notation world := (local_world H F).
Local Notation L := (L H F).
Implicit Types (w : world) (l : Local F).

Lemma still_info l : still (info l).
Proof. unfold info. still_code. Qed.
#[local] Hint Resolve still_info : still.

Lemma still_Readdir l offset count : still (Readdir l offset count).
Proof.
  unfold Readdir. apply still_bind; [still_code|]. intros fuel. generalize (S fuel) as n. intros n.
  generalize 0, (@nil Dirent). induction n as [|n IH]; intros cursor ents; cbn [Readdir_loop]; [still_code|].
  destruct (_ <? _); [|still_code]. apply still_bind; [still_code|]. intros [name|err]; [|still_code].
  cbv zeta. destruct (_ || _); [apply IH|]. apply still_bind; [still_code|].
  intros [[qid fi]|err]; [apply IH|still_code].
Qed.

(** The methods that make no file and move none. *)
Lemma still_method A (e : FileE nat A) :
  match e with FAttach | FWalk _ _ | FOpen _ _ | FCreate _ _ _ _ _ _ | FRenamed _ _ _ => True
  | _ => still (local_exec e) end.
Proof.
  pose proof still_info. pose proof still_Readdir. destruct e; try exact Logic.I; cbn [local_exec];
    unfold deref, GetAttr, SetAttr, Close, ReadAt, WriteAt, SetXattr, GetXattr, ListXattrs,
      RemoveXattr, FSync, lock, Mkdir, Symlink, Link, RenameAt, UnlinkAt, Readlink,
      xattr_List, xattr_Get, embedded_method;
    still_code.
Qed.

(** [Walk_loop] makes one file, at its end. *)
Lemma Walk_loop_new names qids l w :
  match Walk_loop names qids l w with
  | (inl (_, p), w') => p = length (locals w) /\
      exists l', locals w' = (locals w ++ [l'])%list /\ path l' = foldl Join (path l) names
  | (inr _, w') => locals w' = locals w
  end.
Proof.
  revert qids l w. induction names as [|name names IH]; intros qids l w; cbn [Walk_loop].
  - cbn. split; [done|]. by exists l.
  - unfold L_bind_err, mbind, L_bind. set (c := mk_Local (Join (path l) name) None).
    pose proof (still_info c w) as Hi. destruct (info c w) as [[[qid fi]|err] w1]; [|done].
    specialize (IH (qids ++ [qid]) c w1). cbn in Hi. rewrite Hi in IH. exact IH.
Qed.

Lemma Create_new l name mode perm w :
  match Create l name mode perm w with
  | (inl (p, _, _), w') => p = length (locals w) /\
      exists l', locals w' = (locals w ++ [l'])%list /\ path l' = Join (path l) name
  | (inr _, w') => locals w' = locals w
  end.
Proof.
  unfold Create, L_bind_err, mbind, L_bind. set (o := OOpenFile _ _ _).
  pose proof (still_sys o w) as H1. destruct (sys o w) as [[f|err] w1]; [|done]. cbn in H1.
  set (l2 := mk_Local (Join (path l) name) (Some f)).
  pose proof (still_info l2 w1) as H2. destruct (info l2 w1) as [[[qid fi]|err] w2]; cbn in H2.
  - cbn. rewrite H2, H1. split; [done|]. by exists l2.
  - unfold Close. cbn [local_file l2]. pose proof (still_sys (OClose f) w2) as H3.
    destruct (sys (OClose f) w2) as [a w3]. cbn in *. congruence.
Qed.

(** The methods through a pointer. *)
Lemma deref_eq {A} (e : FileE nat A) p (k : Local F -> L A) w l :
  locals w !! p = Some l -> deref e p k w = k l w.
Proof. intros Hl. unfold deref, mbind, L_bind, get_local. by rewrite Hl. Qed.

Lemma deref_grows {A} (e : FileE nat A) p (k : Local F -> L A) :
  (forall w l, locals w !! p = Some l -> forall q x, local_path w q = Some x ->
     local_path (k l w).2 q = Some x) -> grows (deref e p k).
Proof.
  intros Hk w q x Hx. destruct (locals w !! p) as [l|] eqn:E; [rewrite (deref_eq _ _ _ _ _ E); by apply Hk|].
  unfold deref, mbind, L_bind, get_local. by rewrite E.
Qed.

Lemma local_path_app w w' l' : locals w' = (locals w ++ [l'])%list ->
  local_path w (length (locals w)) = None /\ local_path w' (length (locals w)) = Some (path l') /\
  forall q x, local_path w q = Some x -> local_path w' q = Some x.
Proof.
  intros E. unfold local_path. rewrite E. split; [by rewrite lookup_ge_None_2|].
  split; [by rewrite list_lookup_middle|]. intros q x. destruct (locals w !! q) as [lq|] eqn:Eq; [|done].
  by rewrite (lookup_app_l_Some _ _ _ _ Eq).
Qed.

Lemma path_same_locals w w' q x : locals w' = locals w -> local_path w q = Some x -> local_path w' q = Some x.
Proof. unfold local_path. by intros ->. Qed.

Lemma local_path_set w p l' q : local_path (set_local p l' w).2 q =
  if decide (p = q /\ (p < length (locals w))%nat) then Some (path l') else local_path w q.
Proof.
  unfold local_path. cbn. rewrite list_lookup_insert. by destruct (decide _).
Qed.

Lemma Open_grows p mode : grows (local_exec (FOpen p mode)).
Proof.
  cbn [local_exec]. apply deref_grows. intros w l Hl q x Hx.
  unfold Open, L_bind_err, mbind, L_bind. pose proof (still_info l w) as H1.
  destruct (info l w) as [[[qid fi]|err] w1]; cbn in H1; [|by eapply path_same_locals].
  set (o := OOpenFile _ _ _). pose proof (still_sys o w1) as H2.
  destruct (sys o w1) as [[f|err] w2]; cbn in H2; [|eapply path_same_locals; [|done]; cbn; congruence].
  assert (Hx2 : local_path w2 q = Some x) by (eapply path_same_locals; [|done]; congruence).
  change (local_path (set_local p (mk_Local (path l) (Some f)) w2).2 q = Some x).
  rewrite local_path_set. destruct (decide _) as [[<- _]|]; [|done]. cbn.
  unfold local_path in Hx. rewrite Hl in Hx. done.
Qed.

(** Where a file is that does not hear of a new place. *)
Lemma Renamed_path p d name w l ld q :
  locals w !! p = Some l -> locals w !! d = Some ld ->
  local_path (local_exec (FRenamed p d name) w).2 q =
  if decide (p = q) then Some (Join (path ld) name) else local_path w q.
Proof.
  intros Hl Hd. cbn [local_exec]. rewrite (deref_eq _ _ _ _ _ Hl), (deref_eq _ _ _ _ _ Hd). unfold Renamed.
  rewrite local_path_set. apply lookup_lt_Some in Hl. destruct (decide (p = q)), (decide _); naive_solver.
Qed.

Lemma Renamed_frame p d name w q x : p <> q -> local_path w q = Some x ->
  local_path (local_exec (FRenamed p d name) w).2 q = Some x.
Proof.
  intros Hne Hx. destruct (locals w !! p) as [l|] eqn:Hl; [destruct (locals w !! d) as [ld|] eqn:Hd|].
  - rewrite (Renamed_path _ _ _ _ _ _ _ Hl Hd). by destruct (decide (p = q)).
  - cbn [local_exec]. rewrite (deref_eq _ _ _ _ _ Hl). unfold deref, mbind, L_bind, get_local. by rewrite Hd.
  - cbn [local_exec]. unfold deref, mbind, L_bind, get_local. by rewrite Hl.
Qed.

Lemma method_grows A (e : FileE nat A) :
  match e with FRenamed _ _ _ => True | _ => grows (local_exec e) end.
Proof.
  pose proof (still_method A e) as Hs. destruct e; try exact Logic.I; try (by apply still_grows).
  - cbn [local_exec]. unfold Attach. apply grows_bind; [apply still_grows, still_sys|]. intros _.
    apply grows_bind; [by apply still_grows|]. intros r. apply grows_bind; [apply grows_new|]. intros p.
    by apply still_grows.
  - cbn [local_exec]. apply deref_grows. intros w l Hl q x Hx. unfold Walk.
    pose proof (Walk_loop_new names [] (mk_Local (path l) None) w) as Hw.
    destruct (Walk_loop _ _ _ _) as [[[qids p]|err] w']; [|by eapply path_same_locals].
    destruct Hw as (_ & l' & Hw & _). by apply (local_path_app _ _ _ Hw).
  - apply Open_grows.
  - cbn [local_exec]. apply deref_grows. intros w l Hl q x Hx.
    pose proof (Create_new l name flags permissions w) as Hw.
    destruct (Create _ _ _ _ _) as [[[[p qid] io]|err] w']; [|by eapply path_same_locals].
    destruct Hw as (_ & l' & Hw & _). by apply (local_path_app _ _ _ Hw).
Qed.

(** ** The interface *)

#[export] Program Instance local_paths : PathBackend world nat string := {|
  fpath := local_path;
  fjoin := Join;
|}.
Next Obligation.
  intros A e w f x Hx He. pose proof (method_grows A e) as Hg.
  destruct e; try (by apply Hg). by apply Renamed_frame.
Qed.
Next Obligation.
  intros A e w f [x Hx]. pose proof (method_grows A e) as Hg.
  destruct e as [| | | | | | | | | | | | | | | | | | | | | | | | | |p d name]; try (exists x; by apply Hg).
  destruct (decide (p = f)) as [->|Hne]; [|exists x; by apply Renamed_frame].
  unfold local_path in Hx. destruct (locals w !! f) as [l|] eqn:Hl; [|done].
  destruct (locals w !! d) as [ld|] eqn:Hd.
  - eexists. cbn [exec local_backend]. rewrite (Renamed_path _ _ _ _ _ _ _ Hl Hd). by destruct (decide (f = f)).
  - exists x. cbn [exec local_backend local_exec]. rewrite (deref_eq _ _ _ _ _ Hl).
    unfold deref, mbind, L_bind, get_local. rewrite Hd. cbn. unfold local_path. by rewrite Hl.
Qed.
Next Obligation.
  intros w f d name x y Hx Hy. unfold local_path in Hx, Hy.
  destruct (locals w !! f) as [l|] eqn:Hl; [|done]. destruct (locals w !! d) as [ld|] eqn:Hd; [|done].
  injection Hy as <-. cbn [exec local_backend]. rewrite (Renamed_path _ _ _ _ _ _ _ Hl Hd).
  by destruct (decide (f = f)).
Qed.
Next Obligation.
  intros w f names x qids f' Hx. unfold local_path in Hx. destruct (locals w !! f) as [l|] eqn:Hl; [|done].
  injection Hx as <-. cbn [exec local_backend local_exec]. rewrite (deref_eq _ _ _ _ _ Hl). unfold Walk.
  pose proof (Walk_loop_new names [] (mk_Local (path l) None) w) as Hw.
  destruct (Walk_loop _ _ _ _) as [[[qids' p]|err] w']; [|done]. intros [= -> ->].
  destruct Hw as (-> & l' & Hw & Hp). destruct (local_path_app _ _ _ Hw) as (H1 & H2 & _).
  split; [exact H1|]. etrans; [exact H2|]. by rewrite Hp.
Qed.
Next Obligation.
  intros w f names x qids f' valid attr Hx. unfold local_path in Hx.
  destruct (locals w !! f) as [l|] eqn:Hl; [|done]. cbn. discriminate.
Qed.
Next Obligation.
  intros w f name flags perm uid gid x f' qid io Hx. unfold local_path in Hx.
  destruct (locals w !! f) as [l|] eqn:Hl; [|done]. injection Hx as <-.
  cbn [exec local_backend local_exec]. rewrite (deref_eq _ _ _ _ _ Hl).
  pose proof (Create_new l name flags perm w) as Hw.
  destruct (Create _ _ _ _ _) as [[[[p q] i]|err] w']; [|done]. intros [= -> -> ->].
  destruct Hw as (-> & l' & Hw & Hp). destruct (local_path_app _ _ _ Hw) as (H1 & H2 & _).
  split; [exact H1|]. etrans; [exact H2|]. by rewrite Hp.
Qed.
Next Obligation.
  intros w f'. cbn [exec local_backend local_exec]. unfold Attach, mbind, L_bind, get_root.
  pose proof (still_sys (OUmask 0) w) as H1. destruct (sys (OUmask 0) w) as [a w1]. cbn in H1.
  cbn. intros [= <-]. unfold local_path. cbn. rewrite H1.
  split; [by rewrite lookup_ge_None_2|]. rewrite list_lookup_middle by done. by eexists.
Qed.
End methods.

(** ** Under the server *)

Section properties.
Context {H F : Type} {os : OS H F}.

Lemma host_change_paths (w w' : local_world H F) : host_change w w' -> paths_kept w w'.
Proof. intros (_ & Hl & _) p x. cbn. unfold local_path. by rewrite Hl. Qed.

(** C9: the paths of local files follow the renames: in every state that a server over
  [localfs] reaches, whatever was walked, renamed and removed by any clients in any order, and
  whatever happened at the host meanwhile, if the path tree has a reference below another by
  some names, then the path that its file hands to the host is the path of the other's file
  with those names joined to it; and the names lead from node to node, so that references to
  one path share the node, and with it the lock of that path. *)
Theorem local_paths_follow (r : string) q (h : H) (s : St (local_world H F) nat) fuel ref top names :
reachable_from host_change (Attacher r q h) s ->
tree_path fuel s ref = Some (top, names) ->
exists fr tr l lt, refHeap s !! ref = Some fr /\ refHeap s !! top = Some tr /\ parent tr = None /\
  locals (State.world s) !! file fr = Some l /\ locals (State.world s) !! file tr = Some lt /\
  path l = foldl Join (path lt) names /\
  node_at s (fr_pathNode tr) names = Some (fr_pathNode fr).
Proof.
intros Hs Hp. apply (reachable_sync _ _ _ host_change_paths) in Hs.
destruct (sync_tree_path _ _ _ _ _ Hs Hp) as (fr & tr & x & Hr & Ht & Hroot & Hx & Hy & Hn).
cbn in Hx, Hy. unfold local_path in Hx, Hy.
destruct (locals _ !! file fr) as [l|] eqn:El; [|done].
destruct (locals _ !! file tr) as [lt|] eqn:Et; [|done].
injection Hx as <-. injection Hy as Hy. by exists fr, tr, l, lt.
Qed.
End properties.

(** ** Going up

    An entry below another has a path that is one element longer, so that there is an end. *)
Section ending.
Context {H F : Type} {os : OS H F}.
Local Notation St := (St (local_world H F) nat).
Implicit Types s : St.

(** How many elements the path of a reference's file has. *)
Definition depth s (r : rid) : nat :=
  match fr ← refHeap s !! r; local_path (State.world s) (file fr) with
  | Some p => length (components p)
  | None => 0
  end.

Definition names_safe_in s : Prop := map_Forall (fun _ nd => names_ok nd) (nodes s).

Lemma above_depth s r p : sync s -> names_safe_in s -> above s r p -> (depth s p < depth s r)%nat.
Proof.
  intros HI Hn (fr & pr & nd & name & Hr & Hp & Hpr & Hnd & Hname & _).
  destruct (ps_reg _ _ _ _ _ HI _ _ _ _ Hnd Hname) as (fr' & p' & pr' & [Hr1 Hp1 Hpr1 _ _ _ _ _ Hk]).
  assert (fr' = fr) as -> by congruence. assert (p' = p) as -> by congruence.
  assert (pr' = pr) as -> by congruence.
  destruct Hk as [[]|(x & Hx & Hy)]. cbn in Hx, Hy. unfold depth. rewrite Hr, Hpr. cbn.
  rewrite Hx, Hy, components_Join, length_app; [cbn; lia|].
  destruct (Hn _ _ Hnd) as [_ Hsafe]. by eapply Hsafe.
Qed.

Lemma going_up fresh s r :
  sync s -> names_safe_in s -> RC ∅ fresh ∅ s -> good s r /\ r ∈ tokens ∅ fresh ∅ s ->
  exists top tr, rtc (above s) r top /\ refHeap s !! top = Some tr /\
    (removed s (fr_pathNode tr) \/
     parent tr = None /\ exists fuel names, tree_path fuel s r = Some (top, names)).
Proof.
  intros HI Hn HRC. remember (depth s r) as d eqn:Hd. revert r Hd.
  induction (lt_wf d) as [d _ IH]. intros r -> Hr.
  destruct (good_placed _ _ _ HI HRC Hr) as (fr & Hfr & [Hroot|[Hrem|(p & Ha)]]).
  - exists r, fr. split; [done|]. split; [done|]. right. split; [done|].
    exists 1%nat, []. cbn [tree_path]. rewrite Hfr. cbn. by rewrite Hroot.
  - exists r, fr. split; [done|]. split; [done|by left].
  - destruct (IH _ (above_depth _ _ _ HI Hn Ha) p eq_refl (sync_above _ _ _ _ HI HRC Hr Ha))
      as (top & tr & Hup & Htr & Hend).
    exists top, tr. split; [by eapply rtc_l|]. split; [done|].
    destruct Hend as [?|(Hroot & fuel & names & Ht)]; [by left|]. right. split; [done|].
    destruct Ha as (fr' & pr & nd & name & Hfr' & Hp & Hpr & Hnd & Hname & _).
    exists (S fuel), (names ++ [name]). cbn [tree_path]. rewrite Hfr'. cbn. rewrite Hp, Hpr. cbn.
    rewrite Hnd. cbn. rewrite Hname. cbn. by rewrite Ht.
Qed.

(** C10: no reference of a local file drops out of the path tree.  In every state that a server
  over [localfs] reaches, whatever was walked, renamed and removed by any clients, and
  whatever happened at the host meanwhile, the way from the reference of a FID up the entries
  of the tree (each below its parent, under a name whose node is its own) ends: at the root of
  an attachment, and then the names on the way are those of [tree_path], which the paths of
  the files follow ([local_paths_follow]); or at a reference whose path was removed.  All
  references on the way are open. *)
Theorem fids_in_tree (r : string) q (h : H) s c cs fid ref :
reachable_from host_change (Attacher r q h) s ->
conns s !! c = Some cs -> fids cs !! fid = Some ref ->
(exists top tr, rtc (above s) ref top /\ refHeap s !! top = Some tr /\
  (removed s (fr_pathNode tr) \/
   parent tr = None /\ exists fuel names, tree_path fuel s ref = Some (top, names))) /\
forall p, rtc (above s) ref p -> p ∉ closes (trace s).
Proof.
intros Hs Hc Hf. pose proof (reachable_sync _ _ _ host_change_paths Hs) as HI.
apply reachable_from_reachable in Hs. destruct (reachable_promises s Hs) as (Hn & _ & _).
apply reachable_rc in Hs as [fresh HRC].
assert (Hr : good s ref /\ ref ∈ tokens ∅ fresh ∅ s).
{ split; [by destruct (ps_fid _ _ _ _ _ HI _ _ _ _ Hc Hf)|by eapply fid_token]. }
split; [by eapply going_up|]. intros p Hup. eapply RC_open; [exact HRC|].
enough (good s p /\ p ∈ tokens ∅ fresh ∅ s) as [_ ?] by done.
revert p Hup. apply (rtc_ind_r _ ref); [done|]. intros p1 p2 _ Ha H1. by eapply sync_above.
Qed.
End ending.

(** ** Examples

    Three directories, each below the one before; the second is renamed into another
    directory, and a file is removed. *)
Definition rename_requests : list message :=
  [Mtversion (mk_tversion 4096 "9P2000.L"); toy_attach 1; Mtwalk (mk_twalk 1 2 ["d"%string]);
   Mtwalk (mk_twalk 2 3 ["a"; "b"; "f"]%string); Mtwalk (mk_twalk 1 4 ["c"%string]);
   Mtrenameat (mk_trenameat 2 "a" 4 "e"); Mtwalk (mk_twalk 3 5 []);
   Mtwalk (mk_twalk 2 6 ["f"%string]); Mtunlinkat (mk_tunlinkat 2 "f" 0)].
Definition rename_state : St (local_world nat string) nat :=
  default (NewServer local_start) (run local_start rename_requests).

Lemma rename_run : run local_start rename_requests = Some rename_state.
Proof. vm_compute. reflexivity. Qed.

(** The reference of a FID of the connection, and the path of its file. *)
Definition ref_of (s : St (local_world nat string) nat) (fid : Z) : option rid :=
  cs ← conns s !! 0%nat; fids cs !! fid.
Definition path_of_fid (s : St (local_world nat string) nat) (fid : Z) : option string :=
  r ← ref_of s fid; fr ← refHeap s !! r; path <$> locals (State.world s) !! file fr.

Lemma local_paths_follow_witness :
  (path_of_fid rename_state 3 = Some "../srv/x/c/e/b/f"%string /\
   path_of_fid rename_state 5 = Some "../srv/x/c/e/b/f"%string) /\
  exists ref top, ref_of rename_state 3 = Some ref /\
  exists fr tr l lt, refHeap rename_state !! ref = Some fr /\ refHeap rename_state !! top = Some tr /\
    parent tr = None /\ locals (State.world rename_state) !! file fr = Some l /\
    locals (State.world rename_state) !! file tr = Some lt /\
    path l = foldl Join (path lt) ["c"; "e"; "b"; "f"]%string /\
    node_at rename_state (fr_pathNode tr) ["c"; "e"; "b"; "f"]%string = Some (fr_pathNode fr).
Proof.
  split; [split; vm_compute; reflexivity|].
  assert (Hp : exists ref top, ref_of rename_state 3 = Some ref /\
    tree_path 9 rename_state ref = Some (top, ["c"; "e"; "b"; "f"]%string)).
  { eexists _, _. split; vm_compute; reflexivity. }
  destruct Hp as (ref & top & Hr & Hp). exists ref, top. split; [exact Hr|].
  exact (local_paths_follow "../srv//x/." (mk_lqids ∅ ∅ 0 (2 ^ 63)) 0%nat rename_state 9 ref top _
    (run_from host_change local_start rename_requests rename_state rename_run) Hp).
Defined.

(** The file of FID 3, below the directory that was renamed. *)
Lemma fids_in_tree_witness :
  exists ref, ref_of rename_state 3 = Some ref /\
  (exists top tr, rtc (above rename_state) ref top /\ refHeap rename_state !! top = Some tr /\
    (removed rename_state (fr_pathNode tr) \/
     parent tr = None /\ exists fuel names, tree_path fuel rename_state ref = Some (top, names))) /\
  forall p, rtc (above rename_state) ref p -> p ∉ closes (trace rename_state).
Proof.
  assert (Hr : exists cs ref, conns rename_state !! 0%nat = Some cs /\ fids cs !! 3 = Some ref).
  { eexists _, _. split; vm_compute; reflexivity. }
  destruct Hr as (cs & ref & Hc & Hf). exists ref.
  split; [unfold ref_of; rewrite Hc; exact Hf|].
  exact (fids_in_tree "../srv//x/." (mk_lqids ∅ ∅ 0 (2 ^ 63)) 0%nat rename_state 0%nat cs 3 ref
    (run_from host_change local_start rename_requests rename_state rename_run) Hc Hf).
Defined.
