(* ===== verification/LocalListing.v ===== *)
(** * Listing a directory of the host ([fsimpl/localfs/readdir.go])

    [Readdir] against the stream of names that an open directory is: which names a page
    has, and what is left for the next one. *)
From S2P Require Import Prelude Errno Buffer Types Messages Message File State Handlers.
From S2P Require Import Reach Templates LocalQids HostPath LocalFS Guarantees LocalPaths.

Section listing.
Context {H F : Type} {os : OS H F}.
Local Notation world := (local_world H F).
(** The names that an open directory has left. *)
Context (dir_names : F -> H -> list string).

(** [Readdirnames(1)] returns the next of them, or an error, which is [io.EOF] only at the
    end; looking at a file by its path moves no open directory.  Either may fail. *)
Class Listable : Prop := {
  ls_read : forall f h,
    match os_exec (OReaddirnames1 f) h with
    | (inl name, h') => dir_names f h = name :: dir_names f h'
    | (inr err, h') => error_eq err TEOF = true -> dir_names f h = [] /\ dir_names f h' = []
    end;
  ls_lstat : forall p h f, dir_names f (os_exec (OLstat p) h).2 = dir_names f h;
  ls_left : forall f h, (length (dir_names f h) <= dir_left f h)%nat;
}.
Context {listable : Listable}.
Implicit Types (l : Local F) (w : world).

Local Notation len l := (Z.of_nat (length l)).

Lemma info_reads l name w f :
  dir_names f (host (info (mk_Local (Join (path l) name) None) w).2) = dir_names f (host w).
Proof.
  pose proof (ls_lstat (Join (path l) name) (host w) f) as Hd.
  unfold info, L_bind_err, mbind, L_bind, sys. cbn.
  destruct (os_exec (OLstat (Join (path l) name)) (host w)) as [[fi|err] h'] eqn:E; cbn in Hd |- *; [|done].
  unfold to_qid. cbn. by destruct (localToQid Major Minor fi (lqs w)).
Qed.

Lemma read_names f w :
  match sys (OReaddirnames1 f) w with
  | (inl name, w') => dir_names f (host w) = name :: dir_names f (host w')
  | (inr err, w') => error_eq err TEOF = true ->
      dir_names f (host w) = [] /\ dir_names f (host w') = []
  end.
Proof.
  pose proof (ls_read f (host w)) as Hr. unfold sys.
  destruct (os_exec (OReaddirnames1 f) (host w)) as [[name|err] h']; exact Hr.
Qed.

Lemma L_bind_eq {A B} (m : L H F A) (k : A -> L H F B) w a w' :
  m w = (a, w') -> (m ≫= k) w = k a w'.
Proof. intros E. unfold mbind, L_bind. by rewrite E. Qed.

Section loop.
Context (l : Local F) (f : F) (offset count : Z).
Hypothesis Hf : local_file l = Some f.
Hypothesis Ho : 0 <= offset.
Hypothesis Hc : 0 <= count < 2 ^ 32.
Hypothesis Hoc : offset + count < 2 ^ 64.
Local Notation first := (Z.max 1 offset).
Local Notation loop fuel cursor ents := (Readdir_loop fuel l offset count cursor ents).

(** One round, before which [ents] were taken. *)
Lemma Readdir_loop_round fuel cursor ents :
  loop (S fuel) cursor ents =
  if len ents <? count then
    singleEnt ← sys (OReaddirnames1 f);
    match singleEnt with
    | inr err => if error_eq err TEOF then mret (ents, None) else mret ([], Some err)
    | inl name =>
        if (wrap64 (cursor + 1) <? offset) || (offset + count <? wrap64 (cursor + 1))
        then loop fuel (wrap64 (cursor + 1)) ents
        else
          r ← info (mk_Local (Join (path l) name) None);
          match r with
          | inr err => mret (ents, Some err)
          | inl (qid, _) =>
              loop fuel (wrap64 (cursor + 1))
                (ents ++ [mkDirent qid (wrap64 (cursor + 1)) (QID_Type qid) name])
          end
    end
  else mret (ents, None).
Proof.
  assert (Hs : sint64 count = count) by (unfold sint64; rewrite Z.mod_small; lia).
  assert (Hw : wrap64 (offset + count) = offset + count) by (apply Z.mod_small; lia).
  cbn [Readdir_loop]. unfold on_file. by rewrite Hs, Hw, Hf.
Qed.

(** How a page ends: it is complete; or the next name was read, but it could not be
    looked at; or no name could be read, and the entries are dropped. *)
Inductive page_end (want : nat) (ns : list string) (ents new : list Dirent)
    : list Dirent * option error -> world -> Prop :=
| page_complete w' :
    Dirent_Name <$> new = take want ns -> dir_names f (host w') = drop want ns ->
    page_end want ns ents new (ents ++ new, None) w'
| page_no_info name w1 err w' :
    ns !! length new = Some name ->
    info (mk_Local (Join (path l) name) None) w1 = (inr err, w') ->
    dir_names f (host w') = drop (S (length new)) ns ->
    page_end want ns ents new (ents ++ new, Some err) w'
| page_no_name w1 err w' :
    sys (OReaddirnames1 f) w1 = (inr err, w') -> error_eq err TEOF = false ->
    page_end want ns ents new ([], Some err) w'.

Lemma page_complete_nil want ns ents w' :
  take want ns = [] -> dir_names f (host w') = drop want ns ->
  page_end want ns ents [] (ents, None) w'.
Proof.
  intros Ht Hd. pose proof (page_complete want ns ents [] w') as Hp.
  rewrite app_nil_r in Hp. apply Hp; [by rewrite Ht|done].
Qed.

Lemma page_no_info_nil want name ns ents w1 err w' :
  info (mk_Local (Join (path l) name) None) w1 = (inr err, w') ->
  dir_names f (host w') = ns -> page_end want (name :: ns) ents [] (ents, Some err) w'.
Proof.
  intros Hi Hd.
  pose proof (page_no_info want (name :: ns) ents [] name w1 err w') as Hp.
  rewrite app_nil_r in Hp. by apply Hp.
Qed.

Lemma page_end_cons want name ns ents e new r w' :
  Dirent_Name e = name -> page_end want ns (ents ++ [e]) new r w' ->
  page_end (S want) (name :: ns) ents (e :: new) r w'.
Proof.
  intros <- Hend. destruct Hend; try rewrite <- app_assoc; [apply page_complete|eapply page_no_info|eapply page_no_name];
    cbn; try done; congruence.
Qed.

(** The first entry was reached. *)
Lemma Readdir_loop_take fuel ents w :
  len ents <= count -> first + len ents + len (dir_names f (host w)) < 2 ^ 64 ->
  (length (dir_names f (host w)) < fuel)%nat ->
  let '(r, w') := loop fuel (first - 1 + len ents) ents w in
  exists new, Dirent_Name <$> new = take (length new) (dir_names f (host w)) /\
    Dirent_Offset <$> new = seqZ (first + len ents) (len new) /\
    page_end (Z.to_nat (count - len ents)) (dir_names f (host w)) ents new r w'.
Proof.
  revert ents w. induction fuel as [|fuel IH]; intros ents w Hents Hlen Hfuel; [lia|].
  rewrite Readdir_loop_round. destruct (Z.ltb_spec (len ents) count) as [Hlt|Hge].
  2: { cbn. exists []. split; [done|]. split; [done|].
       replace (Z.to_nat (count - len ents)) with 0%nat by lia. by apply page_complete_nil. }
  assert (exists want', Z.to_nat (count - len ents) = S want' /\ want' = Z.to_nat (count - (len ents + 1)))
    as (want' & -> & Hwant) by (exists (Z.to_nat (count - (len ents + 1))); lia).
  pose proof (read_names f w) as Hr. unfold mbind at 1, L_bind at 1.
  destruct (sys (OReaddirnames1 f) w) as [[name|err] w1] eqn:Er.
  - rewrite Hr in Hlen, Hfuel |- *. cbn [length] in Hlen, Hfuel.
    assert (wrap64 (first - 1 + len ents + 1) = first + len ents) as ->
      by (unfold wrap64; rewrite Z.mod_small; lia).
    rewrite (proj2 (Z.ltb_ge _ offset)), (proj2 (Z.ltb_ge (offset + count) _)) by lia. cbn [orb].
    pose proof (info_reads l name w1 f) as Hi. unfold mbind at 1, L_bind at 1.
    destruct (info _ w1) as [[[qid fi]|err] w2] eqn:Ei; cbn [snd] in Hi.
    + set (e := mkDirent qid _ _ name).
      assert (Hl : len (ents ++ [e]) = len ents + 1) by (rewrite length_app; cbn; lia).
      specialize (IH (ents ++ [e]) w2). rewrite Hl, Hi in IH.
      replace (first - 1 + (len ents + 1)) with (first + len ents) in IH by lia.
      specialize (IH ltac:(lia) ltac:(lia) ltac:(lia)).
      destruct (loop fuel (first + len ents) (ents ++ [e]) w2) as [r w'].
      destruct IH as (new & Hname & Hoff & Hend). exists (e :: new). cbn. rewrite Hname, Hoff.
      split; [done|]. split; [|by apply page_end_cons; rewrite ?Hwant].
      rewrite (seqZ_cons (first + len ents)) by lia. f_equal. f_equal; lia.
    + cbn. exists []. split; [done|]. split; [done|]. by eapply page_no_info_nil.
  - destruct (error_eq err TEOF) eqn:Eo; cbn.
    + destruct (Hr eq_refl) as [H1 H2]. exists []. split; [done|]. split; [done|].
      rewrite H1. by apply page_complete_nil.
    + exists []. split; [done|]. split; [done|]. by eapply page_no_name.
Qed.

(** Up to it: the end of the directory is reached, or no name can be read, or the first
    name of the page is next. *)
Lemma Readdir_loop_skip fuel cursor w :
  0 < count -> 0 <= cursor < first ->
  cursor + len (dir_names f (host w)) < 2 ^ 64 -> (length (dir_names f (host w)) < fuel)%nat ->
  let ns := dir_names f (host w) in
  let skip := Z.to_nat (first - 1 - cursor) in
  (exists w', (skip <= length ns)%nat /\ dir_names f (host w') = drop skip ns /\
     loop fuel cursor [] w = loop (fuel - skip) (first - 1) [] w') \/
  let '(r, w') := loop fuel cursor [] w in page_end (Z.to_nat count) (drop skip ns) [] [] r w'.
Proof.
  intros Hpos. revert cursor w. induction fuel as [|fuel IH]; intros cursor w Hcur Hlen Hfuel ns skip; [lia|].
  unfold ns. destruct (Z.eq_dec cursor (first - 1)) as [->|Hne].
  { assert (skip = 0%nat) as -> by lia. left. exists w. rewrite Nat.sub_0_r. split; [lia|done]. }
  rewrite Readdir_loop_round. cbn [length]. rewrite (proj2 (Z.ltb_lt _ _)) by lia.
  assert (exists skip', skip = S skip' /\ skip' = Z.to_nat (first - 1 - (cursor + 1)))
    as (skip' & -> & Hskip) by (exists (Z.to_nat (first - 1 - (cursor + 1))); lia).
  pose proof (read_names f w) as Hr. unfold mbind, L_bind.
  destruct (sys (OReaddirnames1 f) w) as [[name|err] w1] eqn:Er.
  - rewrite Hr in Hlen, Hfuel |- *. cbn [length] in Hlen, Hfuel.
    assert (wrap64 (cursor + 1) = cursor + 1) as -> by (apply Z.mod_small; lia).
    rewrite (proj2 (Z.ltb_lt (cursor + 1) offset)) by lia. cbn [orb].
    specialize (IH (cursor + 1) w1). cbv zeta in IH. rewrite <- Hskip in IH.
    destruct IH as [(w' & Hle & Hd & Hl)|Hend]; [lia..| |by right].
    left. exists w'. split; [cbn; lia|]. split; [exact Hd|exact Hl].
  - right. destruct (error_eq err TEOF) eqn:Eo; cbn.
    + destruct (Hr eq_refl) as [H1 H2]. rewrite H1, drop_nil.
      apply page_complete_nil; by rewrite ?take_nil, ?drop_nil.
    + by eapply page_no_name.
Qed.
End loop.

(** A page from an offset: names that are left in the directory, numbered upwards. *)
Lemma Readdir_from l f offset count w :
  local_file l = Some f -> 0 <= offset -> 0 < count < 2 ^ 32 ->
  offset + count < 2 ^ 63 -> len (dir_names f (host w)) < 2 ^ 63 ->
  let ns := drop (Z.to_nat (offset - 1)) (dir_names f (host w)) in
  let '(r, w') := Readdir l offset count w in
  exists new, Dirent_Name <$> new = take (length new) ns /\
    Dirent_Offset <$> new = seqZ (Z.max 1 offset) (len new) /\
    page_end l f (Z.to_nat count) ns [] new r w'.
Proof.
  intros Hf Ho Hc Hoc Hlen. unfold Readdir. rewrite Hf. unfold dir_fuel, mbind, L_bind.
  pose proof (ls_left f (host w)) as Hleft. set (fuel := S (dir_left f (host w))). cbv zeta.
  pose proof (Readdir_loop_skip l f offset count Hf Ho ltac:(lia) ltac:(lia) fuel 0 w
    ltac:(lia) ltac:(lia) ltac:(lia) ltac:(lia)) as Hskip. cbv zeta in Hskip.
  replace (Z.to_nat (Z.max 1 offset - 1 - 0)) with (Z.to_nat (offset - 1)) in Hskip by lia.
  destruct Hskip as [(w1 & Hle & Hd & ->)|Hend].
  - pose proof (Readdir_loop_take l f offset count Hf Ho ltac:(lia) ltac:(lia)
      (fuel - Z.to_nat (offset - 1)) [] w1) as Ht.
    rewrite Hd, length_drop in Ht. cbn [length] in Ht. rewrite !Z.add_0_r, Z.sub_0_r in Ht.
    specialize (Ht ltac:(lia) ltac:(lia) ltac:(lia)).
    by destruct (Readdir_loop _ _ _ _ (Z.max 1 offset - 1) [] w1).
  - destruct (Readdir_loop _ _ _ _ 0 [] w) as [r w']. by exists [].
Qed.

(** C31: what a page of a directory of the host has, whatever fails at the host.  With the
  names [ns] left in the open directory, [Readdir] from its start returns without an
  error as many of them as asked for, in their order and numbered upwards, so all that are
  left if asked for enough.  With an error it returns those before the name that could not
  be looked at, which is read all the same, so that no later page has it; or nothing, when no
  name could be read.  The next page, asked for at the offset of the last entry as
  [file.go] and the comment in [readdir.go] have it, leaves out as many names as that
  offset says, one apart, because it counts them again from where the directory stands. *)
Theorem local_pages l f count w :
local_file l = Some f -> 0 < count < 2 ^ 31 ->
let ns := dir_names f (host w) in
len ns < 2 ^ 63 ->
let '((ents, err), w') := Readdir l 0 count w in
Dirent_Name <$> ents = take (length ents) ns /\
Dirent_Offset <$> ents = seqZ 1 (len ents) /\
match err with
| None =>
    Dirent_Name <$> ents = take (Z.to_nat count) ns /\
    (len ns <= count -> Dirent_Name <$> ents = ns) /\
    let '((ents', err'), w'') := Readdir l count count w' in
    err' = None ->
    Dirent_Name <$> ents' = take (Z.to_nat count) (drop (Z.to_nat (2 * count - 1)) ns)
| Some err =>
    (exists name w1, ns !! length ents = Some name /\
       info (mk_Local (Join (path l) name) None) w1 = (inr err, w') /\
       dir_names f (host w') = drop (S (length ents)) ns) \/
    (ents = [] /\ exists w1, sys (OReaddirnames1 f) w1 = (inr err, w'))
end.
Proof.
intros Hf Hc ns Hlen. pose proof (Readdir_from l f 0 count w Hf) as Hpage. cbv zeta in Hpage.
specialize (Hpage ltac:(lia) ltac:(lia) ltac:(lia) Hlen).
change (drop (Z.to_nat (0 - 1)) (dir_names f (host w))) with ns in Hpage.
destruct (Readdir l 0 count w) as [r w'].
destruct Hpage as (new & Hname & Hoff & Hend). destruct Hend as [w' Hall Hd|name w1 err w' Hi Hn Hd|w1 err w' Hr _].
- cbn [app]. split; [done|]. split; [done|]. split; [done|]. split.
  { intros Hle. rewrite Hall. apply take_ge. lia. }
  pose proof (Readdir_from l f count count w' Hf) as Hpage. cbv zeta in Hpage.
  specialize (Hpage ltac:(lia) ltac:(lia) ltac:(lia)). rewrite Hd, length_drop in Hpage.
  specialize (Hpage ltac:(lia)). destruct (Readdir l count count w') as [r w''].
  destruct Hpage as (new' & _ & _ & Hend). destruct Hend as [w'' Hall' _| |]; [|done..].
  intros _. cbn [app]. rewrite Hall', drop_drop. do 2 f_equal. lia.
- cbn [app]. split; [done|]. split; [done|]. left. by exists name, w1.
- split; [done|]. split; [done|]. right. split; [done|]. by exists w1.
Qed.
End listing.

(** *** The host for examples: of five names, two pages of two leave out the third *)

Definition demo_left (f : string) (n : nat) : list string := drop n demo_names.

#[export] Instance demo_listable : Listable demo_left.
Proof.
  split.
  - intros f n. unfold demo_left. cbn. destruct (demo_names !! n) as [name|] eqn:Hn.
    + by rewrite (drop_S _ _ _ Hn).
    + intros _. by rewrite drop_ge by by apply lookup_ge_None.
  - intros p n f. done.
  - intros f n. unfold demo_left. by rewrite length_drop.
Qed.

Definition demo_dir : Local string := mk_Local "/x" (Some "/x"%string).

Lemma local_pages_witness :
  (local_file demo_dir = Some "/x"%string /\ 0 < 2 < 2 ^ 31) /\
  exists ents w', Readdir demo_dir 0 2 local_start = ((ents, None), w') /\
  Dirent_Name <$> ents = ["a"; "b"]%string /\
  exists ents' w'', Readdir demo_dir 2 2 w' = ((ents', None), w'') /\
  Dirent_Name <$> ents' = ["d"; "f"]%string.
Proof.
  assert (H : local_file demo_dir = Some "/x"%string /\ 0 < 2 < 2 ^ 31) by (split; [done|lia]).
  split; [exact H|]. destruct H as [Hf Hc].
  pose proof (local_pages demo_left demo_dir "/x"%string 2 local_start Hf Hc ltac:(cbn; lia)) as Hp.
  assert (E : (Readdir demo_dir 0 2 local_start).1.2 = None /\
    (Readdir demo_dir 2 2 (Readdir demo_dir 0 2 local_start).2).1.2 = None)
    by (split; vm_compute; reflexivity).
  destruct E as [E1 E2]. destruct (Readdir demo_dir 0 2 local_start) as [[ents err] w'].
  cbn [fst snd] in E1, E2. subst err. exists ents, w'. split; [reflexivity|].
  destruct Hp as (_ & _ & Hn & _ & Hp). split; [exact Hn|].
  destruct (Readdir demo_dir 2 2 w') as [[ents' err'] w'']. cbn [fst snd] in E2. subst err'.
  exists ents', w''. split; [reflexivity|exact (Hp eq_refl)].
Defined.
