(* ===== verification/VecNet.v ===== *)
(** * Reads into several buffers ([vecnet])

    [Buffers.ReadFrom] fills buffers from a connection: with [recvmsg] where there is a
    descriptor, else with [Read]. A buffer is a slice of a memory; a connection delivers its
    bytes in pieces of any size, and a system call may have to be repeated. Transport takes
    for granted that all that comes to the next bytes of the stream. *)
From S2P Require Import Prelude Errno Buffer Types Messages Message Transport.

Local Open Scope nat_scope.

(** ** Memory *)

Record slice := mk_slice { s_base : nat; s_len : nat }.
Definition memory : Type := list byte.

Definition write_at (a : nat) (data : list byte) (mem : memory) : memory :=
  take a mem ++ data ++ drop (a + length data) mem.

(** What the kernel does with the bytes that it has for a list of slices. *)
Fixpoint scatter (iovecs : list slice) (data : list byte) (mem : memory) : memory :=
  match iovecs with
  | [] => mem
  | v :: iovecs =>
      scatter iovecs (drop (s_len v) data) (write_at (s_base v) (take (s_len v) data) mem)
  end.

(** [s[k:]]. *)
Definition slice_from (s : slice) (k : nat) : slice := mk_slice (s_base s + k) (s_len s - k).

(** ** With [recvmsg] ([vecnet_linux.go]) *)

Definition EINTR : Z := 0x4.
Definition EWOULDBLOCK : Z := EAGAIN.
Definition io_ErrShortBuffer : error := OtherError "short buffer".

(** A descriptor: the system call for a capacity in bytes, with the bytes that came and the
    error number; the wait until it is worth another try, which fails when the connection
    is closed; how many tries in vain there are before the next success. *)
Class Socket (S : Type) := {
  SyscallConn : S -> option error;
  SYS_RECVMSG : nat -> S -> list byte * Z * S;
  wait_readable : S -> option error * S;
  patience : S -> nat;
}.

Section linux.
Context {S : Type} {sock : Socket S}.

(** [iovecs] gets the slices that are not empty; their length in all. *)
Fixpoint buildIovec (bufs iovecs : list slice) : list slice * nat :=
  match bufs with
  | [] => (iovecs, 0)
  | buf :: bufs =>
      if 0 <? s_len buf
      then let '(iovecs, length) := buildIovec bufs (iovecs ++ [buf]) in
           (iovecs, s_len buf + length)
      else buildIovec bufs iovecs
  end.

(** [rc.Read]: tries until one is conclusive. [None] if there is no end to it. *)
Fixpoint RawConn_Read (fuel cap : nat) (s : S) : option ((list byte * Z + error) * S) :=
  match fuel with
  | O => None
  | Datatypes.S fuel =>
      let '(data, e, s) := SYS_RECVMSG cap s in
      if ((e =? EINTR) || (e =? EAGAIN) || (e =? EWOULDBLOCK))%Z then
        match wait_readable s with
        | (Some err, s) => Some (inr err, s)
        | (None, s) => RawConn_Read fuel cap s
        end
      else Some (inl (data, e), s)
  end.

(** The count, the error, the memory. *)
Definition recvmsg (bufs : list slice) (mem : memory) (s : S)
    : option (nat * option error * memory * S) :=
  let '(iovecs, len) := buildIovec bufs [] in
  '(r, s) ← RawConn_Read (Datatypes.S (patience s)) len s;
  mret (match r with
        | inr err => (0, Some err, mem, s)
        | inl (data, e) =>
            if negb (e =? 0)%Z then (0, Some (SyscallErrno e), mem, s)
            else
              let n := length data in
              let mem := scatter iovecs data mem in
              (* The other end is closed by returning a 0 length read with no error. *)
              if n =? 0 then (0, Some io_EOF, mem, s)
              else if len <? n then (len, Some io_ErrShortBuffer, mem, s)
              else (n, None, mem, s)
        end).

(** Consume iovecs to retry; [None] for the panic of an index out of range. *)
Fixpoint consume (consumed cur : nat) (bufs : list slice) : option (list slice) :=
  if consumed <? cur then
    match bufs with
    | [] => None
    | buf :: bufs' =>
        if s_len buf <=? cur - consumed then consume (consumed + s_len buf) cur bufs'
        else Some (slice_from buf (cur - consumed) :: bufs')
    end
  else Some bufs.

Fixpoint readFromBuffers_loop (fuel n len : nat) (bufs : list slice) (mem : memory) (s : S)
    : option (nat * option error * memory * S) :=
  if n <? len then
    match fuel with
    | O => None
    | Datatypes.S fuel =>
        '(cur, err, mem, s) ← recvmsg bufs mem s;
        match err with
        | Some err =>
            if (cur =? 0) || negb (error_eq err TEOF) then mret (n, Some err, mem, s)
            else bufs ← consume 0 cur bufs; readFromBuffers_loop fuel (n + cur) len bufs mem s
        | None => bufs ← consume 0 cur bufs; readFromBuffers_loop fuel (n + cur) len bufs mem s
        end
    end
  else mret (len, None, mem, s).

Definition total_length (bufs : list slice) : nat := sum_list_with s_len bufs.

(** A byte at least in each round. *)
Definition readFromBuffersLinux (bufs : list slice) (mem : memory) (s : S)
    : option (nat * option error * memory * S) :=
  match SyscallConn s with
  | Some err => mret (0, Some err, mem, s)
  | None => readFromBuffers_loop (total_length bufs) 0 (total_length bufs) bufs mem s
  end.
End linux.

(** ** With [Read] ([vecnet.go]) *)

(** [io.Reader]: for a slice of a length, the bytes that are put into it, what is left behind
    them in the part of the slice that was used as scratch space, the error. *)
Class Reader (S : Type) := { Read : nat -> S -> list byte * list byte * option error * S }.

Section generic.
Context {S : Type} {reader : Reader S}.

Fixpoint fill (fuel filled total : nat) (buf : slice) (mem : memory) (s : S)
    : option (nat * option error * memory * S) :=
  if filled <? s_len buf then
    match fuel with
    | O => None
    | Datatypes.S fuel =>
        let '(data, scratch, err, s) := Read (s_len buf - filled) s in
        let mem := write_at (s_base buf + filled) (data ++ scratch) mem in
        let n := length data in
        let total := total + n in
        match err with
        | None =>
            if n =? 0 then mret (total, Some io_EOF, mem, s)
            else fill fuel (filled + n) total buf mem s
        | Some err =>
            if error_eq err TEOF then mret (total, Some io_EOF, mem, s)
            else mret (total, Some err, mem, s)
        end
    end
  else mret (total, None, mem, s).

Fixpoint ReadFrom_generic (total : nat) (bufs : list slice) (mem : memory) (s : S)
    : option (nat * option error * memory * S) :=
  match bufs with
  | [] => mret (total, None, mem, s)
  | buf :: bufs =>
      '(total, err, mem, s) ← fill (s_len buf) 0 total buf mem s;
      match err with
      | Some err => mret (total, Some err, mem, s)
      | None => ReadFrom_generic total bufs mem s
      end
  end.
End generic.

(** [Buffers.ReadFrom]: [r] is a [syscall.Conn] or it is not. *)
Definition ReadFrom {S} `{!Socket S} `{!Reader S} (is_conn : bool) (bufs : list slice)
    (mem : memory) (s : S) : option (nat * option error * memory * S) :=
  if is_conn then readFromBuffersLinux bufs mem s else ReadFrom_generic 0 bufs mem s.

(** ** Slices that lie one after another *)

Fixpoint contig (a : nat) (bufs : list slice) : Prop :=
  match bufs with
  | [] => True
  | buf :: bufs => s_base buf = a /\ contig (a + s_len buf) bufs
  end.

Lemma write_at_concat mem rest data :
  write_at (length mem) data (mem ++ rest) = mem ++ data ++ drop (length data) rest.
Proof. unfold write_at. by rewrite take_app_length, drop_app_add. Qed.

Lemma write_at_nil a mem : write_at a [] mem = mem.
Proof. unfold write_at. cbn. by rewrite Nat.add_0_r, take_drop. Qed.

Lemma scatter_nil iovecs mem : scatter iovecs [] mem = mem.
Proof.
  revert mem. induction iovecs as [|v iovecs IH]; intros mem; cbn; [done|].
  by rewrite take_nil, drop_nil, write_at_nil.
Qed.

Lemma scatter_contig iovecs data mem rest :
  contig (length mem) iovecs -> length data <= total_length iovecs ->
  scatter iovecs data (mem ++ rest) = mem ++ data ++ drop (length data) rest.
Proof.
  revert data mem rest. induction iovecs as [|v iovecs IH]; intros data mem rest.
  { cbn. intros _ Hd. assert (data = []) as -> by (destruct data; [done|cbn in Hd; lia]). done. }
  cbn [contig total_length sum_list_with scatter]. intros [Hb Hc] Hd. rewrite Hb, write_at_concat.
  destruct (decide (length data <= s_len v)) as [Hle|Hgt].
  - by rewrite take_ge, drop_ge, scatter_nil by done.
  - assert (Hl : length (take (s_len v) data) = s_len v) by (rewrite length_take; lia).
    rewrite Hl, app_assoc, IH.
    + rewrite <- app_assoc, (app_assoc (take _ _)), take_drop, length_drop, drop_drop.
      do 3 f_equal. lia.
    + by rewrite length_app, Hl.
    + rewrite length_drop. unfold total_length. lia.
Qed.

Lemma total_length_cons buf bufs :
  total_length (buf :: bufs) = s_len buf + total_length bufs.
Proof. done. Qed.

Lemma buildIovec_eq bufs iovecs :
  exists ne, buildIovec bufs iovecs = (iovecs ++ ne, total_length bufs) /\
    total_length ne = total_length bufs /\ forall a, contig a bufs -> contig a ne.
Proof.
  revert iovecs. induction bufs as [|buf bufs IH]; intros iovecs.
  { exists []. cbn. by rewrite app_nil_r. }
  cbn [buildIovec contig]. rewrite total_length_cons.
  destruct (Nat.ltb_spec 0 (s_len buf)) as [Hlt|Hz].
  - destruct (IH (iovecs ++ [buf])) as (ne & -> & Ht & Hc). exists (buf :: ne).
    rewrite <- app_assoc. split; [done|]. rewrite total_length_cons. split; [lia|].
    intros a [Hb Ha]. split; [done|]. by apply Hc.
  - destruct (IH iovecs) as (ne & -> & Ht & Hc). exists ne. assert (s_len buf = 0) as -> by lia.
    split; [done|]. split; [done|]. intros a [_ Ha]. rewrite Nat.add_0_r in Ha. by apply Hc.
Qed.

(** What was filled is cut off. *)
Lemma consume_contig bufs consumed cur a :
  consumed <= cur -> cur - consumed <= total_length bufs -> contig a bufs ->
  exists bufs', consume consumed cur bufs = Some bufs' /\ contig (a + (cur - consumed)) bufs' /\
    total_length bufs' = total_length bufs - (cur - consumed).
Proof.
  revert consumed a. induction bufs as [|buf bufs IH]; intros consumed a Hle Ht Hc;
    cbn [consume]; destruct (Nat.ltb_spec consumed cur) as [Hlt|Hge].
  - cbn in Ht. lia.
  - exists []. split; [done|]. cbn. split; [done|lia].
  - cbn in Ht, Hc. destruct Hc as [Hb Hc]. destruct (Nat.leb_spec (s_len buf) (cur - consumed)).
    + destruct (IH (consumed + s_len buf) (a + s_len buf)) as (bufs' & -> & Hc' & Ht');
        [lia|unfold total_length; lia|done|].
      exists bufs'. split; [done|]. cbn. unfold total_length in *. split; [|lia].
      by replace (a + (cur - consumed)) with (a + s_len buf + (cur - (consumed + s_len buf))) by lia.
    + eexists. split; [done|]. cbn. split; [split; [lia|]|lia].
      by replace (a + (cur - consumed) + (s_len buf - (cur - consumed))) with (a + s_len buf) by lia.
  - exists (buf :: bufs). assert (cur - consumed = 0) as -> by lia. rewrite Nat.add_0_r, Nat.sub_0_r.
    done.
Qed.

(** ** Connections that deliver a stream *)

(** The bytes to come. *)
Class Stream (S : Type) := stream : S -> list byte.

Class StreamSocket (S : Type) `{!Socket S, !Stream S} : Prop := {
  ss_conn : forall s, SyscallConn s <> Some io_EOF;
  ss_recvmsg : forall cap s data e s', SYS_RECVMSG cap s = (data, e, s') ->
    if (e =? 0)%Z
    then length data <= cap /\ stream s = data ++ stream s' /\
         (data = [] -> 0 < cap -> stream s = [])
    else stream s' = stream s /\
         ((e = EINTR \/ e = EAGAIN)%Z -> patience s' < patience s);
  ss_wait : forall s r s', wait_readable s = (r, s') ->
    stream s' = stream s /\ patience s' <= patience s /\ r <> Some io_EOF;
}.

(** The contract of [io.Reader]: the bytes come from the stream, no more than fit; [io.EOF]
    is only returned at its end. A read may come back without bytes and without an error
    at any time, and an error may come with bytes. *)
Class StreamReader (S : Type) `{!Reader S, !Stream S} : Prop := {
  sr_Read : forall cap s data scratch err s', Read cap s = (data, scratch, err, s') ->
    length data + length scratch <= cap /\ stream s = data ++ stream s' /\
    (err = Some io_EOF -> stream s' = []);
}.

(** More than the contract asks for: a read of something comes back with bytes or with an
    error, and the only error is [io.EOF], which comes by itself. *)
Definition prompt_reader (S : Type) `{!Reader S} : Prop := forall cap s data scratch err s',
  0 < cap -> Read cap s = (data, scratch, err, s') ->
  match err with None => data <> [] | Some e => data = [] /\ e = io_EOF end.

Definition reliable (S : Type) `{!Socket S} : Prop :=
  (forall s, SyscallConn s = None) /\ (forall s, (wait_readable s).1 = None) /\
  forall cap s, (SYS_RECVMSG cap s).1.2 ∈ [0; EINTR; EAGAIN]%Z.

(** What a read comes to: [k] bytes of the stream, which it is advanced by, are the first
    of the memory. *)
Definition read_ok {S} `{!Stream S} (mem : memory) (s : S) (k : nat) (err : option error) (mem' : memory) (s' : S)
    : Prop :=
  k <= length mem /\ k <= length (stream s) /\ take k mem' = take k (stream s) /\
  length mem' = length mem /\ stream s' = drop k (stream s) /\
  (err = None -> k = length mem).

(** Why a read with [Read] ended: the last [Read] returned the error, whatever bytes came
    with it; or it came back empty-handed, without an error, which is taken for the end. *)
Definition stopped_by {S} `{!Reader S, !Stream S} (s' : S) (e : error) : Prop :=
  (exists cap s1 data scratch, Read cap s1 = (data, scratch, Some e, s') /\
     (e = io_EOF -> stream s' = [])) \/
  (e = io_EOF /\ exists cap s1 scratch, 0 < cap /\ Read cap s1 = ([], scratch, None, s')).

Section linux_correct.
Context {S : Type} {sock : Socket S} {str : Stream S} {ssock : StreamSocket S}.
Implicit Types (s : S) (mem rest : memory).

Lemma RawConn_Read_returns fuel cap s :
  patience s < fuel ->
  exists r s', RawConn_Read fuel cap s = Some (r, s') /\
  match r with
  | inl (data, e) =>
      if (e =? 0)%Z
      then length data <= cap /\ stream s = data ++ stream s' /\
           (data = [] -> 0 < cap -> stream s = [])
      else stream s' = stream s /\ ~ reliable S
  | inr err => stream s' = stream s /\ err <> io_EOF /\ ~ reliable S
  end.
Proof.
  revert s. induction fuel as [|fuel IH]; intros s Hp; [lia|]. cbn [RawConn_Read].
  destruct (SYS_RECVMSG cap s) as [[data e] s1] eqn:E.
  pose proof (ss_recvmsg _ _ _ _ _ E) as H1. change EWOULDBLOCK with EAGAIN.
  destruct (Z.eqb_spec e EINTR) as [Hi|Hi], (Z.eqb_spec e EAGAIN) as [Ha|Ha]; cbn [orb].
  4: { exists (inl (data, e)), s1. split; [done|]. destruct (e =? 0)%Z eqn:E0; [done|].
       split; [by apply H1|]. intros (_ & _ & Hr). specialize (Hr cap s). rewrite E in Hr.
       apply Z.eqb_neq in E0. cbn in Hr. rewrite !elem_of_cons in Hr.
       destruct Hr as [?|[?|[?|Hr]]]; [done..|]. by apply elem_of_nil in Hr. }
  all: assert (He : (e =? 0)%Z = false)
    by (first [rewrite Hi | rewrite Ha]; reflexivity); rewrite He in H1;
    destruct H1 as [Hs Hpat]; destruct (wait_readable s1) as [[err|] s2] eqn:Ew;
    destruct (ss_wait _ _ _ Ew) as (Hs2 & Hp2 & Hne);
    [exists (inr err), s2; split; [done|]; split; [congruence|]; split; [congruence|];
     intros (_ & Hw & _); specialize (Hw s1); by rewrite Ew in Hw|];
    destruct (IH s2) as (r & s' & Hr & Hspec); [specialize (Hpat ltac:(auto)); lia|];
    exists r, s'; split; [done|]; rewrite Hs2, Hs in Hspec; exact Hspec.
Qed.

(** One call into the free part of the memory. *)
Lemma recvmsg_returns bufs mem rest s :
  contig (length mem) bufs -> total_length bufs = length rest -> 0 < length rest ->
  exists k err s', recvmsg bufs (mem ++ rest) s
    = Some (k, err, mem ++ take k (stream s) ++ drop k rest, s') /\
  k <= length rest /\ k <= length (stream s) /\ stream s' = drop k (stream s) /\
  match err with
  | None => 0 < k
  | Some e => k = 0 /\ (e = io_EOF -> stream s = []) /\ (reliable S -> e = io_EOF)
  end.
Proof.
  intros Hc Ht Hpos. unfold recvmsg. destruct (buildIovec_eq bufs []) as (ne & -> & Hne & Hcne).
  destruct (RawConn_Read_returns (Datatypes.S (patience s)) (total_length bufs) s) as (r & s' & Hr & H);
    [lia|]. cbn [app]. rewrite Hr. cbn [mbind option_bind].
  destruct r as [[data e]|err].
  - destruct (e =? 0)%Z; cbn [negb].
    + destruct H as (Hle & Hstr & Hnil).
      rewrite scatter_contig by (auto; lia).
      assert (Hd : take (length data) (stream s) = data) by (by rewrite Hstr, take_app_length).
      assert (Hdrop : stream s' = drop (length data) (stream s)) by (by rewrite Hstr, drop_app_length).
      assert (Hlen : length data <= length (stream s)) by (rewrite Hstr, length_app; lia).
      destruct (Nat.eqb_spec (length data) 0) as [Hz|Hnz].
      * exists 0, (Some io_EOF), s'. rewrite Hz in *. cbn. destruct data; [|done].
        split; [done|]. split; [lia|]. split; [lia|]. split; [done|].
        split; [done|]. split; [|done]. intros _. apply Hnil; [done|lia].
      * rewrite (proj2 (Nat.ltb_ge _ _)) by lia. exists (length data), None, s'.
        rewrite Hd. split; [done|]. split; [lia|]. split; [done|]. split; [done|lia].
    + destruct H as [Hs Hrel]. eexists 0, _, s'. split; [done|]. split; [lia|]. split; [lia|].
      split; [done|]. split; [done|]. split; [done|]. by intros H.
  - destruct H as (Hs & Hne' & Hrel). eexists 0, _, s'. split; [done|]. split; [lia|].
    split; [lia|]. split; [done|]. split; [done|]. split; by intros ?.
Qed.

(** The loop: [mem] was filled, [rest] is to be. *)
Lemma readFromBuffers_loop_returns fuel bufs mem rest s :
  contig (length mem) bufs -> total_length bufs = length rest -> length rest <= fuel ->
  exists k err s',
  readFromBuffers_loop fuel (length mem) (length mem + length rest) bufs (mem ++ rest) s
    = Some (length mem + k, err, mem ++ take k (stream s) ++ drop k rest, s') /\
  k <= length rest /\ k <= length (stream s) /\ stream s' = drop k (stream s) /\
  match err with
  | None => k = length rest
  | Some e => k < length rest /\ (e = io_EOF -> k = length (stream s)) /\
              (reliable S -> e = io_EOF)
  end.
Proof.
  revert bufs mem rest s. induction fuel as [|fuel IH]; intros bufs mem rest s Hc Ht Hfuel.
  - assert (rest = []) as -> by (destruct rest; [done|cbn in Hfuel; lia]).
    exists 0, None, s. cbn [readFromBuffers_loop]. rewrite (proj2 (Nat.ltb_ge _ _)) by (cbn; lia).
    cbn [length take drop app]. rewrite !Nat.add_0_r. split; [done|]. split; [lia|].
    split; [lia|done].
  - cbn [readFromBuffers_loop]. destruct (Nat.ltb_spec (length mem) (length mem + length rest)) as [Hlt|Hge].
    2: { assert (rest = []) as -> by (destruct rest; [done|cbn in Hge; lia]).
         exists 0, None, s. rewrite !Nat.add_0_r. cbn. split; [done|]. split; [lia|].
         split; [lia|done]. }
    destruct (recvmsg_returns bufs mem rest s Hc Ht ltac:(lia))
      as (k & err & s1 & Hr & Hk & Hks & Hs1 & He). rewrite Hr. cbn [mbind option_bind].
    destruct err as [e|].
    + destruct He as (-> & He & Hrel). cbn [Nat.eqb orb]. exists 0, (Some e), s1.
      rewrite !Nat.add_0_r. split; [done|]. split; [lia|]. split; [lia|]. split; [done|].
      split; [lia|]. split; [|done]. intros H. by rewrite (He H).
    + destruct (consume_contig bufs 0 k (length mem)) as (bufs' & Hcons & Hc' & Ht'); [lia|lia|done|].
      rewrite Hcons. cbn [mbind option_bind]. rewrite Nat.sub_0_r in *.
      set (mem' := mem ++ take k (stream s)).
      assert (Hm : length mem' = length mem + k)
        by (unfold mem'; rewrite length_app, length_take; lia).
      destruct (IH bufs' mem' (drop k rest) s1) as (k' & err & s' & Hl & Hk' & Hks' & Hs' & He');
        [by rewrite Hm|rewrite length_drop; lia|rewrite length_drop; lia|].
      rewrite length_drop in *. unfold mem' in Hl. rewrite <- !app_assoc in Hl. fold mem' in Hl.
      rewrite Hm in Hl. replace (length mem + k + (length rest - k)) with (length mem + length rest)
        in Hl by lia.
      exists (k + k'), err, s'. rewrite Hl. split.
      { by rewrite Hs1, drop_drop, (app_assoc (take k _)), take_take_drop, Nat.add_assoc. }
      rewrite Hs1, length_drop in Hks', He'. split; [lia|]. split; [lia|].
      split; [by rewrite Hs', Hs1, drop_drop|]. destruct err as [e|]; [|lia].
      destruct He' as (Hlt' & Heof & Hrel). split; [lia|]. split; [|done].
      intros H. specialize (Heof H). lia.
Qed.

Lemma readFromBuffersLinux_ok bufs mem s :
  contig 0 bufs -> total_length bufs = length mem ->
  exists k err s',
    readFromBuffersLinux bufs mem s = Some (k, err, take k (stream s) ++ drop k mem, s') /\
    k <= length mem /\ k <= length (stream s) /\ stream s' = drop k (stream s) /\
    match err with
    | None => k = length mem
    | Some e => k < length mem \/ mem = [] /\ k = 0
    end /\
    (err = Some io_EOF -> k = length (stream s)) /\
    (reliable S -> match err with None => True | Some e => e = io_EOF /\ k < length mem end).
Proof.
  intros Hc Ht. unfold readFromBuffersLinux. destruct (SyscallConn s) as [err|] eqn:E.
  - exists 0, (Some err), s. rewrite take_0, drop_0. split; [done|]. split; [lia|]. split; [lia|].
    split; [done|]. split; [destruct mem; [by right|left; cbn; lia]|]. split.
    + intros [= ->]. by apply ss_conn in E.
    + intros (Hconn & _). by rewrite Hconn in E.
  - destruct (readFromBuffers_loop_returns (total_length bufs) bufs [] mem s)
      as (k & err & s' & Hl & Hk & Hks & Hs' & He); [done..|lia|].
    cbn [length app] in Hl. rewrite Nat.add_0_l, <- Ht in Hl. rewrite Nat.add_0_l in Hl.
    exists k, err, s'. split; [exact Hl|]. split; [done|]. split; [done|]. split; [done|].
    destruct err as [e|]; [|by split_and!].
    destruct He as (Hlt & Heof & Hrel). split; [by left|].
    split; [intros [= ->]; auto|]. auto.
Qed.
End linux_correct.

Section generic_correct.
Context {S : Type} {reader : Reader S} {str : Stream S} {sreader : StreamReader S}.
Implicit Types (s : S) (mem rest : memory).

(** The rest of one buffer. *)
Lemma fill_returns fuel filled total buf mem rest s :
  length mem = s_base buf + filled -> filled <= s_len buf -> s_len buf - filled <= length rest ->
  s_len buf - filled <= fuel ->
  exists k err rest' s', fill fuel filled total buf (mem ++ rest) s
    = Some (total + k, err, mem ++ take k (stream s) ++ rest', s') /\
  length rest' = length rest - k /\
  k <= s_len buf - filled /\ k <= length (stream s) /\ stream s' = drop k (stream s) /\
  match err with
  | None => k = s_len buf - filled
  | Some e => stopped_by s' e /\ (prompt_reader S -> e = io_EOF /\ k < s_len buf - filled)
  end.
Proof.
  revert filled total mem rest s.
  induction fuel as [|fuel IH]; intros filled total mem rest s Hm Hfl Hr Hfuel; cbn [fill].
  { rewrite (proj2 (Nat.ltb_ge _ _)) by lia. exists 0, None, rest, s.
    rewrite Nat.add_0_r, take_0. split_and!; done || lia. }
  destruct (Nat.ltb_spec filled (s_len buf)) as [Hlt|Hge].
  2: { exists 0, None, rest, s. rewrite Nat.add_0_r, take_0. split_and!; done || lia. }
  destruct (Read (s_len buf - filled) s) as [[[data scratch] err] s1] eqn:E.
  destruct (sr_Read _ _ _ _ _ _ E) as (Hcap & Hstr & He).
  rewrite <- Hm, write_at_concat, <- app_assoc, length_app.
  set (rest1 := scratch ++ drop (length data + length scratch) rest).
  assert (Hrest1 : length rest1 = length rest - length data)
    by (unfold rest1; rewrite length_app, length_drop; lia).
  assert (Hd : take (length data) (stream s) = data) by (by rewrite Hstr, take_app_length).
  assert (Hdrop : stream s1 = drop (length data) (stream s)) by (by rewrite Hstr, drop_app_length).
  assert (Hlen : length (stream s) = length data + length (stream s1)) by (by rewrite Hstr, length_app).
  destruct err as [e|].
  - exists (length data), (Some e), rest1, s1. rewrite Hd.
    split; [by destruct e|]. split; [done|]. split; [lia|]. split; [lia|]. split; [done|]. split.
    + left. exists (s_len buf - filled), s, data, scratch. split; [done|]. intros ->. by apply He.
    + intros Hp. destruct (Hp (s_len buf - filled) s data scratch _ s1 ltac:(lia) E) as [-> ->]. cbn. split; [done|lia].
  - destruct (Nat.eqb_spec (length data) 0) as [Hz|Hnz].
    + destruct data; [|done]. exists 0, (Some io_EOF), rest1, s1. cbn [app length drop take] in *.
      rewrite Nat.add_0_r. split; [done|]. split; [done|]. split; [lia|]. split; [lia|].
      split; [done|]. split.
      * right. split; [done|]. exists (s_len buf - filled), s, scratch. split; [lia|done].
      * intros Hp. by destruct (Hp (s_len buf - filled) s [] scratch _ s1 ltac:(lia) E).
    + destruct (IH (filled + length data) (total + length data) (mem ++ data) rest1 s1)
        as (k & err & rest' & s' & Hf & Hl & Hk & Hks & Hs' & Herr);
        [rewrite length_app; lia|lia|lia|lia|].
      rewrite <- !app_assoc in Hf. rewrite Hf.
      exists (length data + k), err, rest', s'. split.
      { rewrite <- Nat.add_assoc, Hdrop. do 4 f_equal.
        rewrite <- Hd at 1. by rewrite app_assoc, take_take_drop. }
      split; [lia|]. split; [lia|]. split; [lia|]. split; [by rewrite Hs', Hdrop, drop_drop|].
      destruct err as [e|]; [|lia]. destruct Herr as [Hby Hp]. split; [done|].
      intros H. destruct (Hp H). split; [done|lia].
Qed.

Lemma ReadFrom_generic_returns total bufs mem rest s :
  contig (length mem) bufs -> total_length bufs = length rest ->
  exists k err rest' s', ReadFrom_generic total bufs (mem ++ rest) s
    = Some (total + k, err, mem ++ take k (stream s) ++ rest', s') /\
  length rest' = length rest - k /\
  k <= length rest /\ k <= length (stream s) /\ stream s' = drop k (stream s) /\
  match err with
  | None => k = length rest
  | Some e => stopped_by s' e /\ (prompt_reader S -> e = io_EOF /\ k < length rest)
  end.
Proof.
  revert total mem rest s. induction bufs as [|buf bufs IH]; intros total mem rest s Hc Ht.
  - assert (rest = []) as -> by (destruct rest; [done|cbn in Ht; lia]).
    exists 0, None, [], s. cbn. rewrite Nat.add_0_r. split_and!; done || lia.
  - rewrite total_length_cons in Ht. destruct Hc as [Hb Hc]. cbn [ReadFrom_generic].
    destruct (fill_returns (s_len buf) 0 total buf mem rest s)
      as (k & err & rest1 & s1 & Hf & Hl1 & Hk & Hks & Hs1 & He); [lia..|]. rewrite Nat.sub_0_r in *.
    rewrite Hf. cbn [mbind option_bind]. destruct err as [e|].
    + exists k, (Some e), rest1, s1. split; [done|]. split; [done|]. split; [lia|]. split; [done|].
      split; [done|]. split; [by apply He|]. intros H. destruct (proj2 He H). split; [done|lia].
    + subst k. set (mem' := mem ++ take (s_len buf) (stream s)).
      assert (Hm : length mem' = length mem + s_len buf)
        by (unfold mem'; rewrite length_app, length_take; lia).
      destruct (IH (total + s_len buf) mem' rest1 s1)
        as (k & err & rest' & s' & Hl & Hl' & Hk' & Hks' & Hs' & He');
        [by rewrite Hm|lia|].
      unfold mem' in Hl. rewrite <- !app_assoc in Hl. rewrite Hl.
      exists (s_len buf + k), err, rest', s'. split.
      { by rewrite Hs1, (app_assoc (take (s_len buf) _)), take_take_drop, Nat.add_assoc. }
      rewrite Hs1, length_drop in Hks'. split; [lia|]. split; [lia|]. split; [lia|].
      split; [by rewrite Hs', Hs1, drop_drop|]. destruct err as [e|]; [|lia].
      destruct He' as [Hby Hp]. split; [done|]. intros H. destruct (Hp H). split; [done|lia].
Qed.
End generic_correct.

Section correct.
Context {S : Type} `{!Socket S, !Reader S, !Stream S, !StreamSocket S, !StreamReader S}.

(** C32: a read into several buffers, with [recvmsg] and without, against what [recv] takes for
  granted. However the connection splits the stream, and however often a system call has
  to be repeated, the read returns; its count says how many bytes of the stream are in the
  buffers, in order and from the first buffer on, and how far the stream was advanced,
  also when it fails; without an error the buffers are full. An error is one of the system
  call's, before the buffers are full, and [io.EOF] only at the end of the stream; but
  without [recvmsg] it is that of the last [Read], even if that filled the buffers, or
  [io.EOF] if a [Read] came back empty-handed, which [io.Reader] does not mean by it
  ([eof_with_bytes] and [empty_read] below). If nothing but the end of the stream gets in
  the way, and a [Read] neither does that nor returns an error with bytes, then the
  buffers are filled if the stream has enough bytes, else the error is [io.EOF]. *)
Theorem ReadFrom_fills is_conn bufs mem (s : S) :
contig 0 bufs -> total_length bufs = length mem ->
exists k err mem' s', ReadFrom is_conn bufs mem s = Some (k, err, mem', s') /\
read_ok mem s k err mem' s' /\
(forall e, err = Some e ->
   if is_conn
   then drop k mem' = drop k mem /\ (k < length mem \/ mem = []) /\
        (e = io_EOF -> k = length (stream s))
   else stopped_by s' e) /\
((if is_conn then reliable S else prompt_reader S) ->
 match Transport.ReadFrom (length mem) (stream s) with
 | Some (bs, rest) => err = None /\ mem' = bs /\ stream s' = rest
 | None => err = Some io_EOF /\ stream s' = []
 end).
Proof.
intros Hc Ht.
assert (H : exists k err rest' s',
  ReadFrom is_conn bufs mem s = Some (k, err, take k (stream s) ++ rest', s') /\
  length rest' = length mem - k /\ k <= length mem /\ k <= length (stream s) /\
  stream s' = drop k (stream s) /\ (err = None -> k = length mem) /\
  (forall e, err = Some e -> if is_conn
     then rest' = drop k mem /\ (k < length mem \/ mem = []) /\ (e = io_EOF -> k = length (stream s))
     else stopped_by s' e) /\
  ((if is_conn then reliable S else prompt_reader S) ->
   match err with None => True | Some e => e = io_EOF /\ k < length mem /\ k = length (stream s) end)).
{ destruct is_conn.
  - destruct (readFromBuffersLinux_ok bufs mem s Hc Ht)
      as (k & err & s' & Hr & Hk & Hks & Hs' & He & Heof & Hrel).
    exists k, err, (drop k mem), s'. rewrite length_drop. split_and!; try done.
    + by intros ->.
    + intros e ->. split; [done|]. split; [naive_solver|]. intros ->. auto.
    + intros H. destruct err as [e|]; [|done]. destruct (Hrel H) as [-> ?]. auto.
  - destruct (ReadFrom_generic_returns 0 bufs [] mem s Hc Ht)
      as (k & err & rest' & s' & Hr & Hl & Hk & Hks & Hs' & He).
    exists k, err, rest', s'. split_and!; try done.
    + by intros ->.
    + intros e ->. apply He.
    + intros H. destruct err as [e|]; [|done]. destruct He as [Hby Hp]. destruct (Hp H) as [-> Hlt].
      split; [done|]. split; [done|].
      assert (Hnil : stream s' = []).
      { destruct Hby as [(cap & s1 & data & scr & _ & Hnil)|(_ & cap & s1 & scr & Hcap & E)]; [auto|].
        by destruct (H _ _ _ _ _ _ Hcap E). }
      rewrite Hs' in Hnil. apply (f_equal length) in Hnil. rewrite length_drop in Hnil. cbn in Hnil. lia. }
destruct H as (k & err & rest' & s' & Hr & Hl & Hk & Hks & Hs' & Hnone & Herr & Hrel).
assert (Htk : length (take k (stream s)) = k) by (rewrite length_take; lia).
exists k, err, (take k (stream s) ++ rest'), s'. split; [done|]. split.
{ unfold read_ok. rewrite take_app_le, take_ge, length_app, Htk by lia. split_and!; done || lia. }
split.
{ intros e ->. specialize (Herr e eq_refl). destruct is_conn; [|done].
  destruct Herr as (-> & ?). rewrite drop_app_ge, Htk, Nat.sub_diag, drop_0 by lia. done. }
intros H. specialize (Hrel H). unfold Transport.ReadFrom. destruct err as [e|].
- destruct Hrel as (-> & Hlt & ->). rewrite (proj2 (Nat.leb_gt _ _)) by lia.
  split; [done|]. rewrite Hs'. apply drop_all.
- rewrite (Hnone eq_refl) in *. rewrite (proj2 (Nat.leb_le _ _)) by lia. split; [done|]. split; [|done].
  assert (rest' = []) as -> by (destruct rest'; [done|cbn in Hl; lia]). by rewrite app_nil_r.
Qed.
End correct.

(** *** A connection for examples: bytes, and the sizes of the pieces that they come in, zero
    for a try in vain *)

Definition pieces : Type := list byte * list nat.

Definition pieces_recvmsg (cap : nat) (s : pieces) : list byte * Z * pieces :=
  match s.2 with
  | [] => (take cap s.1, 0%Z, (drop cap s.1, []))
  | 0 :: ns => ([], EAGAIN, (s.1, ns))
  | n :: ns => (take (Nat.min cap n) s.1, 0%Z, (drop (Nat.min cap n) s.1, ns))
  end.

#[export] Instance pieces_socket : Socket pieces := {|
  SyscallConn s := None;
  SYS_RECVMSG := pieces_recvmsg;
  wait_readable s := (None, s);
  patience s := length s.2;
|}.

(** A piece of no bytes is a read that comes back empty-handed; the end of the stream is
    told with the last bytes. *)
#[export] Instance pieces_reader : Reader pieces := {|
  Read cap s :=
    let '(data, _, s') := pieces_recvmsg cap s in
    (data, [], match s'.1 with [] => Some io_EOF | _ => None end, s');
|}.

#[export] Instance pieces_stream : Stream pieces := fst.

Lemma take_nonempty {A} n (l : list A) : take n l = [] -> 0 < n -> l = [].
Proof. destruct n, l; cbn; intros; done || lia. Qed.

#[export] Instance pieces_stream_socket : StreamSocket pieces.
Proof.
  split; [done|..].
  - intros cap [bs ns] data e s'. unfold SYS_RECVMSG, pieces_socket, pieces_recvmsg. cbn [fst snd].
    destruct ns as [|[|n] ns]; intros [= <- <- <-]; unfold stream, pieces_stream; cbn [fst Z.eqb].
    + rewrite take_drop, length_take. split; [lia|]. split; [done|]. apply take_nonempty.
    + split; [done|]. intros _. cbn. lia.
    + rewrite take_drop, length_take. split; [lia|]. split; [done|]. intros H Hc.
      apply (take_nonempty (Nat.min cap (Datatypes.S n))); [exact H|lia].
  - intros s r s' [= <- <-]. split; [done|]. split; [lia|done].
Qed.

#[export] Instance pieces_stream_reader : StreamReader pieces.
Proof.
  split. intros cap [bs ns] data scratch err s'. unfold Read, pieces_reader, pieces_recvmsg.
  cbn [fst snd]. destruct ns as [|[|n] ns]; intros [= <- <- <- <-]; unfold stream, pieces_stream;
    cbn [fst length app]; rewrite ?take_drop, ?length_take;
    (split; [lia|]); (split; [done|]); by case_match.
Qed.

Definition demo_bufs : list slice := [mk_slice 0 2; mk_slice 2 0; mk_slice 2 3].

Lemma ReadFrom_fills_witness :
  exists k err mem' s', ReadFrom (S := pieces) true demo_bufs (replicate 5 x00)
    (bytes_of_string "abcdefg", [0; 1; 0; 0; 3; 9]) = Some (k, err, mem', s') /\
  err = None /\ mem' = bytes_of_string "abcde" /\ stream s' = bytes_of_string "fg".
Proof.
  destruct (ReadFrom_fills (S := pieces) true demo_bufs (replicate 5 x00)
    (bytes_of_string "abcdefg", [0; 1; 0; 0; 3; 9]) ltac:(cbn; auto) eq_refl)
    as (k & err & mem' & s' & Hr & _ & _ & H).
  exists k, err, mem', s'. split; [exact Hr|]. apply H. split; [done|]. split; [done|].
  intros cap [bs ns]. cbn. unfold pieces_recvmsg. cbn.
  destruct ns as [|[|n] ns]; cbn; rewrite !elem_of_cons; auto.
Defined.

(** Without [recvmsg]: the buffers are full, but the read fails, as the end of the stream was
    told with the last byte; and a read that came back empty-handed ends it, although the
    stream goes on. *)
Example eof_with_bytes :
  ReadFrom (S := pieces) false demo_bufs (replicate 5 x00) (bytes_of_string "abcde", [])
  = Some (5, Some io_EOF, bytes_of_string "abcde", ([], [])).
Proof. reflexivity. Qed.

Example empty_read :
  ReadFrom (S := pieces) false demo_bufs (replicate 5 x00) (bytes_of_string "abcdefg", [1; 0; 9])
  = Some (1, Some io_EOF, x61 :: replicate 4 x00, (bytes_of_string "bcdefg", [9])).
Proof. reflexivity. Qed.
