(* ===== verification/Listener.v ===== *)
(** * Accepting connections ([Serve], [ServeContext] of [p9/server.go])

    The goroutines of [ServeContext]: the one that accepts, one for each connection, and one
    that waits for the end of the context and closes the listener. Their steps interleave
    with each other, with the end of the caller's context and with a listener that is closed
    from outside. What a connection does is in Server; here it runs until it ends, which is a
    step from outside: [s.Handle] returns when the client hangs up or the connection fails,
    and no goroutine of the server closes a connection that it has accepted. *)
From S2P Require Import Prelude Errno.

(** ** Errors *)

(** [errAlreadyClosed]; the errors of a context. *)
Definition errAlreadyClosed : error := OtherError "already closed".
Inductive ctx_error := Canceled | DeadlineExceeded.
Definition Err (e : ctx_error) : error :=
  match e with
  | Canceled => OtherError "context canceled"
  | DeadlineExceeded => OtherError "context deadline exceeded"
  end.

(** [errors.Is(err, errAlreadyClosed)]. *)
Fixpoint Is_errAlreadyClosed (err : error) : bool :=
  match err with
  | OtherError msg => String.eqb msg "already closed"
  | Wrap e => Is_errAlreadyClosed e
  | Join es => existsb Is_errAlreadyClosed es
  | _ => false
  end.

(** [isErrClosing], on the text of the error. *)
Definition isErrClosing (msg : string) : bool :=
  if String.index 0 "use of closed network connection" msg then true else false.

(** ** The state *)

(** The goroutine of the call: in [Accept], in the deferred [wg.Wait], or gone. *)
Inductive main_state := Accepting | Waiting (r : option error) | Returned (r : option error).

(** The goroutine that waits for the context: before [<-ctx.Done()], before the [Close] of
    the listener, after it. *)
Inductive watcher_state := Blocked | Closing | Ended.

(** [None] for a nil context; a context has an error and a cause when it is done. *)
Definition context : Type := option (option (ctx_error * error)).

Record state := mk_state {
  main : main_state;
  wg : Z;
  watcher : option watcher_state;
  ctx : context;
  sock_closed : bool;
  (* how often this code closed the listener *)
  closes : nat;
  handlers : gset nat;
  next_conn : nat;
}.

(** The part up to the loop. *)
Definition ServeContext_start (with_ctx : bool) : state :=
  if with_ctx then mk_state Accepting 1 (Some Blocked) (Some None) false 0 ∅ 0
  else mk_state Accepting 0 None None false 0 ∅ 0.

(** [Serve] passes a nil context. *)
Definition Serve_start : state := ServeContext_start false.

(** [cancelCause(errAlreadyClosed)]: a context that is done stays as it is. *)
Definition cancelCause (c : context) : context :=
  match c with
  | Some None => Some (Some (Canceled, errAlreadyClosed))
  | c => c
  end.

(** A connection was accepted. *)
Definition accepted (s : state) : state :=
  mk_state (main s) (wg s + 1) (watcher s) (ctx s) (sock_closed s) (closes s)
    ({[next_conn s]} ∪ handlers s) (S (next_conn s)).

(** [Accept] failed: the body of the [if]. *)
Definition accept_failed (msg : string) (s : state) : state :=
  mk_state (Waiting (if isErrClosing msg then None else Some (OtherError msg))) (wg s)
    (watcher s) (cancelCause (ctx s)) (sock_closed s) (closes s) (handlers s) (next_conn s).

(** [s.Handle] returned; [wg.Done()]. *)
Definition handled (c : nat) (s : state) : state :=
  mk_state (main s) (wg s - 1) (watcher s) (ctx s) (sock_closed s) (closes s)
    (handlers s ∖ {[c]}) (next_conn s).

(** Past [<-ctx.Done()]: on to the [Close], or out. *)
Definition watcher_woken (e : ctx_error) (s : state) : state :=
  if Is_errAlreadyClosed (Err e)
  then mk_state (main s) (wg s - 1) (Some Ended) (ctx s) (sock_closed s) (closes s)
         (handlers s) (next_conn s)
  else mk_state (main s) (wg s) (Some Closing) (ctx s) (sock_closed s) (closes s)
         (handlers s) (next_conn s).

Definition watcher_closed (s : state) : state :=
  mk_state (main s) (wg s - 1) (Some Ended) (ctx s) true (S (closes s))
    (handlers s) (next_conn s).

Definition set_main (m : main_state) (s : state) : state :=
  mk_state m (wg s) (watcher s) (ctx s) (sock_closed s) (closes s) (handlers s) (next_conn s).

(** ** Steps *)

(** The goroutines, with [Accept] on a listener that was closed. *)
Inductive go_step : relation state :=
| go_woken s e cause :
    watcher s = Some Blocked -> ctx s = Some (Some (e, cause)) -> go_step s (watcher_woken e s)
| go_closed s : watcher s = Some Closing -> go_step s (watcher_closed s)
| go_accept_closed s msg :
    main s = Accepting -> sock_closed s = true -> isErrClosing msg = true ->
    go_step s (accept_failed msg s)
| go_return s r : main s = Waiting r -> wg s = 0 -> go_step s (set_main (Returned r) s).

(** And what comes from outside: connections and their ends, the end of the context, a
    listener that somebody else closes. *)
Inductive serve_step : relation state :=
| st_go s s' : go_step s s' -> serve_step s s'
| st_handled s c : c ∈ handlers s -> serve_step s (handled c s)
| st_accepted s : main s = Accepting -> sock_closed s = false -> serve_step s (accepted s)
| st_accept_failed s msg :
    main s = Accepting -> sock_closed s = false -> serve_step s (accept_failed msg s)
| st_ctx_done s e :
    ctx s = Some None ->
    serve_step s (mk_state (main s) (wg s) (watcher s) (Some (Some (e, Err e))) (sock_closed s)
                    (closes s) (handlers s) (next_conn s))
| st_sock_closed s :
    serve_step s (mk_state (main s) (wg s) (watcher s) (ctx s) true (closes s) (handlers s)
                    (next_conn s)).

(** ** The invariant *)

Definition watching (s : state) : Z :=
  match watcher s with Some Blocked | Some Closing => 1 | _ => 0 end.

Record serve_inv (s : state) : Prop := {
  si_wg : wg s = Z.of_nat (size (handlers s)) + watching s;
  si_fresh : forall c, c ∈ handlers s -> (c < next_conn s)%nat;
  si_watcher : watcher s = None <-> ctx s = None;
  (* the watcher is on its way only when the context is done *)
  si_woken : watcher s = Some Closing \/ watcher s = Some Ended -> ctx s <> Some None;
  si_closes : closes s = match watcher s with Some Ended => 1%nat | _ => 0%nat end;
  si_sock : (0 < closes s)%nat -> sock_closed s = true;
  (* whoever does not accept any more has ended the context *)
  si_cancelled : main s <> Accepting -> ctx s <> Some None;
  si_returned : forall r, main s = Returned r -> wg s = 0;
}.

Lemma Err_not_closed e : Is_errAlreadyClosed (Err e) = false.
Proof. by destruct e. Qed.

Lemma start_inv b : serve_inv (ServeContext_start b).
Proof.
  destruct b; split; cbn; try done; try (intros c Hc; by apply elem_of_empty in Hc);
    try lia; by intros [?|?].
Qed.

Lemma cancelCause_done c : cancelCause c <> Some None.
Proof. by destruct c as [[]|]. Qed.

Lemma size_remove (X : gset nat) c : c ∈ X -> Z.of_nat (size (X ∖ {[c]})) = Z.of_nat (size X) - 1.
Proof.
  intros Hc. rewrite size_difference by set_solver. rewrite size_singleton.
  assert (size X <> 0%nat) by (intros H; apply size_empty_inv in H; set_solver). lia.
Qed.

Lemma handled_inv s c : serve_inv s -> c ∈ handlers s -> serve_inv (handled c s).
Proof.
  intros [Hwg Hf Hw Hwk Hc Hs Hm Hr] Hin. split; cbn; try done; unfold watching in *; cbn in *.
  - rewrite size_remove by done. lia.
  - set_solver.
  - intros r Hret. specialize (Hr r Hret). pose proof (size_remove _ _ Hin).
    assert (0 <= match watcher s with Some Blocked | Some Closing => 1 | _ => 0 end)
      by (destruct (watcher s) as [[]|]; lia). lia.
Qed.

Lemma go_step_inv s s' : serve_inv s -> go_step s s' -> serve_inv s'.
Proof.
  intros [Hwg Hf Hw Hwk Hc Hs Hm Hr] Hst.
  destruct Hst as [s e cause Hwt Hcx|s Hwt|s msg Hma Hcl Hmsg|s r Hma H0].
  - unfold watcher_woken. rewrite Err_not_closed. unfold watching in *. rewrite Hwt in *.
    split; cbn; try done.
    + split; [done|]. rewrite Hcx. done.
    + rewrite Hcx. done.
  - unfold watching in *. rewrite Hwt in *. split; cbn; try done; unfold watching; cbn.
    + lia.
    + split; [done|]. intros H. by apply Hw in H.
    + intros _. apply Hwk. by left.
    + by rewrite Hc.
    + intros r Hret. specialize (Hr r Hret). lia.
  - split; cbn; try done.
    + rewrite Hw. by destruct (ctx s) as [[]|].
    + intros _. apply cancelCause_done.
    + intros _. apply cancelCause_done.
  - split; cbn; try done. intros _. apply Hm. congruence.
Qed.

Lemma serve_step_inv s s' : serve_inv s -> serve_step s s' -> serve_inv s'.
Proof.
  intros Hinv Hst. destruct Hst as [s s' Hgo|s c Hin|s Hma Hcl|s msg Hma Hcl|s e Hcx|s];
    [by eapply go_step_inv|by apply handled_inv|..]; destruct Hinv as [Hwg Hf Hw Hwk Hc Hs Hm Hr].
  - split; cbn; try done; unfold watching in *; cbn.
    + rewrite size_union, size_singleton; [lia|]. apply disjoint_singleton_l. intros H.
      apply Hf in H. lia.
    + intros c. rewrite elem_of_union, elem_of_singleton. intros [->|H]; [lia|].
      apply Hf in H. lia.
    + congruence.
  - split; cbn; try done.
    + rewrite Hw. by destruct (ctx s) as [[]|].
    + intros _. apply cancelCause_done.
    + intros _. apply cancelCause_done.
  - split; cbn; try done. rewrite Hw, Hcx. done.
  - by split.
Qed.

Definition serving (b : bool) (s : state) : Prop := rtc serve_step (ServeContext_start b) s.

Lemma serving_inv b s : serving b s -> serve_inv s.
Proof.
  apply (rtc_ind_r (fun s => serve_inv s)); [apply start_inv|].
  intros s1 s2 _ Hst H. by eapply serve_step_inv.
Qed.

(** ** The end *)

(** The listener is closed, the context is done, or [Accept] failed. *)
Definition ending (s : state) : Prop :=
  sock_closed s = true \/ (exists e, ctx s = Some (Some e)) \/ main s <> Accepting.

(** Whoever has returned has waited for all the others. *)
Lemma returned_alone s r :
  serve_inv s -> main s = Returned r -> handlers s = ∅ /\ watcher s ∈ [None; Some Ended].
Proof.
  intros Hinv Hr. pose proof (si_wg _ Hinv) as Hwg. rewrite (si_returned _ Hinv r Hr) in Hwg.
  unfold watching in Hwg. split.
  - apply leibniz_equiv, size_empty_inv. destruct (watcher s) as [[]|]; lia.
  - rewrite !elem_of_cons. destruct (watcher s) as [[]|]; auto; lia.
Qed.

Definition steps_left (s : state) : nat :=
  size (handlers s) +
  match watcher s with Some Blocked => 2 | Some Closing => 1 | _ => 0 end +
  match main s with Accepting => 2 | Waiting _ => 1 | Returned _ => 0 end.

(** The call winds up: its goroutines go on, or a connection ends. *)
Definition wind_up (s s' : state) : Prop :=
  go_step s s' \/ exists c, c ∈ handlers s /\ s' = handled c s.

Lemma go_step_handlers s s' : go_step s s' -> handlers s' = handlers s.
Proof.
  intros Hst. destruct Hst as [s e cause Hwt Hcx|s Hwt|s msg Hma Hcl Hmsg|s r Hma H0]; try done.
  unfold watcher_woken. by rewrite Err_not_closed.
Qed.

Lemma wind_up_inv s s' : serve_inv s -> wind_up s s' -> serve_inv s'.
Proof. intros Hi [H|(c & Hc & ->)]; [by eapply go_step_inv|by apply handled_inv]. Qed.

Lemma wind_up_ending s s' : ending s -> wind_up s s' -> ending s'.
Proof.
  unfold ending. intros He [Hst|(c & Hc & ->)]; [|exact He].
  destruct Hst as [s e cause Hwt Hcx|s Hwt|s msg Hma Hcl Hmsg|s r Hma H0]; cbn; auto.
  unfold watcher_woken. rewrite Err_not_closed. exact He.
Qed.

Lemma wind_up_left s s' : wind_up s s' -> (steps_left s' < steps_left s)%nat.
Proof.
  unfold steps_left. intros [Hst|(c & Hc & ->)].
  - destruct Hst as [s e cause Hwt Hcx|s Hwt|s msg Hma Hcl Hmsg|s r Hma H0]; cbn.
    + unfold watcher_woken. rewrite Err_not_closed, Hwt. cbn. lia.
    + rewrite Hwt. lia.
    + rewrite Hma. lia.
    + rewrite Hma. lia.
  - cbn. pose proof (size_remove _ _ Hc). lia.
Qed.

(** Somebody can go on until the call has returned, or waits for its connections. *)
Lemma go_step_exists s :
  serve_inv s -> ending s ->
  (exists r, main s = Returned r) \/ (exists r, main s = Waiting r /\ handlers s <> ∅) \/
  exists s', go_step s s'.
Proof.
  intros Hinv He. pose proof Hinv as [Hwg _ Hw Hwk Hc Hs Hm _].
  destruct (main s) as [|r|r] eqn:Ema; [| |left; by eexists].
  - right. right. destruct (sock_closed s) eqn:Esc.
    { eexists. by eapply (go_accept_closed _ "use of closed network connection"). }
    destruct He as [He|[[[e cause] He]|He]]; [congruence| |by destruct He].
    destruct (watcher s) as [[]|] eqn:Ewt.
    + eexists. by eapply go_woken.
    + eexists. by apply go_closed.
    + exfalso. assert (false = true) by (apply Hs; lia). congruence.
    + exfalso. pose proof (proj1 Hw eq_refl). congruence.
  - right. destruct (watcher s) as [[]|] eqn:Ewt.
    + right. destruct (ctx s) as [[[e cause]|]|] eqn:Ecx.
      * eexists. by eapply go_woken.
      * by destruct Hm.
      * by destruct Hw as [_ Hw]; specialize (Hw eq_refl).
    + right. eexists. by apply go_closed.
    + destruct (decide (handlers s = ∅)) as [Hh|Hh]; [right|left; by eexists].
      eexists. eapply go_return; [done|]. rewrite Hwg, Hh, size_empty. unfold watching. by rewrite Ewt.
    + destruct (decide (handlers s = ∅)) as [Hh|Hh]; [right|left; by eexists].
      eexists. eapply go_return; [done|]. rewrite Hwg, Hh, size_empty. unfold watching. by rewrite Ewt.
Qed.

(** The result of a call that was accepting. *)
Definition result_nil (s : state) : Prop :=
  match main s with Accepting => True | Waiting r | Returned r => r = None end.

Lemma wind_up_nil s s' : result_nil s -> wind_up s s' -> result_nil s'.
Proof.
  unfold result_nil. intros Hn [Hst|(c & Hc & ->)]; [|exact Hn].
  destruct Hst as [s e cause Hwt Hcx|s Hwt|s msg Hma Hcl Hmsg|s r Hma H0]; cbn in *; try done.
  - unfold watcher_woken. by rewrite Err_not_closed.
  - by rewrite Hmsg.
  - by rewrite Hma in Hn.
Qed.

Lemma wind_ups n s s' :
  serve_inv s -> ending s -> nsteps wind_up n s s' ->
  serve_inv s' /\ ending s' /\ (n + steps_left s' <= steps_left s)%nat /\
  (result_nil s -> result_nil s').
Proof.
  intros Hinv He Hst. revert Hinv He. induction Hst as [s|n s1 s2 s3 H1 _ IH]; intros Hinv He.
  - split_and!; auto.
  - destruct IH as (Hi & He' & Hl & Hn); [by eapply wind_up_inv|by eapply wind_up_ending|].
    apply wind_up_left in H1 as Hlt. split_and!; [done|done|lia|].
    intros Hr. apply Hn. by eapply wind_up_nil.
Qed.

(** C18: [ServeContext] returns after its connections: in every state that it reaches, with
  or without a context, if it has returned then no connection is being handled any more and
  the goroutine that waits for the context is gone. Once the listener is closed, the context
  done or [Accept] has failed, the steps of its goroutines and the ends of its connections
  are bounded, in any order. Where no goroutine can go on, the call has returned if no
  connection is left; otherwise it waits for the connections that are left, which only their
  clients can end, for no step of a goroutine ends one. The result is nil if the call was
  accepting until then. The waiting goroutine always closes the listener, once, also after
  [Accept] has failed on it. *)
Theorem ServeContext_ends b s :
serving b s ->
(forall r, main s = Returned r -> handlers s = ∅ /\ watcher s ∈ [None; Some Ended]) /\
(ending s -> forall n s', nsteps wind_up n s s' -> (n <= steps_left s)%nat /\
   ((forall s'', ~ go_step s' s'') -> exists r,
      main s' = (if decide (handlers s' = ∅) then Returned r else Waiting r) /\
      (main s = Accepting -> r = None))) /\
(forall s', go_step s s' -> handlers s' = handlers s) /\
(watcher s = Some Ended -> closes s = 1%nat) /\ (closes s <= 1)%nat.
Proof.
intros Hs. apply serving_inv in Hs as Hinv. split; [|split; [|split; [|split]]].
- intros r Hr. by eapply returned_alone.
- intros He n s' Hst. destruct (wind_ups n s s' Hinv He Hst) as (Hi & He' & Hl & Hn).
  split; [lia|]. intros Hstuck.
  assert (Hnil : forall r, main s' ∈ [Returned r; Waiting r] -> main s = Accepting -> r = None).
  { intros r Hr Ha. unfold result_nil in Hn. rewrite Ha in Hn. specialize (Hn I).
    rewrite !elem_of_cons in Hr. destruct Hr as [Hr|[Hr|Hr]]; [by rewrite Hr in Hn..|].
    by apply elem_of_nil in Hr. }
  destruct (go_step_exists s' Hi He') as [[r Hr]|[(r & Hr & Hh)|[s'' Hgo]]].
  + exists r. rewrite decide_True by (by eapply returned_alone). split; [done|].
    apply Hnil. rewrite Hr. constructor.
  + exists r. rewrite decide_False by done. split; [done|].
    apply Hnil. rewrite Hr. do 2 constructor.
  + by destruct (Hstuck s'').
- apply go_step_handlers.
- intros Hw. rewrite (si_closes _ Hinv). by rewrite Hw.
- rewrite (si_closes _ Hinv). destruct (watcher s) as [[]|]; lia.
Qed.

(** *** An example: one connection, the end of the context, and what follows *)

Definition demo_ending : state :=
  mk_state Accepting 2 (Some Blocked) (Some (Some (DeadlineExceeded, Err DeadlineExceeded))) false 0
    {[ 0%nat ]} 1.

Lemma demo_serving : serving true demo_ending.
Proof.
  eapply rtc_l; [apply st_accepted; reflexivity|].
  eapply rtc_l; [apply (st_ctx_done _ DeadlineExceeded); reflexivity|].
  cbn. rewrite union_empty_r_L. apply rtc_refl.
Qed.

Definition demo_waiting : state :=
  mk_state (Waiting None) 1 (Some Ended)
    (Some (Some (DeadlineExceeded, Err DeadlineExceeded))) true 1 {[ 0%nat ]} 1.

(** The goroutines stop here: the client of the connection keeps it open. *)
Lemma demo_waiting_stuck s : ~ go_step demo_waiting s.
Proof. inversion 1; cbn in *; discriminate. Qed.

Lemma demo_waits : nsteps wind_up 3 demo_ending demo_waiting.
Proof.
  eapply nsteps_l; [left; eapply go_woken; reflexivity|].
  eapply nsteps_l; [left; eapply go_closed; reflexivity|].
  eapply nsteps_l; [left; eapply (go_accept_closed _ "use of closed network connection"); reflexivity|].
  apply nsteps_O.
Qed.

Lemma ServeContext_ends_witness :
  (exists r, main demo_waiting = Waiting r /\ r = None) /\ steps_left demo_ending = 5%nat /\
  exists s', nsteps wind_up 2 demo_waiting s' /\ main s' = Returned None /\ handlers s' = ∅.
Proof.
  assert (Hend : ending demo_ending) by (right; left; by eexists).
  destruct (ServeContext_ends true demo_ending demo_serving) as (_ & Hwind & _).
  split; [|split; [vm_compute; reflexivity|]].
  { destruct (proj2 (Hwind Hend 3%nat demo_waiting demo_waits) demo_waiting_stuck) as (r & Hr & Hn).
    exists r. split; [reflexivity || exact Hr|]. by apply Hn. }
  eexists. split; [|split].
  - eapply nsteps_l; [right; exists 0%nat; split; [cbn; by apply elem_of_singleton|reflexivity]|].
    eapply nsteps_l; [left; eapply go_return; reflexivity|]. apply nsteps_O.
  - reflexivity.
  - reflexivity.
Defined.
