(* ===== verification/Workers.v ===== *)
(** * Overlapping requests of a connection ([handleRequest] of [p9/server.go])

    The goroutines that serve a connection take turns in receiving: the one that has the
    receive lock takes a frame, sees to it that another one will take the next, and handles
    its request. A goroutine is a small state machine whose steps are what the code does
    atomically or under a lock; the handler of a request is one step, which is not possible
    while it would wait. *)
From S2P Require Import Prelude Errno Buffer Types Messages Message Transport Version.
From S2P Require Import File State PathTree FidRef Handlers Server Reach ProgramLogic TreeLogic Session.

(** ** Goroutines *)

Inductive worker :=
| Looping                                        (* in [handleRequests] *)
| Idle                                           (* counted, before the receive lock *)
| Receiving                                      (* has the receive lock *)
| Received (tag : Z) (res : message + error)     (* has it, and a frame *)
| Failing (tag : Z) (err : error)                (* to answer a frame without a message *)
| Starting (tag : Z) (m : message)
| Handling (tag : Z) (m : message)
| Waiting (tag : Z) (m : message) (ch : nat)     (* [<-ch] of [WaitTag] *)
| Handled (tag : Z) (m r : message)
| Sending (tag : Z) (m r : message)              (* its tag is cleared *)
| Finished.

Section workers.
Context {W File : Type} {B : Backend W File} (c : cid).
Local Notation St := (St W File).

Record connection := mk_connection {
  srv : St;
  input : list byte;
  reg : registry;
  recvIdle : Z;
  recvMu : bool;
  recvShutdown : bool;
  pendingWg : Z;
  (* the channels of [cs.tags], numbered in the order that they were made in *)
  chans : gmap Z nat;
  next_chan : nat;
  (* the first is the goroutine of [Handle] *)
  workers : list worker;
  (* the frames that were received, sent, and dropped because their tag was in use *)
  received_frames : list Z;
  sent : list (Z * message);
  dropped : list Z;
}.

(** Field updates. *)
Definition set_worker (i : nat) (w : worker) (x : connection) : connection :=
  mk_connection (srv x) (input x) (reg x) (recvIdle x) (recvMu x) (recvShutdown x) (pendingWg x)
    (chans x) (next_chan x) (<[i := w]> (workers x)) (received_frames x) (sent x) (dropped x).
Definition set_srv (s : St) (x : connection) : connection :=
  mk_connection s (input x) (reg x) (recvIdle x) (recvMu x) (recvShutdown x) (pendingWg x)
    (chans x) (next_chan x) (workers x) (received_frames x) (sent x) (dropped x).
Definition set_input (bs : list byte) (r : registry) (x : connection) : connection :=
  mk_connection (srv x) bs r (recvIdle x) (recvMu x) (recvShutdown x) (pendingWg x)
    (chans x) (next_chan x) (workers x) (received_frames x) (sent x) (dropped x).
Definition set_recv (idle : Z) (mu shutdown : bool) (x : connection) : connection :=
  mk_connection (srv x) (input x) (reg x) idle mu shutdown (pendingWg x)
    (chans x) (next_chan x) (workers x) (received_frames x) (sent x) (dropped x).
Definition add_pending (n : Z) (x : connection) : connection :=
  mk_connection (srv x) (input x) (reg x) (recvIdle x) (recvMu x) (recvShutdown x)
    (pendingWg x + n) (chans x) (next_chan x) (workers x) (received_frames x) (sent x) (dropped x).
Definition set_chans (chs : gmap Z nat) (n : nat) (x : connection) : connection :=
  mk_connection (srv x) (input x) (reg x) (recvIdle x) (recvMu x) (recvShutdown x) (pendingWg x)
    chs n (workers x) (received_frames x) (sent x) (dropped x).
Definition go (w : worker) (x : connection) : connection :=
  mk_connection (srv x) (input x) (reg x) (recvIdle x) (recvMu x) (recvShutdown x) (pendingWg x)
    (chans x) (next_chan x) (workers x ++ [w]) (received_frames x) (sent x) (dropped x).
Definition log_received (tag : Z) (x : connection) : connection :=
  mk_connection (srv x) (input x) (reg x) (recvIdle x) (recvMu x) (recvShutdown x) (pendingWg x)
    (chans x) (next_chan x) (workers x) (received_frames x ++ [tag]) (sent x) (dropped x).
Definition log_sent (tag : Z) (r : message) (x : connection) : connection :=
  mk_connection (srv x) (input x) (reg x) (recvIdle x) (recvMu x) (recvShutdown x) (pendingWg x)
    (chans x) (next_chan x) (workers x) (received_frames x) (sent x ++ [(tag, r)]) (dropped x).
Definition log_dropped (tag : Z) (x : connection) : connection :=
  mk_connection (srv x) (input x) (reg x) (recvIdle x) (recvMu x) (recvShutdown x) (pendingWg x)
    (chans x) (next_chan x) (workers x) (received_frames x) (sent x) (dropped x ++ [tag]).

(** The bytes that went out. *)
Definition output (x : connection) : list byte :=
  concat (map (fun '(tag, r) => frame tag r) (sent x)).

(** [Handle], before its loop. *)
Definition Handle_start (s : St) (input : list byte) (reg : registry) : connection :=
  mk_connection s input reg 0 false false 0 ∅ 0 [Looping] [] [] [].

(** ** The parts of [handleRequest] *)

(** The limit for the size of a frame. *)
Definition recv_limit (x : connection) : Z :=
  match conns (srv x) !! c with
  | Some cs => if messageSize cs =? 0 then maximumLength else messageSize cs
  | None => maximumLength
  end.

(** It returned [false], and [handleRequests] with it: the deferred [Done], and that of the
    goroutine if it is not the first. *)
Definition finish (i : nat) (x : connection) : connection :=
  add_pending (if (i =? 0)%nat then -1 else -2) (set_worker i Finished x).

(** It returned [true]: the deferred [Done], and back to the loop. *)
Definition again (i : nat) (x : connection) : connection :=
  add_pending (-1) (set_worker i Looping x).

(** From the check for another goroutine to the unlock. *)
Definition hand_over (i : nat) (w : worker) (x : connection) : connection :=
  let x := set_worker i w x in
  let x := if recvIdle x =? 0 then go Looping (add_pending 1 x) else x in
  set_recv (recvIdle x) false (recvShutdown x) x.

Inductive wstep : relation connection :=
| w_enter i x :
    workers x !! i = Some Looping ->
    wstep x (set_recv (recvIdle x + 1) (recvMu x) (recvShutdown x)
               (add_pending 1 (set_worker i Idle x)))
| w_lock i x :
    workers x !! i = Some Idle -> recvMu x = false ->
    wstep x (set_recv (recvIdle x - 1) true (recvShutdown x) (set_worker i Receiving x))
| w_shutdown i x :
    workers x !! i = Some Receiving -> recvShutdown x = true ->
    wstep x (set_recv (recvIdle x) false true (finish i x))
| w_recv_end i x tag e rest r :
    workers x !! i = Some Receiving -> recvShutdown x = false ->
    recv registry_lookup (input x) (recv_limit x) (reg x) = ((tag, inr (ConnError e)), rest, r) ->
    wstep x (set_recv (recvIdle x) false true (finish i (set_input rest r x)))
| w_recv i x tag res rest r :
    workers x !! i = Some Receiving -> recvShutdown x = false ->
    recv registry_lookup (input x) (recv_limit x) (reg x) = ((tag, res), rest, r) ->
    (forall e, res <> inr (ConnError e)) ->
    wstep x (log_received tag (set_worker i (Received tag res) (set_input rest r x)))
| w_message i x tag m :
    workers x !! i = Some (Received tag (inl m)) -> wstep x (hand_over i (Starting tag m) x)
| w_error i x tag err :
    workers x !! i = Some (Received tag (inr err)) -> wstep x (hand_over i (Failing tag err) x)
| w_fail i x tag err :
    workers x !! i = Some (Failing tag err) -> wstep x (log_sent tag (newErr err) (again i x))
| w_start i x tag m s :
    workers x !! i = Some (Starting tag m) -> StartTag c tag [] (srv x) = Ret true s ->
    wstep x (set_chans (<[tag := next_chan x]> (chans x)) (S (next_chan x))
               (set_srv s (set_worker i (Handling tag m) x)))
| w_in_use i x tag m s :
    workers x !! i = Some (Starting tag m) -> StartTag c tag [] (srv x) = Ret false s ->
    wstep x (log_dropped tag (set_srv s (again i x)))
| w_handle i x tag m r s :
    workers x !! i = Some (Handling tag m) -> handle c m [] (srv x) = Ret r s ->
    wstep x (set_srv s (set_worker i (Handled tag m r) x))
| w_flush_wait i x tag t ch :
    workers x !! i = Some (Handling tag (Mtflush t)) -> chans x !! tflush_OldTag t = Some ch ->
    wstep x (set_worker i (Waiting tag (Mtflush t) ch) x)
| w_flush_done i x tag m ch :
    workers x !! i = Some (Waiting tag m ch) -> (forall t, chans x !! t <> Some ch) ->
    wstep x (set_worker i (Handled tag m (Mrflush mk_rflush)) x)
| w_clear i x tag m r s :
    workers x !! i = Some (Handled tag m r) -> ClearTag c tag [] (srv x) = Ret tt s ->
    wstep x (set_chans (delete tag (chans x)) (next_chan x)
               (set_srv s (set_worker i (Sending tag m r) x)))
| w_send i x tag m r s :
    workers x !! i = Some (Sending tag m r) -> PayloadCleanup c r [] (srv x) = Ret tt s ->
    wstep x (log_sent tag r (set_srv s (set_input (input x) (registry_put (reg x) m) (again i x)))).

(** The step of one goroutine, to run examples. *)
Definition closed (ch : nat) (chs : gmap Z nat) : bool :=
  negb (existsb (fun '(_, ch') => ch' =? ch)%nat (map_to_list chs)).

Definition wnext (i : nat) (x : connection) : option connection :=
  match workers x !! i with
  | Some Looping =>
      Some (set_recv (recvIdle x + 1) (recvMu x) (recvShutdown x)
              (add_pending 1 (set_worker i Idle x)))
  | Some Idle =>
      if recvMu x then None
      else Some (set_recv (recvIdle x - 1) true (recvShutdown x) (set_worker i Receiving x))
  | Some Receiving =>
      if recvShutdown x then Some (set_recv (recvIdle x) false true (finish i x))
      else
        let '(tag, res, rest, r) := recv registry_lookup (input x) (recv_limit x) (reg x) in
        match res with
        | inr (ConnError e) => Some (set_recv (recvIdle x) false true (finish i (set_input rest r x)))
        | _ => Some (log_received tag (set_worker i (Received tag res) (set_input rest r x)))
        end
  | Some (Received tag (inl m)) => Some (hand_over i (Starting tag m) x)
  | Some (Received tag (inr err)) => Some (hand_over i (Failing tag err) x)
  | Some (Failing tag err) => Some (log_sent tag (newErr err) (again i x))
  | Some (Starting tag m) =>
      match StartTag c tag [] (srv x) with
      | Ret true s =>
          Some (set_chans (<[tag := next_chan x]> (chans x)) (S (next_chan x))
                  (set_srv s (set_worker i (Handling tag m) x)))
      | Ret false s => Some (log_dropped tag (set_srv s (again i x)))
      | _ => None
      end
  | Some (Handling tag m) =>
      match handle c m [] (srv x) with
      | Ret r s => Some (set_srv s (set_worker i (Handled tag m r) x))
      | _ =>
          match m with
          | Mtflush t =>
              match chans x !! tflush_OldTag t with
              | Some ch => Some (set_worker i (Waiting tag (Mtflush t) ch) x)
              | None => None
              end
          | _ => None
          end
      end
  | Some (Waiting tag m ch) =>
      if closed ch (chans x)
      then Some (set_worker i (Handled tag m (Mrflush mk_rflush)) x) else None
  | Some (Handled tag m r) =>
      match ClearTag c tag [] (srv x) with
      | Ret _ s => Some (set_chans (delete tag (chans x)) (next_chan x)
                           (set_srv s (set_worker i (Sending tag m r) x)))
      | _ => None
      end
  | Some (Sending tag m r) =>
      match PayloadCleanup c r [] (srv x) with
      | Ret _ s =>
          Some (log_sent tag r
                  (set_srv s (set_input (input x) (registry_put (reg x) m) (again i x))))
      | _ => None
      end
  | Some Finished | None => None
  end.

Lemma closed_spec ch chs : closed ch chs = true <-> forall t, chs !! t <> Some ch.
Proof.
  unfold closed. rewrite negb_true_iff, <- not_true_iff_false, existsb_exists. split.
  - intros H t Ht. apply H. exists (t, ch). split; [|apply Nat.eqb_refl].
    by apply list_elem_of_In, elem_of_map_to_list.
  - intros H ([t ch'] & Hin & ->%Nat.eqb_eq).
    apply list_elem_of_In, elem_of_map_to_list in Hin. by apply (H t).
Qed.

Lemma wnext_step i x x' : wnext i x = Some x' -> wstep x x'.
Proof.
  unfold wnext. destruct (workers x !! i) as [w|] eqn:E; [|done].
  destruct w as [| | |tag [m|err]|tag err|tag m|tag m|tag m ch|tag m r|tag m r|].
  - intros [= <-]. by apply w_enter.
  - destruct (recvMu x) eqn:Em; [done|]. intros [= <-]. by apply w_lock.
  - destruct (recvShutdown x) eqn:Es; [intros [= <-]; by apply w_shutdown|].
    destruct (recv _ _ _ _) as [[[tag res] rest] r] eqn:Er.
    destruct res as [m|err].
    + intros [= <-]. by eapply w_recv.
    + assert (Hd : (exists e, err = ConnError e) \/ forall e, err <> ConnError e)
        by (destruct err; eauto).
      destruct Hd as [[e ->]|Hd]; [intros [= <-]; by eapply w_recv_end|]. intros H.
      assert (H' : Some (log_received tag (set_worker i (Received tag (inr err)) (set_input rest r x)))
        = Some x') by (rewrite <- H; destruct err; try done; by destruct (Hd err)).
      injection H' as <-. eapply w_recv; [done..|]. intros e [= ->]. by destruct (Hd e).
  - intros [= <-]. by apply w_message.
  - intros [= <-]. by apply w_error.
  - intros [= <-]. by apply w_fail.
  - destruct (StartTag _ _ _ _) as [[|] s|s|] eqn:Es; [|..|done|done]; intros [= <-];
      [by eapply w_start|by eapply w_in_use].
  - destruct (handle _ _ _ _) as [r s|s|] eqn:Eh; [intros [= <-]; by eapply w_handle|..];
      (destruct m; try done; destruct (chans x !! _) eqn:Ec; [|done]; intros [= <-];
       by eapply w_flush_wait).
  - destruct (closed ch (chans x)) eqn:Ec; [|done]. intros [= <-].
    eapply w_flush_done; [done|]. by apply closed_spec.
  - destruct (ClearTag _ _ _ _) as [[] s|s|] eqn:Es; [|done..]. intros [= <-]. by eapply w_clear.
  - destruct (PayloadCleanup _ _ _ _) as [[] s|s|] eqn:Es; [|done..]. intros [= <-]. by eapply w_send.
  - done.
Qed.

(** Steps of the goroutines of a list, in turn. *)
Fixpoint wrun (sched : list nat) (x : connection) : option connection :=
  match sched with
  | [] => Some x
  | i :: sched => x ← wnext i x; wrun sched x
  end.

Lemma wrun_nsteps sched x x' : wrun sched x = Some x' -> nsteps wstep (length sched) x x'.
Proof.
  revert x. induction sched as [|i sched IH]; intros x; cbn; [intros [= <-]; constructor|].
  destruct (wnext i x) as [x1|] eqn:E; [|done]. intros H.
  eapply nsteps_l; [by eapply wnext_step|]. by apply IH.
Qed.

Lemma wrun_steps sched x x' : wrun sched x = Some x' -> rtc wstep x x'.
Proof. intros H. eapply rtc_nsteps_2. by apply wrun_nsteps in H. Qed.

(** [stop] can go on: the first goroutine is in it, and [pendingWg.Wait] is over. *)
Definition stop_ready (x : connection) : Prop :=
  workers x !! 0%nat = Some Finished /\ pendingWg x = 0.
End workers.
