(* ===== verification/Overlap.v ===== *)
(** * Overlapping requests are answered

    The steps of Workers: an invariant on the goroutines of a connection, the measure that
    ends their runs, and the theorems that it comes to. *)
From S2P Require Import Prelude Errno Buffer Types Messages Message Transport Version.
From S2P Require Import File State PathTree FidRef Handlers Server Reach ProgramLogic TreeLogic Session Workers.

(** ** Counting goroutines *)

Definition idle (w : worker) : nat := match w with Idle => 1 | _ => 0 end.
Definition holding (w : worker) : nat := match w with Receiving | Received _ _ => 1 | _ => 0 end.
(** In [handleRequest]; not ended. *)
Definition in_call (w : worker) : nat := match w with Looping | Finished => 0 | _ => 1 end.
Definition alive (w : worker) : nat := match w with Finished => 0 | _ => 1 end.
(** Will receive, or see to it. *)
Definition receiver (w : worker) : nat :=
  match w with Looping | Idle | Receiving | Received _ _ => 1 | _ => 0 end.
(** The tag that is in the table of the connection. *)
Definition active_tag (w : worker) : option Z :=
  match w with Handling t _ | Waiting t _ _ | Handled t _ _ => Some t | _ => None end.
(** The tag of a frame that is still to be answered. *)
Definition open_tag (w : worker) : option Z :=
  match w with
  | Received t _ | Failing t _ | Starting t _ | Handling t _ | Waiting t _ _ | Handled t _ _
  | Sending t _ _ => Some t
  | _ => None
  end.

Definition first_alive (ws : list worker) : nat :=
  match ws with w :: _ => alive w | [] => 0 end.

(** The steps that a goroutine takes at most before it receives, and for a frame. *)
Definition steps_of (w : worker) : nat :=
  match w with
  | Looping => 3 | Idle => 2 | Receiving => 1 | Received _ _ => 14 | Failing _ _ => 4
  | Starting _ _ => 9 | Handling _ _ => 8 | Waiting _ _ _ => 7 | Handled _ _ _ => 6
  | Sending _ _ _ => 5 | Finished => 0
  end.

Local Notation total f ws := (sum_list_with f ws).

Lemma total_app (f : worker -> nat) ws ws' : total f (ws ++ ws') = (total f ws + total f ws')%nat.
Proof. apply sum_list_with_app. Qed.

Lemma insert_middle {A} (l1 l2 : list A) x y : <[length l1 := y]> (l1 ++ x :: l2) = l1 ++ y :: l2.
Proof. rewrite <- (Nat.add_0_r (length l1)), insert_app_r. done. Qed.

(** The list around one worker. *)
Lemma worker_split (ws : list worker) i w :
  ws !! i = Some w -> exists l1 l2, ws = l1 ++ w :: l2 /\ i = length l1 /\
    forall w', <[i := w']> ws = l1 ++ w' :: l2.
Proof.
  intros H. destruct (list_elem_of_split_length _ _ _ H) as (l1 & l2 & -> & ->).
  exists l1, l2. split; [done|]. split; [done|]. intros w'. apply insert_middle.
Qed.

(** ** The invariant *)

Section overlap.
Context {W File : Type} {B : Backend W File} (c : cid).
Local Notation St := (St W File).
Local Notation connection := (connection (W := W) (File := File)).
Implicit Types (x : connection) (s : St).

Record overlap_inv x : Prop := {
  oi_idle : recvIdle x = Z.of_nat (total idle (workers x));
  oi_mu : total holding (workers x) = if recvMu x then 1%nat else 0%nat;
  oi_wg : pendingWg x = Z.of_nat (total in_call (workers x)) + Z.of_nat (total alive (workers x))
    - Z.of_nat (first_alive (workers x));
  oi_first : workers x <> [];
  oi_recv : recvShutdown x = false -> (0 < total receiver (workers x))%nat;
  oi_tags : exists cs, conns (srv x) !! c = Some cs /\
    forall t, t ∈ tags cs <-> t ∈ omap active_tag (workers x);
  oi_distinct : NoDup (omap active_tag (workers x));
  oi_chans : forall t, is_Some (chans x !! t) <-> t ∈ omap active_tag (workers x);
  oi_log : received_frames x ≡ₚ (sent x).*1 ++ dropped x ++ omap open_tag (workers x);
}.

Lemma start_overlap_inv s bs r cs :
  conns s !! c = Some cs -> tags cs = ∅ -> overlap_inv (Handle_start s bs r).
Proof.
  intros Hc Ht. split; cbn; try done.
  - lia.
  - exists cs. split; [done|]. intros t. rewrite Ht, elem_of_nil. set_solver.
  - constructor.
  - intros t. rewrite lookup_empty, elem_of_nil. split; [by intros [? ?]|done].
Qed.

(** What the primitives do to the tags. *)
Lemma StartTag_returns tag s cs :
  conns s !! c = Some cs ->
  StartTag c tag [] s = if bool_decide (tag ∈ tags cs) then Ret false s
                        else Ret true (tag_started c cs tag s).
Proof.
  intros Hc. unfold StartTag, with_lock, mbind, M_bind, get_conn. cbn [conflicts existsb].
  rewrite Hc. by case_bool_decide.
Qed.

(** A handler that returns leaves the tags. *)
Lemma handle_tags m r s s' cs :
  conns s !! c = Some cs -> handle c m [] s = Ret r s' ->
  exists cs', conns s' !! c = Some cs' /\ tags cs' = tags cs.
Proof.
  intros Hc Hh. pose proof (tags_handle c m s Logic.I Logic.I) as H. rewrite Hh in H.
  destruct H as (_ & He & _). exact (He c cs Hc).
Qed.

(** Opens the invariant around the worker of a step. *)
Ltac at_worker Hinv H :=
  destruct Hinv as [Hidle Hmu Hwg Hfirst Hrecv Htags Hdist Hch Hlog];
  destruct (worker_split _ _ _ H) as (l1 & l2 & Hws & -> & Hins);
  rewrite Hws in Hidle, Hmu, Hwg, Hfirst, Hrecv, Htags, Hdist, Hch, Hlog.

Ltac counts :=
  cbn [workers recvIdle recvMu recvShutdown pendingWg chans srv received_frames sent dropped
    set_worker set_srv set_input set_recv add_pending set_chans go log_received log_sent log_dropped
    finish again hand_over] in *;
  try match goal with Hi : forall w', <[_ := w']> _ = _ |- _ => rewrite !Hi end;
  repeat (rewrite ?total_app, ?omap_app, ?fmap_app, ?app_nil_r in * );
  cbn [sum_list_with omap list_omap idle holding in_call alive receiver active_tag open_tag
    first_alive app Nat.eqb length fmap list_fmap fst] in *.

Lemma idle_receiver ws : (total idle ws <= total receiver ws)%nat.
Proof. induction ws as [|w ws IH]; cbn; [lia|]. destruct w; cbn; lia. Qed.

(** Moves between the logs. *)
Lemma log_open (r s d a b : list Z) t :
  r ≡ₚ s ++ d ++ a ++ b -> r ++ [t] ≡ₚ s ++ d ++ a ++ t :: b.
Proof. intros ->. solve_Permutation. Qed.
Lemma log_answer (r s d a b : list Z) t :
  r ≡ₚ s ++ d ++ a ++ t :: b -> r ≡ₚ (s ++ [t]) ++ d ++ a ++ b.
Proof. intros ->. solve_Permutation. Qed.
Lemma log_drop (r s d a b : list Z) t :
  r ≡ₚ s ++ d ++ a ++ t :: b -> r ≡ₚ s ++ (d ++ [t]) ++ a ++ b.
Proof. intros ->. solve_Permutation. Qed.

(** What is left of a step that moves no tags. *)
Ltac overlap_auto :=
  lazymatch goal with
  | |- context [hand_over _ _ ?x] =>
      unfold hand_over; change (recvIdle (set_worker _ _ x)) with (recvIdle x);
      destruct (Z.eqb_spec (recvIdle x) 0)
  | |- _ => idtac
  end;
  split; counts;
  first [done | lia | by intros ? | by intros; lia | by apply log_open | by apply log_answer
        | by apply log_drop
        | match goal with Hws : workers _ = ?l1 ++ _ |- context [first_alive] =>
            destruct l1; cbn in *; lia end
        | match goal with |- _ ++ _ <> [] => by intros ?%app_nil; destruct_and? end
        | match goal with H : _ = (if recvMu ?x then _ else _) |- _ => destruct (recvMu x); cbn in *; done || lia end
        | idtac].

Lemma wstep_overlap x x' : overlap_inv x -> wstep c x x' -> overlap_inv x'.
Proof.
  intros Hinv Hst.
  destruct Hst as [i x H|i x H Hm|i x H Hs|i x tag e rest r H Hs Hr|i x tag res rest r H Hs Hr Hne|
    i x tag m H|i x tag err H|i x tag err H|i x tag m s H Hs|i x tag m s H Hs|i x tag m r s H Hh|
    i x tag t ch H Hcm|i x tag m ch H Hcm|i x tag m r s H Hcl|i x tag m r s H Hsd];
    at_worker Hinv H; overlap_auto.
  1, 2: intros _; pose proof (idle_receiver l1); pose proof (idle_receiver l2); lia.
  (* StartTag *)
  1, 2, 3, 4: destruct Htags as (cs & Hc & Ht); rewrite (StartTag_returns _ _ _ Hc) in Hs;
    case_bool_decide; try done.
  - injection Hs as <-. cbn. rewrite lookup_insert_eq. eexists. split; [done|]. intros t. cbn.
    rewrite elem_of_union, elem_of_singleton, Ht, !elem_of_app, elem_of_cons. tauto.
  - rewrite <- Permutation_middle. constructor; [|done]. by rewrite <- Ht.
  - intros t. rewrite lookup_insert_is_Some, Hch, !elem_of_app, elem_of_cons.
    destruct (decide (tag = t)); naive_solver.
  - injection Hs as <-. by exists cs.
  - destruct Htags as (cs & Hc & Ht). destruct (handle_tags m r _ _ cs Hc Hh) as (cs' & Hc' & E).
    exists cs'. by rewrite E.
  (* ClearTag *)
  - destruct Htags as (cs & Hc & Ht). rewrite <- Permutation_middle in Hdist.
    apply NoDup_cons in Hdist as [Hn _]. set (ts := tags cs ∖ {[tag]}).
    destruct (ClearTag_started c tag cs ts (srv x) Hc) as (s' & Hs' & cs' & Hc' & Ht').
    + apply set_eq. intros t. unfold ts. rewrite elem_of_union, elem_of_difference, elem_of_singleton.
      destruct (decide (t = tag)) as [->|]; [|tauto]. rewrite Ht, elem_of_app, elem_of_cons. tauto.
    + unfold ts. set_solver.
    + rewrite Hs' in Hcl. injection Hcl as <-. exists cs'. split; [done|]. intros t. rewrite Ht'.
      unfold ts. rewrite elem_of_difference, elem_of_singleton, Ht, elem_of_app, elem_of_cons.
      rewrite elem_of_app in *. destruct (decide (t = tag)) as [->|]; naive_solver.
  - rewrite <- Permutation_middle in Hdist. by apply NoDup_cons in Hdist as [_ ?].
  - rewrite <- Permutation_middle in Hdist. apply NoDup_cons in Hdist as [Hn _]. intros t.
    rewrite lookup_delete_is_Some, Hch, !elem_of_app, elem_of_cons. rewrite elem_of_app in Hn.
    destruct (decide (tag = t)) as [->|]; naive_solver.
  - destruct Htags as (cs & Hc & Ht).
    destruct (PayloadCleanup_returns c r cs _ Hc) as (s' & Hs' & cs' & Hc' & E).
    rewrite Hs' in Hsd. injection Hsd as <-. exists cs'. by rewrite E.
Qed.

Lemma wsteps_overlap x x' : overlap_inv x -> rtc (wstep c) x x' -> overlap_inv x'.
Proof. intros H Hs. induction Hs as [|x1 x2 x3 H1 _ IH]; [done|]. apply IH. by eapply wstep_overlap. Qed.

(** ** Runs end *)

(** A frame that is received shortens the input. *)
Lemma recv_shortens {T} (lookup : Z -> Z -> T -> (message + error) * T) bs msize r tag res rest r' :
  recv lookup bs msize r = ((tag, res), rest, r') ->
  (length rest <= length bs)%nat /\
  ((forall e, res <> inr (ConnError e)) -> (length rest < length bs)%nat).
Proof.
  unfold recv. destruct (Nat.ltb_spec (length bs) (Z.to_nat headerLength)) as [Hlt|Hge].
  { intros [= <- <- <- <-]. split; [cbn; lia|]. intros H. by destruct (H _ eq_refl). }
  change (Z.to_nat headerLength) with 7%nat in *.
  destruct ((size ← Read32; t ← ReadMsgType; tag ← ReadTag; mret (size, t, tag)) _)
    as [[[size t] tag0] ?].
  destruct (size <? headerLength).
  { intros [= <- <- <- <-]. rewrite length_drop. split; [lia|]. intros H. by destruct (H _ eq_refl). }
  destruct (_ || _).
  { intros [= <- <- <- <-]. rewrite length_drop. split; [lia|]. intros H. by destruct (H _ eq_refl). }
  destruct (lookup tag0 t r) as [[m|err] r1].
  2: { intros [= <- <- <- <-]. rewrite !length_drop. split; [lia|]. intros _. lia. }
  destruct (recv_body tag0 m (size - headerLength) (drop 7 bs)) as [res0 rest0] eqn:E.
  intros [= -> <- <-].
  assert (Hl : (length rest0 <= length (drop 7 bs))%nat);
    [|rewrite length_drop in Hl; split; [lia|]; intros _; lia].
  revert E. unfold recv_body, ReadFrom. destruct (message_FixedSize m) as [n|].
  - destruct (_ <? n); [intros [= _ _ <-]; rewrite length_drop; lia|].
    destruct (_ <=? _)%nat; [|intros [= _ _ <-]; cbn; lia]. intros [= _ <-]. rewrite length_drop. lia.
  - destruct (_ <=? _)%nat; [|intros [= _ _ <-]; cbn; lia]. intros [= _ <-]. rewrite length_drop. lia.
Qed.

Definition steps_left x : nat := 20 * length (input x) + total steps_of (workers x).

Lemma wstep_left x x' : wstep c x x' -> (steps_left x' < steps_left x)%nat.
Proof.
  intros Hst. unfold steps_left.
  destruct Hst as [i x H|i x H Hm|i x H Hs|i x tag e rest r H Hs Hr|i x tag res rest r H Hs Hr Hne|
    i x tag m H|i x tag err H|i x tag err H|i x tag m s H Hs|i x tag m s H Hs|i x tag m r s H Hh|
    i x tag t ch H Hcm|i x tag m ch H Hcm|i x tag m r s H Hcl|i x tag m r s H Hsd];
    destruct (worker_split _ _ _ H) as (l1 & l2 & Hws & -> & Hins).
  4, 5: destruct (recv_shortens _ _ _ _ _ _ _ _ Hr) as [Hle Hlt].
  5: specialize (Hlt Hne).
  all: try unfold hand_over; try destruct (_ =? 0); cbn; rewrite ?Hins, Hws, ?total_app; cbn; lia.
Qed.

(** ** Where no goroutine can go on *)

(** A handler that is waiting, on a channel that is open or on a lock. *)
Definition blocked x (w : worker) : Prop :=
  match w with
  | Finished => True
  | Handling tag m => handle c m [] (srv x) = Stuck
  | Waiting tag m ch => exists t, chans x !! t = Some ch
  | _ => False
  end.

Lemma handle_no_panic m s s' : handle c m [] s <> Panic s'.
Proof. unfold handle, recover. by destruct (match handler m with Some _ => _ | None => _ end). Qed.

Lemma lookup_total (f : worker -> nat) ws :
  (0 < total f ws)%nat -> exists i w, ws !! i = Some w /\ (0 < f w)%nat.
Proof.
  induction ws as [|w ws IH]; cbn; [lia|]. intros H. destruct (decide (0 < f w)%nat) as [Hf|Hf].
  - by exists 0%nat, w.
  - destruct IH as (i & w' & Hi & Hw); [lia|]. by exists (S i), w'.
Qed.

(** Where nothing moves, nobody is about to receive, so nobody will ever. *)
Lemma wnext_None x i w :
  overlap_inv x -> workers x !! i = Some w -> wnext c i x = None ->
  (w = Idle /\ recvMu x = true) \/ blocked x w.
Proof.
  intros Hinv E. unfold wnext. rewrite E. pose proof (oi_tags _ Hinv) as (cs & Hc & Ht).
  assert (Hact : forall tag, active_tag w = Some tag -> tag ∈ tags cs).
  { intros tag Hw. apply Ht, list_elem_of_omap. exists w. split; [|done].
    by eapply list_elem_of_lookup_2. }
  destruct w as [| | |tag [m|err]|tag err|tag m|tag m|tag m ch|tag m r|tag m r|]; try done.
  - destruct (recvMu x); [by left|done].
  - destruct (recvShutdown x); [done|]. destruct (recv _ _ _ _) as [[[tag [m|err]] rest] r]; [done|].
    by destruct err.
  - rewrite (StartTag_returns _ _ _ Hc). by case_bool_decide.
  - destruct (handle c m [] (srv x)) as [r s|s|] eqn:Eh; [done|by apply handle_no_panic in Eh|].
    intros _. by right.
  - destruct (closed ch (chans x)) eqn:Ec; [done|]. intros _. right. cbn.
    apply not_true_iff_false in Ec. rewrite closed_spec in Ec.
    destruct (decide (Exists (fun p => p.2 = ch) (map_to_list (chans x)))) as [Hex|Hex].
    + apply Exists_exists in Hex as ([t ch'] & Hin & E'). cbn in E'. subst ch'.
      exists t. by apply elem_of_map_to_list in Hin.
    + destruct Ec. intros t Hch. apply Hex, Exists_exists. exists (t, ch).
      split; [by apply elem_of_map_to_list|done].
  - destruct (ClearTag_started c tag cs (tags cs ∖ {[tag]}) (srv x) Hc) as (s' & -> & _); [..|done].
    + apply set_eq. intros t. specialize (Hact tag eq_refl).
      rewrite elem_of_union, elem_of_difference, elem_of_singleton.
      destruct (decide (t = tag)) as [->|]; tauto.
    + set_solver.
  - by destruct (PayloadCleanup_returns c r cs (srv x) Hc) as (s' & -> & _).
  - intros _. by right.
Qed.

Lemma no_step_blocked x :
  overlap_inv x -> (forall x', ~ wstep c x x') ->
  recvShutdown x = true /\ Forall (blocked x) (workers x).
Proof.
  intros Hinv Hno.
  assert (Hnone : forall i, wnext c i x = None).
  { intros i. destruct (wnext c i x) as [x'|] eqn:E; [|done]. by destruct (Hno x' (wnext_step _ _ _ _ E)). }
  assert (Hmu : recvMu x = false).
  { destruct (recvMu x) eqn:E; [|done]. pose proof (oi_mu _ Hinv) as Hh. rewrite E in Hh.
    destruct (lookup_total holding (workers x)) as (i & w & Hi & Hw); [lia|].
    destruct (wnext_None x i w Hinv Hi (Hnone i)) as [[-> _]|Hb]; [cbn in Hw; lia|].
    destruct w; cbn in Hw, Hb; done || lia. }
  assert (Hall : Forall (blocked x) (workers x)).
  { apply Forall_lookup. intros i w Hi.
    destruct (wnext_None x i w Hinv Hi (Hnone i)) as [[_ Hm]|Hb]; [congruence|done]. }
  split; [|done]. destruct (recvShutdown x) eqn:E; [done|].
  destruct (lookup_total receiver (workers x)) as (i & w & Hi & Hw); [by apply (oi_recv _ Hinv)|].
  rewrite Forall_lookup in Hall. specialize (Hall i w Hi). destruct w; cbn in Hw, Hall; done || lia.
Qed.

(** [stop] waits for everybody. *)
Lemma stop_ready_finished x :
  overlap_inv x -> stop_ready x -> Forall (fun w => w = Finished) (workers x).
Proof.
  intros Hinv [H0 Hwg]. rewrite (oi_wg _ Hinv) in Hwg.
  destruct (workers x) as [|w ws] eqn:E; [done|]. cbn in H0, Hwg. injection H0 as ->.
  constructor; [done|]. cbn in Hwg.
  assert (Ha : total alive ws = 0%nat) by lia. clear -Ha.
  induction ws as [|w ws IH]; [constructor|]. cbn in Ha. constructor; [|apply IH; lia].
  destruct w; cbn in Ha; done || lia.
Qed.

Lemma finished_open ws : Forall (fun w => w = Finished) ws -> omap open_tag ws = [].
Proof. induction 1 as [|w ws -> _ IH]; done. Qed.

Lemma finished_stop x :
  overlap_inv x -> Forall (fun w => w = Finished) (workers x) -> stop_ready x.
Proof.
  intros Hinv Hf. split.
  - pose proof (oi_first _ Hinv). destruct (workers x); [done|]. by inversion Hf; subst.
  - rewrite (oi_wg _ Hinv).
    assert (H : forall ws, Forall (fun w => w = Finished) ws ->
      total in_call ws = 0%nat /\ total alive ws = 0%nat).
    { induction 1 as [|w ws -> _ [IH1 IH2]]; [done|]. cbn. lia. }
    destruct (H _ Hf) as [-> ->].
    pose proof (oi_first _ Hinv). destruct (workers x); [done|]. by inversion Hf; subst.
Qed.
End overlap.

Section theorems.
Context {W File : Type} {B : Backend W File} (c : cid).
Local Notation St := (St W File).

(** C6: overlapping requests are answered once each: whatever the goroutines of a connection
  do in which order, each frame that was received is answered with its tag, or dropped
  because its tag was in use, or still with one goroutine; the requests in progress have
  different tags, those in the table of the connection; one goroutine at a time receives,
  and as long as the connection is up there is one that will, however many requests are
  stuck; and when [stop] goes on every goroutine has ended and every frame was dealt with. *)
Theorem requests_overlap (s : St) cs bs r x :
conns s !! c = Some cs -> tags cs = ∅ -> rtc (wstep c) (Handle_start s bs r) x ->
received_frames x ≡ₚ (sent x).*1 ++ dropped x ++ omap open_tag (workers x) /\
NoDup (omap active_tag (workers x)) /\
(exists cs', conns (srv x) !! c = Some cs' /\
   forall t, t ∈ tags cs' <-> t ∈ omap active_tag (workers x)) /\
(sum_list_with holding (workers x) <= 1)%nat /\
(recvShutdown x = false -> exists i w, workers x !! i = Some w /\ (0 < receiver w)%nat) /\
(stop_ready x -> Forall (fun w => w = Finished) (workers x) /\
   received_frames x ≡ₚ (sent x).*1 ++ dropped x).
Proof.
intros Hc Ht Hs.
assert (Hinv : overlap_inv c x) by (eapply wsteps_overlap; [by eapply start_overlap_inv|exact Hs]).
split; [apply (oi_log _ _ Hinv)|]. split; [apply (oi_distinct _ _ Hinv)|].
split; [apply (oi_tags _ _ Hinv)|].
split; [rewrite (oi_mu _ _ Hinv); destruct (recvMu x); lia|].
split; [intros Hsd; by apply lookup_total, (oi_recv _ _ Hinv)|].
intros Hstop. pose proof (stop_ready_finished _ _ Hinv Hstop) as Hf. split; [done|].
rewrite (oi_log _ _ Hinv), (finished_open _ Hf). by rewrite app_nil_r.
Qed.

(** C7: every run of a connection ends: from any state that the goroutines of a connection
  reach, they take a bounded number of steps, whatever the order; where none of them can go
  on, the input was received to its end, and [stop] goes on, unless a handler is stuck, or a
  flush waits for a request that is. So no wakeup is lost, and requests that are stuck keep
  neither the others from being answered nor frames from being received. *)
Theorem requests_end (s : St) cs bs r x n x' :
conns s !! c = Some cs -> tags cs = ∅ -> rtc (wstep c) (Handle_start s bs r) x ->
nsteps (wstep c) n x x' ->
(n <= steps_left x)%nat /\
((forall x'', ~ wstep c x' x'') ->
   recvShutdown x' = true /\ Forall (blocked c x') (workers x') /\
   (stop_ready x' \/ exists i w, workers x' !! i = Some w /\ w <> Finished /\ blocked c x' w)).
Proof.
intros Hc Ht Hs Hn.
assert (Hinv : overlap_inv c x').
{ eapply wsteps_overlap; [by eapply start_overlap_inv|]. etransitivity; [exact Hs|].
  by eapply rtc_nsteps_2. }
split.
- clear -Hn. induction Hn as [x|n x1 x2 x3 H1 _ IH]; [lia|]. apply wstep_left in H1. lia.
- intros Hno. destruct (no_step_blocked _ _ Hinv Hno) as [Hsd Hb]. split; [done|]. split; [done|].
  destruct (decide (Forall (fun w => alive w = 0%nat) (workers x'))) as [Hf|Hf].
  + left. apply (finished_stop _ _ Hinv). eapply Forall_impl; [exact Hf|]. by intros [].
  + right. apply not_Forall_Exists in Hf; [|apply _]. apply Exists_exists in Hf as (w & Hin & Hw).
    apply list_elem_of_lookup in Hin as [i Hi]. exists i, w. split; [done|].
    rewrite Forall_lookup in Hb. split; [|by eapply Hb]. intros ->. by destruct Hw.
Qed.
End theorems.

(** ** Examples *)

(** A registry of the two messages of the example. *)
Definition demo_registry : registry :=
  mk_registry
    {[ message_typ (Mtclunk (mk_tclunk 0)) := mk_msgFactory (Mtclunk (mk_tclunk 0)) [];
       message_typ (Mtflush (mk_tflush 0)) := mk_msgFactory (Mtflush (mk_tflush 0)) [] ]} 0.

(** A request with the tag 1, and one with the tag 2 that flushes it. *)
Definition flush_input : list byte :=
  frame 1 (Mtclunk (mk_tclunk 7)) ++ frame 2 (Mtflush (mk_tflush 1)).

Definition flush_start : connection (W := nat) (File := toy_file) :=
  Handle_start start_state flush_input demo_registry.

(** The first goroutine handles its request but does not get to send, the second one flushes. *)
Definition flush_schedule : list nat :=
  [0; 0; 0; 0; 0; 0;  1; 1; 1; 1; 1;  1; 0;  1; 1; 1;  0;  2; 2; 2; 0; 0; 0; 1; 1; 1]%nat.

Definition flush_end : connection (W := nat) (File := toy_file) :=
  default flush_start (wrun 0%nat flush_schedule flush_start).

Lemma flush_run : rtc (wstep 0%nat) flush_start flush_end.
Proof. apply (wrun_steps 0%nat flush_schedule). vm_compute. reflexivity. Qed.

(** The answer to the flush overtakes the answer to the request that it flushes: the tag is
    cleared, and whoever waits for it woken, before the answer is sent. The client may use
    the tag again as soon as it has the answer to the flush, and then takes the late answer
    for that of the new request. *)
Example flush_overtakes :
  sent flush_end = [(2, Mrflush mk_rflush); (1, newErr (Errno EBADF))] /\ stop_ready flush_end.
Proof. vm_compute. split; [reflexivity|]. split; reflexivity. Qed.

Lemma start_conn : conns start_state !! 0%nat = Some new_connState.
Proof. vm_compute. reflexivity. Qed.

Lemma requests_overlap_witness :
  stop_ready flush_end /\
  Forall (fun w => w = Finished) (workers flush_end) /\
  received_frames flush_end ≡ₚ (sent flush_end).*1 ++ dropped flush_end.
Proof.
  assert (Hstop : stop_ready flush_end) by (vm_compute; split; reflexivity).
  split; [exact Hstop|].
  destruct (requests_overlap 0%nat start_state new_connState flush_input demo_registry flush_end
    start_conn eq_refl flush_run) as (_ & _ & _ & _ & _ & H).
  exact (H Hstop).
Defined.

Lemma requests_end_witness :
  steps_left flush_start = 403%nat /\
  (length flush_schedule <= steps_left flush_start)%nat /\ stop_ready flush_end.
Proof.
  assert (Hn : nsteps (wstep 0%nat) (length flush_schedule) flush_start flush_end)
    by (apply wrun_nsteps; vm_compute; reflexivity).
  destruct (requests_end 0%nat start_state new_connState flush_input demo_registry flush_start
    (length flush_schedule) flush_end start_conn eq_refl (rtc_refl _ _) Hn) as (Hle & Hend).
  split; [vm_compute; reflexivity|]. split; [exact Hle|].
  assert (Hno : forall x, ~ wstep 0%nat flush_end x).
  { intros x Hx. apply wstep_left in Hx.
    assert (H0 : steps_left flush_end = 0%nat) by (vm_compute; reflexivity). lia. }
  destruct (Hend Hno) as (_ & _ & [Hstop|(i & w & Hi & Hw & _)]); [exact Hstop|].
  exfalso. apply Hw. change (workers flush_end) with [Finished; Finished; Finished] in Hi.
  by destruct i as [|[|[|i]]]; try injection Hi as <-.
Defined.
